(** * Flat storage allocator (flat_storage.c): shallow embedding and properties

    The allocator manages one region of large chunks.  A large chunk is either
    free, the title or a body chunk of a large item, or broken into small
    chunks, which in turn are free, title or body chunks of small items.
    Items are linked on a global LRU and registered in the assoc table.

    The embedding keeps the program's shape: the global [fsi] and the other
    globals form one [state] record that is threaded through a state and
    error monad; chunk pointers are indices into the region; flags are bit
    masks; counters wrap at their C width; loops that C leaves unbounded take
    fuel. *)

From Stdlib Require Import ZArith List Lia Bool.
From stdpp Require Import base list.

Local Open Scope Z_scope.

(** ** Machine integers *)

Definition wrap64 (x : Z) : Z := x mod 2 ^ 64.
Definition wrap32 (x : Z) : Z := x mod 2 ^ 32.

(** Conversion of a [size_t] to [int] at a call (two's complement). *)
Definition to_int (x : Z) : Z :=
  let y := x mod 2 ^ 32 in if y <? 2 ^ 31 then y else y - 2 ^ 32.

(** Flag tests and updates, as the C operators [&], [|=], [&= ~]. *)
Definition has_flag (f m : Z) : bool := negb (Z.land f m =? 0).
Definition set_flag (f m : Z) : Z := Z.lor f m.
Definition clear_flag (f m : Z) : Z := Z.land f (Z.lnot m).

(** ** Compile-time constants

    flat_storage.h and memcached.h are not part of the sources; the tunable
    constants they define are the fields of this record. *)

Record constants := {
  SMALL_CHUNKS_PER_LARGE_CHUNK : nat;
  LARGE_CHUNK_SZ : Z;
  FLAT_STORAGE_INCREMENT_DELTA : Z;
  LARGE_TITLE_CHUNK_DATA_SZ : Z;
  LARGE_BODY_CHUNK_DATA_SZ : Z;
  SMALL_TITLE_CHUNK_DATA_SZ : Z;
  SMALL_BODY_CHUNK_DATA_SZ : Z;
  KEY_MAX_LENGTH : Z;
  MAX_ITEM_SIZE : Z;
  LRU_SEARCH_DEPTH : Z;
  ITEM_UPDATE_INTERVAL : Z;
  (** the modulus [2^w] of the [w]-bit [refcount] field *)
  REFCOUNT_MODULUS : Z;
  (** the inline helpers of flat_storage.h, on key length and value length *)
  is_large_chunk : Z -> Z -> bool;
  chunks_needed : Z -> Z -> Z;
  ITEM_ntotal : Z -> Z -> Z
}.

(** Modelled from the spec: the chunk flag enumerations of flat_storage.h
    (large: INITIALIZED, FREE, USED, BROKEN, TITLE; small: INITIALIZED, FREE,
    USED, TITLE, COALESCE_PENDING), each flag one bit of the mask. *)
Definition LARGE_CHUNK_INITIALIZED : Z := 1.
Definition LARGE_CHUNK_USED : Z := 2.
Definition LARGE_CHUNK_BROKEN : Z := 4.
Definition LARGE_CHUNK_TITLE : Z := 8.
Definition LARGE_CHUNK_FREE : Z := 16.

Definition SMALL_CHUNK_INITIALIZED : Z := 1.
Definition SMALL_CHUNK_USED : Z := 2.
Definition SMALL_CHUNK_TITLE : Z := 4.
Definition SMALL_CHUNK_FREE : Z := 8.
Definition SMALL_CHUNK_COALESCE_PENDING : Z := 16.

(** Modelled from the spec: the item flags of memcached.h
    (VALID, LINKED, DELETED, HAS_TIMESTAMP, HAS_IP_ADDRESS). *)
Definition ITEM_VALID : Z := 1.
Definition ITEM_LINKED : Z := 2.
Definition ITEM_DELETED : Z := 4.
Definition ITEM_HAS_TIMESTAMP : Z := 8.
Definition ITEM_HAS_IP_ADDRESS : Z := 16.

(** Modelled from the spec: the unlink flags
    (NORMAL, MAYBE_EVICT, IS_EVICT, IS_EXPIRED). *)
Definition UNLINK_NORMAL : Z := 0.
Definition UNLINK_MAYBE_EVICT : Z := 1.
Definition UNLINK_IS_EVICT : Z := 2.
Definition UNLINK_IS_EXPIRED : Z := 4.

(** ** Chunk pointers

    Modelled from the spec: a chunk pointer addresses a chunk boundary of the
    region, here the large chunk index and the small slot inside it.  The
    first small slot of a broken chunk has the address of the large chunk
    itself; which view applies is decided by the large chunk's flags. *)

Inductive chunkptr :=
| NULL_CHUNKPTR
| CP (l : nat) (i : nat).

Definition chunkptr_eqb (a b : chunkptr) : bool :=
  match a, b with
  | NULL_CHUNKPTR, NULL_CHUNKPTR => true
  | CP l i, CP l' i' => Nat.eqb l l' && Nat.eqb i i'
  | _, _ => false
  end.

Definition is_null (p : chunkptr) : bool :=
  match p with NULL_CHUNKPTR => true | _ => false end.

(** The target of a small free chunk's [prev_next]: the list head in [fsi]
    or the [next] field of another small free chunk. *)
Inductive slotptr :=
| SlotHead
| SlotNext (l : nat) (i : nat).

(** ** Chunks *)

Record item_header := {
  h_next : chunkptr;
  next : chunkptr;
  prev : chunkptr;
  next_chunk : chunkptr;
  time : Z;
  exptime : Z;
  nbytes : Z;
  nkey : Z;
  refcount : Z;
  it_flags : Z;
  flags : Z;
  data : list Z
}.

Record small_chunk := {
  sc_flags : Z;
  sc_free_next : chunkptr;
  sc_free_prev_next : slotptr;
  sc_title : item_header;
  sc_body_prev_chunk : chunkptr;
  sc_body_next_chunk : chunkptr;
  sc_body_data : list Z
}.

Record large_chunk := {
  lc_flags : Z;
  lc_free_next : chunkptr;
  lc_title : item_header;
  lc_body_next_chunk : chunkptr;
  lc_body_data : list Z;
  lbc : list small_chunk;
  small_chunks_allocated : Z
}.

Definition empty_header : item_header :=
  {| h_next := NULL_CHUNKPTR; next := NULL_CHUNKPTR; prev := NULL_CHUNKPTR;
     next_chunk := NULL_CHUNKPTR; time := 0; exptime := 0; nbytes := 0;
     nkey := 0; refcount := 0; it_flags := 0; flags := 0; data := [] |}.

Definition fresh_small_chunk : small_chunk :=
  {| sc_flags := 0; sc_free_next := NULL_CHUNKPTR; sc_free_prev_next := SlotHead;
     sc_title := empty_header; sc_body_prev_chunk := NULL_CHUNKPTR;
     sc_body_next_chunk := NULL_CHUNKPTR; sc_body_data := [] |}.

Definition fresh_large_chunk (K : constants) : large_chunk :=
  {| lc_flags := 0; lc_free_next := NULL_CHUNKPTR; lc_title := empty_header;
     lc_body_next_chunk := NULL_CHUNKPTR; lc_body_data := [];
     lbc := replicate (SMALL_CHUNKS_PER_LARGE_CHUNK K) fresh_small_chunk;
     small_chunks_allocated := 0 |}.

(** Header field updates ([it->empty_header.f = v]). *)
Definition set_h_next (v : chunkptr) (h : item_header) : item_header :=
  {| h_next := v; next := next h; prev := prev h; next_chunk := next_chunk h;
     time := time h; exptime := exptime h; nbytes := nbytes h; nkey := nkey h;
     refcount := refcount h; it_flags := it_flags h; flags := flags h; data := data h |}.
Definition set_next (v : chunkptr) (h : item_header) : item_header :=
  {| h_next := h_next h; next := v; prev := prev h; next_chunk := next_chunk h;
     time := time h; exptime := exptime h; nbytes := nbytes h; nkey := nkey h;
     refcount := refcount h; it_flags := it_flags h; flags := flags h; data := data h |}.
Definition set_prev (v : chunkptr) (h : item_header) : item_header :=
  {| h_next := h_next h; next := next h; prev := v; next_chunk := next_chunk h;
     time := time h; exptime := exptime h; nbytes := nbytes h; nkey := nkey h;
     refcount := refcount h; it_flags := it_flags h; flags := flags h; data := data h |}.
Definition set_next_chunk (v : chunkptr) (h : item_header) : item_header :=
  {| h_next := h_next h; next := next h; prev := prev h; next_chunk := v;
     time := time h; exptime := exptime h; nbytes := nbytes h; nkey := nkey h;
     refcount := refcount h; it_flags := it_flags h; flags := flags h; data := data h |}.
Definition set_time (v : Z) (h : item_header) : item_header :=
  {| h_next := h_next h; next := next h; prev := prev h; next_chunk := next_chunk h;
     time := v; exptime := exptime h; nbytes := nbytes h; nkey := nkey h;
     refcount := refcount h; it_flags := it_flags h; flags := flags h; data := data h |}.
Definition set_refcount (v : Z) (h : item_header) : item_header :=
  {| h_next := h_next h; next := next h; prev := prev h; next_chunk := next_chunk h;
     time := time h; exptime := exptime h; nbytes := nbytes h; nkey := nkey h;
     refcount := v; it_flags := it_flags h; flags := flags h; data := data h |}.
Definition set_it_flags (v : Z) (h : item_header) : item_header :=
  {| h_next := h_next h; next := next h; prev := prev h; next_chunk := next_chunk h;
     time := time h; exptime := exptime h; nbytes := nbytes h; nkey := nkey h;
     refcount := refcount h; it_flags := v; flags := flags h; data := data h |}.
Definition set_data (v : list Z) (h : item_header) : item_header :=
  {| h_next := h_next h; next := next h; prev := prev h; next_chunk := next_chunk h;
     time := time h; exptime := exptime h; nbytes := nbytes h; nkey := nkey h;
     refcount := refcount h; it_flags := it_flags h; flags := flags h; data := v |}.

(** Small chunk field updates. *)
Definition set_sc_flags (v : Z) (c : small_chunk) : small_chunk :=
  {| sc_flags := v; sc_free_next := sc_free_next c;
     sc_free_prev_next := sc_free_prev_next c; sc_title := sc_title c;
     sc_body_prev_chunk := sc_body_prev_chunk c;
     sc_body_next_chunk := sc_body_next_chunk c; sc_body_data := sc_body_data c |}.
Definition set_sc_free_next (v : chunkptr) (c : small_chunk) : small_chunk :=
  {| sc_flags := sc_flags c; sc_free_next := v;
     sc_free_prev_next := sc_free_prev_next c; sc_title := sc_title c;
     sc_body_prev_chunk := sc_body_prev_chunk c;
     sc_body_next_chunk := sc_body_next_chunk c; sc_body_data := sc_body_data c |}.
Definition set_sc_free_prev_next (v : slotptr) (c : small_chunk) : small_chunk :=
  {| sc_flags := sc_flags c; sc_free_next := sc_free_next c;
     sc_free_prev_next := v; sc_title := sc_title c;
     sc_body_prev_chunk := sc_body_prev_chunk c;
     sc_body_next_chunk := sc_body_next_chunk c; sc_body_data := sc_body_data c |}.
Definition set_sc_title (v : item_header) (c : small_chunk) : small_chunk :=
  {| sc_flags := sc_flags c; sc_free_next := sc_free_next c;
     sc_free_prev_next := sc_free_prev_next c; sc_title := v;
     sc_body_prev_chunk := sc_body_prev_chunk c;
     sc_body_next_chunk := sc_body_next_chunk c; sc_body_data := sc_body_data c |}.
Definition set_sc_body_prev_chunk (v : chunkptr) (c : small_chunk) : small_chunk :=
  {| sc_flags := sc_flags c; sc_free_next := sc_free_next c;
     sc_free_prev_next := sc_free_prev_next c; sc_title := sc_title c;
     sc_body_prev_chunk := v;
     sc_body_next_chunk := sc_body_next_chunk c; sc_body_data := sc_body_data c |}.
Definition set_sc_body_next_chunk (v : chunkptr) (c : small_chunk) : small_chunk :=
  {| sc_flags := sc_flags c; sc_free_next := sc_free_next c;
     sc_free_prev_next := sc_free_prev_next c; sc_title := sc_title c;
     sc_body_prev_chunk := sc_body_prev_chunk c;
     sc_body_next_chunk := v; sc_body_data := sc_body_data c |}.
Definition set_sc_body_data (v : list Z) (c : small_chunk) : small_chunk :=
  {| sc_flags := sc_flags c; sc_free_next := sc_free_next c;
     sc_free_prev_next := sc_free_prev_next c; sc_title := sc_title c;
     sc_body_prev_chunk := sc_body_prev_chunk c;
     sc_body_next_chunk := sc_body_next_chunk c; sc_body_data := v |}.

(** Large chunk field updates. *)
Definition set_lc_flags (v : Z) (c : large_chunk) : large_chunk :=
  {| lc_flags := v; lc_free_next := lc_free_next c; lc_title := lc_title c;
     lc_body_next_chunk := lc_body_next_chunk c; lc_body_data := lc_body_data c;
     lbc := lbc c; small_chunks_allocated := small_chunks_allocated c |}.
Definition set_lc_free_next (v : chunkptr) (c : large_chunk) : large_chunk :=
  {| lc_flags := lc_flags c; lc_free_next := v; lc_title := lc_title c;
     lc_body_next_chunk := lc_body_next_chunk c; lc_body_data := lc_body_data c;
     lbc := lbc c; small_chunks_allocated := small_chunks_allocated c |}.
Definition set_lc_title (v : item_header) (c : large_chunk) : large_chunk :=
  {| lc_flags := lc_flags c; lc_free_next := lc_free_next c; lc_title := v;
     lc_body_next_chunk := lc_body_next_chunk c; lc_body_data := lc_body_data c;
     lbc := lbc c; small_chunks_allocated := small_chunks_allocated c |}.
Definition set_lc_body_next_chunk (v : chunkptr) (c : large_chunk) : large_chunk :=
  {| lc_flags := lc_flags c; lc_free_next := lc_free_next c; lc_title := lc_title c;
     lc_body_next_chunk := v; lc_body_data := lc_body_data c;
     lbc := lbc c; small_chunks_allocated := small_chunks_allocated c |}.
Definition set_lc_body_data (v : list Z) (c : large_chunk) : large_chunk :=
  {| lc_flags := lc_flags c; lc_free_next := lc_free_next c; lc_title := lc_title c;
     lc_body_next_chunk := lc_body_next_chunk c; lc_body_data := v;
     lbc := lbc c; small_chunks_allocated := small_chunks_allocated c |}.
Definition set_lbc (v : list small_chunk) (c : large_chunk) : large_chunk :=
  {| lc_flags := lc_flags c; lc_free_next := lc_free_next c; lc_title := lc_title c;
     lc_body_next_chunk := lc_body_next_chunk c; lc_body_data := lc_body_data c;
     lbc := v; small_chunks_allocated := small_chunks_allocated c |}.
Definition set_small_chunks_allocated (v : Z) (c : large_chunk) : large_chunk :=
  {| lc_flags := lc_flags c; lc_free_next := lc_free_next c; lc_title := lc_title c;
     lc_body_next_chunk := lc_body_next_chunk c; lc_body_data := lc_body_data c;
     lbc := lbc c; small_chunks_allocated := v |}.

(** ** Global state *)

(** The allocator's own counters ([fsi.stats]), unsigned 64-bit. *)
Record fsi_stats := {
  large_title_chunks : Z;
  large_body_chunks : Z;
  large_broken_chunks : Z;
  small_title_chunks : Z;
  small_body_chunks : Z;
  broken_chunk_histogram : list Z;
  break_events : Z;
  unbreak_events : Z;
  migrates : Z
}.

(** The per-thread counters reached through [STATS_GET_TLS]. *)
Record tls_stats := {
  item_storage_allocated : Z;
  item_total_size : Z;
  curr_items : Z;
  total_items : Z;
  evictions : Z
}.

(** Calls into the stats module (stats.h), recorded in call order. *)
Inductive stats_event :=
| Ev_evict (sz : Z)
| Ev_expire (sz : Z)
| Ev_prefix_removal (key : list Z) (nkey sz tm fl : Z).

(** Modelled from the spec: the assoc table, a keyed map from keys to items
    supporting insert, find, delete and update; kept as an association list,
    the newest entry first. *)
Definition assoc_table := list (list Z * chunkptr).

Record state := {
  heap : list large_chunk;
  unused_memory : Z;
  large_free_list : chunkptr;
  large_free_list_sz : Z;
  small_free_list : chunkptr;
  small_free_list_sz : Z;
  lru_head : chunkptr;
  lru_tail : chunkptr;
  stats : fsi_stats;
  initialized : bool;
  tls : tls_stats;
  assoc : assoc_table;
  oldest_live : Z;
  detail_enabled : bool;
  current_time : Z;
  events : list stats_event
}.

Definition set_heap (v : list large_chunk) (s : state) : state :=
  {| heap := v; unused_memory := unused_memory s; large_free_list := large_free_list s;
     large_free_list_sz := large_free_list_sz s; small_free_list := small_free_list s;
     small_free_list_sz := small_free_list_sz s; lru_head := lru_head s;
     lru_tail := lru_tail s; stats := stats s; initialized := initialized s;
     tls := tls s; assoc := assoc s; oldest_live := oldest_live s;
     detail_enabled := detail_enabled s; current_time := current_time s;
     events := events s |}.
Definition set_unused_memory (v : Z) (s : state) : state :=
  {| heap := heap s; unused_memory := v; large_free_list := large_free_list s;
     large_free_list_sz := large_free_list_sz s; small_free_list := small_free_list s;
     small_free_list_sz := small_free_list_sz s; lru_head := lru_head s;
     lru_tail := lru_tail s; stats := stats s; initialized := initialized s;
     tls := tls s; assoc := assoc s; oldest_live := oldest_live s;
     detail_enabled := detail_enabled s; current_time := current_time s;
     events := events s |}.
Definition set_large_free_list (v : chunkptr) (s : state) : state :=
  {| heap := heap s; unused_memory := unused_memory s; large_free_list := v;
     large_free_list_sz := large_free_list_sz s; small_free_list := small_free_list s;
     small_free_list_sz := small_free_list_sz s; lru_head := lru_head s;
     lru_tail := lru_tail s; stats := stats s; initialized := initialized s;
     tls := tls s; assoc := assoc s; oldest_live := oldest_live s;
     detail_enabled := detail_enabled s; current_time := current_time s;
     events := events s |}.
Definition set_large_free_list_sz (v : Z) (s : state) : state :=
  {| heap := heap s; unused_memory := unused_memory s; large_free_list := large_free_list s;
     large_free_list_sz := v; small_free_list := small_free_list s;
     small_free_list_sz := small_free_list_sz s; lru_head := lru_head s;
     lru_tail := lru_tail s; stats := stats s; initialized := initialized s;
     tls := tls s; assoc := assoc s; oldest_live := oldest_live s;
     detail_enabled := detail_enabled s; current_time := current_time s;
     events := events s |}.
Definition set_small_free_list (v : chunkptr) (s : state) : state :=
  {| heap := heap s; unused_memory := unused_memory s; large_free_list := large_free_list s;
     large_free_list_sz := large_free_list_sz s; small_free_list := v;
     small_free_list_sz := small_free_list_sz s; lru_head := lru_head s;
     lru_tail := lru_tail s; stats := stats s; initialized := initialized s;
     tls := tls s; assoc := assoc s; oldest_live := oldest_live s;
     detail_enabled := detail_enabled s; current_time := current_time s;
     events := events s |}.
Definition set_small_free_list_sz (v : Z) (s : state) : state :=
  {| heap := heap s; unused_memory := unused_memory s; large_free_list := large_free_list s;
     large_free_list_sz := large_free_list_sz s; small_free_list := small_free_list s;
     small_free_list_sz := v; lru_head := lru_head s;
     lru_tail := lru_tail s; stats := stats s; initialized := initialized s;
     tls := tls s; assoc := assoc s; oldest_live := oldest_live s;
     detail_enabled := detail_enabled s; current_time := current_time s;
     events := events s |}.
Definition set_lru_head (v : chunkptr) (s : state) : state :=
  {| heap := heap s; unused_memory := unused_memory s; large_free_list := large_free_list s;
     large_free_list_sz := large_free_list_sz s; small_free_list := small_free_list s;
     small_free_list_sz := small_free_list_sz s; lru_head := v;
     lru_tail := lru_tail s; stats := stats s; initialized := initialized s;
     tls := tls s; assoc := assoc s; oldest_live := oldest_live s;
     detail_enabled := detail_enabled s; current_time := current_time s;
     events := events s |}.
Definition set_lru_tail (v : chunkptr) (s : state) : state :=
  {| heap := heap s; unused_memory := unused_memory s; large_free_list := large_free_list s;
     large_free_list_sz := large_free_list_sz s; small_free_list := small_free_list s;
     small_free_list_sz := small_free_list_sz s; lru_head := lru_head s;
     lru_tail := v; stats := stats s; initialized := initialized s;
     tls := tls s; assoc := assoc s; oldest_live := oldest_live s;
     detail_enabled := detail_enabled s; current_time := current_time s;
     events := events s |}.
Definition set_stats (v : fsi_stats) (s : state) : state :=
  {| heap := heap s; unused_memory := unused_memory s; large_free_list := large_free_list s;
     large_free_list_sz := large_free_list_sz s; small_free_list := small_free_list s;
     small_free_list_sz := small_free_list_sz s; lru_head := lru_head s;
     lru_tail := lru_tail s; stats := v; initialized := initialized s;
     tls := tls s; assoc := assoc s; oldest_live := oldest_live s;
     detail_enabled := detail_enabled s; current_time := current_time s;
     events := events s |}.
Definition set_initialized (v : bool) (s : state) : state :=
  {| heap := heap s; unused_memory := unused_memory s; large_free_list := large_free_list s;
     large_free_list_sz := large_free_list_sz s; small_free_list := small_free_list s;
     small_free_list_sz := small_free_list_sz s; lru_head := lru_head s;
     lru_tail := lru_tail s; stats := stats s; initialized := v;
     tls := tls s; assoc := assoc s; oldest_live := oldest_live s;
     detail_enabled := detail_enabled s; current_time := current_time s;
     events := events s |}.
Definition set_tls (v : tls_stats) (s : state) : state :=
  {| heap := heap s; unused_memory := unused_memory s; large_free_list := large_free_list s;
     large_free_list_sz := large_free_list_sz s; small_free_list := small_free_list s;
     small_free_list_sz := small_free_list_sz s; lru_head := lru_head s;
     lru_tail := lru_tail s; stats := stats s; initialized := initialized s;
     tls := v; assoc := assoc s; oldest_live := oldest_live s;
     detail_enabled := detail_enabled s; current_time := current_time s;
     events := events s |}.
Definition set_assoc (v : assoc_table) (s : state) : state :=
  {| heap := heap s; unused_memory := unused_memory s; large_free_list := large_free_list s;
     large_free_list_sz := large_free_list_sz s; small_free_list := small_free_list s;
     small_free_list_sz := small_free_list_sz s; lru_head := lru_head s;
     lru_tail := lru_tail s; stats := stats s; initialized := initialized s;
     tls := tls s; assoc := v; oldest_live := oldest_live s;
     detail_enabled := detail_enabled s; current_time := current_time s;
     events := events s |}.
Definition set_events (v : list stats_event) (s : state) : state :=
  {| heap := heap s; unused_memory := unused_memory s; large_free_list := large_free_list s;
     large_free_list_sz := large_free_list_sz s; small_free_list := small_free_list s;
     small_free_list_sz := small_free_list_sz s; lru_head := lru_head s;
     lru_tail := lru_tail s; stats := stats s; initialized := initialized s;
     tls := tls s; assoc := assoc s; oldest_live := oldest_live s;
     detail_enabled := detail_enabled s; current_time := current_time s;
     events := v |}.

(** The clock and the settings are written by the rest of the server. *)
Definition set_current_time (v : Z) (s : state) : state :=
  {| heap := heap s; unused_memory := unused_memory s; large_free_list := large_free_list s;
     large_free_list_sz := large_free_list_sz s; small_free_list := small_free_list s;
     small_free_list_sz := small_free_list_sz s; lru_head := lru_head s;
     lru_tail := lru_tail s; stats := stats s; initialized := initialized s;
     tls := tls s; assoc := assoc s; oldest_live := oldest_live s;
     detail_enabled := detail_enabled s; current_time := v;
     events := events s |}.
Definition set_oldest_live (v : Z) (s : state) : state :=
  {| heap := heap s; unused_memory := unused_memory s; large_free_list := large_free_list s;
     large_free_list_sz := large_free_list_sz s; small_free_list := small_free_list s;
     small_free_list_sz := small_free_list_sz s; lru_head := lru_head s;
     lru_tail := lru_tail s; stats := stats s; initialized := initialized s;
     tls := tls s; assoc := assoc s; oldest_live := v;
     detail_enabled := detail_enabled s; current_time := current_time s;
     events := events s |}.
Definition set_detail_enabled (v : bool) (s : state) : state :=
  {| heap := heap s; unused_memory := unused_memory s; large_free_list := large_free_list s;
     large_free_list_sz := large_free_list_sz s; small_free_list := small_free_list s;
     small_free_list_sz := small_free_list_sz s; lru_head := lru_head s;
     lru_tail := lru_tail s; stats := stats s; initialized := initialized s;
     tls := tls s; assoc := assoc s; oldest_live := oldest_live s;
     detail_enabled := v; current_time := current_time s;
     events := events s |}.

(** Counter updates of [fsi.stats]. *)
Definition set_large_title_chunks (v : Z) (t : fsi_stats) : fsi_stats :=
  {| large_title_chunks := v; large_body_chunks := large_body_chunks t;
     large_broken_chunks := large_broken_chunks t;
     small_title_chunks := small_title_chunks t;
     small_body_chunks := small_body_chunks t;
     broken_chunk_histogram := broken_chunk_histogram t;
     break_events := break_events t; unbreak_events := unbreak_events t;
     migrates := migrates t |}.
Definition set_large_body_chunks (v : Z) (t : fsi_stats) : fsi_stats :=
  {| large_title_chunks := large_title_chunks t; large_body_chunks := v;
     large_broken_chunks := large_broken_chunks t;
     small_title_chunks := small_title_chunks t;
     small_body_chunks := small_body_chunks t;
     broken_chunk_histogram := broken_chunk_histogram t;
     break_events := break_events t; unbreak_events := unbreak_events t;
     migrates := migrates t |}.
Definition set_large_broken_chunks (v : Z) (t : fsi_stats) : fsi_stats :=
  {| large_title_chunks := large_title_chunks t;
     large_body_chunks := large_body_chunks t; large_broken_chunks := v;
     small_title_chunks := small_title_chunks t;
     small_body_chunks := small_body_chunks t;
     broken_chunk_histogram := broken_chunk_histogram t;
     break_events := break_events t; unbreak_events := unbreak_events t;
     migrates := migrates t |}.
Definition set_small_title_chunks (v : Z) (t : fsi_stats) : fsi_stats :=
  {| large_title_chunks := large_title_chunks t;
     large_body_chunks := large_body_chunks t;
     large_broken_chunks := large_broken_chunks t; small_title_chunks := v;
     small_body_chunks := small_body_chunks t;
     broken_chunk_histogram := broken_chunk_histogram t;
     break_events := break_events t; unbreak_events := unbreak_events t;
     migrates := migrates t |}.
Definition set_small_body_chunks (v : Z) (t : fsi_stats) : fsi_stats :=
  {| large_title_chunks := large_title_chunks t;
     large_body_chunks := large_body_chunks t;
     large_broken_chunks := large_broken_chunks t;
     small_title_chunks := small_title_chunks t; small_body_chunks := v;
     broken_chunk_histogram := broken_chunk_histogram t;
     break_events := break_events t; unbreak_events := unbreak_events t;
     migrates := migrates t |}.
Definition set_broken_chunk_histogram (v : list Z) (t : fsi_stats) : fsi_stats :=
  {| large_title_chunks := large_title_chunks t;
     large_body_chunks := large_body_chunks t;
     large_broken_chunks := large_broken_chunks t;
     small_title_chunks := small_title_chunks t;
     small_body_chunks := small_body_chunks t; broken_chunk_histogram := v;
     break_events := break_events t; unbreak_events := unbreak_events t;
     migrates := migrates t |}.
Definition set_break_events (v : Z) (t : fsi_stats) : fsi_stats :=
  {| large_title_chunks := large_title_chunks t;
     large_body_chunks := large_body_chunks t;
     large_broken_chunks := large_broken_chunks t;
     small_title_chunks := small_title_chunks t;
     small_body_chunks := small_body_chunks t;
     broken_chunk_histogram := broken_chunk_histogram t;
     break_events := v; unbreak_events := unbreak_events t;
     migrates := migrates t |}.
Definition set_unbreak_events (v : Z) (t : fsi_stats) : fsi_stats :=
  {| large_title_chunks := large_title_chunks t;
     large_body_chunks := large_body_chunks t;
     large_broken_chunks := large_broken_chunks t;
     small_title_chunks := small_title_chunks t;
     small_body_chunks := small_body_chunks t;
     broken_chunk_histogram := broken_chunk_histogram t;
     break_events := break_events t; unbreak_events := v;
     migrates := migrates t |}.
Definition set_migrates (v : Z) (t : fsi_stats) : fsi_stats :=
  {| large_title_chunks := large_title_chunks t;
     large_body_chunks := large_body_chunks t;
     large_broken_chunks := large_broken_chunks t;
     small_title_chunks := small_title_chunks t;
     small_body_chunks := small_body_chunks t;
     broken_chunk_histogram := broken_chunk_histogram t;
     break_events := break_events t; unbreak_events := unbreak_events t;
     migrates := v |}.

(** ** State and error monad

    [Fault] is a failed [assert] or an access through an invalid pointer;
    [OutOfFuel] marks a loop cut off by its fuel. *)

Inductive result (A : Type) :=
| Ok (a : A)
| Fault
| OutOfFuel.
Arguments Ok {A} a.
Arguments Fault {A}.
Arguments OutOfFuel {A}.

Definition M (A : Type) : Type := state -> result (A * state).

Definition ret {A} (a : A) : M A := fun s => Ok (a, s).
Definition bind {A B} (m : M A) (k : A -> M B) : M B :=
  fun s => match m s with
           | Ok (a, s') => k a s'
           | Fault => Fault
           | OutOfFuel => OutOfFuel
           end.
Definition fault {A} : M A := fun _ => Fault.
Definition out_of_fuel {A} : M A := fun _ => OutOfFuel.
Definition gets {A} (f : state -> A) : M A := fun s => Ok (f s, s).
Definition modify (f : state -> state) : M unit := fun s => Ok (tt, f s).
Definition assert (b : bool) : M unit := if b then ret tt else fault.
Definition when (b : bool) (m : M unit) : M unit := if b then m else ret tt.

Notation "'let!' x ':=' m 'in' k" := (bind m (fun x => k))
  (at level 10, x pattern, m at level 100, k at level 200).
Notation "m ';;;' k" := (bind m (fun _ => k))
  (at level 100, k at level 200, right associativity).

(** [for (i = 0; i < n; i++) body(i)] *)
Fixpoint for_up_from (start n : nat) (body : nat -> M unit) : M unit :=
  match n with
  | O => ret tt
  | S n' => body start ;;; for_up_from (S start) n' body
  end.
Definition for_up (n : nat) (body : nat -> M unit) : M unit := for_up_from 0 n body.

(** [for (i = n - 1; i >= 0; i--) body(i)] *)
Fixpoint for_down (n : nat) (body : nat -> M unit) : M unit :=
  match n with
  | O => ret tt
  | S n' => body n' ;;; for_down n' body
  end.

(** ** Memory access *)

Definition read_lc (l : nat) : M large_chunk :=
  fun s => match heap s !! l with
           | Some c => Ok (c, s)
           | None => Fault
           end.

Definition write_lc (l : nat) (c : large_chunk) : M unit :=
  fun s => match heap s !! l with
           | Some _ => Ok (tt, set_heap (<[l := c]> (heap s)) s)
           | None => Fault
           end.

Definition modify_lc (l : nat) (f : large_chunk -> large_chunk) : M unit :=
  let! c := read_lc l in write_lc l (f c).

Definition read_sc (l i : nat) : M small_chunk :=
  let! c := read_lc l in
  match lbc c !! i with
  | Some sc => ret sc
  | None => fault
  end.

Definition write_sc (l i : nat) (sc : small_chunk) : M unit :=
  let! c := read_lc l in
  match lbc c !! i with
  | Some _ => write_lc l (set_lbc (<[i := sc]> (lbc c)) c)
  | None => fault
  end.

Definition modify_sc (l i : nat) (f : small_chunk -> small_chunk) : M unit :=
  let! sc := read_sc l i in write_sc l i (f sc).

(** A large chunk through a chunk pointer: the pointer must be the address
    of the large chunk itself. *)
Definition read_lcp (p : chunkptr) : M large_chunk :=
  match p with
  | CP l O => read_lc l
  | _ => fault
  end.

Definition modify_lcp (p : chunkptr) (f : large_chunk -> large_chunk) : M unit :=
  match p with
  | CP l O => modify_lc l f
  | _ => fault
  end.

Definition read_scp (p : chunkptr) : M small_chunk :=
  match p with
  | CP l i => read_sc l i
  | NULL_CHUNKPTR => fault
  end.

Definition modify_scp (p : chunkptr) (f : small_chunk -> small_chunk) : M unit :=
  match p with
  | CP l i => modify_sc l i f
  | NULL_CHUNKPTR => fault
  end.

(** The item header at an address ([it->empty_header]): the header of the
    small title when the large chunk is broken, of the large title otherwise. *)
Definition read_hdr (p : chunkptr) : M item_header :=
  match p with
  | NULL_CHUNKPTR => fault
  | CP l i =>
      let! c := read_lc l in
      if has_flag (lc_flags c) LARGE_CHUNK_BROKEN then
        let! sc := read_sc l i in ret (sc_title sc)
      else match i with
           | O => ret (lc_title c)
           | S _ => fault
           end
  end.

Definition modify_hdr (p : chunkptr) (f : item_header -> item_header) : M unit :=
  match p with
  | NULL_CHUNKPTR => fault
  | CP l i =>
      let! c := read_lc l in
      if has_flag (lc_flags c) LARGE_CHUNK_BROKEN then
        modify_sc l i (fun sc => set_sc_title (f (sc_title sc)) sc)
      else match i with
           | O => write_lc l (set_lc_title (f (lc_title c)) c)
           | S _ => fault
           end
  end.

(** [*prev_next] and [*prev_next = v] *)
Definition read_slot (sl : slotptr) : M chunkptr :=
  match sl with
  | SlotHead => gets small_free_list
  | SlotNext l i => let! sc := read_sc l i in ret (sc_free_next sc)
  end.

Definition write_slot (sl : slotptr) (v : chunkptr) : M unit :=
  match sl with
  | SlotHead => modify (set_small_free_list v)
  | SlotNext l i => modify_sc l i (set_sc_free_next v)
  end.

(** [fsi.stats.broken_chunk_histogram[k] += d] *)
Definition hist_add (k d : Z) : M unit :=
  fun s =>
    let h := broken_chunk_histogram (stats s) in
    if k <? 0 then Fault
    else match h !! Z.to_nat k with
         | Some v =>
             Ok (tt, set_stats (set_broken_chunk_histogram
                                  (<[Z.to_nat k := wrap64 (v + d)]> h) (stats s)) s)
         | None => Fault
         end.

Definition modify_stats (f : fsi_stats -> fsi_stats) : M unit :=
  modify (fun s => set_stats (f (stats s)) s).

Inductive chunk_type_t := SMALL_CHUNK | LARGE_CHUNK.

(** ** Free lists *)

Section Allocator.
Context (K : constants).

Local Abbreviation SPL := (SMALL_CHUNKS_PER_LARGE_CHUNK K).

(** The [LARGE_CHUNK] case of [free_list_push]. *)
Definition free_list_push_large (p : chunkptr) : M unit :=
  let! c := read_lcp p in
  assert (lc_flags c =? LARGE_CHUNK_INITIALIZED) ;;;
  let! head := gets large_free_list in
  modify_lcp p (set_lc_free_next head) ;;;
  modify (set_large_free_list p) ;;;
  modify (fun s => set_large_free_list_sz (wrap64 (large_free_list_sz s + 1)) s) ;;;
  modify_lcp p (set_lc_flags (Z.lor LARGE_CHUNK_INITIALIZED LARGE_CHUNK_FREE)).

(** Removal of a small free chunk from the middle of the small free list
    through its [prev_next] slot (shared by unbreak and coalesce). *)
Definition small_free_list_splice (l i : nat) (sc : small_chunk) : M unit :=
  let prev_next := sc_free_prev_next sc in
  let! tgt := read_slot prev_next in
  assert (chunkptr_eqb tgt (CP l i)) ;;;
  write_slot prev_next (sc_free_next sc) ;;;
  when (negb (is_null (sc_free_next sc)))
       (modify_scp (sc_free_next sc) (set_sc_free_prev_next prev_next)).

Definition unbreak_large_chunk (l : nat) (mandatory : bool) : M unit :=
  let! lc := read_lc l in
  assert (lc_flags lc =? Z.lor (Z.lor LARGE_CHUNK_INITIALIZED LARGE_CHUNK_USED)
                               LARGE_CHUNK_BROKEN) ;;;
  if negb mandatory && negb (small_chunks_allocated lc =? 0) then ret tt
  else
    (if negb mandatory then
       for_up SPL (fun i =>
         let! sc := read_sc l i in
         assert (has_flag (sc_flags sc) SMALL_CHUNK_INITIALIZED) ;;;
         assert (negb (has_flag (sc_flags sc) SMALL_CHUNK_USED)))
     else assert (small_chunks_allocated lc =? 0)) ;;;
    for_up SPL (fun i =>
      let! sc := read_sc l i in
      assert ((sc_flags sc =? Z.lor SMALL_CHUNK_INITIALIZED SMALL_CHUNK_FREE)
              || (sc_flags sc =? Z.lor SMALL_CHUNK_INITIALIZED
                                       SMALL_CHUNK_COALESCE_PENDING)) ;;;
      when (has_flag (sc_flags sc) SMALL_CHUNK_FREE)
           (small_free_list_splice l i sc ;;;
            modify_sc l i (set_sc_flags 0) ;;;
            modify (fun s => set_small_free_list_sz
                               (wrap64 (small_free_list_sz s - 1)) s))) ;;;
    modify_lc l (set_lc_flags LARGE_CHUNK_INITIALIZED) ;;;
    free_list_push_large (CP l 0) ;;;
    modify_stats (fun t => set_large_broken_chunks
                             (wrap64 (large_broken_chunks t - 1)) t) ;;;
    hist_add 0 (-1) ;;;
    modify_stats (fun t => set_unbreak_events (wrap64 (unbreak_events t + 1)) t).

Definition free_list_push (p : chunkptr) (chunk_type : chunk_type_t)
    (try_merge : bool) : M unit :=
  assert (negb (try_merge && match chunk_type with LARGE_CHUNK => true | _ => false end)) ;;;
  match chunk_type with
  | SMALL_CHUNK =>
      match p with
      | NULL_CHUNKPTR => fault
      | CP l i =>
          let! sc := read_sc l i in
          assert (sc_flags sc =? SMALL_CHUNK_INITIALIZED) ;;;
          let! pc := read_lc l in
          assert (0 <? small_chunks_allocated pc) ;;;
          hist_add (small_chunks_allocated pc) (-1) ;;;
          modify_lc l (set_small_chunks_allocated (small_chunks_allocated pc - 1)) ;;;
          hist_add (small_chunks_allocated pc - 1) 1 ;;;
          let! head := gets small_free_list in
          (if negb (is_null head) then
             modify_scp head (set_sc_free_prev_next (SlotNext l i)) ;;;
             modify_sc l i (set_sc_free_next head)
           else modify_sc l i (set_sc_free_next NULL_CHUNKPTR)) ;;;
          modify_sc l i (set_sc_free_prev_next SlotHead) ;;;
          modify (set_small_free_list (CP l i)) ;;;
          modify (fun s => set_small_free_list_sz (wrap64 (small_free_list_sz s + 1)) s) ;;;
          modify_sc l i (set_sc_flags (Z.lor SMALL_CHUNK_INITIALIZED SMALL_CHUNK_FREE)) ;;;
          when try_merge (unbreak_large_chunk l false)
      end
  | LARGE_CHUNK => free_list_push_large p
  end.

(** Returns [NULL_CHUNKPTR] when the list is empty. *)
Definition free_list_pop (chunk_type : chunk_type_t) : M chunkptr :=
  match chunk_type with
  | SMALL_CHUNK =>
      let! sz := gets small_free_list_sz in
      if sz =? 0 then ret NULL_CHUNKPTR
      else
        let! retval := gets small_free_list in
        match retval with
        | NULL_CHUNKPTR => fault
        | CP l i =>
            let! sc := read_sc l i in
            let! pc := read_lc l in
            hist_add (small_chunks_allocated pc) (-1) ;;;
            modify_lc l (set_small_chunks_allocated (small_chunks_allocated pc + 1)) ;;;
            hist_add (small_chunks_allocated pc + 1) 1 ;;;
            assert (small_chunks_allocated pc + 1 <=? Z.of_nat SPL) ;;;
            modify (set_small_free_list (sc_free_next sc)) ;;;
            when (negb (is_null (sc_free_next sc)))
                 (modify_scp (sc_free_next sc) (set_sc_free_prev_next SlotHead)) ;;;
            modify (fun s => set_small_free_list_sz (wrap64 (small_free_list_sz s - 1)) s) ;;;
            let! sc' := read_sc l i in
            assert (sc_flags sc' =? Z.lor SMALL_CHUNK_INITIALIZED SMALL_CHUNK_FREE) ;;;
            modify_sc l i (set_sc_flags (clear_flag (sc_flags sc') SMALL_CHUNK_FREE)) ;;;
            ret retval
        end
  | LARGE_CHUNK =>
      let! sz := gets large_free_list_sz in
      if sz =? 0 then ret NULL_CHUNKPTR
      else
        let! retval := gets large_free_list in
        let! c := read_lcp retval in
        modify (set_large_free_list (lc_free_next c)) ;;;
        modify (fun s => set_large_free_list_sz (wrap64 (large_free_list_sz s - 1)) s) ;;;
        assert (lc_flags c =? Z.lor LARGE_CHUNK_INITIALIZED LARGE_CHUNK_FREE) ;;;
        modify_lcp retval (set_lc_flags (clear_flag (lc_flags c) LARGE_CHUNK_FREE)) ;;;
        ret retval
  end.

Definition break_large_chunk (p : chunkptr) : M unit :=
  match p with
  | CP l O =>
      let! c := read_lc l in
      assert (lc_flags c =? LARGE_CHUNK_INITIALIZED) ;;;
      modify_lc l (set_lc_flags (Z.lor (lc_flags c)
                                  (Z.lor LARGE_CHUNK_USED LARGE_CHUNK_BROKEN))) ;;;
      modify_lc l (set_small_chunks_allocated (Z.of_nat SPL)) ;;;
      hist_add (Z.of_nat SPL) 1 ;;;
      for_down SPL (fun i =>
        modify_sc l i (set_sc_flags SMALL_CHUNK_INITIALIZED) ;;;
        free_list_push (CP l i) SMALL_CHUNK false) ;;;
      modify_lc l (set_small_chunks_allocated 0) ;;;
      modify_stats (fun t => set_large_broken_chunks
                               (wrap64 (large_broken_chunks t + 1)) t) ;;;
      modify_stats (fun t => set_break_events (wrap64 (break_events t + 1)) t)
  | _ => fault
  end.

(** [fsi.uninitialized_start] is the end of [heap]: committing a chunk
    appends it.  Fresh anonymous memory reads as zero. *)
Definition flat_storage_alloc : M bool :=
  let! unused := gets unused_memory in
  if unused <? FLAT_STORAGE_INCREMENT_DELTA K then ret false
  else
    modify (fun s => set_tls
      {| item_storage_allocated :=
           wrap64 (item_storage_allocated (tls s) + FLAT_STORAGE_INCREMENT_DELTA K);
         item_total_size := item_total_size (tls s);
         curr_items := curr_items (tls s);
         total_items := total_items (tls s);
         evictions := evictions (tls s) |} s) ;;;
    for_up (Z.to_nat (FLAT_STORAGE_INCREMENT_DELTA K ÷ LARGE_CHUNK_SZ K)) (fun _ =>
      let! l := gets (fun s => length (heap s)) in
      modify (fun s => set_heap
        (heap s ++ [set_lc_flags LARGE_CHUNK_INITIALIZED (fresh_large_chunk K)]) s) ;;;
      free_list_push (CP l 0) LARGE_CHUNK false ;;;
      modify (fun s => set_unused_memory (wrap64 (unused_memory s - LARGE_CHUNK_SZ K)) s)) ;;;
    ret true.

End Allocator.

(** ** LRU scan and coalescing *)

Inductive coalesce_progress_t :=
| COALESCE_NO_PROGRESS
| COALESCE_LARGE_CHUNK_FORMED
| COALESCE_FORWARD_PROGRESS.

(** Modelled from the spec: [assoc_update(old, new)] rewrites the pointer to
    the old item in place. *)
Definition assoc_update (old_it new_it : chunkptr) (a : assoc_table) : assoc_table :=
  map (fun e => if chunkptr_eqb (snd e) old_it then (fst e, new_it) else e) a.

Section Coalesce.
Context (K : constants).

Local Abbreviation SPL := (SMALL_CHUNKS_PER_LARGE_CHUNK K).

(** The loop of [get_lru_item]; [n] counts the iterations left of the
    [LRU_SEARCH_DEPTH] allowed. *)
Fixpoint get_lru_item_loop (n : nat) (iter : chunkptr) : M chunkptr :=
  match n with
  | O => ret NULL_CHUNKPTR
  | S n' =>
      match iter with
      | NULL_CHUNKPTR => ret NULL_CHUNKPTR
      | _ =>
          let! h := read_hdr iter in
          if refcount h =? 0 then ret iter
          else get_lru_item_loop n' (prev h)
      end
  end.

Definition get_lru_item : M chunkptr :=
  let! tail := gets lru_tail in
  get_lru_item_loop (Z.to_nat (LRU_SEARCH_DEPTH K)) tail.

(** The walk of [small_chunk_referenced] back to the title chunk. *)
Fixpoint small_chunk_title_walk (fuel : nat) (p : chunkptr) : M small_chunk :=
  match fuel with
  | O => out_of_fuel
  | S fuel' =>
      let! sc := read_scp p in
      if has_flag (sc_flags sc) SMALL_CHUNK_TITLE then ret sc
      else
        assert (Z.land (sc_flags sc) (Z.lor SMALL_CHUNK_INITIALIZED SMALL_CHUNK_USED)
                =? Z.lor SMALL_CHUNK_INITIALIZED SMALL_CHUNK_USED) ;;;
        small_chunk_title_walk fuel' (sc_body_prev_chunk sc)
  end.

Definition small_chunk_referenced (fuel : nat) (p : chunkptr) : M bool :=
  let! sc := read_scp p in
  assert (has_flag (sc_flags sc) SMALL_CHUNK_INITIALIZED) ;;;
  if has_flag (sc_flags sc) SMALL_CHUNK_FREE then ret false
  else
    let! t := small_chunk_title_walk fuel p in
    assert (Z.land (sc_flags t)
              (Z.lor (Z.lor SMALL_CHUNK_INITIALIZED SMALL_CHUNK_USED) SMALL_CHUNK_TITLE)
            =? Z.lor (Z.lor SMALL_CHUNK_INITIALIZED SMALL_CHUNK_USED) SMALL_CHUNK_TITLE) ;;;
    ret (negb (refcount (sc_title t) =? 0)).

Fixpoint large_broken_chunk_referenced_from (fuel : nat) (l counter n : nat) : M bool :=
  match n with
  | O => ret false
  | S n' =>
      let! r := small_chunk_referenced fuel (CP l counter) in
      if r then ret true
      else large_broken_chunk_referenced_from fuel l (S counter) n'
  end.

Definition large_broken_chunk_referenced (fuel : nat) (l : nat) : M bool :=
  large_broken_chunk_referenced_from fuel l 0 SPL.

(** [counter] is an [unsigned]; a [search_depth] of zero does not limit the
    search. *)
Fixpoint find_unreferenced_broken_chunk_loop (fuel : nat) (search_depth counter : Z)
    (iter : chunkptr) : M chunkptr :=
  match fuel with
  | O => out_of_fuel
  | S fuel' =>
      match iter with
      | NULL_CHUNKPTR => ret NULL_CHUNKPTR
      | CP l i =>
          if (search_depth =? 0) || (counter <? search_depth) then
            let! r := large_broken_chunk_referenced fuel' l in
            if negb r then ret (CP l 0)
            else
              let! sc := read_sc l i in
              find_unreferenced_broken_chunk_loop fuel' search_depth
                (wrap32 (counter + 1)) (sc_free_next sc)
          else ret NULL_CHUNKPTR
      end
  end.

Definition find_unreferenced_broken_chunk (fuel : nat) (search_depth : Z) : M chunkptr :=
  let! head := gets small_free_list in
  find_unreferenced_broken_chunk_loop fuel search_depth 0 head.

(** First inner loop of the coalescer: the donor's free children leave the
    free list and become coalesce-pending. *)
Definition coalesce_park_free (l : nat) : M unit :=
  for_up SPL (fun i =>
    let! iter := read_sc l i in
    when (has_flag (sc_flags iter) SMALL_CHUNK_FREE)
      (small_free_list_splice l i iter ;;;
       modify_sc l i (fun c => set_sc_flags (clear_flag (sc_flags c) SMALL_CHUNK_FREE) c) ;;;
       modify_sc l i (fun c => set_sc_flags
                                 (set_flag (sc_flags c) SMALL_CHUNK_COALESCE_PENDING) c) ;;;
       modify (fun s => set_small_free_list_sz (wrap64 (small_free_list_sz s - 1)) s))).

(** Pointer fix-up after a title chunk moved from [old] to [repl]. *)
Definition coalesce_fix_title (old repl : chunkptr) : M unit :=
  let! r := read_scp repl in
  (if negb (is_null (next (sc_title r))) then
     let! nh := read_hdr (next (sc_title r)) in
     assert (chunkptr_eqb (prev nh) old) ;;;
     modify_hdr (next (sc_title r)) (set_prev repl)
   else
     let! tail := gets lru_tail in
     assert (chunkptr_eqb tail old) ;;;
     modify (set_lru_tail repl)) ;;;
  let! r := read_scp repl in
  (if negb (is_null (prev (sc_title r))) then
     let! ph := read_hdr (prev (sc_title r)) in
     assert (chunkptr_eqb (next ph) old) ;;;
     modify_hdr (prev (sc_title r)) (set_next repl)
   else
     let! head := gets lru_head in
     assert (chunkptr_eqb head old) ;;;
     modify (set_lru_head repl)) ;;;
  let! r := read_scp repl in
  when (negb (is_null (next_chunk (sc_title r))))
    (let! nc := read_scp (next_chunk (sc_title r)) in
     assert (chunkptr_eqb (sc_body_prev_chunk nc) old) ;;;
     modify_scp (next_chunk (sc_title r)) (set_sc_body_prev_chunk repl)) ;;;
  modify_scp repl (fun c => set_sc_flags
    (set_flag (sc_flags c) (Z.lor SMALL_CHUNK_USED SMALL_CHUNK_TITLE)) c) ;;;
  modify (fun s => set_assoc (assoc_update old repl (assoc s)) s).

(** Pointer fix-up after a body chunk moved from [old] to [repl]. *)
Definition coalesce_fix_body (old repl : chunkptr) : M unit :=
  let! r := read_scp repl in
  let! pc := read_scp (sc_body_prev_chunk r) in
  (if has_flag (sc_flags pc) SMALL_CHUNK_TITLE then
     modify_scp (sc_body_prev_chunk r)
       (fun c => set_sc_title (set_next_chunk repl (sc_title c)) c)
   else
     modify_scp (sc_body_prev_chunk r) (set_sc_body_next_chunk repl)) ;;;
  when (negb (is_null (sc_body_next_chunk r)))
    (let! nc := read_scp (sc_body_next_chunk r) in
     assert (chunkptr_eqb (sc_body_prev_chunk nc) old) ;;;
     modify_scp (sc_body_next_chunk r) (set_sc_body_prev_chunk repl)) ;;;
  modify_scp repl (fun c => set_sc_flags (set_flag (sc_flags c) SMALL_CHUNK_USED) c).

(** Second inner loop: every used child of the donor moves to a chunk popped
    from the free list. *)
Definition coalesce_migrate (l : nat) : M unit :=
  for_up SPL (fun i =>
    let! iter := read_sc l i in
    assert (Z.land (sc_flags iter) SMALL_CHUNK_INITIALIZED =? SMALL_CHUNK_INITIALIZED) ;;;
    when (has_flag (sc_flags iter) SMALL_CHUNK_USED)
      (let! repl := free_list_pop K SMALL_CHUNK in
       assert (negb (is_null repl)) ;;;
       let! r := read_scp repl in
       assert (sc_flags r =? SMALL_CHUNK_INITIALIZED) ;;;
       let! src := read_sc l i in
       modify_scp repl (fun _ => src) ;;;
       let! src' := read_sc l i in
       (if has_flag (sc_flags src') SMALL_CHUNK_TITLE
        then coalesce_fix_title (CP l i) repl
        else coalesce_fix_body (CP l i) repl) ;;;
       modify_sc l i (set_sc_flags
         (Z.lor SMALL_CHUNK_INITIALIZED SMALL_CHUNK_COALESCE_PENDING)) ;;;
       modify_lc l (fun c => set_small_chunks_allocated (small_chunks_allocated c - 1) c))).

(** One pass of the body of the [while] loop, for the donor [l]. *)
Definition coalesce_donor (l : nat) : M unit :=
  let! lc := read_lc l in
  hist_add (small_chunks_allocated lc) (-1) ;;;
  modify_stats (fun t => set_migrates (wrap64 (migrates t + small_chunks_allocated lc)) t) ;;;
  when (negb (small_chunks_allocated lc =? 0))
    (coalesce_park_free l ;;; coalesce_migrate l) ;;;
  hist_add 0 1 ;;;
  unbreak_large_chunk K l true.

Fixpoint coalesce_loop (fuel : nat) (retval : coalesce_progress_t) : M coalesce_progress_t :=
  match fuel with
  | O => out_of_fuel
  | S fuel' =>
      let! sz := gets small_free_list_sz in
      if Z.of_nat SPL <=? sz then
        let! lc := find_unreferenced_broken_chunk fuel' 0 in
        match lc with
        | NULL_CHUNKPTR => ret retval
        | CP l _ =>
            coalesce_donor l ;;;
            coalesce_loop fuel' COALESCE_LARGE_CHUNK_FORMED
        end
      else ret retval
  end.

Definition coalesce_free_small_chunks (fuel : nat) : M coalesce_progress_t :=
  coalesce_loop fuel COALESCE_NO_PROGRESS.

End Coalesce.

(** ** Assoc table and payload bytes *)

(** Modelled from the spec: [assoc_insert], [assoc_find] and [assoc_delete]
    of assoc.h, on the key bytes. *)
Definition assoc_insert (it : chunkptr) (key : list Z) (a : assoc_table) : assoc_table :=
  (key, it) :: a.

Fixpoint assoc_find (key : list Z) (a : assoc_table) : chunkptr :=
  match a with
  | [] => NULL_CHUNKPTR
  | (k, it) :: a' => if bool_decide (k = key) then it else assoc_find key a'
  end.

Fixpoint assoc_delete (key : list Z) (a : assoc_table) : assoc_table :=
  match a with
  | [] => []
  | (k, it) :: a' => if bool_decide (k = key) then a' else (k, it) :: assoc_delete key a'
  end.

(** The [sz] payload bytes of a chunk; memory never written reads as zero. *)
Definition payload (sz : Z) (d : list Z) : list Z :=
  take (Z.to_nat sz) (d ++ replicate (Z.to_nat sz) 0).

(** [memcpy(&block[off], src, length src)] on a payload of [sz] bytes. *)
Definition memcpy_at (sz off : Z) (src d : list Z) : list Z :=
  let p := payload sz d in
  take (Z.to_nat off) p ++ src ++ drop (Z.to_nat off + length src)%nat p.

(** The bytes of a 32-bit value, least significant first. *)
Definition bytes_of_u32 (x : Z) : list Z :=
  [x mod 256; (x ÷ 256) mod 256; (x ÷ 65536) mod 256; (x ÷ 16777216) mod 256].

Section Items.
Context (K : constants).

Local Abbreviation SPL := (SMALL_CHUNKS_PER_LARGE_CHUNK K).

(** Modelled from the spec: [is_item_large_chunk] and [chunks_in_item] of
    flat_storage.h decide by the key and value lengths in the header. *)
Definition is_item_large_chunk (h : item_header) : bool :=
  is_large_chunk K (nkey h) (nbytes h).
Definition chunks_in_item (h : item_header) : Z :=
  chunks_needed K (nkey h) (nbytes h).

(** Modelled from the spec: the item walk ([ITEM_WALK]) over the body chunks,
    collecting [left] bytes of the payload stream. *)
Fixpoint item_walk_large_body (n : nat) (p : chunkptr) (left : Z) : M (list Z) :=
  if left <=? 0 then ret []
  else match n with
       | O => out_of_fuel
       | S n' =>
           let! c := read_lcp p in
           let run := Z.min left (LARGE_BODY_CHUNK_DATA_SZ K) in
           let! rest := item_walk_large_body n' (lc_body_next_chunk c) (left - run) in
           ret (take (Z.to_nat run) (payload (LARGE_BODY_CHUNK_DATA_SZ K) (lc_body_data c))
                ++ rest)
       end.

Fixpoint item_walk_small_body (n : nat) (p : chunkptr) (left : Z) : M (list Z) :=
  if left <=? 0 then ret []
  else match n with
       | O => out_of_fuel
       | S n' =>
           let! c := read_scp p in
           let run := Z.min left (SMALL_BODY_CHUNK_DATA_SZ K) in
           let! rest := item_walk_small_body n' (sc_body_next_chunk c) (left - run) in
           ret (take (Z.to_nat run) (payload (SMALL_BODY_CHUNK_DATA_SZ K) (sc_body_data c))
                ++ rest)
       end.

(** The key of an item, flattened: taken from the title when it fits there,
    gathered over the chunks otherwise. *)
Definition item_key_copy (it : chunkptr) : M (list Z) :=
  let! h := read_hdr it in
  if is_item_large_chunk h then
    let sz := LARGE_TITLE_CHUNK_DATA_SZ K in
    if nkey h <=? sz then ret (take (Z.to_nat (nkey h)) (payload sz (data h)))
    else
      let! rest := item_walk_large_body (Z.to_nat (nkey h)) (next_chunk h) (nkey h - sz) in
      ret (payload sz (data h) ++ rest)
  else
    let sz := SMALL_TITLE_CHUNK_DATA_SZ K in
    if nkey h <=? sz then ret (take (Z.to_nat (nkey h)) (payload sz (data h)))
    else
      let! rest := item_walk_small_body (Z.to_nat (nkey h)) (next_chunk h) (nkey h - sz) in
      ret (payload sz (data h) ++ rest).

(** ** LRU links *)

Definition item_link_q (it : chunkptr) : M unit :=
  let! h := read_hdr it in
  assert (is_null (next h)) ;;;
  assert (is_null (prev h)) ;;;
  let! head := gets lru_head in
  when (negb (is_null head))
    (modify_hdr it (set_next head) ;;;
     modify_hdr head (set_prev it)) ;;;
  modify (set_lru_head it) ;;;
  let! tail := gets lru_tail in
  when (is_null tail) (modify (set_lru_tail it)).

Definition item_unlink_q (it : chunkptr) : M unit :=
  let! h := read_hdr it in
  let nxt := next h in
  let prv := prev h in
  let! head := gets lru_head in
  when (chunkptr_eqb it head)
    (assert (is_null prv) ;;; modify (set_lru_head nxt)) ;;;
  let! tail := gets lru_tail in
  when (chunkptr_eqb it tail)
    (assert (is_null nxt) ;;; modify (set_lru_tail prv)) ;;;
  when (negb (is_null nxt))
    (let! h := read_hdr it in modify_hdr nxt (set_prev (prev h))) ;;;
  when (negb (is_null prv))
    (let! h := read_hdr it in modify_hdr prv (set_next (next h))) ;;;
  modify_hdr it (set_prev NULL_CHUNKPTR) ;;;
  modify_hdr it (set_next NULL_CHUNKPTR).

(** ** Freeing an item *)

Fixpoint item_free_large_bodies (fuel : nat) (next_chunk : chunkptr) (chunks_freed : Z)
    : M Z :=
  match next_chunk with
  | NULL_CHUNKPTR => ret chunks_freed
  | _ =>
      match fuel with
      | O => out_of_fuel
      | S fuel' =>
          let! c := read_lcp next_chunk in
          assert (lc_flags c =? Z.lor LARGE_CHUNK_INITIALIZED LARGE_CHUNK_USED) ;;;
          modify_lcp next_chunk (set_lc_flags (clear_flag (lc_flags c) LARGE_CHUNK_USED)) ;;;
          free_list_push K next_chunk LARGE_CHUNK false ;;;
          item_free_large_bodies fuel' (lc_body_next_chunk c) (wrap64 (chunks_freed + 1))
      end
  end.

Fixpoint item_free_small_bodies (fuel : nat) (next_chunk : chunkptr) (chunks_freed : Z)
    : M Z :=
  match next_chunk with
  | NULL_CHUNKPTR => ret chunks_freed
  | _ =>
      match fuel with
      | O => out_of_fuel
      | S fuel' =>
          let! c := read_scp next_chunk in
          assert (sc_flags c =? Z.lor SMALL_CHUNK_INITIALIZED SMALL_CHUNK_USED) ;;;
          modify_scp next_chunk (set_sc_flags (clear_flag (sc_flags c) SMALL_CHUNK_USED)) ;;;
          free_list_push K next_chunk SMALL_CHUNK true ;;;
          item_free_small_bodies fuel' (sc_body_next_chunk c) (wrap64 (chunks_freed + 1))
      end
  end.

Definition item_free (fuel : nat) (it : chunkptr) : M unit :=
  let! h := read_hdr it in
  let expected_chunks_freed := chunks_in_item h in
  let is_large_chunks := is_item_large_chunk h in
  assert (Z.land (it_flags h) (Z.lnot (Z.lor ITEM_HAS_TIMESTAMP ITEM_HAS_IP_ADDRESS))
          =? ITEM_VALID) ;;;
  assert (refcount h =? 0) ;;;
  assert (is_null (next h)) ;;;
  assert (is_null (prev h)) ;;;
  assert (is_null (h_next h)) ;;;
  let! chunks_freed :=
    (if is_large_chunks then
       let! freed := item_free_large_bodies fuel (next_chunk h) 0 in
       modify_stats (fun t => set_large_body_chunks (wrap64 (large_body_chunks t - freed)) t) ;;;
       let! c := read_lcp it in
       assert (lc_flags c =? Z.lor (Z.lor LARGE_CHUNK_INITIALIZED LARGE_CHUNK_USED)
                                   LARGE_CHUNK_TITLE) ;;;
       modify_lcp it (set_lc_flags
         (clear_flag (lc_flags c) (Z.lor LARGE_CHUNK_USED LARGE_CHUNK_TITLE))) ;;;
       modify_lcp it (fun c => set_lc_title (set_it_flags 0 (lc_title c)) c) ;;;
       free_list_push K it LARGE_CHUNK false ;;;
       modify_stats (fun t => set_large_title_chunks (wrap64 (large_title_chunks t - 1)) t) ;;;
       ret (wrap64 (freed + 1))
     else
       let! freed := item_free_small_bodies fuel (next_chunk h) 0 in
       modify_stats (fun t => set_small_body_chunks (wrap64 (small_body_chunks t - freed)) t) ;;;
       let! c := read_scp it in
       assert (sc_flags c =? Z.lor (Z.lor SMALL_CHUNK_INITIALIZED SMALL_CHUNK_USED)
                                   SMALL_CHUNK_TITLE) ;;;
       modify_scp it (set_sc_flags
         (clear_flag (sc_flags c) (Z.lor SMALL_CHUNK_USED SMALL_CHUNK_TITLE))) ;;;
       modify_scp it (fun c => set_sc_title (set_it_flags 0 (sc_title c)) c) ;;;
       free_list_push K it SMALL_CHUNK true ;;;
       modify_stats (fun t => set_small_title_chunks (wrap64 (small_title_chunks t - 1)) t) ;;;
       ret (wrap64 (freed + 1))) in
  assert (chunks_freed =? expected_chunks_freed).

(** ** Unlinking and eviction *)

Definition tls_unlink (sz : Z) (t : tls_stats) : tls_stats :=
  {| item_storage_allocated := item_storage_allocated t;
     item_total_size := wrap64 (item_total_size t - sz);
     curr_items := wrap64 (curr_items t - 1);
     total_items := total_items t;
     evictions := evictions t |}.

Definition tls_evict (t : tls_stats) : tls_stats :=
  {| item_storage_allocated := item_storage_allocated t;
     item_total_size := item_total_size t;
     curr_items := curr_items t;
     total_items := total_items t;
     evictions := wrap64 (evictions t + 1) |}.

Definition log_event (e : stats_event) : M unit :=
  modify (fun s => set_events (events s ++ [e]) s).

(** [key] is [None] for a [NULL] key argument. *)
Definition do_item_unlink (fuel : nat) (it : chunkptr) (flags : Z)
    (key : option (list Z)) : M unit :=
  let! key := (match key with
               | Some k => ret k
               | None => item_key_copy it
               end) in
  let! h := read_hdr it in
  assert (has_flag (it_flags h) ITEM_VALID) ;;;
  when (has_flag (it_flags h) ITEM_LINKED)
    (modify_hdr it (fun h => set_it_flags (clear_flag (it_flags h) ITEM_LINKED) h) ;;;
     let! now := gets current_time in
     let flags :=
       if has_flag flags UNLINK_MAYBE_EVICT then
         if (exptime h =? 0) || (now <? exptime h) then UNLINK_IS_EVICT
         else UNLINK_IS_EXPIRED
       else flags in
     let sz := nkey h + nbytes h in
     modify (fun s => set_tls (tls_unlink sz (tls s)) s) ;;;
     (if has_flag flags UNLINK_IS_EVICT then
        log_event (Ev_evict sz) ;;;
        modify (fun s => set_tls (tls_evict (tls s)) s)
      else when (has_flag flags UNLINK_IS_EXPIRED) (log_event (Ev_expire sz))) ;;;
     let! detail := gets detail_enabled in
     when detail (log_event (Ev_prefix_removal key (nkey h) sz (time h) flags)) ;;;
     modify (fun s => set_assoc (assoc_delete (take (Z.to_nat (nkey h)) key) (assoc s)) s) ;;;
     modify_hdr it (set_h_next NULL_CHUNKPTR) ;;;
     item_unlink_q it ;;;
     let! h' := read_hdr it in
     when (refcount h' =? 0) (item_free fuel it)).

Fixpoint flat_storage_lru_evict (fuel : nat) (chunk_type : chunk_type_t) (nchunks : Z)
    : M bool :=
  match fuel with
  | O => out_of_fuel
  | S fuel' =>
      let! lru_item := get_lru_item K in
      if is_null lru_item then ret false
      else
        do_item_unlink fuel' lru_item UNLINK_MAYBE_EVICT None ;;;
        let! lsz := gets large_free_list_sz in
        let! ssz := gets small_free_list_sz in
        match chunk_type with
        | SMALL_CHUNK =>
            if nchunks <=? wrap64 (wrap64 (lsz * Z.of_nat SPL) + ssz) then ret true
            else flat_storage_lru_evict fuel' chunk_type nchunks
        | LARGE_CHUNK =>
            if nchunks <=? lsz then ret true
            else if wrap64 (nchunks * Z.of_nat SPL)
                    <=? wrap64 (wrap64 (lsz * Z.of_nat SPL) + ssz) then
              let! progress := coalesce_free_small_chunks K fuel' in
              match progress with
              | COALESCE_NO_PROGRESS => flat_storage_lru_evict fuel' chunk_type nchunks
              | _ =>
                  let! lsz' := gets large_free_list_sz in
                  if nchunks <=? lsz' then ret true
                  else flat_storage_lru_evict fuel' chunk_type nchunks
              end
            else flat_storage_lru_evict fuel' chunk_type nchunks
        end
  end.

End Items.

(** ** Item allocation *)

(** [sizeof(rel_time_t)] and [sizeof(struct in_addr)] *)
Definition SIZEOF_NOW : Z := 4.
Definition SIZEOF_ADDR : Z := 4.

(** Returns the flags to add and the block after the stamps; [None] is a
    failed assertion. *)
Definition do_stamp_on_block (block : list Z) (block_offset block_sz now addr : Z)
    : option (Z * list Z) :=
  if block_sz <? block_offset then None
  else
    let '(retflags, block_offset, block) :=
      if SIZEOF_NOW <=? block_sz - block_offset
      then (ITEM_HAS_TIMESTAMP, block_offset + SIZEOF_NOW,
            memcpy_at block_sz block_offset (bytes_of_u32 now) block)
      else (0, block_offset, block) in
    let '(retflags, block_offset, block) :=
      if SIZEOF_ADDR <=? block_sz - block_offset
      then (Z.lor retflags ITEM_HAS_IP_ADDRESS, block_offset + SIZEOF_ADDR,
            memcpy_at block_sz block_offset (bytes_of_u32 addr) block)
      else (retflags, block_offset, block) in
    if block_sz <? block_offset then None else Some (retflags, block).

(** The place [prev_next] points to while the chunks are chained: the
    [next_chunk] field of the title or of a body chunk. *)
Inductive next_chunk_ref :=
| Ref_title (p : chunkptr)
| Ref_body (p : chunkptr).

(** The header assignments of [do_item_alloc] on a freshly popped title.
    The [nbytes] field of the header is an [int] (it is printed with [%d]
    and compared as an [int] in [item_size_ok]): [title->nbytes = nbytes]
    converts the [size_t] argument. *)
Definition init_title (nkey flags exptime nbytes : Z) (h : item_header) : item_header :=
  {| h_next := NULL_CHUNKPTR; next := NULL_CHUNKPTR; prev := NULL_CHUNKPTR;
     next_chunk := NULL_CHUNKPTR; time := time h; exptime := exptime;
     nbytes := to_int nbytes; nkey := nkey; refcount := 1; it_flags := ITEM_VALID;
     flags := flags; data := data h |}.

Section Alloc.
Context (K : constants).

Local Abbreviation SPL := (SMALL_CHUNKS_PER_LARGE_CHUNK K).

(** [nbytes] is an [int] here. *)
Definition item_size_ok (nkey flags nbytes : Z) : bool :=
  (nkey <=? KEY_MAX_LENGTH K) && (nbytes <=? MAX_ITEM_SIZE K).

(** *** Large items *)

(** The acquisition loop; [true] when the loop ends with enough large free
    chunks, [false] where the C code returns [NULL]. *)
Fixpoint alloc_acquire_large (fuel : nat) (needed prev_free : Z) : M bool :=
  match fuel with
  | O => out_of_fuel
  | S fuel' =>
      let! lsz := gets large_free_list_sz in
      if needed <=? lsz then ret true
      else
        assert (negb (prev_free =? lsz)) ;;;
        let prev_free := lsz in
        let! grown := flat_storage_alloc K in
        if grown then alloc_acquire_large fuel' needed prev_free
        else
          let! lsz := gets large_free_list_sz in
          let! ssz := gets small_free_list_sz in
          when (wrap64 (needed * Z.of_nat SPL) <=? wrap64 (wrap64 (lsz * Z.of_nat SPL) + ssz))
            (let! _ := coalesce_free_small_chunks K fuel' in ret tt) ;;;
          let! lsz := gets large_free_list_sz in
          if negb (prev_free =? lsz) then alloc_acquire_large fuel' needed prev_free
          else
            let! evicted := flat_storage_lru_evict K fuel' LARGE_CHUNK needed in
            if evicted then alloc_acquire_large fuel' needed prev_free
            else ret false
  end.

Definition write_ref_large (r : next_chunk_ref) (v : chunkptr) : M unit :=
  match r with
  | Ref_title p => modify_lcp p (fun c => set_lc_title (set_next_chunk v (lc_title c)) c)
  | Ref_body p => modify_lcp p (set_lc_body_next_chunk v)
  end.

Definition stamp_large_title (title : chunkptr) (write_offset now addr : Z) : M unit :=
  let! c := read_lcp title in
  match do_stamp_on_block (data (lc_title c)) write_offset
          (LARGE_TITLE_CHUNK_DATA_SZ K) now addr with
  | None => fault
  | Some (fl, d) =>
      modify_lcp title (fun c => set_lc_title (set_data d (lc_title c)) c) ;;;
      modify_lcp title (fun c =>
        set_lc_title (set_it_flags (Z.lor (it_flags (lc_title c)) fl) (lc_title c)) c)
  end.

Definition stamp_large_body (title body : chunkptr) (write_offset now addr : Z) : M unit :=
  let! c := read_lcp body in
  match do_stamp_on_block (lc_body_data c) write_offset
          (LARGE_BODY_CHUNK_DATA_SZ K) now addr with
  | None => fault
  | Some (fl, d) =>
      modify_lcp body (set_lc_body_data d) ;;;
      modify_lcp title (fun c =>
        set_lc_title (set_it_flags (Z.lor (it_flags (lc_title c)) fl) (lc_title c)) c)
  end.

(** The [while (needed > 0)] loop over the body chunks; [n] is [needed]. *)
Fixpoint alloc_large_bodies (n : nat) (title : chunkptr) (prev_next : next_chunk_ref)
    (key : list Z) (key_left write_offset addr : Z) : M next_chunk_ref :=
  match n with
  | O => ret prev_next
  | S n' =>
      let! temp := free_list_pop K LARGE_CHUNK in
      modify_lcp temp (fun c => set_lc_flags (Z.lor (lc_flags c) LARGE_CHUNK_USED) c) ;;;
      assert (negb (is_null temp)) ;;;
      write_ref_large prev_next temp ;;;
      let key_write := Z.min (LARGE_BODY_CHUNK_DATA_SZ K) key_left in
      modify_lcp temp (fun c => set_lc_body_data
        (memcpy_at (LARGE_BODY_CHUNK_DATA_SZ K) 0 (take (Z.to_nat key_write) key)
                   (lc_body_data c)) c) ;;;
      let! now := gets current_time in
      when (Nat.eqb n 1) (stamp_large_body title temp write_offset now addr) ;;;
      alloc_large_bodies n' title (Ref_body temp) (drop (Z.to_nat key_write) key)
        (key_left - key_write) (wrap64 (write_offset - LARGE_BODY_CHUNK_DATA_SZ K)) addr
  end.

Definition alloc_chain_large (key : list Z) (nkey flags exptime nbytes addr needed : Z)
    : M chunkptr :=
  let write_offset := wrap64 (nkey + nbytes) in
  let key_left := nkey in
  let! temp := free_list_pop K LARGE_CHUNK in
  modify_lcp temp (fun c => set_lc_flags
    (Z.lor (lc_flags c) (Z.lor LARGE_CHUNK_USED LARGE_CHUNK_TITLE)) c) ;;;
  assert (negb (is_null temp)) ;;;
  modify_lcp temp (fun c => set_lc_title (init_title nkey flags exptime nbytes (lc_title c)) c) ;;;
  let key_write := Z.min (LARGE_TITLE_CHUNK_DATA_SZ K) key_left in
  modify_lcp temp (fun c => set_lc_title (set_data
    (memcpy_at (LARGE_TITLE_CHUNK_DATA_SZ K) 0 (take (Z.to_nat key_write) key)
               (data (lc_title c))) (lc_title c)) c) ;;;
  let! now := gets current_time in
  when (needed =? 1) (stamp_large_title temp write_offset now addr) ;;;
  let needed := wrap64 (needed - 1) in
  let write_offset := wrap64 (write_offset - LARGE_TITLE_CHUNK_DATA_SZ K) in
  modify_stats (fun t => set_large_title_chunks (wrap64 (large_title_chunks t + 1)) t) ;;;
  modify_stats (fun t => set_large_body_chunks (wrap64 (large_body_chunks t + needed)) t) ;;;
  let! prev_next := alloc_large_bodies (Z.to_nat needed) temp (Ref_title temp)
                      (drop (Z.to_nat key_write) key) (key_left - key_write)
                      write_offset addr in
  write_ref_large prev_next NULL_CHUNKPTR ;;;
  ret temp.

(** *** Small items *)

Fixpoint alloc_acquire_small (fuel : nat) (needed small_prev_free large_prev_free : Z)
    : M bool :=
  match fuel with
  | O => out_of_fuel
  | S fuel' =>
      let! ssz := gets small_free_list_sz in
      let! lsz := gets large_free_list_sz in
      if needed <=? ssz then ret true
      else
        assert (negb (small_prev_free =? ssz) || negb (large_prev_free =? lsz)) ;;;
        if 0 <? lsz then
          let! temp := free_list_pop K LARGE_CHUNK in
          assert (negb (is_null temp)) ;;;
          break_large_chunk K temp ;;;
          alloc_acquire_small fuel' needed ssz lsz
        else
          let! grown := flat_storage_alloc K in
          if grown then alloc_acquire_small fuel' needed ssz lsz
          else
            let! evicted := flat_storage_lru_evict K fuel' SMALL_CHUNK needed in
            if evicted then alloc_acquire_small fuel' needed ssz lsz
            else ret false
  end.

Definition write_ref_small (r : next_chunk_ref) (v : chunkptr) : M unit :=
  match r with
  | Ref_title p => modify_scp p (fun c => set_sc_title (set_next_chunk v (sc_title c)) c)
  | Ref_body p => modify_scp p (set_sc_body_next_chunk v)
  end.

Definition stamp_small_title (title : chunkptr) (write_offset now addr : Z) : M unit :=
  let! c := read_scp title in
  match do_stamp_on_block (data (sc_title c)) write_offset
          (SMALL_TITLE_CHUNK_DATA_SZ K) now addr with
  | None => fault
  | Some (fl, d) =>
      modify_scp title (fun c => set_sc_title (set_data d (sc_title c)) c) ;;;
      modify_scp title (fun c =>
        set_sc_title (set_it_flags (Z.lor (it_flags (sc_title c)) fl) (sc_title c)) c)
  end.

Definition stamp_small_body (title body : chunkptr) (write_offset now addr : Z) : M unit :=
  let! c := read_scp body in
  match do_stamp_on_block (sc_body_data c) write_offset
          (SMALL_BODY_CHUNK_DATA_SZ K) now addr with
  | None => fault
  | Some (fl, d) =>
      modify_scp body (set_sc_body_data d) ;;;
      modify_scp title (fun c =>
        set_sc_title (set_it_flags (Z.lor (it_flags (sc_title c)) fl) (sc_title c)) c)
  end.

Fixpoint alloc_small_bodies (n : nat) (title prev : chunkptr) (prev_next : next_chunk_ref)
    (key : list Z) (key_left write_offset addr : Z) : M next_chunk_ref :=
  match n with
  | O => ret prev_next
  | S n' =>
      let! temp := free_list_pop K SMALL_CHUNK in
      modify_scp temp (fun c => set_sc_flags (Z.lor (sc_flags c) SMALL_CHUNK_USED) c) ;;;
      assert (negb (is_null temp)) ;;;
      write_ref_small prev_next temp ;;;
      modify_scp temp (set_sc_body_prev_chunk prev) ;;;
      let key_write := Z.min (SMALL_BODY_CHUNK_DATA_SZ K) key_left in
      modify_scp temp (fun c => set_sc_body_data
        (memcpy_at (SMALL_BODY_CHUNK_DATA_SZ K) 0 (take (Z.to_nat key_write) key)
                   (sc_body_data c)) c) ;;;
      let! now := gets current_time in
      when (Nat.eqb n 1) (stamp_small_body title temp write_offset now addr) ;;;
      alloc_small_bodies n' title temp (Ref_body temp) (drop (Z.to_nat key_write) key)
        (key_left - key_write) (wrap64 (write_offset - SMALL_BODY_CHUNK_DATA_SZ K)) addr
  end.

Definition alloc_chain_small (key : list Z) (nkey flags exptime nbytes addr needed : Z)
    : M chunkptr :=
  let write_offset := wrap64 (nkey + nbytes) in
  let key_left := nkey in
  let! temp := free_list_pop K SMALL_CHUNK in
  modify_scp temp (fun c => set_sc_flags
    (Z.lor (sc_flags c) (Z.lor SMALL_CHUNK_USED SMALL_CHUNK_TITLE)) c) ;;;
  assert (negb (is_null temp)) ;;;
  modify_scp temp (fun c => set_sc_title (init_title nkey flags exptime nbytes (sc_title c)) c) ;;;
  let key_write := Z.min (SMALL_TITLE_CHUNK_DATA_SZ K) key_left in
  modify_scp temp (fun c => set_sc_title (set_data
    (memcpy_at (SMALL_TITLE_CHUNK_DATA_SZ K) 0 (take (Z.to_nat key_write) key)
               (data (sc_title c))) (sc_title c)) c) ;;;
  let! now := gets current_time in
  when (needed =? 1) (stamp_small_title temp write_offset now addr) ;;;
  let needed := wrap64 (needed - 1) in
  let write_offset := wrap64 (write_offset - SMALL_TITLE_CHUNK_DATA_SZ K) in
  modify_stats (fun t => set_small_title_chunks (wrap64 (small_title_chunks t + 1)) t) ;;;
  modify_stats (fun t => set_small_body_chunks (wrap64 (small_body_chunks t + needed)) t) ;;;
  let! prev_next := alloc_small_bodies (Z.to_nat needed) temp temp (Ref_title temp)
                      (drop (Z.to_nat key_write) key) (key_left - key_write)
                      write_offset addr in
  write_ref_small prev_next NULL_CHUNKPTR ;;;
  ret temp.

(** [do_item_alloc]; the result is [NULL_CHUNKPTR] where C returns [NULL].
    [nkey] and [nbytes] are [size_t] values. *)
Definition do_item_alloc (fuel : nat) (key : list Z) (nkey flags exptime nbytes addr : Z)
    : M chunkptr :=
  if negb (item_size_ok nkey flags (to_int nbytes)) then ret NULL_CHUNKPTR
  else if is_large_chunk K nkey nbytes then
    let needed := chunks_needed K nkey nbytes in
    let! lsz := gets large_free_list_sz in
    let! ok := alloc_acquire_large fuel needed (wrap64 (lsz - 1)) in
    if ok then alloc_chain_large key nkey flags exptime nbytes addr needed
    else ret NULL_CHUNKPTR
  else
    let needed := chunks_needed K nkey nbytes in
    let! ssz := gets small_free_list_sz in
    let! lsz := gets large_free_list_sz in
    let! ok := alloc_acquire_small fuel needed (wrap64 (ssz - 1)) lsz in
    if ok then alloc_chain_small key nkey flags exptime nbytes addr needed
    else ret NULL_CHUNKPTR.

End Alloc.

(** ** Item lifecycle *)

Definition tls_link (sz : Z) (t : tls_stats) : tls_stats :=
  {| item_storage_allocated := item_storage_allocated t;
     item_total_size := wrap64 (item_total_size t + sz);
     curr_items := wrap64 (curr_items t + 1);
     total_items := wrap64 (total_items t + 1);
     evictions := evictions t |}.

(** [item_init] asserts that [small_title], [large_title] and [empty_header]
    place every header field at the same offset: the three views of an item
    read and write the same header. *)
Definition read_small_title (p : chunkptr) : M item_header := read_hdr p.
Definition read_large_title (p : chunkptr) : M item_header := read_hdr p.

Section Lifecycle.
Context (K : constants).

Local Abbreviation SPL := (SMALL_CHUNKS_PER_LARGE_CHUNK K).

Definition do_item_link (it : chunkptr) (key : list Z) : M Z :=
  let! h := read_hdr it in
  assert (has_flag (it_flags h) ITEM_VALID) ;;;
  assert (negb (has_flag (it_flags h) ITEM_LINKED)) ;;;
  modify_hdr it (fun h => set_it_flags (set_flag (it_flags h) ITEM_LINKED) h) ;;;
  let! now := gets current_time in
  modify_hdr it (set_time now) ;;;
  modify (fun s => set_assoc (assoc_insert it (take (Z.to_nat (nkey h)) key) (assoc s)) s) ;;;
  modify (fun s => set_tls (tls_link (nkey h + nbytes h) (tls s)) s) ;;;
  item_link_q it ;;;
  ret 1.

Definition do_item_deref (fuel : nat) (it : chunkptr) : M unit :=
  let! h := read_hdr it in
  assert (has_flag (it_flags h) ITEM_VALID) ;;;
  when (negb (refcount h =? 0))
    (modify_hdr it (fun h => set_refcount (refcount h - 1) h)) ;;;
  let! h := read_hdr it in
  assert (negb (has_flag (it_flags h) ITEM_DELETED) || negb (refcount h =? 0)) ;;;
  when ((refcount h =? 0) && negb (has_flag (it_flags h) ITEM_LINKED))
    (item_free K fuel it).

(** [current_time - ITEM_UPDATE_INTERVAL] is computed on [rel_time_t], an
    [unsigned int]. *)
Definition do_item_update (it : chunkptr) : M unit :=
  let! h := read_hdr it in
  let! now := gets current_time in
  when (time h <? wrap32 (now - ITEM_UPDATE_INTERVAL K))
    (assert (has_flag (it_flags h) ITEM_VALID) ;;;
     when (has_flag (it_flags h) ITEM_LINKED)
       (item_unlink_q it ;;;
        modify_hdr it (set_time now) ;;;
        item_link_q it)).

Definition do_item_replace (fuel : nat) (it new_it : chunkptr) (key : list Z) : M Z :=
  let! h := read_hdr it in
  assert (Z.land (it_flags h) (Z.lor ITEM_VALID ITEM_LINKED)
          =? Z.lor ITEM_VALID ITEM_LINKED) ;;;
  do_item_unlink K fuel it UNLINK_NORMAL (Some key) ;;;
  let! nh := read_hdr new_it in
  assert (has_flag (it_flags nh) ITEM_VALID) ;;;
  do_item_link new_it key.

(** One of the two loops of [do_item_flush_expired]; both read [time] and
    [next] of the same header. *)
Fixpoint flush_expired_loop (fuel : nat) (iter : chunkptr) : M unit :=
  match iter with
  | NULL_CHUNKPTR => ret tt
  | _ =>
      match fuel with
      | O => out_of_fuel
      | S fuel' =>
          let! h := read_hdr iter in
          let! oldest := gets oldest_live in
          if oldest <=? time h then
            assert (Z.land (it_flags h) (Z.lor ITEM_VALID ITEM_LINKED)
                    =? Z.lor ITEM_VALID ITEM_LINKED) ;;;
            do_item_unlink K fuel' iter UNLINK_IS_EXPIRED None ;;;
            flush_expired_loop fuel' (next h)
          else ret tt
      end
  end.

Definition do_item_flush_expired (fuel : nat) : M unit :=
  let! oldest := gets oldest_live in
  if oldest =? 0 then ret tt
  else
    let! head := gets lru_head in
    flush_expired_loop fuel head ;;;
    let! head := gets lru_head in
    flush_expired_loop fuel head.

Definition item_delete_lock_over (it : chunkptr) : M bool :=
  let! h := read_hdr it in
  assert (has_flag (it_flags h) ITEM_DELETED) ;;;
  let! now := gets current_time in
  ret (exptime h <=? now).

(** Returns the item and the value stored through [delete_locked]. *)
Definition do_item_get_notedeleted (fuel : nat) (key : list Z) (nkey : Z)
    : M (chunkptr * bool) :=
  let! a := gets assoc in
  let it := assoc_find (take (Z.to_nat nkey) key) a in
  let! (it, delete_locked) :=
    (if is_null it then ret (it, false)
     else
       let! h := read_hdr it in
       if has_flag (it_flags h) ITEM_DELETED then
         let! over := item_delete_lock_over it in
         if over then ret (it, false) else ret (NULL_CHUNKPTR, true)
       else ret (it, false)) in
  let! oldest := gets oldest_live in
  let! now := gets current_time in
  let! it :=
    (if is_null it then ret it
     else
       let! h := read_hdr it in
       if negb (oldest =? 0) && (oldest <=? now) && (time h <=? oldest) then
         do_item_unlink K fuel it UNLINK_IS_EXPIRED (Some key) ;;;
         ret NULL_CHUNKPTR
       else ret it) in
  let! it :=
    (if is_null it then ret it
     else
       let! h := read_hdr it in
       if negb (exptime h =? 0) && (exptime h <=? now) then
         do_item_unlink K fuel it UNLINK_IS_EXPIRED (Some key) ;;;
         ret NULL_CHUNKPTR
       else ret it) in
  when (negb (is_null it))
    (modify_hdr it (fun h => set_refcount ((refcount h + 1) mod REFCOUNT_MODULUS K) h)) ;;;
  ret (it, delete_locked).

Definition item_get (fuel : nat) (key : list Z) (nkey : Z) : M chunkptr :=
  let! r := do_item_get_notedeleted fuel key nkey in ret (fst r).

Definition do_item_get_nocheck (key : list Z) (nkey : Z) : M chunkptr :=
  let! a := gets assoc in
  let it := assoc_find (take (Z.to_nat nkey) key) a in
  when (negb (is_null it))
    (modify_hdr it (fun h => set_refcount ((refcount h + 1) mod REFCOUNT_MODULUS K) h)) ;;;
  ret it.

(** ** Size statistics *)

(** The bucket of an item: its total size in units of 32 bytes, rounded up. *)
Definition stats_sizes_bucket (h : item_header) : Z :=
  let ntotal := ITEM_ntotal K (nkey h) (nbytes h) in
  let bucket := ntotal ÷ 32 in
  if negb (Z.rem ntotal 32 =? 0) then bucket + 1 else bucket.

(** The body of either histogram loop for one item; the counts are
    [unsigned int]. *)
Definition stats_sizes_count (num_buckets : Z) (h : item_header) (histogram : list Z)
    : option (list Z) :=
  let bucket := stats_sizes_bucket h in
  if bucket <? num_buckets then
    if bucket <? 0 then None
    else match histogram !! Z.to_nat bucket with
         | Some v => Some (<[Z.to_nat bucket := wrap32 (v + 1)]> histogram)
         | None => None
         end
  else Some histogram.

(** First loop: [iter = iter->small_title.next]. *)
Fixpoint stats_sizes_small_pass (fuel : nat) (num_buckets : Z) (iter : chunkptr)
    (histogram : list Z) : M (list Z) :=
  match iter with
  | NULL_CHUNKPTR => ret histogram
  | _ =>
      match fuel with
      | O => out_of_fuel
      | S fuel' =>
          let! h := read_hdr iter in
          match stats_sizes_count num_buckets h histogram with
          | None => fault
          | Some histogram' =>
              let! st := read_small_title iter in
              stats_sizes_small_pass fuel' num_buckets (next st) histogram'
          end
      end
  end.

(** Second loop: [iter = iter->large_title.next]. *)
Fixpoint stats_sizes_large_pass (fuel : nat) (num_buckets : Z) (iter : chunkptr)
    (histogram : list Z) : M (list Z) :=
  match iter with
  | NULL_CHUNKPTR => ret histogram
  | _ =>
      match fuel with
      | O => out_of_fuel
      | S fuel' =>
          let! h := read_hdr iter in
          match stats_sizes_count num_buckets h histogram with
          | None => fault
          | Some histogram' =>
              let! lt := read_large_title iter in
              stats_sizes_large_pass fuel' num_buckets (next lt) histogram'
          end
      end
  end.

(** The lines written to the buffer: [(i * 32, histogram[i])] for every
    bucket that is not zero, in order. *)
Fixpoint stats_sizes_lines (i : Z) (histogram : list Z) : list (Z * Z) :=
  match histogram with
  | [] => []
  | v :: rest =>
      (if negb (v =? 0) then [(i * 32, v)] else []) ++ stats_sizes_lines (i + 1) rest
  end.

Definition stats_sizes_num_buckets : Z :=
  to_int ((wrap64 (LARGE_CHUNK_SZ K + KEY_MAX_LENGTH K + MAX_ITEM_SIZE K) + 32 - 1) ÷ 32).

(** [malloc_ok] tells whether both [malloc] calls succeed; the result is
    [None] where C returns [NULL]. *)
Definition do_item_stats_sizes (fuel : nat) (malloc_ok : bool) : M (option (list (Z * Z))) :=
  if negb malloc_ok then ret None
  else
    let num_buckets := stats_sizes_num_buckets in
    let histogram := replicate (Z.to_nat num_buckets) 0 in
    let! head := gets lru_head in
    let! histogram := stats_sizes_small_pass fuel num_buckets head histogram in
    let! head := gets lru_head in
    let! histogram := stats_sizes_large_pass fuel num_buckets head histogram in
    ret (Some (stats_sizes_lines 0 histogram)).

(** ** Initialisation *)

(** The globals before [flat_storage_init]: static storage is zero. *)
Definition zero_state (oldest : Z) (detail : bool) : state :=
  {| heap := []; unused_memory := 0;
     large_free_list := NULL_CHUNKPTR; large_free_list_sz := 0;
     small_free_list := NULL_CHUNKPTR; small_free_list_sz := 0;
     lru_head := NULL_CHUNKPTR; lru_tail := NULL_CHUNKPTR;
     stats := {| large_title_chunks := 0; large_body_chunks := 0;
                 large_broken_chunks := 0; small_title_chunks := 0;
                 small_body_chunks := 0;
                 broken_chunk_histogram := replicate (S SPL) 0;
                 break_events := 0; unbreak_events := 0; migrates := 0 |};
     initialized := false;
     tls := {| item_storage_allocated := 0; item_total_size := 0; curr_items := 0;
               total_items := 0; evictions := 0 |};
     assoc := []; oldest_live := oldest; detail_enabled := detail;
     current_time := 0; events := [] |}.

Definition flat_storage_init (maxbytes : Z) : M unit :=
  let! init := gets initialized in
  assert (negb init) ;;;
  assert (negb (LARGE_CHUNK_SZ K =? 0) && negb (FLAT_STORAGE_INCREMENT_DELTA K =? 0)) ;;;
  assert (Z.rem maxbytes (LARGE_CHUNK_SZ K) =? 0) ;;;
  assert (Z.rem maxbytes (FLAT_STORAGE_INCREMENT_DELTA K) =? 0) ;;;
  modify (set_unused_memory maxbytes) ;;;
  modify (set_large_free_list NULL_CHUNKPTR) ;;;
  modify (set_large_free_list_sz 0) ;;;
  modify (set_small_free_list NULL_CHUNKPTR) ;;;
  modify (set_small_free_list_sz 0) ;;;
  modify (set_lru_head NULL_CHUNKPTR) ;;;
  modify (set_lru_tail NULL_CHUNKPTR) ;;;
  let! _ := flat_storage_alloc K in
  let! lsz := gets large_free_list_sz in
  assert (negb (lsz =? 0)) ;;;
  modify (set_initialized true).

End Lifecycle.

(** * Specification vocabulary *)

(** [m] leaves the observation [f] of the state unchanged. *)
Definition keeps {A B} (f : state -> B) (m : M A) : Prop :=
  forall s a s', m s = Ok (a, s') -> f s' = f s.

(** [m] preserves the state predicate [P]. *)
Definition preserves {A} (P : state -> Prop) (m : M A) : Prop :=
  forall s a s', P s -> m s = Ok (a, s') -> P s'.

(** [m] has no loop that fuel could cut off. *)
Definition never_oof {A} (m : M A) : Prop :=
  forall s, m s <> OutOfFuel.

(** ** The public operations and the reachable states *)

Inductive op :=
| Op_alloc (key : list Z) (nkey flags exptime nbytes addr : Z)
| Op_link (it : chunkptr) (key : list Z)
| Op_unlink (it : chunkptr) (flags : Z) (key : option (list Z))
| Op_deref (it : chunkptr)
| Op_update (it : chunkptr)
| Op_replace (it new_it : chunkptr) (key : list Z)
| Op_get (key : list Z) (nkey : Z)
| Op_get_nocheck (key : list Z) (nkey : Z)
| Op_flush_expired
| Op_stats_sizes (malloc_ok : bool)
| Op_clock (now : Z)
| Op_settings (oldest : Z) (detail : bool).

Definition run_op (K : constants) (fuel : nat) (o : op) : M unit :=
  match o with
  | Op_alloc key nkey flags exptime nbytes addr =>
      let! _ := do_item_alloc K fuel key nkey flags exptime nbytes addr in ret tt
  | Op_link it key => let! _ := do_item_link it key in ret tt
  | Op_unlink it flags key => do_item_unlink K fuel it flags key
  | Op_deref it => do_item_deref K fuel it
  | Op_update it => do_item_update K it
  | Op_replace it new_it key => let! _ := do_item_replace K fuel it new_it key in ret tt
  | Op_get key nkey => let! _ := item_get K fuel key nkey in ret tt
  | Op_get_nocheck key nkey => let! _ := do_item_get_nocheck K key nkey in ret tt
  | Op_flush_expired => do_item_flush_expired K fuel
  | Op_stats_sizes malloc_ok => let! _ := do_item_stats_sizes K fuel malloc_ok in ret tt
  | Op_clock now => modify (set_current_time (wrap32 now))
  | Op_settings oldest detail =>
      modify (fun s => set_detail_enabled detail (set_oldest_live (wrap32 oldest) s))
  end.

(** The states the cache goes through: the state after [flat_storage_init],
    and every state a public operation (or the clock, or a change of the
    settings) leads to from there. *)
Inductive reachable (K : constants) : state -> Prop :=
| reachable_init maxbytes oldest detail s :
    flat_storage_init K maxbytes (zero_state K oldest detail) = Ok (tt, s) ->
    reachable K s
| reachable_step s fuel o s' :
    reachable K s ->
    run_op K fuel o s = Ok (tt, s') ->
    reachable K s'.

(** ** Break and unbreak counters *)

(** The three counters of the parity law. *)
Definition ctr (s : state) : Z * Z * Z :=
  (break_events (stats s), unbreak_events (stats s), large_broken_chunks (stats s)).

(** [break_events - unbreak_events == large_broken_chunks], in the unsigned
    64-bit arithmetic of the counters. *)
Definition break_unbreak_parity (s : state) : Prop :=
  wrap64 (break_events (stats s) - unbreak_events (stats s))
  = large_broken_chunks (stats s).

(** ** Pure views of the memory *)

Definition sc_at (s : state) (l i : nat) : option small_chunk :=
  match heap s !! l with
  | Some c => lbc c !! i
  | None => None
  end.

(** The header [read_hdr] finds at an address, if any. *)
Definition hdr_at (s : state) (p : chunkptr) : option item_header :=
  match p with
  | NULL_CHUNKPTR => None
  | CP l i =>
      match heap s !! l with
      | Some c =>
          if has_flag (lc_flags c) LARGE_CHUNK_BROKEN then
            match lbc c !! i with
            | Some sc => Some (sc_title sc)
            | None => None
            end
          else match i with
               | O => Some (lc_title c)
               | S _ => None
               end
      | None => None
      end
  end.

(** The state after [modify_hdr p g], where [p] holds an item. *)
Definition upd_hdr (p : chunkptr) (g : item_header -> item_header) (s : state) : state :=
  match p with
  | NULL_CHUNKPTR => s
  | CP l i =>
      match heap s !! l with
      | Some c =>
          if has_flag (lc_flags c) LARGE_CHUNK_BROKEN then
            match lbc c !! i with
            | Some sc =>
                set_heap (<[l := set_lbc (<[i := set_sc_title (g (sc_title sc)) sc]> (lbc c)) c]>
                            (heap s)) s
            | None => s
            end
          else match i with
               | O => set_heap (<[l := set_lc_title (g (lc_title c)) c]> (heap s)) s
               | S _ => s
               end
      | None => s
      end
  end.

(** ** Freshly allocated items *)

(** The header of an item as [do_item_alloc] returns it. *)
Definition alloc_header_ok (h : item_header) (a_nkey a_flags a_exptime a_nbytes : Z)
    : Prop :=
  refcount h = 1
  /\ has_flag (it_flags h) ITEM_VALID = true
  /\ nkey h = a_nkey /\ nbytes h = a_nbytes
  /\ exptime h = a_exptime /\ flags h = a_flags
  /\ next h = NULL_CHUNKPTR /\ prev h = NULL_CHUNKPTR /\ h_next h = NULL_CHUNKPTR.

(** [large_chain s p n]: from [p], the [next_chunk] links of the large body
    chunks lead through exactly [n] used chunks to [NULL_CHUNKPTR]. *)
Fixpoint large_chain (s : state) (p : chunkptr) (n : nat) : Prop :=
  match n with
  | O => p = NULL_CHUNKPTR
  | S n' =>
      exists l c, p = CP l 0 /\ heap s !! l = Some c
        /\ lc_flags c = Z.lor LARGE_CHUNK_INITIALIZED LARGE_CHUNK_USED
        /\ large_chain s (lc_body_next_chunk c) n'
  end.

(** The same for the small body chunks; each one points back to the chunk
    before it. *)
Fixpoint small_chain (s : state) (before p : chunkptr) (n : nat) : Prop :=
  match n with
  | O => p = NULL_CHUNKPTR
  | S n' =>
      exists l i sc, p = CP l i /\ sc_at s l i = Some sc
        /\ sc_flags sc = Z.lor SMALL_CHUNK_INITIALIZED SMALL_CHUNK_USED
        /\ sc_body_prev_chunk sc = before
        /\ small_chain s p (sc_body_next_chunk sc) n'
  end.

(** ** Frames of chunk writes *)

(** The large chunk, the small chunk at an address. *)
Definition lc_at (s : state) (p : chunkptr) : option large_chunk :=
  match p with
  | CP l O => heap s !! l
  | _ => None
  end.

Definition scp_at (s : state) (p : chunkptr) : option small_chunk :=
  match p with
  | CP l i => sc_at s l i
  | NULL_CHUNKPTR => None
  end.

(** The header of the title chunk of an item of the large or of the small
    class. *)
Definition title_at (s : state) (large : bool) (it : chunkptr) : option item_header :=
  if large then option_map lc_title (lc_at s it) else option_map sc_title (scp_at s it).

(** The large chunk around [it] is broken into small chunks. *)
Definition parent_broken (s : state) (it : chunkptr) : bool :=
  match it with
  | CP l _ =>
      match heap s !! l with
      | Some c => has_flag (lc_flags c) LARGE_CHUNK_BROKEN
      | None => false
      end
  | NULL_CHUNKPTR => false
  end.

(** The chunks after the title of an item: [m] of them, then
    [NULL_CHUNKPTR]. *)
Definition body_chain (s : state) (large : bool) (it : chunkptr) (first : chunkptr)
    (m : nat) : Prop :=
  if large then large_chain s first m else small_chain s it first m.

(** What the chaining of body chunks may do to a title: set flags, write
    data, write [next_chunk]. *)
Definition title_stable (h h' : item_header) : Prop :=
  refcount h' = refcount h /\ nkey h' = nkey h /\ nbytes h' = nbytes h
  /\ exptime h' = exptime h /\ flags h' = flags h
  /\ next h' = next h /\ prev h' = prev h /\ h_next h' = h_next h
  /\ (has_flag (it_flags h) ITEM_VALID = true -> has_flag (it_flags h') ITEM_VALID = true).

Definition ref_holder (pn : next_chunk_ref) : chunkptr :=
  match pn with Ref_title p | Ref_body p => p end.

Section ChunkFrame.
Context {C : Type} (at_ : state -> chunkptr -> option C).
Context (fl : C -> Z) (ti : C -> item_header) (bn bp : C -> chunkptr) (FREE : Z).

(** The field a [next_chunk_ref] designates. *)
Definition ref_of (pn : next_chunk_ref) (c : C) : chunkptr :=
  match pn with
  | Ref_title _ => next_chunk (ti c)
  | Ref_body _ => bn c
  end.

Definition ref_at (s : state) (pn : next_chunk_ref) : option chunkptr :=
  match at_ s (ref_holder pn) with
  | Some c => Some (ref_of pn c)
  | None => None
  end.

(** The chunk [c] at [q] became [c']: same flags, same links but for the
    one [pn] designates. *)
Definition chunk_obs (pn : next_chunk_ref) (q : chunkptr) (c c' : C) : Prop :=
  fl c' = fl c /\ bp c' = bp c
  /\ (pn <> Ref_body q -> bn c' = bn c)
  /\ (pn <> Ref_title q -> next_chunk (ti c') = next_chunk (ti c))
  /\ title_stable (ti c) (ti c').

(** Every chunk outside [X] is still there and looks the same. *)
Definition chunk_frame (X : chunkptr -> Prop) (pn : next_chunk_ref) (s s' : state) : Prop :=
  forall q c, at_ s q = Some c -> ~ X q ->
    exists c', at_ s' q = Some c' /\ chunk_obs pn q c c'.

(** [s'] is [s] with the chunk at [p] replaced by its image under [g]. *)
Definition upd_at (p : chunkptr) (g : C -> C) (s s' : state) : Prop :=
  exists c, at_ s p = Some c
    /\ forall q, at_ s' q = if chunkptr_eqb q p then Some (g c) else at_ s q.

(** The chunks on a free list. *)
Definition is_free (s : state) (q : chunkptr) : Prop :=
  exists c, at_ s q = Some c /\ has_flag (fl c) FREE = true.

End ChunkFrame.

(** ** The large free list *)

(** From [p], the [next] links of the free view lead through the large
    chunks [L], all with the flags of a free chunk. *)
Fixpoint lfl_path (s : state) (p : chunkptr) (L : list nat) : Prop :=
  match L with
  | [] => True
  | l :: L' =>
      p = CP l 0
      /\ exists c, heap s !! l = Some c
           /\ lc_flags c = Z.lor LARGE_CHUNK_INITIALIZED LARGE_CHUNK_FREE
           /\ lfl_path s (lc_free_next c) L'
  end.

(** The large free list starts with the chunks [L], and
    [large_free_list_sz] counts them. *)
Definition large_free_list_is (s : state) (L : list nat) : Prop :=
  lfl_path s (large_free_list s) L /\ NoDup L
  /\ large_free_list_sz s = Z.of_nat (length L).

(** [s'] has the large chunks [L] of [s], as many large chunks, and the same
    large free list. *)
Definition frame_on (L : list nat) (s s' : state) : Prop :=
  length (heap s') = length (heap s)
  /\ (forall k, k ∈ L -> heap s' !! k = heap s !! k)
  /\ large_free_list s' = large_free_list s
  /\ large_free_list_sz s' = large_free_list_sz s.

(** ** Well-formed small chunks *)

(** What the coalescer's searches look at in a small chunk: its flags, the
    [prev_chunk] of its body view and the [next] of its free view. *)
Definition view : Type := Z * chunkptr * chunkptr.

Definition sc_view (sc : small_chunk) : view :=
  (sc_flags sc, sc_body_prev_chunk sc, sc_free_next sc).

Definition va (s : state) (q : chunkptr) : option view :=
  option_map sc_view (scp_at s q).

(** The flags of a chunk the walk of [small_chunk_referenced] steps over:
    no [TITLE], and [INITIALIZED] and [USED]. *)
Definition body_flags (fl : Z) : bool :=
  negb (has_flag fl SMALL_CHUNK_TITLE)
  && (Z.land fl (Z.lor SMALL_CHUNK_INITIALIZED SMALL_CHUNK_USED)
      =? Z.lor SMALL_CHUNK_INITIALIZED SMALL_CHUNK_USED).

(** From [p], the [next] links of the free view lead through the chunks
    [L] to [NULL_CHUNKPTR]. *)
Fixpoint fl_path (s : state) (p : chunkptr) (L : list chunkptr) : Prop :=
  match L with
  | [] => p = NULL_CHUNKPTR
  | x :: L' =>
      p = x /\ exists fl pv nx, va s x = Some (fl, pv, nx) /\ fl_path s nx L'
  end.

(** The small free list is the list [L]. *)
Definition free_list_is (s : state) (L : list chunkptr) : Prop :=
  fl_path s (small_free_list s) L /\ NoDup L.

(** [prev_chunk] leads from every body chunk to a chunk of smaller rank. *)
Definition ranked (f : chunkptr -> nat) (s : state) : Prop :=
  forall q fl pv nx, va s q = Some (fl, pv, nx) -> body_flags fl = true ->
    (f pv < f q)%nat.

(** No body chunk has its [prev_chunk] in [X]. *)
Definition no_prev_into (X : chunkptr -> Prop) (s : state) : Prop :=
  forall q fl pv nx, va s q = Some (fl, pv, nx) -> body_flags fl = true -> ~ X pv.

(** The small free list is the path [L]; [f] ranks the body chunks; none of
    them has its [prev_chunk] in [L]. *)
Definition shaped (L : list chunkptr) (f : chunkptr -> nat) (s : state) : Prop :=
  fl_path s (small_free_list s) L /\ ranked f s /\ no_prev_into (fun p => p ∈ L) s.

(** The shape of the small chunks the coalescer relies on: the small free
    list is a list of at most [n] chunks, every body chunk is at most [R]
    steps of [prev_chunk] away from the end of its chain, and no body chunk
    has its [prev_chunk] on the free list. *)
Definition coalesce_wf (n R : nat) (s : state) : Prop :=
  exists L f,
    (length L <= n)%nat /\ free_list_is s L
    /\ (forall p, f p <= R)%nat /\ ranked f s
    /\ no_prev_into (fun p => p ∈ L) s.

(** The flags of a broken large chunk. *)
Definition LARGE_CHUNK_BROKEN_FLAGS : Z :=
  Z.lor (Z.lor LARGE_CHUNK_INITIALIZED LARGE_CHUNK_USED) LARGE_CHUNK_BROKEN.

(** The number of broken large chunks. *)
Definition broken_count (s : state) : nat :=
  count_occ Z.eq_dec (map lc_flags (heap s)) LARGE_CHUNK_BROKEN_FLAGS.

(** ** The LRU as a list *)

(** The items [get_lru_item] may look at: at most [n], from [p] along the
    [prev] links. *)
Fixpoint lru_window (n : nat) (s : state) (p : chunkptr) : list (chunkptr * item_header) :=
  match n with
  | O => []
  | S n' =>
      match hdr_at s p with
      | Some h => (p, h) :: lru_window n' s (prev h)
      | None => []
      end
  end.

(** Every address the scan reaches within [n] steps holds an item. *)
Fixpoint lru_window_ok (n : nat) (s : state) (p : chunkptr) : Prop :=
  match n with
  | O => True
  | S n' =>
      match p with
      | NULL_CHUNKPTR => True
      | _ => match hdr_at s p with
             | Some h => lru_window_ok n' s (prev h)
             | None => False
             end
      end
  end.

(** [lru_chain s p l]: following [next] from [p] visits exactly the items
    [l] and then ends at [NULL_CHUNKPTR]. *)
Inductive lru_chain (s : state) : chunkptr -> list (chunkptr * item_header) -> Prop :=
| lru_chain_nil : lru_chain s NULL_CHUNKPTR []
| lru_chain_cons p h l :
    hdr_at s p = Some h ->
    lru_chain s (next h) l ->
    lru_chain s p ((p, h) :: l).

(** The number of items of [l] that fall in bucket [b] of the size
    histogram. *)
Definition count_in_bucket (K : constants) (l : list (chunkptr * item_header)) (b : Z) : Z :=
  Z.of_nat (length (filter (fun x => stats_sizes_bucket K (snd x) = b) l)).

(** [lru_seg s before l after]: the items [l] are doubly linked in this
    order; the first one has [prev = before], the last one [next = after]. *)
Fixpoint lru_seg (s : state) (before : chunkptr) (l : list chunkptr) (after : chunkptr)
    : Prop :=
  match l with
  | [] => True
  | p :: l' =>
      match hdr_at s p with
      | Some h =>
          p <> NULL_CHUNKPTR /\ prev h = before
          /\ next h = hd after l' /\ lru_seg s p l' after
      | None => False
      end
  end.

(** The LRU of [s] holds the items [l], most recently used first. *)
Definition lru_is (s : state) (l : list chunkptr) : Prop :=
  NoDup l /\ lru_head s = hd NULL_CHUNKPTR l /\ lru_tail s = List.last l NULL_CHUNKPTR
  /\ lru_seg s NULL_CHUNKPTR l NULL_CHUNKPTR.

(** [s'] differs from [s] in the heap and the two ends of the LRU only. *)
Definition lru_frame (s s' : state) : Prop :=
  exists hp hd tl, s' = set_lru_head hd (set_lru_tail tl (set_heap hp s)).

(** Two headers that agree on everything but the LRU links and the time. *)
Definition same_item (h h' : item_header) : Prop :=
  set_time 0 (set_next NULL_CHUNKPTR (set_prev NULL_CHUNKPTR h))
  = set_time 0 (set_next NULL_CHUNKPTR (set_prev NULL_CHUNKPTR h')).

(** Every address holds the same item in [s] and [s'], up to the LRU links
    and the time. *)
Definition same_items (s s' : state) : Prop :=
  forall p, match hdr_at s p, hdr_at s' p with
            | Some h, Some h' => same_item h h'
            | None, None => True
            | _, _ => False
            end.

(** Every item of [l] has [ITEM_LINKED] set. *)
Definition all_linked (s : state) (l : list chunkptr) : Prop :=
  forall p, p ∈ l ->
    exists h, hdr_at s p = Some h /\ has_flag (it_flags h) ITEM_LINKED = true.

(** * A concrete configuration

    The constants of the end-to-end scenarios: large chunks of 1024 bytes,
    small chunks of 128 bytes, eight small chunks per large chunk, a region
    of 8192 bytes committed 4096 bytes at a time. *)

Definition scenario : constants :=
  {| SMALL_CHUNKS_PER_LARGE_CHUNK := 8;
     LARGE_CHUNK_SZ := 1024;
     FLAT_STORAGE_INCREMENT_DELTA := 4096;
     LARGE_TITLE_CHUNK_DATA_SZ := 960;
     LARGE_BODY_CHUNK_DATA_SZ := 1008;
     SMALL_TITLE_CHUNK_DATA_SZ := 96;
     SMALL_BODY_CHUNK_DATA_SZ := 112;
     KEY_MAX_LENGTH := 250;
     MAX_ITEM_SIZE := 1048576;
     LRU_SEARCH_DEPTH := 50;
     ITEM_UPDATE_INTERVAL := 60;
     REFCOUNT_MODULUS := 65536;
     is_large_chunk := fun nkey nbytes => 96 + 112 * 7 <? nkey + nbytes;
     chunks_needed := fun nkey nbytes =>
       let total := nkey + nbytes in
       if 96 + 112 * 7 <? total
       then (if total <=? 960 then 1 else 1 + (total - 960 + 1007) / 1008)
       else (if total <=? 96 then 1 else 1 + (total - 96 + 111) / 112);
     ITEM_ntotal := fun nkey nbytes => 32 + nkey + nbytes |}.

(** The state a run ends in ([zero_state] when it does not end well). *)
Definition state_after (m : M unit) : state :=
  match m (zero_state scenario 0 false) with
  | Ok (_, s) => s
  | _ => zero_state scenario 0 false
  end.

Definition header_of (s : state) (p : chunkptr) : item_header :=
  match hdr_at s p with
  | Some h => h
  | None => empty_header
  end.

Definition key_a : list Z := [97].
Definition key_b : list Z := [98].

(** After [flat_storage_init]. *)
Definition run_init : M unit := flat_storage_init scenario 8192.

(** One small item allocated, not linked; the clock at 100. *)
Definition run_alloc_a : M unit :=
  run_init ;;;
  (let! _ := do_item_alloc scenario 16 key_a 1 0 0 4 0 in ret tt) ;;;
  modify (set_current_time 100).

(** Two small items allocated and linked; the clock at 100. *)
Definition run_link_ab : M unit :=
  run_init ;;;
  (let! a := do_item_alloc scenario 16 key_a 1 0 0 4 0 in
   let! _ := do_item_link a key_a in
   let! b := do_item_alloc scenario 16 key_b 1 0 0 4 0 in
   let! _ := do_item_link b key_b in
   ret tt) ;;;
  modify (set_current_time 100).

(** As [run_link_ab], then both references dropped. *)
Definition run_deref_ab : M unit :=
  run_link_ab ;;;
  do_item_deref scenario 16 (CP 3 0) ;;;
  do_item_deref scenario 16 (CP 3 1).

(** One small item allocated, linked, and unlinked again while the caller
    still holds its reference. *)
Definition run_unlinked_a : M unit :=
  run_init ;;;
  let! a := do_item_alloc scenario 16 key_a 1 0 0 4 0 in
  let! _ := do_item_link a key_a in
  do_item_unlink scenario 16 a UNLINK_NORMAL None.

(** One item of 3000 bytes allocated: four large chunks. *)
Definition run_alloc_large : M unit :=
  run_init ;;;
  (let! _ := do_item_alloc scenario 16 key_a 1 0 0 3000 0 in ret tt).

(** Allocates an item of one key byte and [nb] value bytes, links it and
    drops the reference. *)
Definition run_item (k nb : Z) : M chunkptr :=
  let! a := do_item_alloc scenario 16 [k] 1 0 0 nb 0 in
  let! _ := do_item_link a [k] in
  do_item_deref scenario 16 a ;;; ret a.

(** Two broken large chunks: three linked items of two small chunks each
    and a free pair in the first, one linked item in the second; nine free
    small chunks. *)
Definition run_fragmented : M unit :=
  run_init ;;;
  let! _ := run_item 97 150 in
  let! _ := run_item 98 150 in
  let! _ := run_item 99 150 in
  let! d := do_item_alloc scenario 16 [100] 1 0 0 150 0 in
  let! _ := run_item 101 4 in
  do_item_deref scenario 16 d.

(** A cache of 8 GiB, just initialised. *)
Definition run_init_large : M unit := flat_storage_init scenario (2 ^ 33).

(** ** Checking the shape of the small chunks of a concrete state *)

Fixpoint enum_row (l i : nat) (row : list small_chunk) : list (chunkptr * view) :=
  match row with
  | [] => []
  | sc :: r => (CP l i, sc_view sc) :: enum_row l (S i) r
  end.

(** Every small chunk of the heap, with its address. *)
Fixpoint enum_heap (l : nat) (hp : list large_chunk) : list (chunkptr * view) :=
  match hp with
  | [] => []
  | c :: h => enum_row l 0 (lbc c) ++ enum_heap (S l) h
  end.

Definition inb (p : chunkptr) (L : list chunkptr) : bool :=
  existsb (chunkptr_eqb p) L.

Fixpoint nodup_b (L : list chunkptr) : bool :=
  match L with
  | [] => true
  | x :: L' => negb (inb x L') && nodup_b L'
  end.

Fixpoint fl_path_b (s : state) (p : chunkptr) (L : list chunkptr) : bool :=
  match L with
  | [] => is_null p
  | x :: L' =>
      chunkptr_eqb p x
      && match va s x with
         | Some (_, _, nx) => fl_path_b s nx L'
         | None => false
         end
  end.

(** The rank a table gives to a chunk; 0 when it is not listed. *)
Fixpoint rank_of (ranks : list (chunkptr * nat)) (p : chunkptr) : nat :=
  match ranks with
  | [] => O
  | (q, r) :: t => if chunkptr_eqb q p then r else rank_of t p
  end.

Definition body_ok_b (L : list chunkptr) (ranks : list (chunkptr * nat))
    (e : chunkptr * view) : bool :=
  match e with
  | (q, (fl, pv, _)) =>
      if body_flags fl
      then (rank_of ranks pv <? rank_of ranks q)%nat && negb (inb pv L)
      else true
  end.

Definition coalesce_wf_b (L : list chunkptr) (ranks : list (chunkptr * nat)) (R : nat)
    (s : state) : bool :=
  fl_path_b s (small_free_list s) L && nodup_b L
  && forallb (fun e => (snd e <=? R)%nat) ranks
  && forallb (body_ok_b L ranks) (enum_heap 0 (heap s)).

Definition item_a : chunkptr := CP 3 0.
Definition item_b : chunkptr := CP 3 1.

(** ** Chunks given back to the free lists *)

(** The body chunks of a large item: from [p], the [next_chunk] links lead
    through the used large chunks [B] to [NULL_CHUNKPTR]. *)
Fixpoint large_body_list (s : state) (p : chunkptr) (B : list nat) : Prop :=
  match B with
  | [] => p = NULL_CHUNKPTR
  | l :: B' =>
      p = CP l 0
      /\ exists c, heap s !! l = Some c
           /\ lc_flags c = Z.lor LARGE_CHUNK_INITIALIZED LARGE_CHUNK_USED
           /\ large_body_list s (lc_body_next_chunk c) B'
  end.

(** The same for the body chunks of a small item. *)
Fixpoint small_body_list (s : state) (p : chunkptr) (B : list chunkptr) : Prop :=
  match B with
  | [] => p = NULL_CHUNKPTR
  | q :: B' =>
      p = q
      /\ exists sc, scp_at s q = Some sc
           /\ sc_flags sc = Z.lor SMALL_CHUNK_INITIALIZED SMALL_CHUNK_USED
           /\ small_body_list s (sc_body_next_chunk sc) B'
  end.

(** What a small chunk in use holds for its item: its flags, its title and
    its [next_chunk]; nothing for a chunk that is not marked used. *)
Definition used_view (s : state) (q : chunkptr)
    : option (Z * item_header * chunkptr) :=
  match scp_at s q with
  | Some sc =>
      if has_flag (sc_flags sc) SMALL_CHUNK_USED
      then Some (sc_flags sc, sc_title sc, sc_body_next_chunk sc)
      else None
  | None => None
  end.

(** From [p], the links of the free view lead through the large chunks [L],
    each one marked free, to [q]. *)
Fixpoint lfl_seg (s : state) (p : chunkptr) (L : list nat) (q : chunkptr) : Prop :=
  match L with
  | [] => p = q
  | l :: L' =>
      p = CP l 0
      /\ exists c, heap s !! l = Some c
           /\ lc_flags c = Z.lor LARGE_CHUNK_INITIALIZED LARGE_CHUNK_FREE
           /\ lfl_seg s (lc_free_next c) L' q
  end.

(** A small chunk that was given back: it is marked free in its broken
    large chunk, or the large chunk around it is whole again and marked
    free itself. *)
Definition small_released (s : state) (p : chunkptr) : Prop :=
  match p with
  | NULL_CHUNKPTR => False
  | CP l i =>
      exists c, heap s !! l = Some c
        /\ (lc_flags c = Z.lor LARGE_CHUNK_INITIALIZED LARGE_CHUNK_FREE
            \/ (lc_flags c = LARGE_CHUNK_BROKEN_FLAGS
                /\ exists sc, lbc c !! i = Some sc
                     /\ sc_flags sc = Z.lor SMALL_CHUNK_INITIALIZED SMALL_CHUNK_FREE))
  end.

(** The item at [it], with header [h] in [s], is free in [s']: it had as
    many chunks as its header asks for, and all of them were given back.
    For a large item, its chunks were pushed on the large free list, the
    body chunks in the order of the chain and the title last, and no other
    large chunk was touched; for a small item, the title and every body
    chunk are released. *)
Definition item_freed (K : constants) (s s' : state) (it : chunkptr) (h : item_header)
    : Prop :=
  if is_item_large_chunk K h then
    exists lt B,
      it = CP lt 0
      /\ large_body_list s (next_chunk h) B
      /\ NoDup (lt :: B)
      /\ wrap64 (Z.of_nat (length B) + 1) = chunks_in_item K h
      /\ lfl_seg s' (large_free_list s') (lt :: rev B) (large_free_list s)
      /\ large_free_list_sz s'
         = wrap64 (large_free_list_sz s + Z.of_nat (length B) + 1)
      /\ (forall k, k ∉ lt :: B -> heap s' !! k = heap s !! k)
  else
    exists B,
      small_body_list s (next_chunk h) B
      /\ wrap64 (Z.of_nat (length B) + 1) = chunks_in_item K h
      /\ Forall (small_released s') (it :: B).

(** What [item_free] asserts of the header of the item it frees. *)
Definition free_header_ok (h : item_header) : Prop :=
  Z.land (it_flags h) (Z.lnot (Z.lor ITEM_HAS_TIMESTAMP ITEM_HAS_IP_ADDRESS)) = ITEM_VALID
  /\ next h = NULL_CHUNKPTR /\ prev h = NULL_CHUNKPTR /\ h_next h = NULL_CHUNKPTR.

(** A large item as [do_item_alloc] chains it: a title chunk and the body
    chunks [B], all different, as many as the header asks for. *)
Definition large_item_at (K : constants) (s : state) (it : chunkptr) (h : item_header)
    (B : list nat) : Prop :=
  exists lt c,
    it = CP lt 0 /\ heap s !! lt = Some c
    /\ lc_flags c = Z.lor (Z.lor LARGE_CHUNK_INITIALIZED LARGE_CHUNK_USED) LARGE_CHUNK_TITLE
    /\ large_body_list s (next_chunk h) B
    /\ NoDup (lt :: B)
    /\ wrap64 (Z.of_nat (length B) + 1) = chunks_in_item K h.

(** ** Scenarios that free an item *)

(** As [run_alloc_a], then the reference dropped. *)
Definition run_alloc_deref_a : M unit :=
  run_alloc_a ;;; do_item_deref scenario 16 item_a.

(** As [run_alloc_large], then the reference dropped. *)
Definition run_alloc_deref_large : M unit :=
  run_alloc_large ;;; do_item_deref scenario 16 item_a.

(** * Reasoning about monadic code *)

Lemma bind_Ok {A B} (m : M A) (k : A -> M B) s r :
  bind m k s = Ok r -> exists a s', m s = Ok (a, s') /\ k a s' = Ok r.
Proof.
  unfold bind. destruct (m s) as [[a s']| |]; try discriminate. eauto.
Qed.

Lemma bind_Ok_intro {A B} (m : M A) (k : A -> M B) s a s' :
  m s = Ok (a, s') -> bind m k s = k a s'.
Proof. unfold bind. intros ->. reflexivity. Qed.

Lemma keeps_preserves {A B} (f : state -> B) (Q : B -> Prop) (m : M A) :
  keeps f m -> preserves (fun s => Q (f s)) m.
Proof. intros H s a s' HQ Hm. rewrite (H _ _ _ Hm). exact HQ. Qed.

Section Keeps.
Context {B : Type} (f : state -> B).

Lemma keeps_ret {A} (a : A) : keeps f (ret a).
Proof. intros s a' s' H. inversion H. reflexivity. Qed.

Lemma keeps_fault {A} : keeps f (@fault A).
Proof. intros s a s' H. discriminate. Qed.

Lemma keeps_out_of_fuel {A} : keeps f (@out_of_fuel A).
Proof. intros s a s' H. discriminate. Qed.

Lemma keeps_gets {A} (g : state -> A) : keeps f (gets g).
Proof. intros s a s' H. inversion H. reflexivity. Qed.

Lemma keeps_assert b : keeps f (assert b).
Proof. destruct b; [apply keeps_ret | apply keeps_fault]. Qed.

Lemma keeps_modify g : (forall s, f (g s) = f s) -> keeps f (modify g).
Proof. intros Hg s a s' H. inversion H. apply Hg. Qed.

Lemma keeps_bind {A C} (m : M A) (k : A -> M C) :
  keeps f m -> (forall a, keeps f (k a)) -> keeps f (bind m k).
Proof.
  intros Hm Hk s c s' H. apply bind_Ok in H as (a & s1 & H1 & H2).
  rewrite (Hk _ _ _ _ H2). eapply Hm, H1.
Qed.

Lemma keeps_when b m : keeps f m -> keeps f (when b m).
Proof. destruct b; [auto | intros; apply keeps_ret]. Qed.

Lemma keeps_for_up_from n : forall start body,
  (forall i, keeps f (body i)) -> keeps f (for_up_from start n body).
Proof.
  induction n as [|n IH]; intros start body Hb; simpl.
  - apply keeps_ret.
  - apply keeps_bind; [apply Hb | intros _; apply IH, Hb].
Qed.

Lemma keeps_for_up n body :
  (forall i, keeps f (body i)) -> keeps f (for_up n body).
Proof. apply keeps_for_up_from. Qed.

Lemma keeps_for_down n body :
  (forall i, keeps f (body i)) -> keeps f (for_down n body).
Proof.
  intros Hb. induction n as [|n IH]; simpl.
  - apply keeps_ret.
  - apply keeps_bind; [apply Hb | intros _; apply IH].
Qed.

End Keeps.

Section Preserves.
Context (P : state -> Prop).

Lemma pres_ret {A} (a : A) : preserves P (ret a).
Proof. intros s a' s' HP H. inversion H. subst. exact HP. Qed.

Lemma pres_fault {A} : preserves P (@fault A).
Proof. intros s a s' _ H. discriminate. Qed.

Lemma pres_out_of_fuel {A} : preserves P (@out_of_fuel A).
Proof. intros s a s' _ H. discriminate. Qed.

Lemma pres_gets {A} (g : state -> A) : preserves P (gets g).
Proof. intros s a s' HP H. inversion H. subst. exact HP. Qed.

Lemma pres_assert b : preserves P (assert b).
Proof. destruct b; [apply pres_ret | apply pres_fault]. Qed.

Lemma pres_modify g : (forall s, P s -> P (g s)) -> preserves P (modify g).
Proof. intros Hg s a s' HP H. inversion H. subst. auto. Qed.

Lemma pres_bind {A C} (m : M A) (k : A -> M C) :
  preserves P m -> (forall a, preserves P (k a)) -> preserves P (bind m k).
Proof.
  intros Hm Hk s c s' HP H. apply bind_Ok in H as (a & s1 & H1 & H2).
  eapply Hk; [|exact H2]. eapply Hm; eauto.
Qed.

Lemma pres_when b m : preserves P m -> preserves P (when b m).
Proof. destruct b; [auto | intros; apply pres_ret]. Qed.

Lemma pres_for_up_from n : forall start body,
  (forall i, preserves P (body i)) -> preserves P (for_up_from start n body).
Proof.
  induction n as [|n IH]; intros start body Hb; simpl.
  - apply pres_ret.
  - apply pres_bind; [apply Hb | intros _; apply IH, Hb].
Qed.

Lemma pres_for_up n body :
  (forall i, preserves P (body i)) -> preserves P (for_up n body).
Proof. apply pres_for_up_from. Qed.

Lemma pres_for_down n body :
  (forall i, preserves P (body i)) -> preserves P (for_down n body).
Proof.
  intros Hb. induction n as [|n IH]; simpl.
  - apply pres_ret.
  - apply pres_bind; [apply Hb | intros _; apply IH].
Qed.

End Preserves.

(** Splits a goal [keeps f m] or [preserves P m] along the structure of [m];
    [tac] closes the leaves. *)
Ltac keeps_step tac :=
  lazymatch goal with
  | |- keeps _ (bind _ _) => apply keeps_bind; [|intros ?]
  | |- keeps _ (ret _) => apply keeps_ret
  | |- keeps _ fault => apply keeps_fault
  | |- keeps _ out_of_fuel => apply keeps_out_of_fuel
  | |- keeps _ (gets _) => apply keeps_gets
  | |- keeps _ (assert _) => apply keeps_assert
  | |- keeps _ (when false _) => exact (keeps_ret _ tt)
  | |- keeps _ (when _ _) => apply keeps_when
  | |- keeps _ (for_up _ _) => apply keeps_for_up; intros ?
  | |- keeps _ (for_down _ _) => apply keeps_for_down; intros ?
  | |- keeps _ (modify _) => apply keeps_modify; intros ?; tac
  | |- keeps _ (modify_stats _) => unfold modify_stats
  | |- preserves _ (modify_stats _) => unfold modify_stats
  | |- keeps _ (if ?b then _ else _) => destruct b
  | |- keeps _ (match ?x with _ => _ end) => destruct x
  | |- keeps _ (let (_, _) := ?x in _) => destruct x
  | |- preserves _ (bind _ _) => apply pres_bind; [|intros ?]
  | |- preserves _ (ret _) => apply pres_ret
  | |- preserves _ fault => apply pres_fault
  | |- preserves _ out_of_fuel => apply pres_out_of_fuel
  | |- preserves _ (gets _) => apply pres_gets
  | |- preserves _ (assert _) => apply pres_assert
  | |- preserves _ (when false _) => exact (pres_ret _ tt)
  | |- preserves _ (when _ _) => apply pres_when
  | |- preserves _ (for_up _ _) => apply pres_for_up; intros ?
  | |- preserves _ (for_down _ _) => apply pres_for_down; intros ?
  | |- preserves _ (if ?b then _ else _) => destruct b
  | |- preserves _ (match ?x with _ => _ end) => destruct x
  | |- preserves _ (let (_, _) := ?x in _) => destruct x
  | |- _ => tac
  end.

Ltac keeps_auto tac := repeat (keeps_step tac).

(** * The break and unbreak counters *)

Create HintDb frame.

(** ** Code that does not touch the counters *)

Lemma keeps_ctr_read_lc l : keeps ctr (read_lc l).
Proof.
  intros s a s' H. unfold read_lc in H.
  destruct (heap s !! l); inversion H; reflexivity.
Qed.

Lemma keeps_ctr_write_lc l c : keeps ctr (write_lc l c).
Proof.
  intros s a s' H. unfold write_lc in H.
  destruct (heap s !! l); inversion H; reflexivity.
Qed.

Lemma keeps_ctr_hist_add k d : keeps ctr (hist_add k d).
Proof.
  intros s a s' H. unfold hist_add in H.
  destruct (k <? 0); [discriminate|].
  destruct (_ !! _); inversion H; reflexivity.
Qed.

#[export] Hint Resolve keeps_ctr_read_lc keeps_ctr_write_lc keeps_ctr_hist_add : frame.

Ltac frame_leaf := first [reflexivity | solve [eauto with frame]].
Ltac frame := keeps_auto frame_leaf.

Lemma keeps_ctr_modify_lc l g : keeps ctr (modify_lc l g).
Proof. unfold modify_lc. frame. Qed.
#[export] Hint Resolve keeps_ctr_modify_lc : frame.

Lemma keeps_ctr_read_sc l i : keeps ctr (read_sc l i).
Proof. unfold read_sc. frame. Qed.
#[export] Hint Resolve keeps_ctr_read_sc : frame.

Lemma keeps_ctr_write_sc l i c : keeps ctr (write_sc l i c).
Proof. unfold write_sc. frame. Qed.
#[export] Hint Resolve keeps_ctr_write_sc : frame.

Lemma keeps_ctr_modify_sc l i g : keeps ctr (modify_sc l i g).
Proof. unfold modify_sc. frame. Qed.
#[export] Hint Resolve keeps_ctr_modify_sc : frame.

Lemma keeps_ctr_read_lcp p : keeps ctr (read_lcp p).
Proof. unfold read_lcp. frame. Qed.

Lemma keeps_ctr_modify_lcp p g : keeps ctr (modify_lcp p g).
Proof. unfold modify_lcp. frame. Qed.

Lemma keeps_ctr_read_scp p : keeps ctr (read_scp p).
Proof. unfold read_scp. frame. Qed.

Lemma keeps_ctr_modify_scp p g : keeps ctr (modify_scp p g).
Proof. unfold modify_scp. frame. Qed.

Lemma keeps_ctr_read_hdr p : keeps ctr (read_hdr p).
Proof. unfold read_hdr. frame. Qed.

Lemma keeps_ctr_modify_hdr p g : keeps ctr (modify_hdr p g).
Proof. unfold modify_hdr. frame. Qed.

Lemma keeps_ctr_read_slot sl : keeps ctr (read_slot sl).
Proof. unfold read_slot. frame. Qed.

Lemma keeps_ctr_write_slot sl v : keeps ctr (write_slot sl v).
Proof. unfold write_slot. frame. Qed.

#[export] Hint Resolve keeps_ctr_read_lcp keeps_ctr_modify_lcp keeps_ctr_read_scp
  keeps_ctr_modify_scp keeps_ctr_read_hdr keeps_ctr_modify_hdr keeps_ctr_read_slot
  keeps_ctr_write_slot : frame.

Lemma keeps_ctr_log_event e : keeps ctr (log_event e).
Proof. unfold log_event. frame. Qed.
#[export] Hint Resolve keeps_ctr_log_event : frame.

Section CounterFrame.
Context (K : constants).

Lemma keeps_ctr_free_list_push_large p : keeps ctr (free_list_push_large p).
Proof. unfold free_list_push_large. frame. Qed.

Lemma keeps_ctr_small_free_list_splice l i sc : keeps ctr (small_free_list_splice l i sc).
Proof. unfold small_free_list_splice. frame. Qed.

Lemma keeps_ctr_free_list_pop ty : keeps ctr (free_list_pop K ty).
Proof. unfold free_list_pop. frame. Qed.

Lemma keeps_ctr_free_list_push_no_merge p ty :
  keeps ctr (free_list_push K p ty false).
Proof.
  unfold free_list_push. pose proof keeps_ctr_free_list_push_large. frame.
Qed.

Lemma keeps_ctr_flat_storage_alloc : keeps ctr (flat_storage_alloc K).
Proof.
  unfold flat_storage_alloc. pose proof keeps_ctr_free_list_push_no_merge. frame.
Qed.

Lemma keeps_ctr_get_lru_item : keeps ctr (get_lru_item K).
Proof.
  unfold get_lru_item. apply keeps_bind; [frame|]. intros tail.
  generalize (Z.to_nat (LRU_SEARCH_DEPTH K)). intros n. revert tail.
  induction n as [|n IH]; intros tail; simpl; frame.
Qed.

Lemma keeps_ctr_small_chunk_title_walk fuel : forall p,
  keeps ctr (small_chunk_title_walk fuel p).
Proof. induction fuel as [|fuel IH]; intros p; simpl; frame. Qed.

Lemma keeps_ctr_small_chunk_referenced fuel p : keeps ctr (small_chunk_referenced fuel p).
Proof.
  unfold small_chunk_referenced. pose proof keeps_ctr_small_chunk_title_walk. frame.
Qed.

Lemma keeps_ctr_large_broken_chunk_referenced fuel l :
  keeps ctr (large_broken_chunk_referenced K fuel l).
Proof.
  unfold large_broken_chunk_referenced. generalize 0%nat at 1.
  generalize (SMALL_CHUNKS_PER_LARGE_CHUNK K).
  pose proof keeps_ctr_small_chunk_referenced.
  intros n; induction n as [|n IH]; intros c; simpl; frame.
Qed.

Lemma keeps_ctr_find_unreferenced_broken_chunk fuel d :
  keeps ctr (find_unreferenced_broken_chunk K fuel d).
Proof.
  unfold find_unreferenced_broken_chunk. apply keeps_bind; [frame|]. intros head.
  generalize 0 at 1. revert head. pose proof keeps_ctr_large_broken_chunk_referenced.
  induction fuel as [|fuel IH]; intros head c; simpl; frame.
Qed.

Lemma keeps_ctr_item_key_copy it : keeps ctr (item_key_copy K it).
Proof.
  assert (HL : forall n p left, keeps ctr (item_walk_large_body K n p left)).
  { induction n as [|n IH]; intros p left; simpl; frame. }
  assert (HS : forall n p left, keeps ctr (item_walk_small_body K n p left)).
  { induction n as [|n IH]; intros p left; simpl; frame. }
  unfold item_key_copy. frame.
Qed.

Lemma keeps_ctr_item_link_q it : keeps ctr (item_link_q it).
Proof. unfold item_link_q. frame. Qed.

Lemma keeps_ctr_item_unlink_q it : keeps ctr (item_unlink_q it).
Proof. unfold item_unlink_q. frame. Qed.

End CounterFrame.

#[export] Hint Resolve keeps_ctr_free_list_push_large keeps_ctr_small_free_list_splice
  keeps_ctr_free_list_pop keeps_ctr_free_list_push_no_merge keeps_ctr_flat_storage_alloc
  keeps_ctr_get_lru_item keeps_ctr_small_chunk_referenced
  keeps_ctr_large_broken_chunk_referenced keeps_ctr_find_unreferenced_broken_chunk
  keeps_ctr_item_key_copy keeps_ctr_item_link_q keeps_ctr_item_unlink_q : frame.

(** ** Parity of break and unbreak events *)

Create HintDb parity.

Lemma wrap64_idemp_add a c : wrap64 (wrap64 a + c) = wrap64 (a + c).
Proof. unfold wrap64. apply Zplus_mod_idemp_l. Qed.

Lemma wrap64_idemp_sub_l a c : wrap64 (wrap64 a - c) = wrap64 (a - c).
Proof. unfold wrap64. apply Zminus_mod_idemp_l. Qed.

Lemma wrap64_idemp_sub_r a c : wrap64 (a - wrap64 c) = wrap64 (a - c).
Proof. unfold wrap64. apply Zminus_mod_idemp_r. Qed.

Lemma parity_of_ctr s s' :
  ctr s' = ctr s -> break_unbreak_parity s -> break_unbreak_parity s'.
Proof.
  unfold ctr, break_unbreak_parity. intros H. inversion H as [[Hb Hu Hl]].
  rewrite Hb, Hu, Hl. auto.
Qed.

Lemma keeps_parity {A} (m : M A) : keeps ctr m -> preserves break_unbreak_parity m.
Proof.
  intros H s a s' HP Hm.
  apply (parity_of_ctr s s'); [exact (H _ _ _ Hm) | exact HP].
Qed.

Ltac parity_step :=
  first [ solve [eauto 3 with parity]
        | keeps_step ltac:(apply keeps_parity; solve [frame]) ].
Ltac parity := repeat parity_step.

(** The counter updates that end [break_large_chunk]. *)
Lemma parity_break_tail :
  preserves break_unbreak_parity
    (modify_stats (fun t => set_large_broken_chunks (wrap64 (large_broken_chunks t + 1)) t) ;;;
     modify_stats (fun t => set_break_events (wrap64 (break_events t + 1)) t)).
Proof.
  intros s a s' HP H. inversion H. subst. clear H.
  unfold break_unbreak_parity in *. simpl.
  rewrite <- HP, wrap64_idemp_sub_l, wrap64_idemp_add. f_equal. lia.
Qed.

(** The counter updates that end [unbreak_large_chunk]. *)
Lemma parity_unbreak_tail :
  preserves break_unbreak_parity
    (modify_stats (fun t => set_large_broken_chunks (wrap64 (large_broken_chunks t - 1)) t) ;;;
     hist_add 0 (-1) ;;;
     modify_stats (fun t => set_unbreak_events (wrap64 (unbreak_events t + 1)) t)).
Proof.
  intros s a s' HP H.
  apply bind_Ok in H as (? & s1 & H1 & H). inversion H1; subst; clear H1.
  apply bind_Ok in H as (? & s2 & H2 & H). inversion H; subst; clear H.
  assert (Hc : ctr s2 = ctr (set_stats
            (set_large_broken_chunks (wrap64 (large_broken_chunks (stats s) - 1)) (stats s)) s))
    by (eapply keeps_ctr_hist_add; eauto).
  unfold ctr in Hc. simpl in Hc. inversion Hc as [[Hb Hu Hl]].
  unfold break_unbreak_parity in *. simpl. rewrite Hb, Hu, Hl.
  rewrite <- HP, wrap64_idemp_sub_r, wrap64_idemp_sub_l. f_equal. lia.
Qed.

#[export] Hint Resolve parity_break_tail parity_unbreak_tail : parity.

Section Parity.
Context (K : constants).

Lemma parity_unbreak_large_chunk l mandatory :
  preserves break_unbreak_parity (unbreak_large_chunk K l mandatory).
Proof. unfold unbreak_large_chunk. parity. Qed.

Lemma parity_free_list_push p ty try_merge :
  preserves break_unbreak_parity (free_list_push K p ty try_merge).
Proof.
  unfold free_list_push. pose proof parity_unbreak_large_chunk. parity.
Qed.

Lemma parity_break_large_chunk p :
  preserves break_unbreak_parity (break_large_chunk K p).
Proof.
  unfold break_large_chunk. parity.
Qed.

Lemma parity_coalesce_donor l :
  preserves break_unbreak_parity (coalesce_donor K l).
Proof.
  pose proof parity_unbreak_large_chunk.
  unfold coalesce_donor, coalesce_park_free, coalesce_migrate,
    coalesce_fix_title, coalesce_fix_body.
  parity.
Qed.

Lemma parity_coalesce_free_small_chunks fuel :
  preserves break_unbreak_parity (coalesce_free_small_chunks K fuel).
Proof.
  unfold coalesce_free_small_chunks. generalize COALESCE_NO_PROGRESS.
  pose proof parity_coalesce_donor.
  induction fuel as [|fuel IH]; intros r; simpl; parity.
Qed.

Lemma parity_item_free fuel it :
  preserves break_unbreak_parity (item_free K fuel it).
Proof.
  pose proof parity_free_list_push.
  assert (HL : forall fuel p n,
             preserves break_unbreak_parity (item_free_large_bodies K fuel p n)).
  { clear fuel. intros fuel; induction fuel as [|fuel IH]; intros p n; simpl; parity. }
  assert (HS : forall fuel p n,
             preserves break_unbreak_parity (item_free_small_bodies K fuel p n)).
  { clear fuel. intros fuel; induction fuel as [|fuel IH]; intros p n; simpl; parity. }
  unfold item_free. parity.
Qed.

Lemma parity_do_item_unlink fuel it flags key :
  preserves break_unbreak_parity (do_item_unlink K fuel it flags key).
Proof.
  pose proof parity_item_free. unfold do_item_unlink. parity.
Qed.

Lemma parity_flat_storage_lru_evict fuel : forall ty n,
  preserves break_unbreak_parity (flat_storage_lru_evict K fuel ty n).
Proof.
  pose proof parity_do_item_unlink. pose proof parity_coalesce_free_small_chunks.
  induction fuel as [|fuel IH]; intros ty n; simpl; parity.
Qed.

Lemma parity_do_item_alloc fuel key nkey flags exptime nbytes addr :
  preserves break_unbreak_parity (do_item_alloc K fuel key nkey flags exptime nbytes addr).
Proof.
  pose proof parity_flat_storage_lru_evict. pose proof parity_coalesce_free_small_chunks.
  pose proof parity_break_large_chunk.
  assert (HAL : forall fuel needed prev,
             preserves break_unbreak_parity (alloc_acquire_large K fuel needed prev)).
  { clear fuel. intros fuel; induction fuel as [|fuel IH]; intros; simpl; parity. }
  assert (HAS : forall fuel needed sp lp,
             preserves break_unbreak_parity (alloc_acquire_small K fuel needed sp lp)).
  { clear fuel. intros fuel; induction fuel as [|fuel IH]; intros; simpl; parity. }
  assert (HBL : forall n title r k kl wo a,
             preserves break_unbreak_parity (alloc_large_bodies K n title r k kl wo a)).
  { intros n; induction n as [|n IH]; intros; simpl;
      unfold stamp_large_body, write_ref_large; parity. }
  assert (HBS : forall n title pv r k kl wo a,
             preserves break_unbreak_parity (alloc_small_bodies K n title pv r k kl wo a)).
  { intros n; induction n as [|n IH]; intros; simpl;
      unfold stamp_small_body, write_ref_small; parity. }
  unfold do_item_alloc, alloc_chain_large, alloc_chain_small, stamp_large_title,
    stamp_small_title, write_ref_large, write_ref_small.
  parity.
Qed.

Lemma parity_do_item_link it key :
  preserves break_unbreak_parity (do_item_link it key).
Proof. unfold do_item_link. parity. Qed.

Lemma parity_do_item_deref fuel it :
  preserves break_unbreak_parity (do_item_deref K fuel it).
Proof. pose proof parity_item_free. unfold do_item_deref. parity. Qed.

Lemma parity_do_item_update it :
  preserves break_unbreak_parity (do_item_update K it).
Proof. unfold do_item_update. parity. Qed.

Lemma parity_do_item_replace fuel it new_it key :
  preserves break_unbreak_parity (do_item_replace K fuel it new_it key).
Proof.
  pose proof parity_do_item_unlink. pose proof parity_do_item_link.
  unfold do_item_replace. parity.
Qed.

Lemma parity_do_item_flush_expired fuel :
  preserves break_unbreak_parity (do_item_flush_expired K fuel).
Proof.
  pose proof parity_do_item_unlink.
  assert (HL : forall fuel it, preserves break_unbreak_parity (flush_expired_loop K fuel it)).
  { clear fuel. intros fuel; induction fuel as [|fuel IH]; intros it; simpl;
      destruct it; parity. }
  unfold do_item_flush_expired. parity.
Qed.

Lemma parity_do_item_get_notedeleted fuel key nkey :
  preserves break_unbreak_parity (do_item_get_notedeleted K fuel key nkey).
Proof.
  pose proof parity_do_item_unlink.
  unfold do_item_get_notedeleted, item_delete_lock_over. parity.
Qed.

Lemma parity_do_item_get_nocheck key nkey :
  preserves break_unbreak_parity (do_item_get_nocheck K key nkey).
Proof. unfold do_item_get_nocheck. parity. Qed.

Lemma parity_do_item_stats_sizes fuel malloc_ok :
  preserves break_unbreak_parity (do_item_stats_sizes K fuel malloc_ok).
Proof.
  assert (HS : forall fuel n it h,
             preserves break_unbreak_parity (stats_sizes_small_pass K fuel n it h)).
  { clear fuel. intros fuel; induction fuel as [|fuel IH]; intros n it h; simpl;
      destruct it; unfold read_small_title; parity. }
  assert (HL : forall fuel n it h,
             preserves break_unbreak_parity (stats_sizes_large_pass K fuel n it h)).
  { clear fuel. intros fuel; induction fuel as [|fuel IH]; intros n it h; simpl;
      destruct it; unfold read_large_title; parity. }
  unfold do_item_stats_sizes. parity.
Qed.

Lemma parity_run_op fuel o : preserves break_unbreak_parity (run_op K fuel o).
Proof.
  pose proof parity_do_item_alloc. pose proof parity_do_item_link.
  pose proof parity_do_item_unlink. pose proof parity_do_item_deref.
  pose proof parity_do_item_update. pose proof parity_do_item_replace.
  pose proof parity_do_item_get_notedeleted. pose proof parity_do_item_get_nocheck.
  pose proof parity_do_item_flush_expired. pose proof parity_do_item_stats_sizes.
  destruct o; unfold run_op, item_get; parity.
Qed.

Lemma parity_flat_storage_init maxbytes :
  preserves break_unbreak_parity (flat_storage_init K maxbytes).
Proof. unfold flat_storage_init. parity. Qed.

(** C3.  In every state reachable from [flat_storage_init] by the public
    operations, [break_events - unbreak_events] equals
    [large_broken_chunks], the counter of the broken large chunks. *)
Theorem break_unbreak_parity_reachable s :
  reachable K s -> break_unbreak_parity s.
Proof.
  induction 1 as [maxbytes oldest detail s Hinit | s fuel o s' _ IH Hstep].
  - eapply parity_flat_storage_init; [|exact Hinit]. reflexivity.
  - eapply parity_run_op; eauto.
Qed.

End Parity.

(** * Item headers in memory *)

Lemma chunkptr_eqb_eq a b : chunkptr_eqb a b = true <-> a = b.
Proof.
  destruct a as [|l i], b as [|l' i']; simpl; split; try congruence.
  - intros H. apply andb_true_iff in H as [H1 H2].
    apply Nat.eqb_eq in H1, H2. congruence.
  - intros H. inversion H. subst. rewrite !Nat.eqb_refl. reflexivity.
Qed.

Lemma chunkptr_eqb_refl a : chunkptr_eqb a a = true.
Proof. apply chunkptr_eqb_eq. reflexivity. Qed.

Lemma chunkptr_eqb_neq a b : chunkptr_eqb a b = false <-> a <> b.
Proof.
  rewrite <- chunkptr_eqb_eq. destruct (chunkptr_eqb a b); split; congruence.
Qed.

Lemma chunkptr_eq_dec (a b : chunkptr) : {a = b} + {a <> b}.
Proof. decide equality; apply Nat.eq_dec. Qed.

Lemma is_null_true p : is_null p = true <-> p = NULL_CHUNKPTR.
Proof. destruct p; simpl; split; congruence. Qed.

Lemma is_null_false p : is_null p = false <-> p <> NULL_CHUNKPTR.
Proof. destruct p; simpl; split; congruence. Qed.

Lemma read_hdr_spec p s :
  read_hdr p s = match hdr_at s p with
                 | Some h => Ok (h, s)
                 | None => Fault
                 end.
Proof.
  destruct p as [|l i]; simpl; [reflexivity|].
  unfold bind, read_lc, read_sc, bind, read_lc.
  destruct (heap s !! l) as [c|] eqn:Hl; [|reflexivity].
  destruct (has_flag (lc_flags c) LARGE_CHUNK_BROKEN).
  - rewrite Hl. destruct (lbc c !! i); reflexivity.
  - destruct i; reflexivity.
Qed.

Lemma modify_hdr_spec p g s :
  modify_hdr p g s = match hdr_at s p with
                     | Some _ => Ok (tt, upd_hdr p g s)
                     | None => Fault
                     end.
Proof.
  destruct p as [|l i]; simpl; [reflexivity|].
  unfold bind, read_lc, modify_sc, read_sc, write_sc, bind, read_lc, write_lc.
  destruct (heap s !! l) as [c|] eqn:Hl; [|reflexivity].
  destruct (has_flag (lc_flags c) LARGE_CHUNK_BROKEN).
  - rewrite Hl. destruct (lbc c !! i) eqn:Hi; simpl; [|reflexivity].
    rewrite Hl. simpl. rewrite Hi. simpl. rewrite Hl. reflexivity.
  - destruct i; simpl; [|reflexivity]. rewrite Hl. reflexivity.
Qed.

Lemma hdr_at_upd_hdr_same p g s h :
  hdr_at s p = Some h -> hdr_at (upd_hdr p g s) p = Some (g h).
Proof.
  destruct p as [|l i]; simpl; [discriminate|].
  destruct (heap s !! l) as [c|] eqn:Hl; [|discriminate].
  destruct (has_flag (lc_flags c) LARGE_CHUNK_BROKEN) eqn:Hb.
  - destruct (lbc c !! i) as [sc|] eqn:Hi; [|discriminate].
    intros [= <-]. simpl.
    rewrite list_lookup_insert_eq by (eapply lookup_lt_Some; eauto).
    simpl. rewrite Hb.
    rewrite list_lookup_insert_eq by (eapply lookup_lt_Some; eauto).
    reflexivity.
  - destruct i; [|discriminate]. intros [= <-]. simpl.
    rewrite list_lookup_insert_eq by (eapply lookup_lt_Some; eauto).
    simpl. rewrite Hb. reflexivity.
Qed.

Lemma hdr_at_upd_hdr_other p q g s :
  p <> q -> hdr_at (upd_hdr p g s) q = hdr_at s q.
Proof.
  intros Hne. destruct p as [|l i]; [reflexivity|].
  destruct q as [|l' i']; [destruct (upd_hdr _ _ _); reflexivity|].
  simpl. destruct (heap s !! l) as [c|] eqn:Hl; [|reflexivity].
  destruct (has_flag (lc_flags c) LARGE_CHUNK_BROKEN) eqn:Hb.
  - destruct (lbc c !! i) as [sc|] eqn:Hi; [|reflexivity]. simpl.
    destruct (decide (l = l')) as [<-|Hll].
    + rewrite list_lookup_insert_eq by (eapply lookup_lt_Some; eauto).
      rewrite Hl. simpl. rewrite Hb.
      rewrite list_lookup_insert_ne by congruence. reflexivity.
    + rewrite list_lookup_insert_ne by congruence. reflexivity.
  - destruct i; [|reflexivity]. simpl.
    destruct (decide (l = l')) as [<-|Hll].
    + rewrite list_lookup_insert_eq by (eapply lookup_lt_Some; eauto).
      rewrite Hl. simpl. rewrite Hb. destruct i'; [congruence|reflexivity].
    + rewrite list_lookup_insert_ne by congruence. reflexivity.
Qed.

Lemma hdr_at_upd_hdr p q g s h :
  hdr_at s p = Some h ->
  hdr_at (upd_hdr p g s) q = if chunkptr_eqb p q then Some (g h) else hdr_at s q.
Proof.
  intros Hp. destruct (chunkptr_eqb p q) eqn:E.
  - apply chunkptr_eqb_eq in E as <-. apply hdr_at_upd_hdr_same, Hp.
  - apply chunkptr_eqb_neq in E. apply hdr_at_upd_hdr_other, E.
Qed.

(** [upd_hdr] only writes the heap. *)
Lemma upd_hdr_frame p g s :
  exists hp, upd_hdr p g s = set_heap hp s.
Proof.
  assert (Hs : s = set_heap (heap s) s) by (destruct s; reflexivity).
  destruct p as [|l i]; simpl; [eauto|].
  destruct (heap s !! l) as [c|]; [|eauto].
  destruct (has_flag _ _); [destruct (lbc c !! i)|destruct i]; eauto.
Qed.

Lemma upd_hdr_id p g s :
  (forall h, g h = h) -> upd_hdr p g s = s.
Proof.
  intros Hg. destruct p as [|l i]; simpl; [reflexivity|].
  destruct (heap s !! l) as [c|] eqn:Hl; [|reflexivity].
  assert (Hs : forall hp, hp = heap s -> set_heap hp s = s)
    by (intros ? ->; destruct s; reflexivity).
  destruct (has_flag _ _).
  - destruct (lbc c !! i) as [sc|] eqn:Hi; [|reflexivity].
    apply Hs. rewrite Hg.
    replace (set_sc_title (sc_title sc) sc) with sc by (destruct sc; reflexivity).
    rewrite (list_insert_id _ _ _ Hi).
    replace (set_lbc (lbc c) c) with c by (destruct c; reflexivity).
    apply list_insert_id, Hl.
  - destruct i; [|reflexivity]. apply Hs. rewrite Hg.
    replace (set_lc_title (lc_title c) c) with c by (destruct c; reflexivity).
    apply list_insert_id, Hl.
Qed.

Lemma upd_hdr_ext p g g' s h :
  hdr_at s p = Some h -> g h = g' h -> upd_hdr p g s = upd_hdr p g' s.
Proof.
  destruct p as [|l i]; simpl; [reflexivity|].
  destruct (heap s !! l) as [c|]; [|reflexivity].
  destruct (has_flag _ _).
  - destruct (lbc c !! i); [|reflexivity]. intros [= <-] ->. reflexivity.
  - destruct i; [|reflexivity]. intros [= <-] ->. reflexivity.
Qed.

(** * Reference counts, unlinking and the LRU scan *)

(** ** Read-only code *)

Create HintDb readonly.

Ltac readonly := keeps_auto ltac:(solve [eauto with readonly]).

Lemma readonly_read_lc l : keeps (fun s => s) (read_lc l).
Proof.
  intros s a s' H. unfold read_lc in H.
  destruct (heap s !! l); inversion H; reflexivity.
Qed.
#[export] Hint Resolve readonly_read_lc : readonly.

Lemma readonly_read_sc l i : keeps (fun s => s) (read_sc l i).
Proof. unfold read_sc. readonly. Qed.
#[export] Hint Resolve readonly_read_sc : readonly.

Lemma readonly_read_lcp p : keeps (fun s => s) (read_lcp p).
Proof. unfold read_lcp. readonly. Qed.

Lemma readonly_read_scp p : keeps (fun s => s) (read_scp p).
Proof. unfold read_scp. readonly. Qed.

Lemma readonly_read_hdr p : keeps (fun s => s) (read_hdr p).
Proof. unfold read_hdr. readonly. Qed.
#[export] Hint Resolve readonly_read_lcp readonly_read_scp readonly_read_hdr : readonly.

Lemma readonly_item_key_copy K it : keeps (fun s => s) (item_key_copy K it).
Proof.
  assert (HL : forall n p left, keeps (fun s => s) (item_walk_large_body K n p left)).
  { induction n as [|n IH]; intros p left; simpl; readonly. }
  assert (HS : forall n p left, keeps (fun s => s) (item_walk_small_body K n p left)).
  { induction n as [|n IH]; intros p left; simpl; readonly. }
  unfold item_key_copy. readonly.
Qed.

Lemma readonly_get_lru_item_loop n : forall p,
  keeps (fun s => s) (get_lru_item_loop n p).
Proof. induction n as [|n IH]; intros p; simpl; readonly. Qed.

(** ** Stepping through code at a known state *)

Arguments hdr_at : simpl never.
Arguments upd_hdr : simpl never.

Lemma bind_read_hdr {B} p (k : item_header -> M B) s h :
  hdr_at s p = Some h -> bind (read_hdr p) k s = k h s.
Proof. intros H. unfold bind. rewrite read_hdr_spec, H. reflexivity. Qed.

Lemma bind_modify_hdr {B} p g (k : unit -> M B) s h :
  hdr_at s p = Some h -> bind (modify_hdr p g) k s = k tt (upd_hdr p g s).
Proof. intros H. unfold bind. rewrite modify_hdr_spec, H. reflexivity. Qed.

Section Deref.
Context (K : constants).

(** [do_item_deref], step by step: at reference count zero the count stays
    zero, otherwise it drops by one; [item_free] runs exactly when, after
    that, the count is zero and [ITEM_LINKED] is clear (the call stops at
    its assertion when a delete-locked item would reach zero). *)
Lemma do_item_deref_step fuel it s h :
  hdr_at s it = Some h ->
  has_flag (it_flags h) ITEM_VALID = true ->
  let rc' := if refcount h =? 0 then 0 else refcount h - 1 in
  let s1 := if refcount h =? 0 then s else upd_hdr it (set_refcount rc') s in
  hdr_at s1 it = Some (set_refcount rc' h)
  /\ (0 <= refcount h -> 0 <= rc' <= refcount h)
  /\ do_item_deref K fuel it s =
       if has_flag (it_flags h) ITEM_DELETED && (rc' =? 0) then Fault
       else if (rc' =? 0) && negb (has_flag (it_flags h) ITEM_LINKED)
            then item_free K fuel it s1
            else Ok (tt, s1).
Proof.
  intros Hh Hv rc' s1.
  assert (H1 : hdr_at s1 it = Some (set_refcount rc' h)).
  { subst s1 rc'. destruct (refcount h =? 0) eqn:E.
    - apply Z.eqb_eq in E. rewrite Hh. f_equal.
      destruct h; simpl in *; subst; reflexivity.
    - apply hdr_at_upd_hdr_same, Hh. }
  split; [exact H1|]. split.
  { subst rc'. destruct (refcount h =? 0) eqn:E; lia. }
  unfold do_item_deref.
  rewrite (bind_read_hdr _ _ _ _ Hh). rewrite Hv. simpl assert.
  change (bind (ret tt) ?k s) with (k tt s). cbv beta.
  assert (Hstep : forall B (k : unit -> M B),
             bind (when (negb (refcount h =? 0))
                     (modify_hdr it (fun h0 => set_refcount (refcount h0 - 1) h0))) k s
             = k tt s1).
  { intros B k. subst s1 rc'. destruct (refcount h =? 0) eqn:E; simpl.
    - reflexivity.
    - rewrite (bind_modify_hdr _ _ _ _ _ Hh). f_equal.
      apply (upd_hdr_ext _ _ _ _ _ Hh). reflexivity. }
  rewrite Hstep. rewrite (bind_read_hdr _ _ _ _ H1). simpl.
  destruct (has_flag (it_flags h) ITEM_DELETED); simpl.
  - destruct (rc' =? 0); simpl; [reflexivity|].
    reflexivity.
  - destruct (rc' =? 0); simpl; [|reflexivity].
    destruct (has_flag (it_flags h) ITEM_LINKED); reflexivity.
Qed.

End Deref.

Section Unlink.
Context (K : constants).

(** C5.  [do_item_unlink] on an item whose [ITEM_LINKED] flag is clear
    changes nothing: whenever the call returns, the whole state (the item,
    the LRU, the assoc table, every counter) is the one it started from; and
    it does return for a valid item whose key can be read. *)
Theorem do_item_unlink_idempotent fuel it flags key s h :
  hdr_at s it = Some h ->
  has_flag (it_flags h) ITEM_LINKED = false ->
  (forall r, do_item_unlink K fuel it flags key s = Ok r -> r = (tt, s))
  /\ (has_flag (it_flags h) ITEM_VALID = true ->
      (key = None -> exists k, item_key_copy K it s = Ok (k, s)) ->
      do_item_unlink K fuel it flags key s = Ok (tt, s)).
Proof.
  intros Hh Hl.
  assert (Hrest : forall k : list Z,
    bind (read_hdr it) (fun h0 =>
      assert (has_flag (it_flags h0) ITEM_VALID) ;;;
      when (has_flag (it_flags h0) ITEM_LINKED)
        (modify_hdr it (fun h1 => set_it_flags (clear_flag (it_flags h1) ITEM_LINKED) h1) ;;;
         let! now := gets current_time in
         let flags0 :=
           if has_flag flags UNLINK_MAYBE_EVICT
           then if (exptime h0 =? 0) || (now <? exptime h0)
                then UNLINK_IS_EVICT else UNLINK_IS_EXPIRED
           else flags in
         let sz := nkey h0 + nbytes h0 in
         modify (fun s0 => set_tls (tls_unlink sz (tls s0)) s0) ;;;
         (if has_flag flags0 UNLINK_IS_EVICT
          then log_event (Ev_evict sz) ;;;
               modify (fun s0 => set_tls (tls_evict (tls s0)) s0)
          else when (has_flag flags0 UNLINK_IS_EXPIRED) (log_event (Ev_expire sz))) ;;;
         let! detail := gets detail_enabled in
         when detail (log_event (Ev_prefix_removal k (nkey h0) sz (time h0) flags0)) ;;;
         modify (fun s0 => set_assoc
                   (assoc_delete (take (Z.to_nat (nkey h0)) k) (assoc s0)) s0) ;;;
         modify_hdr it (set_h_next NULL_CHUNKPTR) ;;;
         item_unlink_q it ;;;
         let! h' := read_hdr it in
         when (refcount h' =? 0) (item_free K fuel it))) s
    = if has_flag (it_flags h) ITEM_VALID then Ok (tt, s) else Fault).
  { intros k. rewrite (bind_read_hdr _ _ _ _ Hh). rewrite Hl.
    destruct (has_flag (it_flags h) ITEM_VALID); reflexivity. }
  split.
  - intros r Hr. unfold do_item_unlink in Hr.
    apply bind_Ok in Hr as (k & s0 & Hk & Hr).
    assert (s0 = s) as ->.
    { destruct key as [k0|].
      - inversion Hk. reflexivity.
      - exact (readonly_item_key_copy K it _ _ _ Hk). }
    rewrite Hrest in Hr. destruct (has_flag (it_flags h) ITEM_VALID); congruence.
  - intros Hv Hkey. unfold do_item_unlink.
    destruct key as [k0|].
    + change (bind (ret k0) ?k s) with (k k0 s). cbv beta.
      rewrite Hrest, Hv. reflexivity.
    + destruct (Hkey eq_refl) as [k Hk].
      rewrite (bind_Ok_intro _ _ _ _ _ Hk). rewrite Hrest, Hv. reflexivity.
Qed.

End Unlink.

Section LruScan.
Context (K : constants).

Lemma get_lru_item_loop_spec n : forall s p,
  lru_window_ok n s p ->
  get_lru_item_loop n p s =
    Ok (match find (fun x => refcount (snd x) =? 0) (lru_window n s p) with
        | Some x => fst x
        | None => NULL_CHUNKPTR
        end, s).
Proof.
  induction n as [|n IH]; intros s p Hok; simpl; [reflexivity|].
  destruct p as [|l i]; [reflexivity|].
  simpl in Hok. destruct (hdr_at s (CP l i)) as [h|] eqn:Hh; [|contradiction].
  rewrite (bind_read_hdr _ _ _ _ Hh). simpl.
  destruct (refcount h =? 0); [reflexivity|].
  apply IH, Hok.
Qed.

(** C4.  [get_lru_item] looks at no more than [LRU_SEARCH_DEPTH] items,
    from [fsi.lru_tail] along the [prev] links, and returns the first of
    them whose reference count is zero, or [NULL] when that window (or the
    whole list, when shorter) has none; the state is not changed. *)
Theorem get_lru_item_spec s :
  let depth := Z.to_nat (LRU_SEARCH_DEPTH K) in
  let window := lru_window depth s (lru_tail s) in
  lru_window_ok depth s (lru_tail s) ->
  (length window <= depth)%nat
  /\ get_lru_item K s =
       Ok (match find (fun x => refcount (snd x) =? 0) window with
           | Some x => fst x
           | None => NULL_CHUNKPTR
           end, s).
Proof.
  intros depth window Hok. split.
  - subst window. generalize (lru_tail s). generalize depth.
    intros n; induction n as [|n IH]; intros p; simpl; [lia|].
    destruct (hdr_at s p); simpl; [|lia]. specialize (IH (prev i)). lia.
  - unfold get_lru_item. change (bind (gets lru_tail) ?k s) with (k (lru_tail s) s).
    cbv beta. apply get_lru_item_loop_spec, Hok.
Qed.

End LruScan.

(** * The size histogram *)

Lemma wrap32_idemp_add a c : wrap32 (wrap32 a + c) = wrap32 (a + c).
Proof. unfold wrap32. apply Zplus_mod_idemp_l. Qed.

Lemma wrap32_small a : 0 <= a < 2 ^ 32 -> wrap32 a = a.
Proof. intros H. unfold wrap32. apply Z.mod_small, H. Qed.

Lemma wrap32_range a : 0 <= wrap32 a < 2 ^ 32.
Proof. unfold wrap32. apply Z.mod_pos_bound. lia. Qed.

Section StatsSizes.
Context (K : constants).

Lemma count_in_bucket_nil b : count_in_bucket K [] b = 0.
Proof. reflexivity. Qed.

Lemma count_in_bucket_cons x l b :
  count_in_bucket K (x :: l) b =
    (if decide (stats_sizes_bucket K (snd x) = b) then 1 else 0) + count_in_bucket K l b.
Proof.
  unfold count_in_bucket. rewrite filter_cons.
  destruct (decide (stats_sizes_bucket K (snd x) = b)); simpl length; lia.
Qed.

Lemma count_in_bucket_bounds l b : 0 <= count_in_bucket K l b <= Z.of_nat (length l).
Proof.
  induction l as [|x l IH]; [rewrite count_in_bucket_nil; simpl; lia|].
  rewrite count_in_bucket_cons. simpl length. destruct (decide _); lia.
Qed.

(** The two loops of [do_item_stats_sizes] walk the same fields. *)
Lemma stats_sizes_large_pass_eq fuel nb it h s :
  stats_sizes_large_pass K fuel nb it h s = stats_sizes_small_pass K fuel nb it h s.
Proof. reflexivity. Qed.

(** Counting one item. *)
Lemma stats_sizes_count_spec nb h H :
  0 <= stats_sizes_bucket K h ->
  length H = Z.to_nat nb ->
  Forall (fun v => 0 <= v < 2 ^ 32) H ->
  exists H1,
    stats_sizes_count K nb h H = Some H1 /\ length H1 = length H
    /\ Forall (fun v => 0 <= v < 2 ^ 32) H1
    /\ forall k v, H !! k = Some v ->
         H1 !! k = Some (wrap32 (v + if decide (stats_sizes_bucket K h = Z.of_nat k)
                                     then 1 else 0)).
Proof.
  intros Hb Hlen Hok. unfold stats_sizes_count.
  assert (Hsame : forall k v, H !! k = Some v -> Some v = Some (wrap32 (v + 0))).
  { intros k v Hk. rewrite Z.add_0_r, wrap32_small; [reflexivity|].
    eapply (proj1 (Forall_lookup _ _) Hok); eauto. }
  destruct (stats_sizes_bucket K h <? nb) eqn:Elt.
  - apply Z.ltb_lt in Elt.
    destruct (stats_sizes_bucket K h <? 0) eqn:E0; [apply Z.ltb_lt in E0; lia|].
    destruct (H !! Z.to_nat (stats_sizes_bucket K h)) as [v0|] eqn:Hv0.
    + eexists. split; [reflexivity|]. split; [apply length_insert|]. split.
      { apply Forall_insert; [exact Hok | apply wrap32_range]. }
      intros k v Hk. destruct (decide (stats_sizes_bucket K h = Z.of_nat k)) as [e|ne].
      * rewrite e, Nat2Z.id in *.
        rewrite list_lookup_insert_eq by (eapply lookup_lt_Some; eauto). congruence.
      * rewrite list_lookup_insert_ne by lia. rewrite Hk. eapply Hsame; eauto.
    + apply lookup_ge_None in Hv0. lia.
  - exists H. split; [reflexivity|]. split; [reflexivity|]. split; [exact Hok|].
    intros k v Hk. apply Z.ltb_ge in Elt.
    pose proof (lookup_lt_Some _ _ _ Hk).
    destruct (decide _) as [e|ne]; [lia|]. rewrite Hk. eapply Hsame; eauto.
Qed.

(** One pass adds to every bucket the number of items of the LRU that fall
    in it. *)
Lemma stats_sizes_small_pass_spec s nb p l :
  lru_chain s p l ->
  forall fuel H,
  (length l < fuel)%nat ->
  length H = Z.to_nat nb ->
  Forall (fun v => 0 <= v < 2 ^ 32) H ->
  (forall x, x ∈ l -> 0 <= stats_sizes_bucket K (snd x)) ->
  exists H',
    stats_sizes_small_pass K fuel nb p H s = Ok (H', s)
    /\ length H' = length H
    /\ Forall (fun v => 0 <= v < 2 ^ 32) H'
    /\ forall k v, H !! k = Some v ->
         H' !! k = Some (wrap32 (v + count_in_bucket K l (Z.of_nat k))).
Proof.
  induction 1 as [|p h l Hh Hchain IH]; intros fuel H Hfuel Hlen Hok Hpos.
  - exists H. split; [destruct fuel; reflexivity|]. split; [reflexivity|].
    split; [exact Hok|].
    intros k v Hk. rewrite count_in_bucket_nil, Z.add_0_r, wrap32_small; [exact Hk|].
    eapply (proj1 (Forall_lookup _ _) Hok); eauto.
  - destruct fuel as [|fuel]; [simpl in Hfuel; lia|].
    destruct p as [|pl pi]; [discriminate|]. simpl.
    rewrite (bind_read_hdr _ _ _ _ Hh).
    assert (Hb : 0 <= stats_sizes_bucket K h).
    { apply (Hpos (CP pl pi, h)). apply list_elem_of_here. }
    destruct (stats_sizes_count_spec nb h H Hb Hlen Hok) as (H1 & E1 & Hlen1 & Hok1 & Hk1).
    rewrite E1. unfold read_small_title. rewrite (bind_read_hdr _ _ _ _ Hh).
    destruct (IH fuel H1) as (H' & E' & Hlen' & Hok' & Hk').
    { simpl in Hfuel. lia. }
    { congruence. }
    { exact Hok1. }
    { intros x Hx. apply Hpos. apply list_elem_of_further, Hx. }
    exists H'. split; [exact E'|]. split; [congruence|]. split; [exact Hok'|].
    intros k v Hk. rewrite (Hk' _ _ (Hk1 _ _ Hk)). f_equal.
    rewrite wrap32_idemp_add, count_in_bucket_cons. simpl snd. f_equal. lia.
Qed.

(** The lines written for a histogram: one per bucket that is not zero. *)
Lemma stats_sizes_lines_spec H : forall i sz v,
  (sz, v) ∈ stats_sizes_lines i H <->
  exists k, H !! k = Some v /\ v <> 0 /\ sz = (i + Z.of_nat k) * 32.
Proof.
  induction H as [|v0 H IH]; intros i sz v; simpl.
  - split; [intros Hin; inversion Hin | intros (k & Hk & _); discriminate].
  - rewrite elem_of_app, IH. split.
    + intros [Hin | (k & Hk & Hv & ->)].
      * destruct (v0 =? 0) eqn:E; simpl in Hin; [inversion Hin|].
        apply list_elem_of_singleton in Hin. inversion Hin; subst.
        exists 0%nat. split; [reflexivity|]. split; [apply Z.eqb_neq, E|]. f_equal. lia.
      * exists (S k). split; [exact Hk|]. split; [exact Hv|]. f_equal. lia.
    + intros (k & Hk & Hv & ->). destruct k as [|k].
      * left. simpl in Hk. inversion Hk; subst.
        apply Z.eqb_neq in Hv. rewrite Hv. simpl. apply list_elem_of_singleton.
        f_equal. f_equal. lia.
      * right. exists k. split; [exact Hk|]. split; [exact Hv|]. f_equal. lia.
Qed.

(** C6.  [do_item_stats_sizes] walks the LRU twice, once through the
    [small_title] view and once through the [large_title] view of the same
    header, so every linked item is counted twice: each bucket value it
    reports is exactly double the number of linked items whose total size
    falls in that bucket. *)
Theorem do_item_stats_sizes_doubled fuel s l :
  lru_chain s (lru_head s) l ->
  (length l < fuel)%nat ->
  2 * Z.of_nat (length l) < 2 ^ 32 ->
  (forall x, x ∈ l -> 0 <= stats_sizes_bucket K (snd x)) ->
  exists lines,
    do_item_stats_sizes K fuel true s = Ok (Some lines, s)
    /\ forall sz v, (sz, v) ∈ lines <->
         exists b, 0 <= b < stats_sizes_num_buckets K /\ sz = b * 32
                   /\ v = 2 * count_in_bucket K l b /\ v <> 0.
Proof.
  intros Hchain Hfuel Hsmall Hpos.
  set (nb := stats_sizes_num_buckets K).
  set (H0 := replicate (Z.to_nat nb) 0).
  assert (Hlen0 : length H0 = Z.to_nat nb) by apply length_replicate.
  assert (Hok0 : Forall (fun v => 0 <= v < 2 ^ 32) H0).
  { apply Forall_replicate. lia. }
  destruct (stats_sizes_small_pass_spec s nb _ l Hchain fuel H0 Hfuel Hlen0 Hok0 Hpos)
    as (H1 & E1 & Hlen1 & Hok1 & Hk1).
  destruct (stats_sizes_small_pass_spec s nb _ l Hchain fuel H1 Hfuel
              ltac:(congruence) Hok1 Hpos) as (H2 & E2 & Hlen2 & Hok2 & Hk2).
  exists (stats_sizes_lines 0 H2). split.
  - unfold do_item_stats_sizes. change (negb true) with false. cbv iota zeta.
    unfold bind, gets. fold nb. fold H0. rewrite E1.
    rewrite stats_sizes_large_pass_eq, E2. reflexivity.
  - assert (Hfinal : forall k, (k < Z.to_nat nb)%nat ->
              H2 !! k = Some (2 * count_in_bucket K l (Z.of_nat k))).
    { intros k Hk.
      assert (Hk0 : H0 !! k = Some 0) by (apply lookup_replicate_2, Hk).
      rewrite (Hk2 _ _ (Hk1 _ _ Hk0)). f_equal.
      rewrite wrap32_idemp_add.
      pose proof (count_in_bucket_bounds l (Z.of_nat k)).
      rewrite wrap32_small by lia. lia. }
    intros sz v. rewrite stats_sizes_lines_spec. split.
    + intros (k & Hk & Hv & ->).
      assert (Hlt : (k < Z.to_nat nb)%nat).
      { apply lookup_lt_Some in Hk. lia. }
      rewrite (Hfinal k Hlt) in Hk. inversion Hk; subst.
      exists (Z.of_nat k). repeat split; lia.
    + intros (b & Hb & -> & -> & Hv).
      exists (Z.to_nat b). rewrite (Hfinal (Z.to_nat b)) by lia.
      rewrite Z2Nat.id by lia. repeat split; first [exact Hv | lia].
Qed.

End StatsSizes.

(** * The LRU as a doubly linked list *)

Lemma hdr_at_upd_hdr_gen p q g s :
  hdr_at (upd_hdr p g s) q =
    if chunkptr_eqb p q then option_map g (hdr_at s q) else hdr_at s q.
Proof.
  destruct (chunkptr_eqb p q) eqn:E.
  - apply chunkptr_eqb_eq in E as <-.
    destruct (hdr_at s p) as [h|] eqn:Hp.
    + apply hdr_at_upd_hdr_same, Hp.
    + assert (upd_hdr p g s = s) as ->; [|exact Hp].
      unfold upd_hdr, hdr_at in *. destruct p as [|l i]; [reflexivity|].
      destruct (heap s !! l) as [c|]; [|reflexivity].
      destruct (has_flag _ _); [destruct (lbc c !! i)|destruct i];
        congruence.
  - apply chunkptr_eqb_neq in E. apply hdr_at_upd_hdr_other, E.
Qed.

(** [upd_hdr] leaves everything but the heap alone. *)
Lemma upd_hdr_proj {A} (f : state -> A) p g s :
  (forall hp s0, f (set_heap hp s0) = f s0) -> f (upd_hdr p g s) = f s.
Proof.
  intros Hf. destruct (upd_hdr_frame p g s) as [hp ->]. apply Hf.
Qed.

Lemma lru_head_upd_hdr p g s : lru_head (upd_hdr p g s) = lru_head s.
Proof. apply (upd_hdr_proj lru_head). reflexivity. Qed.

Lemma lru_tail_upd_hdr p g s : lru_tail (upd_hdr p g s) = lru_tail s.
Proof. apply (upd_hdr_proj lru_tail). reflexivity. Qed.

Lemma current_time_upd_hdr p g s : current_time (upd_hdr p g s) = current_time s.
Proof. apply (upd_hdr_proj current_time). reflexivity. Qed.

Lemma hd_in {A} (d : A) (l : list A) : l <> [] -> hd d l ∈ l.
Proof. destruct l; [congruence | intros _; apply list_elem_of_here]. Qed.

Lemma last_in {A} (d : A) (l : list A) : l <> [] -> List.last l d ∈ l.
Proof.
  induction l as [|x l IH]; [congruence|]. intros _.
  destruct l as [|y l]; [apply list_elem_of_here|].
  apply list_elem_of_further. change (List.last (y :: l) d ∈ y :: l).
  apply IH. congruence.
Qed.

Lemma last_cons_ne {A} (d e : A) x l : l <> [] -> List.last (x :: l) d = List.last l e.
Proof.
  revert x. induction l as [|y l IH]; [congruence|]. intros x _.
  destruct l as [|z l]; [reflexivity|].
  change (List.last (y :: z :: l) d = List.last (y :: z :: l) e).
  change (List.last (z :: l) d = List.last (z :: l) e).
  specialize (IH y ltac:(congruence)). exact IH.
Qed.

Lemma last_default {A} (d e : A) l : l <> [] -> List.last l d = List.last l e.
Proof.
  induction l as [|x l IH]; [congruence|]. intros _.
  destruct l as [|y l]; [reflexivity|].
  change (List.last (y :: l) d = List.last (y :: l) e). apply IH. congruence.
Qed.

Lemma last_app_cons {A} (d : A) l1 x l2 :
  List.last (l1 ++ x :: l2) d = List.last (x :: l2) d.
Proof.
  induction l1 as [|y l1 IH]; [reflexivity|].
  simpl app. rewrite (last_cons_ne d d y (l1 ++ x :: l2)); [exact IH|].
  destruct l1; discriminate.
Qed.

Section Segments.
Context (s : state).

Lemma lru_seg_elem b l a p :
  lru_seg s b l a -> p ∈ l -> p <> NULL_CHUNKPTR /\ exists h, hdr_at s p = Some h.
Proof.
  revert b. induction l as [|x l IH]; intros b Hseg Hin; [inversion Hin|].
  simpl in Hseg. destruct (hdr_at s x) as [h|] eqn:Hx; [|contradiction].
  destruct Hseg as (Hnn & _ & _ & Hrest).
  apply elem_of_cons in Hin as [->|Hin]; [eauto | eapply IH; eauto].
Qed.

Lemma lru_seg_app b l1 l2 a :
  lru_seg s b (l1 ++ l2) a <->
  lru_seg s b l1 (hd a l2) /\ lru_seg s (List.last l1 b) l2 a.
Proof.
  revert b. induction l1 as [|x l1 IH]; intros b; simpl.
  - tauto.
  - destruct (hdr_at s x) as [h|]; [|tauto].
    rewrite IH.
    assert (Hhd : hd a (l1 ++ l2) = hd (hd a l2) l1) by (destruct l1; reflexivity).
    assert (Hlast : List.last l1 x = match l1 with [] => x | _ => List.last l1 b end).
    { destruct l1; [reflexivity|]. apply last_default. congruence. }
    rewrite Hhd. destruct l1 as [|y l1]; [tauto|]. rewrite Hlast. tauto.
Qed.

End Segments.

(** A write to a header outside the segment does not disturb it. *)
Lemma lru_seg_upd_other s q g b l a :
  q ∉ l -> lru_seg s b l a -> lru_seg (upd_hdr q g s) b l a.
Proof.
  revert b. induction l as [|x l IH]; intros b Hq Hseg; [exact I|].
  simpl in *. rewrite hdr_at_upd_hdr_gen.
  apply not_elem_of_cons in Hq as [Hqx Hq].
  apply chunkptr_eqb_neq in Hqx. rewrite Hqx.
  destruct (hdr_at s x) as [h|]; [|contradiction].
  destruct Hseg as (H1 & H2 & H3 & H4). repeat split; auto.
Qed.

(** Redirecting the [prev] of the first item. *)
Lemma lru_seg_set_before s b b' x l a :
  x ∉ l -> lru_seg s b (x :: l) a ->
  lru_seg (upd_hdr x (set_prev b') s) b' (x :: l) a.
Proof.
  intros Hx Hseg. simpl in *. rewrite hdr_at_upd_hdr_gen, chunkptr_eqb_refl.
  destruct (hdr_at s x) as [h|]; [|contradiction]. simpl.
  destruct Hseg as (H1 & H2 & H3 & H4). repeat split; auto.
  apply lru_seg_upd_other; assumption.
Qed.

(** Redirecting the [next] of the last item. *)
Lemma lru_seg_set_after s b l a a' :
  NoDup l -> l <> [] -> lru_seg s b l a ->
  lru_seg (upd_hdr (List.last l NULL_CHUNKPTR) (set_next a') s) b l a'.
Proof.
  revert b. induction l as [|x l IH]; intros b Hnd Hne Hseg; [congruence|].
  apply NoDup_cons in Hnd as [Hx Hnd].
  destruct l as [|y l].
  - simpl in *. rewrite hdr_at_upd_hdr_gen, chunkptr_eqb_refl.
    destruct (hdr_at s x) as [h|]; [|contradiction]. simpl.
    destruct Hseg as (H1 & H2 & H3 & H4). repeat split; auto.
  - change (List.last (x :: y :: l) NULL_CHUNKPTR) with (List.last (y :: l) NULL_CHUNKPTR).
    assert (Hlast : List.last (y :: l) NULL_CHUNKPTR ∈ y :: l)
      by (apply last_in; congruence).
    assert (Hxl : x <> List.last (y :: l) NULL_CHUNKPTR) by (intros E; apply Hx; rewrite E; exact Hlast).
    specialize (IH x Hnd ltac:(congruence)).
    remember (List.last (y :: l) NULL_CHUNKPTR) as q eqn:Hq. clear Hq Hlast.
    remember (y :: l) as l' eqn:Hl'.
    simpl lru_seg in Hseg |- *. rewrite hdr_at_upd_hdr_gen.
    assert (E : chunkptr_eqb q x = false) by (apply chunkptr_eqb_neq; congruence).
    rewrite E. destruct (hdr_at s x) as [h|]; [|contradiction].
    destruct Hseg as (H1 & H2 & H3 & H4). repeat split; auto.
    subst l'. exact H3.
Qed.

(** * Unlinking from and linking into the LRU *)

Lemma bind_ret {A B} (a : A) (k : A -> M B) s : bind (ret a) k s = k a s.
Proof. reflexivity. Qed.

Lemma bind_gets {A B} (f : state -> A) (k : A -> M B) s : bind (gets f) k s = k (f s) s.
Proof. reflexivity. Qed.

Lemma bind_modify {B} (g : state -> state) (k : unit -> M B) s :
  bind (modify g) k s = k tt (g s).
Proof. reflexivity. Qed.

Lemma bind_bind {A B C} (m : M A) (f : A -> M B) (k : B -> M C) s :
  bind (bind m f) k s = bind m (fun a => bind (f a) k) s.
Proof. unfold bind. destruct (m s) as [[a s']| |]; reflexivity. Qed.

Lemma bind_when_true {B} b m (k : unit -> M B) s :
  b = true -> bind (when b m) k s = bind m k s.
Proof. intros ->. reflexivity. Qed.

Lemma bind_when_false {B} b m (k : unit -> M B) s :
  b = false -> bind (when b m) k s = k tt s.
Proof. intros ->. reflexivity. Qed.

Lemma bind_assert_true {B} b (k : unit -> M B) s :
  b = true -> bind (assert b) k s = k tt s.
Proof. intros ->. reflexivity. Qed.

Lemma when_true b m s : b = true -> when b m s = m s.
Proof. intros ->. reflexivity. Qed.

Lemma when_false b m s : b = false -> when b m s = Ok (tt, s).
Proof. intros ->. reflexivity. Qed.

Lemma lru_frame_refl s : lru_frame s s.
Proof. exists (heap s), (lru_head s), (lru_tail s). destruct s; reflexivity. Qed.

Lemma lru_frame_trans s1 s2 s3 : lru_frame s1 s2 -> lru_frame s2 s3 -> lru_frame s1 s3.
Proof.
  intros (hp & hd & tl & ->) (hp' & hd' & tl' & ->).
  exists hp', hd', tl'. reflexivity.
Qed.

Lemma lru_frame_upd_hdr p g s : lru_frame s (upd_hdr p g s).
Proof.
  destruct (upd_hdr_frame p g s) as [hp ->].
  exists hp, (lru_head s), (lru_tail s). destruct s; reflexivity.
Qed.

Lemma lru_frame_set_lru_head v s : lru_frame s (set_lru_head v s).
Proof. exists (heap s), v, (lru_tail s). destruct s; reflexivity. Qed.

Lemma lru_frame_set_lru_tail v s : lru_frame s (set_lru_tail v s).
Proof. exists (heap s), (lru_head s), v. destruct s; reflexivity. Qed.

Lemma same_item_refl h : same_item h h.
Proof. reflexivity. Qed.

Lemma same_item_trans h1 h2 h3 : same_item h1 h2 -> same_item h2 h3 -> same_item h1 h3.
Proof. unfold same_item. congruence. Qed.

Lemma same_items_refl s : same_items s s.
Proof. intros p. destruct (hdr_at s p); [apply same_item_refl | exact I]. Qed.

Lemma same_items_trans s1 s2 s3 : same_items s1 s2 -> same_items s2 s3 -> same_items s1 s3.
Proof.
  intros H12 H23 p. specialize (H12 p). specialize (H23 p).
  destruct (hdr_at s1 p), (hdr_at s2 p), (hdr_at s3 p); try contradiction; auto.
  eapply same_item_trans; eauto.
Qed.

Lemma same_items_upd_hdr p g s :
  (forall h, same_item h (g h)) -> same_items s (upd_hdr p g s).
Proof.
  intros Hg q. rewrite hdr_at_upd_hdr_gen.
  destruct (chunkptr_eqb p q); destruct (hdr_at s q); simpl; auto using same_item_refl.
Qed.

Lemma same_items_heap_eq s s' : heap s' = heap s -> same_items s s'.
Proof.
  intros E p. unfold hdr_at. rewrite E.
  destruct p as [|l i]; [exact I|]. destruct (heap s !! l) as [c|]; [|exact I].
  destruct (has_flag _ _); [destruct (lbc c !! i)|destruct i]; auto using same_item_refl.
Qed.

Lemma same_item_it_flags h h' : same_item h h' -> it_flags h' = it_flags h.
Proof. unfold same_item. intros E. apply (f_equal it_flags) in E. simpl in E. congruence. Qed.

Lemma lru_seg_heap_eq s s' b l a : heap s' = heap s -> lru_seg s b l a -> lru_seg s' b l a.
Proof.
  intros E. revert b. induction l as [|x l IH]; intros b; simpl; [auto|].
  assert (Hx : hdr_at s' x = hdr_at s x) by (unfold hdr_at; rewrite E; reflexivity).
  rewrite Hx. destruct (hdr_at s x); [|auto]. intros (H1 & H2 & H3 & H4). auto.
Qed.

(** ** [item_unlink_q] *)

Lemma same_item_set_prev v h : same_item h (set_prev v h).
Proof. reflexivity. Qed.

Lemma same_item_set_next v h : same_item h (set_next v h).
Proof. reflexivity. Qed.

Lemma same_item_set_time v h : same_item h (set_time v h).
Proof. reflexivity. Qed.

Lemma same_items_set_lru_head v s : same_items s (set_lru_head v s).
Proof. apply same_items_heap_eq. reflexivity. Qed.

Lemma same_items_set_lru_tail v s : same_items s (set_lru_tail v s).
Proof. apply same_items_heap_eq. reflexivity. Qed.

Ltac frame_facts :=
  repeat lazymatch goal with
  | |- lru_frame ?s ?s => apply lru_frame_refl
  | |- lru_frame _ (upd_hdr _ _ _) =>
      eapply lru_frame_trans; [|apply lru_frame_upd_hdr]
  | |- lru_frame _ (set_lru_head _ _) =>
      eapply lru_frame_trans; [|apply lru_frame_set_lru_head]
  | |- lru_frame _ (set_lru_tail _ _) =>
      eapply lru_frame_trans; [|apply lru_frame_set_lru_tail]
  | |- same_items ?s ?s => apply same_items_refl
  | |- same_items _ (upd_hdr _ _ _) =>
      eapply same_items_trans;
        [|apply same_items_upd_hdr;
          first [apply same_item_set_prev | apply same_item_set_next
                | apply same_item_set_time]]
  | |- same_items _ (set_lru_head _ _) =>
      eapply same_items_trans; [|apply same_items_set_lru_head]
  | |- same_items _ (set_lru_tail _ _) =>
      eapply same_items_trans; [|apply same_items_set_lru_tail]
  end.

(** The item [it] of the LRU [l1 ++ it :: l2] leaves the list; its own links
    become null. *)
Lemma item_unlink_q_spec s l1 it l2 :
  lru_is s (l1 ++ it :: l2) ->
  exists h s',
    hdr_at s it = Some h
    /\ item_unlink_q it s = Ok (tt, s')
    /\ lru_is s' (l1 ++ l2)
    /\ hdr_at s' it = Some (set_next NULL_CHUNKPTR (set_prev NULL_CHUNKPTR h))
    /\ lru_frame s s' /\ same_items s s'.
Proof.
  intros (Hnd & Hhead & Htail & Hseg).
  apply lru_seg_app in Hseg as [Hseg1 Hseg2]. simpl hd in Hseg1.
  simpl in Hseg2. destruct (hdr_at s it) as [h|] eqn:Hh; [|contradiction].
  destruct Hseg2 as (Hnn & Hprev & Hnext & Hseg2).
  apply NoDup_app in Hnd as (Hnd1 & Hdisj & Hnd2).
  apply NoDup_cons in Hnd2 as [Hit2 Hnd2].
  assert (Hit1 : it ∉ l1).
  { intros Hin. apply (Hdisj _ Hin). apply list_elem_of_here. }
  rewrite last_app_cons in Htail.
  exists h.
  assert (Hitb : chunkptr_eqb it it = true) by apply chunkptr_eqb_refl.
  assert (Hnull : is_null NULL_CHUNKPTR = true) by reflexivity.
  destruct l1 as [|x1 l1'], l2 as [|nxt l2'].
  - (* the only item *)
    simpl in Hhead, Htail, Hprev, Hnext.
    eexists. split; [reflexivity|]. split.
    { unfold item_unlink_q. rewrite (bind_read_hdr _ _ _ _ Hh). cbv zeta.
      rewrite Hprev, Hnext, bind_gets, Hhead.
      rewrite bind_when_true, bind_bind, bind_assert_true, bind_modify by assumption.
      rewrite bind_gets. simpl lru_tail. rewrite Htail.
      rewrite bind_when_true, bind_bind, bind_assert_true, bind_modify by assumption.
      rewrite !bind_when_false by reflexivity.
      erewrite bind_modify_hdr by exact Hh.
      rewrite modify_hdr_spec. erewrite hdr_at_upd_hdr_same by exact Hh.
      reflexivity. }
    split; [|split; [|split]].
    + simpl app. split; [constructor|]. split; [|split; [|exact I]];
        rewrite ?lru_head_upd_hdr, ?lru_tail_upd_hdr; reflexivity.
    + rewrite !hdr_at_upd_hdr_gen, Hitb.
      change (hdr_at (set_lru_tail _ (set_lru_head _ s)) it) with (hdr_at s it).
      rewrite Hh. reflexivity.
    + frame_facts.
    + frame_facts.
  - (* the head of a longer list *)
    simpl in Hhead, Hprev, Hnext.
    assert (Hx : nxt <> it).
    { intros ->. apply Hit2. apply list_elem_of_here. }
    apply NoDup_cons in Hnd2 as [Hnxt Hnd2].
    assert (Hlast : List.last (nxt :: l2') NULL_CHUNKPTR ∈ nxt :: l2')
      by (apply last_in; congruence).
    assert (Htl : chunkptr_eqb it (lru_tail s) = false).
    { apply chunkptr_eqb_neq. rewrite Htail.
      rewrite (last_cons_ne _ NULL_CHUNKPTR) by congruence.
      intros E. apply Hit2. rewrite E. exact Hlast. }
    destruct (lru_seg_elem s _ _ _ nxt Hseg2 ltac:(apply list_elem_of_here))
      as (Hnxtnn & hn & Hhn).
    eexists. split; [reflexivity|]. split.
    { unfold item_unlink_q. rewrite (bind_read_hdr _ _ _ _ Hh). cbv zeta.
      rewrite Hprev, Hnext, bind_gets, Hhead.
      rewrite bind_when_true, bind_bind, bind_assert_true, bind_modify by assumption.
      rewrite bind_gets. simpl lru_tail.
      rewrite bind_when_false by assumption.
      rewrite bind_when_true by (apply negb_true_iff, is_null_false; assumption).
      rewrite bind_bind.
      erewrite bind_read_hdr by exact Hh. rewrite Hprev.
      erewrite bind_modify_hdr by exact Hhn.
      rewrite bind_when_false by reflexivity.
      erewrite bind_modify_hdr
        by (rewrite hdr_at_upd_hdr_other by assumption; exact Hh).
      rewrite modify_hdr_spec.
      erewrite hdr_at_upd_hdr_same
        by (rewrite hdr_at_upd_hdr_other by assumption; exact Hh).
      reflexivity. }
    split; [|split; [|split]].
    + split; [simpl; constructor; assumption|].
      split; [rewrite !lru_head_upd_hdr; reflexivity|].
      split.
      { rewrite !lru_tail_upd_hdr. simpl lru_tail. simpl app. rewrite Htail.
        apply last_cons_ne. congruence. }
      simpl app.
      do 2 (apply lru_seg_upd_other; [exact Hit2|]).
      apply (lru_seg_set_before _ it); [exact Hnxt|].
      eapply lru_seg_heap_eq; [|exact Hseg2]. reflexivity.
    + rewrite !hdr_at_upd_hdr_gen, Hitb.
      assert (E : chunkptr_eqb nxt it = false) by (apply chunkptr_eqb_neq; assumption).
      rewrite E.
      change (hdr_at (set_lru_head _ s) it) with (hdr_at s it).
      rewrite Hh. reflexivity.
    + frame_facts.
    + frame_facts.
  - (* the tail of a longer list *)
    simpl in Htail, Hnext. rewrite app_nil_r.
    set (prv := List.last (x1 :: l1') NULL_CHUNKPTR) in *.
    assert (Hprv : prv ∈ x1 :: l1') by (apply last_in; congruence).
    assert (Hpi : prv <> it) by (intros E; apply Hit1; rewrite <- E; exact Hprv).
    destruct (lru_seg_elem s _ _ _ prv Hseg1 Hprv) as (Hprvnn & hp & Hhp).
    assert (Hhd : chunkptr_eqb it (lru_head s) = false).
    { apply chunkptr_eqb_neq. rewrite Hhead. simpl.
      intros E. apply Hit1. rewrite E. apply list_elem_of_here. }
    eexists. split; [reflexivity|]. split.
    { unfold item_unlink_q. rewrite (bind_read_hdr _ _ _ _ Hh). cbv zeta.
      rewrite Hprev, Hnext, bind_gets.
      rewrite bind_when_false by assumption.
      rewrite bind_gets, Htail.
      rewrite bind_when_true, bind_bind, bind_assert_true, bind_modify by assumption.
      rewrite bind_when_false by reflexivity.
      rewrite bind_when_true by (apply negb_true_iff, is_null_false; assumption).
      rewrite bind_bind.
      erewrite bind_read_hdr by exact Hh. rewrite Hnext.
      erewrite bind_modify_hdr by exact Hhp.
      erewrite bind_modify_hdr
        by (rewrite hdr_at_upd_hdr_other by assumption; exact Hh).
      rewrite modify_hdr_spec.
      erewrite hdr_at_upd_hdr_same
        by (rewrite hdr_at_upd_hdr_other by assumption; exact Hh).
      reflexivity. }
    split; [|split; [|split]].
    + split; [exact Hnd1|].
      split.
      { rewrite !lru_head_upd_hdr. simpl lru_head. rewrite Hhead. reflexivity. }
      split; [rewrite !lru_tail_upd_hdr; reflexivity|].
      do 2 (apply lru_seg_upd_other; [exact Hit1|]).
      apply (lru_seg_set_after _ _ _ it); [exact Hnd1 | congruence |].
      eapply lru_seg_heap_eq; [|exact Hseg1]. reflexivity.
    + rewrite !hdr_at_upd_hdr_gen, Hitb.
      assert (E : chunkptr_eqb prv it = false) by (apply chunkptr_eqb_neq; assumption).
      rewrite E.
      change (hdr_at (set_lru_tail _ s) it) with (hdr_at s it).
      rewrite Hh. reflexivity.
    + frame_facts.
    + frame_facts.
  - (* in the middle *)
    simpl in Hnext.
    set (prv := List.last (x1 :: l1') NULL_CHUNKPTR) in *.
    assert (Hprv : prv ∈ x1 :: l1') by (apply last_in; congruence).
    assert (Hpi : prv <> it) by (intros E; apply Hit1; rewrite <- E; exact Hprv).
    destruct (lru_seg_elem s _ _ _ prv Hseg1 Hprv) as (Hprvnn & hp & Hhp).
    assert (Hx : nxt <> it).
    { intros ->. apply Hit2. apply list_elem_of_here. }
    assert (Hpn : nxt <> prv).
    { intros E. apply (Hdisj _ Hprv). rewrite <- E.
      apply list_elem_of_further, list_elem_of_here. }
    apply NoDup_cons in Hnd2 as [Hnxt Hnd2].
    assert (Hlast : List.last (nxt :: l2') NULL_CHUNKPTR ∈ nxt :: l2')
      by (apply last_in; congruence).
    assert (Htl : chunkptr_eqb it (lru_tail s) = false).
    { apply chunkptr_eqb_neq. rewrite Htail.
      rewrite (last_cons_ne _ NULL_CHUNKPTR) by congruence.
      intros E. apply Hit2. rewrite E. exact Hlast. }
    assert (Hhd : chunkptr_eqb it (lru_head s) = false).
    { apply chunkptr_eqb_neq. rewrite Hhead. simpl.
      intros E. apply Hit1. rewrite E. apply list_elem_of_here. }
    destruct (lru_seg_elem s _ _ _ nxt Hseg2 ltac:(apply list_elem_of_here))
      as (Hnxtnn & hn & Hhn).
    assert (Hprvl2 : prv ∉ nxt :: l2').
    { intros Hin. apply (Hdisj _ Hprv). apply list_elem_of_further, Hin. }
    assert (Hnxtl1 : nxt ∉ x1 :: l1').
    { intros Hin. apply (Hdisj _ Hin). apply list_elem_of_further, list_elem_of_here. }
    eexists. split; [reflexivity|]. split.
    { unfold item_unlink_q. rewrite (bind_read_hdr _ _ _ _ Hh). cbv zeta.
      rewrite Hprev, Hnext, bind_gets.
      rewrite bind_when_false by assumption.
      rewrite bind_gets.
      rewrite bind_when_false by assumption.
      rewrite bind_when_true by (apply negb_true_iff, is_null_false; assumption).
      rewrite bind_bind.
      erewrite bind_read_hdr by exact Hh. rewrite Hprev.
      erewrite bind_modify_hdr by exact Hhn.
      rewrite bind_when_true by (apply negb_true_iff, is_null_false; assumption).
      rewrite bind_bind.
      erewrite bind_read_hdr
        by (rewrite hdr_at_upd_hdr_other by assumption; exact Hh).
      rewrite Hnext.
      erewrite bind_modify_hdr
        by (rewrite hdr_at_upd_hdr_other by assumption; exact Hhp).
      erewrite bind_modify_hdr
        by (rewrite !hdr_at_upd_hdr_other by assumption; exact Hh).
      rewrite modify_hdr_spec.
      erewrite hdr_at_upd_hdr_same
        by (rewrite !hdr_at_upd_hdr_other by assumption; exact Hh).
      reflexivity. }
    split; [|split; [|split]].
    + split.
      { apply NoDup_app. split; [exact Hnd1|]. split; [|constructor; assumption].
        intros x Hx1 Hx2. apply (Hdisj _ Hx1). apply list_elem_of_further, Hx2. }
      split.
      { rewrite !lru_head_upd_hdr. rewrite Hhead. reflexivity. }
      split.
      { rewrite !lru_tail_upd_hdr. rewrite Htail.
        rewrite (last_cons_ne _ NULL_CHUNKPTR) by congruence.
        symmetry. apply last_app_cons. }
      apply lru_seg_app. split.
      * do 2 (apply lru_seg_upd_other; [exact Hit1|]).
        apply (lru_seg_set_after _ _ _ it); [exact Hnd1 | congruence |].
        apply lru_seg_upd_other; [exact Hnxtl1 | exact Hseg1].
      * do 2 (apply lru_seg_upd_other; [exact Hit2|]).
        apply lru_seg_upd_other; [exact Hprvl2|].
        apply (lru_seg_set_before _ it); [exact Hnxt | exact Hseg2].
    + rewrite !hdr_at_upd_hdr_gen, Hitb.
      assert (E : chunkptr_eqb prv it = false) by (apply chunkptr_eqb_neq; assumption).
      assert (E' : chunkptr_eqb nxt it = false) by (apply chunkptr_eqb_neq; assumption).
      rewrite E, E', Hh. reflexivity.
    + frame_facts.
    + frame_facts.
Qed.

(** ** [item_link_q] and [do_item_update] *)

Lemma lru_seg_cons_iff s b p l a h :
  hdr_at s p = Some h ->
  lru_seg s b (p :: l) a <->
  p <> NULL_CHUNKPTR /\ prev h = b /\ next h = hd a l /\ lru_seg s p l a.
Proof. intros Hp. simpl. rewrite Hp. reflexivity. Qed.

(** An item outside the LRU, with null links, becomes its head. *)
Lemma item_link_q_spec s l it h :
  lru_is s l -> it ∉ l -> it <> NULL_CHUNKPTR ->
  hdr_at s it = Some h -> next h = NULL_CHUNKPTR -> prev h = NULL_CHUNKPTR ->
  exists s',
    item_link_q it s = Ok (tt, s')
    /\ lru_is s' (it :: l)
    /\ hdr_at s' it = Some (set_next (hd NULL_CHUNKPTR l) h)
    /\ lru_frame s s' /\ same_items s s'.
Proof.
  intros (Hnd & Hhead & Htail & Hseg) Hit Hnn Hh Hnext Hprev.
  assert (Hn1 : is_null (next h) = true) by (rewrite Hnext; reflexivity).
  assert (Hn2 : is_null (prev h) = true) by (rewrite Hprev; reflexivity).
  assert (Hitb : chunkptr_eqb it it = true) by apply chunkptr_eqb_refl.
  destruct l as [|x l'].
  - simpl in Hhead, Htail.
    eexists. split.
    { unfold item_link_q. rewrite (bind_read_hdr _ _ _ _ Hh).
      rewrite !bind_assert_true by assumption.
      rewrite bind_gets, Hhead, bind_when_false by reflexivity.
      rewrite bind_modify, bind_gets. simpl lru_tail. rewrite Htail.
      rewrite when_true by reflexivity. reflexivity. }
    split; [|split; [|split]].
    + split; [constructor; [exact Hit | constructor]|].
      split; [reflexivity|]. split; [reflexivity|].
      simpl. change (hdr_at (set_lru_tail _ (set_lru_head _ s)) it) with (hdr_at s it).
      rewrite Hh. auto.
    + change (hdr_at (set_lru_tail _ (set_lru_head _ s)) it) with (hdr_at s it).
      rewrite Hh. f_equal. simpl. destruct h; simpl in *; subst; reflexivity.
    + frame_facts.
    + frame_facts.
  - simpl in Hhead.
    apply not_elem_of_cons in Hit as [Hix Hit].
    assert (Hxi : x <> it) by congruence.
    apply NoDup_cons in Hnd as [Hx Hnd].
    destruct (lru_seg_elem s _ _ _ x Hseg ltac:(apply list_elem_of_here))
      as (Hxnn & hx & Hhx).
    assert (Hlast : List.last (x :: l') NULL_CHUNKPTR ∈ x :: l')
      by (apply last_in; congruence).
    destruct (lru_seg_elem s _ _ _ _ Hseg Hlast) as (Hlnn & _).
    eexists. split.
    { unfold item_link_q. rewrite (bind_read_hdr _ _ _ _ Hh).
      rewrite !bind_assert_true by assumption.
      rewrite bind_gets, Hhead.
      rewrite bind_when_true by (apply negb_true_iff, is_null_false; assumption).
      rewrite bind_bind.
      erewrite bind_modify_hdr by exact Hh.
      erewrite bind_modify_hdr
        by (rewrite hdr_at_upd_hdr_other by congruence; exact Hhx).
      rewrite bind_modify, bind_gets. simpl lru_tail.
      rewrite !lru_tail_upd_hdr.
      rewrite when_false by (apply is_null_false; rewrite Htail; exact Hlnn).
      reflexivity. }
    split; [|split; [|split]].
    + split.
      { constructor; [|constructor; assumption].
        apply not_elem_of_cons. split; assumption. }
      split; [reflexivity|].
      split.
      { simpl lru_tail. rewrite !lru_tail_upd_hdr, Htail.
        symmetry. apply last_cons_ne. congruence. }
      eapply (lru_seg_heap_eq (upd_hdr x (set_prev it) (upd_hdr it (set_next x) s)));
        [reflexivity|].
      assert (E : chunkptr_eqb x it = false) by (apply chunkptr_eqb_neq; assumption).
      apply (lru_seg_cons_iff _ _ _ _ _ (set_next x h)).
      { rewrite !hdr_at_upd_hdr_gen, Hitb, E, Hh. reflexivity. }
      split; [exact Hnn|]. split; [exact Hprev|]. split; [reflexivity|].
      apply (lru_seg_set_before _ NULL_CHUNKPTR); [exact Hx|].
      apply lru_seg_upd_other; [|exact Hseg].
      apply not_elem_of_cons. split; assumption.
    + change (hdr_at (set_lru_head it ?s0) it) with (hdr_at s0 it).
      rewrite !hdr_at_upd_hdr_gen, Hitb.
      assert (E : chunkptr_eqb x it = false) by (apply chunkptr_eqb_neq; assumption).
      rewrite E, Hh. reflexivity.
    + frame_facts.
    + frame_facts.
Qed.

Section Update.
Context (K : constants).

(** [do_item_update] on an item whose [ITEM_LINKED] flag is clear. *)
Lemma do_item_update_unlinked_eq it s h :
  hdr_at s it = Some h ->
  has_flag (it_flags h) ITEM_LINKED = false ->
  do_item_update K it s =
    if (time h <? wrap32 (current_time s - ITEM_UPDATE_INTERVAL K))
       && negb (has_flag (it_flags h) ITEM_VALID)
    then Fault else Ok (tt, s).
Proof.
  intros Hh Hl. unfold do_item_update.
  rewrite (bind_read_hdr _ _ _ _ Hh), bind_gets.
  destruct (time h <? _); [|reflexivity]. simpl when.
  destruct (has_flag (it_flags h) ITEM_VALID); [|reflexivity].
  rewrite bind_assert_true by reflexivity. rewrite Hl. reflexivity.
Qed.

(** [do_item_update] on a linked item of the LRU, when the threshold is
    exceeded. *)
Lemma do_item_update_moves it s l1 l2 h :
  lru_is s (l1 ++ it :: l2) ->
  hdr_at s it = Some h ->
  has_flag (it_flags h) ITEM_VALID = true ->
  has_flag (it_flags h) ITEM_LINKED = true ->
  (time h <? wrap32 (current_time s - ITEM_UPDATE_INTERVAL K)) = true ->
  exists s' h',
    do_item_update K it s = Ok (tt, s')
    /\ lru_is s' (it :: l1 ++ l2)
    /\ hdr_at s' it = Some h' /\ time h' = current_time s /\ same_item h h'
    /\ lru_frame s s' /\ same_items s s'.
Proof.
  intros Hlru Hh Hv Hl Hlt.
  destruct (item_unlink_q_spec s l1 it l2 Hlru)
    as (h0 & s1 & Hh0 & E1 & Hlru1 & Hh1 & Hf1 & Hs1).
  assert (h0 = h) as -> by congruence.
  assert (Hit : it ∉ l1 ++ l2).
  { destruct Hlru as (Hnd & _). apply NoDup_app in Hnd as (Hnd1 & Hdisj & Hnd2).
    apply NoDup_cons in Hnd2 as [Hit2 _].
    apply not_elem_of_app. split; [|exact Hit2].
    intros Hin. apply (Hdisj _ Hin). apply list_elem_of_here. }
  assert (Hnn : it <> NULL_CHUNKPTR) by (intros ->; discriminate).
  set (now := current_time s).
  set (s2 := upd_hdr it (set_time now) s1).
  assert (Hh2 : hdr_at s2 it
                = Some (set_time now (set_next NULL_CHUNKPTR (set_prev NULL_CHUNKPTR h)))).
  { apply hdr_at_upd_hdr_same, Hh1. }
  assert (Hlru2 : lru_is s2 (l1 ++ l2)).
  { destruct Hlru1 as (A & B & C & D). split; [exact A|].
    unfold s2. rewrite lru_head_upd_hdr, lru_tail_upd_hdr.
    split; [exact B|]. split; [exact C|].
    apply lru_seg_upd_other; assumption. }
  destruct (item_link_q_spec s2 (l1 ++ l2) it _ Hlru2 Hit Hnn Hh2 eq_refl eq_refl)
    as (s3 & E3 & Hlru3 & Hh3 & Hf3 & Hs3).
  exists s3. eexists. split.
  { unfold do_item_update. rewrite (bind_read_hdr _ _ _ _ Hh), bind_gets.
    rewrite Hlt. simpl when.
    rewrite bind_assert_true by assumption. rewrite Hl. simpl when.
    rewrite (bind_Ok_intro _ _ _ _ _ E1).
    erewrite bind_modify_hdr by exact Hh1. exact E3. }
  split; [exact Hlru3|]. split; [exact Hh3|]. split; [reflexivity|].
  split; [reflexivity|]. split.
  - eapply lru_frame_trans; [exact Hf1|].
    eapply lru_frame_trans; [apply lru_frame_upd_hdr | exact Hf3].
  - eapply same_items_trans; [exact Hs1|].
    eapply same_items_trans; [|exact Hs3].
    apply same_items_upd_hdr. apply same_item_set_time.
Qed.

End Update.

(** ** The update of the LRU position *)

Section UpdateSpec.
Context (K : constants).

(** C7, as the code has it.  For a valid, linked item of the LRU, once the
    clock has passed [ITEM_UPDATE_INTERVAL], [do_item_update] moves the item
    to the head of the LRU and sets its time to [current_time] if and only
    if [current_time - time > ITEM_UPDATE_INTERVAL]; otherwise it changes
    nothing.  (Items whose [ITEM_LINKED] flag is clear are never moved.) *)
Theorem do_item_update_linked it s l1 l2 h :
  lru_is s (l1 ++ it :: l2) ->
  hdr_at s it = Some h ->
  has_flag (it_flags h) ITEM_VALID = true ->
  has_flag (it_flags h) ITEM_LINKED = true ->
  0 <= ITEM_UPDATE_INTERVAL K <= current_time s ->
  current_time s < 2 ^ 32 ->
  (ITEM_UPDATE_INTERVAL K < current_time s - time h ->
   exists s' h',
     do_item_update K it s = Ok (tt, s')
     /\ lru_is s' (it :: l1 ++ l2)
     /\ hdr_at s' it = Some h' /\ time h' = current_time s /\ same_item h h'
     /\ lru_frame s s' /\ same_items s s')
  /\ (current_time s - time h <= ITEM_UPDATE_INTERVAL K ->
      do_item_update K it s = Ok (tt, s)).
Proof.
  intros Hlru Hh Hv Hl Hint Hnow.
  assert (Hw : wrap32 (current_time s - ITEM_UPDATE_INTERVAL K)
               = current_time s - ITEM_UPDATE_INTERVAL K).
  { apply wrap32_small. lia. }
  split.
  - intros Hgt. apply (do_item_update_moves K it s l1 l2 h); try assumption.
    rewrite Hw. apply Z.ltb_lt. lia.
  - intros Hle. unfold do_item_update.
    rewrite (bind_read_hdr _ _ _ _ Hh), bind_gets, Hw.
    rewrite when_false; [reflexivity|]. apply Z.ltb_ge. lia.
Qed.

(** C10.  [do_item_update] never puts an unlinked item on the LRU: when
    [ITEM_LINKED] is clear the call changes nothing, whatever the item's
    time; and so a call on any item keeps every item of the LRU linked. *)
Theorem do_item_update_unlinked it s h l :
  hdr_at s it = Some h ->
  lru_is s l ->
  all_linked s l ->
  (has_flag (it_flags h) ITEM_LINKED = true -> it ∈ l) ->
  (has_flag (it_flags h) ITEM_LINKED = false ->
   (forall r, do_item_update K it s = Ok r -> r = (tt, s))
   /\ (has_flag (it_flags h) ITEM_VALID = true -> do_item_update K it s = Ok (tt, s)))
  /\ (forall s', do_item_update K it s = Ok (tt, s') ->
      exists l', lru_is s' l' /\ all_linked s' l' /\ forall p, p ∈ l' <-> p ∈ l).
Proof.
  intros Hh Hlru Hall Hin. split.
  - intros Hl. rewrite (do_item_update_unlinked_eq K it s h Hh Hl). split.
    + intros r. destruct (_ && _); congruence.
    + intros ->. rewrite andb_false_r. reflexivity.
  - intros s' Hrun.
    destruct (has_flag (it_flags h) ITEM_LINKED) eqn:Hl.
    + destruct (time h <? wrap32 (current_time s - ITEM_UPDATE_INTERVAL K)) eqn:Hlt.
      * destruct (has_flag (it_flags h) ITEM_VALID) eqn:Hv.
        -- destruct (list_elem_of_split _ _ (Hin eq_refl)) as (l1 & l2 & ->).
           destruct (do_item_update_moves K it s l1 l2 h Hlru Hh Hv Hl Hlt)
             as (s1 & h' & E & Hlru' & Hh' & _ & _ & _ & Hsame).
           assert (s1 = s') as -> by congruence.
           exists (it :: l1 ++ l2). split; [exact Hlru'|]. split.
           ++ intros p Hp.
              assert (Hp' : p ∈ l1 ++ it :: l2).
              { rewrite elem_of_cons, elem_of_app in Hp.
                rewrite elem_of_app, elem_of_cons. tauto. }
              destruct (Hall p Hp') as (hp & Hhp & Hflag).
              specialize (Hsame p). rewrite Hhp in Hsame.
              destruct (hdr_at s' p) as [hp'|]; [|contradiction].
              exists hp'. split; [reflexivity|].
              rewrite (same_item_it_flags _ _ Hsame). exact Hflag.
           ++ intros p. rewrite elem_of_cons, !elem_of_app, elem_of_cons. tauto.
        -- unfold do_item_update in Hrun.
           rewrite (bind_read_hdr _ _ _ _ Hh), bind_gets, Hlt in Hrun.
           simpl when in Hrun. rewrite Hv in Hrun. discriminate.
      * unfold do_item_update in Hrun.
        rewrite (bind_read_hdr _ _ _ _ Hh), bind_gets, Hlt in Hrun.
        inversion Hrun; subst. exists l. split; [exact Hlru|]. split; [exact Hall|].
        tauto.
    + rewrite (do_item_update_unlinked_eq K it s h Hh Hl) in Hrun.
      destruct (_ && _); [discriminate|]. inversion Hrun; subst.
      exists l. split; [exact Hlru|]. split; [exact Hall|]. tauto.
Qed.

End UpdateSpec.

(** C7 as stated fails.  In the scenario configuration, the item allocated
    by [run_alloc_a] is not linked; its time is 0 and the clock is at 100, so
    [current_time - time > ITEM_UPDATE_INTERVAL]; yet [do_item_update]
    leaves the state as it is: the item is not the head of the LRU and its
    time is not refreshed. *)
Lemma do_item_update_skips_unlinked :
  let s := state_after run_alloc_a in
  ITEM_UPDATE_INTERVAL scenario < current_time s - time (header_of s item_a)
  /\ do_item_update scenario item_a s = Ok (tt, s)
  /\ lru_head s <> item_a
  /\ time (header_of s item_a) <> current_time s.
Proof.
  split; [vm_compute; reflexivity|].
  split; [vm_compute; reflexivity|].
  split; vm_compute; discriminate.
Qed.

(** * The theorems at work on the scenario configuration *)

Lemma hdr_at_header_of s p :
  (match hdr_at s p with Some _ => true | None => false end) = true ->
  hdr_at s p = Some (header_of s p).
Proof. unfold header_of. destruct (hdr_at s p); [reflexivity | discriminate]. Qed.

(** The parity law in a reachable state with one broken chunk. *)
Lemma break_unbreak_parity_reachable_witness :
  reachable scenario (state_after run_alloc_a)
  /\ break_events (stats (state_after run_alloc_a)) = 1
  /\ break_unbreak_parity (state_after run_alloc_a).
Proof.
  assert (H : reachable scenario (state_after run_alloc_a)).
  { apply (reachable_step scenario
             (state_after (run_init ;;;
                           let! _ := do_item_alloc scenario 16 key_a 1 0 0 4 0 in ret tt))
             0 (Op_clock 100)).
    - apply (reachable_step scenario (state_after run_init) 16
               (Op_alloc key_a 1 0 0 4 0)).
      + apply (reachable_init scenario 8192 0 false). vm_compute. reflexivity.
      + vm_compute. reflexivity.
    - vm_compute. reflexivity. }
  split; [exact H|]. split; [vm_compute; reflexivity|].
  exact (break_unbreak_parity_reachable scenario _ H).
Defined.

(** The scan finds the tail item once its reference is dropped. *)
Lemma get_lru_item_spec_witness :
  get_lru_item scenario (state_after run_deref_ab)
  = Ok (item_a, state_after run_deref_ab).
Proof.
  destruct (get_lru_item_spec scenario (state_after run_deref_ab)) as [_ E].
  - vm_compute. exact I.
  - rewrite E. vm_compute. reflexivity.
Defined.

(** A second unlink of an item that is held but no longer linked. *)
Lemma do_item_unlink_idempotent_witness :
  do_item_unlink scenario 16 item_a UNLINK_NORMAL None (state_after run_unlinked_a)
  = Ok (tt, state_after run_unlinked_a).
Proof.
  refine (proj2 (do_item_unlink_idempotent scenario 16 item_a UNLINK_NORMAL None
                   (state_after run_unlinked_a)
                   (header_of (state_after run_unlinked_a) item_a) _ _) _ _).
  - apply hdr_at_header_of. vm_compute. reflexivity.
  - vm_compute. reflexivity.
  - vm_compute. reflexivity.
  - intros _. eexists. vm_compute. reflexivity.
Defined.

(** Two linked items of the same size: their bucket reports 4. *)
Lemma do_item_stats_sizes_doubled_witness :
  let s := state_after run_link_ab in
  let l := [(item_b, header_of s item_b); (item_a, header_of s item_a)] in
  exists lines,
    do_item_stats_sizes scenario 16 true s = Ok (Some lines, s)
    /\ forall sz v, (sz, v) ∈ lines <->
         exists b, 0 <= b < stats_sizes_num_buckets scenario /\ sz = b * 32
                   /\ v = 2 * count_in_bucket scenario l b /\ v <> 0.
Proof.
  intros s l. apply (do_item_stats_sizes_doubled scenario 16 s l).
  - replace (lru_head s) with item_b by (vm_compute; reflexivity).
    apply lru_chain_cons; [apply hdr_at_header_of; vm_compute; reflexivity|].
    replace (next (header_of s item_b)) with item_a by (vm_compute; reflexivity).
    apply lru_chain_cons; [apply hdr_at_header_of; vm_compute; reflexivity|].
    replace (next (header_of s item_a)) with NULL_CHUNKPTR by (vm_compute; reflexivity).
    apply lru_chain_nil.
  - simpl. lia.
  - simpl. lia.
  - intros x Hx. unfold l in Hx.
    apply elem_of_cons in Hx as [->|Hx]; [vm_compute; discriminate|].
    apply elem_of_cons in Hx as [->|Hx]; [vm_compute; discriminate|].
    inversion Hx.
Defined.

Lemma lru_is_run_link_ab : lru_is (state_after run_link_ab) ([item_b] ++ item_a :: []).
Proof.
  split.
  { apply NoDup_cons. split; [|apply NoDup_singleton].
    intros H. apply list_elem_of_singleton in H. discriminate. }
  split; [vm_compute; reflexivity|]. split; [vm_compute; reflexivity|].
  assert (Hb : hdr_at (state_after run_link_ab) item_b
               = Some (header_of (state_after run_link_ab) item_b)).
  { apply hdr_at_header_of. vm_compute. reflexivity. }
  assert (Ha : hdr_at (state_after run_link_ab) item_a
               = Some (header_of (state_after run_link_ab) item_a)).
  { apply hdr_at_header_of. vm_compute. reflexivity. }
  refine (proj2 (lru_seg_cons_iff _ _ item_b [item_a] _ _ Hb) _).
  split; [discriminate|]. split; [vm_compute; reflexivity|].
  split; [vm_compute; reflexivity|].
  refine (proj2 (lru_seg_cons_iff _ _ item_a [] _ _ Ha) _).
  split; [discriminate|]. split; [vm_compute; reflexivity|].
  split; [vm_compute; reflexivity|]. exact I.
Qed.

(** The older of two linked items moves to the head at time 100. *)
Lemma do_item_update_linked_witness :
  let s := state_after run_link_ab in
  exists s' h',
    do_item_update scenario item_a s = Ok (tt, s')
    /\ lru_is s' (item_a :: [item_b] ++ [])
    /\ hdr_at s' item_a = Some h' /\ time h' = current_time s
    /\ same_item (header_of s item_a) h'
    /\ lru_frame s s' /\ same_items s s'.
Proof.
  intros s.
  refine (proj1 (do_item_update_linked scenario item_a s [item_b] []
                   (header_of s item_a) lru_is_run_link_ab _ _ _ _ _) _).
  - apply hdr_at_header_of. vm_compute. reflexivity.
  - vm_compute. reflexivity.
  - vm_compute. reflexivity.
  - vm_compute. split; discriminate.
  - vm_compute. reflexivity.
  - vm_compute. reflexivity.
Defined.

(** A deref at reference count zero leaves a linked item as it is. *)
Lemma do_item_deref_at_zero :
  refcount (header_of (state_after run_deref_ab) item_a) = 0
  /\ do_item_deref scenario 16 item_a (state_after run_deref_ab)
     = Ok (tt, state_after run_deref_ab).
Proof.
  split; [vm_compute; reflexivity|].
  destruct (do_item_deref_step scenario 16 item_a (state_after run_deref_ab)
              (header_of (state_after run_deref_ab) item_a)) as (_ & _ & E).
  - apply hdr_at_header_of. vm_compute. reflexivity.
  - vm_compute. reflexivity.
  - rewrite E. vm_compute. reflexivity.
Qed.

(** An allocated item that was never linked stays off the LRU. *)
Lemma do_item_update_unlinked_witness :
  do_item_update scenario item_a (state_after run_alloc_a)
  = Ok (tt, state_after run_alloc_a).
Proof.
  refine (proj2 (proj1 (do_item_update_unlinked scenario item_a (state_after run_alloc_a)
                          (header_of (state_after run_alloc_a) item_a) [] _ _ _ _) _) _).
  - apply hdr_at_header_of. vm_compute. reflexivity.
  - split; [constructor|]. split; [vm_compute; reflexivity|].
    split; [vm_compute; reflexivity|]. exact I.
  - intros p Hp. inversion Hp.
  - vm_compute. discriminate.
  - vm_compute. reflexivity.
  - vm_compute. reflexivity.
Defined.

(** * Memory writes, step by step *)

Lemma ret_Ok {A} (a b : A) s s' : ret a s = Ok (b, s') -> b = a /\ s' = s.
Proof. intros H. inversion H. auto. Qed.

Lemma gets_Ok {A} (f : state -> A) a s s' : gets f s = Ok (a, s') -> a = f s /\ s' = s.
Proof. intros H. inversion H. auto. Qed.

Lemma modify_Ok g a s s' : modify g s = Ok (a, s') -> s' = g s.
Proof. intros H. inversion H. auto. Qed.

Lemma assert_Ok b a s s' : assert b s = Ok (a, s') -> b = true /\ s' = s.
Proof. destruct b; intros H; inversion H. auto. Qed.

Lemma when_Ok b m a s s' :
  when b m s = Ok (a, s') -> (b = true /\ m s = Ok (a, s')) \/ (b = false /\ s' = s).
Proof. destruct b; intros H; [left|right]; [auto | inversion H; auto]. Qed.

Lemma read_lc_Ok l c s s' : read_lc l s = Ok (c, s') -> heap s !! l = Some c /\ s' = s.
Proof.
  unfold read_lc. destruct (heap s !! l); intros H; inversion H. auto.
Qed.

Lemma write_lc_Ok l c a s s' :
  write_lc l c s = Ok (a, s') ->
  (l < length (heap s))%nat /\ s' = set_heap (<[l := c]> (heap s)) s.
Proof.
  unfold write_lc. destruct (heap s !! l) eqn:E; intros H; inversion H.
  split; [eapply lookup_lt_Some; eauto | reflexivity].
Qed.

Lemma modify_lc_Ok l g a s s' :
  modify_lc l g s = Ok (a, s') ->
  exists c, heap s !! l = Some c /\ s' = set_heap (<[l := g c]> (heap s)) s.
Proof.
  unfold modify_lc. intros H. apply bind_Ok in H as (c & s0 & H1 & H2).
  apply read_lc_Ok in H1 as [H1 ->]. apply write_lc_Ok in H2 as [_ ->]. eauto.
Qed.

Lemma read_lcp_Ok p c s s' :
  read_lcp p s = Ok (c, s') -> exists l, p = CP l 0 /\ heap s !! l = Some c /\ s' = s.
Proof.
  destruct p as [|l [|i]]; simpl; try discriminate.
  intros H. apply read_lc_Ok in H as [H ->]. eauto.
Qed.

Lemma modify_lcp_Ok p g a s s' :
  modify_lcp p g s = Ok (a, s') ->
  exists l c, p = CP l 0 /\ heap s !! l = Some c
              /\ s' = set_heap (<[l := g c]> (heap s)) s.
Proof.
  destruct p as [|l [|i]]; simpl; try discriminate.
  intros H. apply modify_lc_Ok in H as (c & H & ->). eauto.
Qed.

Lemma read_sc_Ok l i sc s s' :
  read_sc l i s = Ok (sc, s') -> sc_at s l i = Some sc /\ s' = s.
Proof.
  unfold read_sc, sc_at. intros H. apply bind_Ok in H as (c & s0 & H1 & H2).
  apply read_lc_Ok in H1 as [H1 ->]. rewrite H1.
  destruct (lbc c !! i); inversion H2. auto.
Qed.

Lemma read_scp_Ok p sc s s' :
  read_scp p s = Ok (sc, s') -> exists l i, p = CP l i /\ sc_at s l i = Some sc /\ s' = s.
Proof.
  destruct p as [|l i]; simpl; try discriminate.
  intros H. apply read_sc_Ok in H as [H ->]. eauto.
Qed.

(** The state after a write to the small chunk [(l, i)]. *)
Lemma modify_sc_Ok l i g a s s' :
  modify_sc l i g s = Ok (a, s') ->
  exists c sc, heap s !! l = Some c /\ lbc c !! i = Some sc
    /\ s' = set_heap (<[l := set_lbc (<[i := g sc]> (lbc c)) c]> (heap s)) s.
Proof.
  unfold modify_sc, write_sc. intros H.
  apply bind_Ok in H as (sc & s0 & H1 & H2).
  unfold read_sc in H1. apply bind_Ok in H1 as (c & s1 & H1 & H3).
  apply read_lc_Ok in H1 as [H1 ->].
  destruct (lbc c !! i) as [sc0|] eqn:Hi; [|discriminate].
  apply ret_Ok in H3 as [-> ->].
  apply bind_Ok in H2 as (c' & s2 & H2 & H4).
  apply read_lc_Ok in H2 as [H2 ->].
  assert (c' = c) as -> by congruence. rewrite Hi in H4.
  apply write_lc_Ok in H4 as [_ ->]. eauto.
Qed.

Lemma modify_scp_Ok p g a s s' :
  modify_scp p g s = Ok (a, s') ->
  exists l i c sc, p = CP l i /\ heap s !! l = Some c /\ lbc c !! i = Some sc
    /\ s' = set_heap (<[l := set_lbc (<[i := g sc]> (lbc c)) c]> (heap s)) s.
Proof.
  destruct p as [|l i]; simpl; try discriminate.
  intros H. apply modify_sc_Ok in H as (c & sc & H1 & H2 & ->).
  exists l, i, c, sc. auto.
Qed.

Lemma hist_add_Ok k d a s s' :
  hist_add k d s = Ok (a, s') ->
  exists h, s' = set_stats (set_broken_chunk_histogram h (stats s)) s.
Proof.
  unfold hist_add. destruct (k <? 0); [discriminate|].
  destruct (_ !! _); intros H; inversion H. eauto.
Qed.

(** ** Lookups after a write *)

Lemma sc_at_set_heap_same hp s l c i sc g :
  hp !! l = Some c -> lbc c !! i = Some sc ->
  sc_at (set_heap (<[l := set_lbc (<[i := g sc]> (lbc c)) c]> hp) s) l i = Some (g sc).
Proof.
  intros Hl Hi. unfold sc_at. simpl.
  rewrite list_lookup_insert_eq by (eapply lookup_lt_Some; eauto). simpl.
  apply list_lookup_insert_eq. eapply lookup_lt_Some; eauto.
Qed.

Lemma sc_at_set_heap_other hp s l c i x l' i' :
  hp !! l = Some c -> (l', i') <> (l, i) ->
  sc_at (set_heap (<[l := set_lbc (<[i := x]> (lbc c)) c]> hp) s) l' i'
  = sc_at (set_heap hp s) l' i'.
Proof.
  intros Hl Hne. unfold sc_at. simpl.
  destruct (decide (l' = l)) as [->|Hll].
  - rewrite list_lookup_insert_eq by (eapply lookup_lt_Some; eauto). rewrite Hl. simpl.
    apply list_lookup_insert_ne. congruence.
  - rewrite list_lookup_insert_ne by congruence. reflexivity.
Qed.

(** A write to large chunk fields leaves the small chunks alone when it
    keeps [lbc]. *)
Lemma sc_at_set_heap_large hp s l c c' l' i' :
  hp !! l = Some c -> lbc c' = lbc c ->
  sc_at (set_heap (<[l := c']> hp) s) l' i' = sc_at (set_heap hp s) l' i'.
Proof.
  intros Hl Hlbc. unfold sc_at. simpl.
  destruct (decide (l' = l)) as [->|Hll].
  - rewrite list_lookup_insert_eq by (eapply lookup_lt_Some; eauto). rewrite Hl, Hlbc.
    reflexivity.
  - rewrite list_lookup_insert_ne by congruence. reflexivity.
Qed.

(** * Frames of chunk writes *)

Lemma title_stable_refl h : title_stable h h.
Proof. unfold title_stable. tauto. Qed.

Lemma title_stable_trans h1 h2 h3 :
  title_stable h1 h2 -> title_stable h2 h3 -> title_stable h1 h3.
Proof. unfold title_stable. intuition congruence. Qed.

Lemma has_flag_lor_l f x m : has_flag f m = true -> has_flag (Z.lor f x) m = true.
Proof.
  unfold has_flag. intros H.
  apply negb_true_iff, Z.eqb_neq in H. apply negb_true_iff, Z.eqb_neq.
  intros E. apply H. rewrite Z.land_lor_distr_l in E.
  apply Z.lor_eq_0_iff in E. tauto.
Qed.

Lemma title_stable_set_it_flags h x :
  title_stable h (set_it_flags (Z.lor (it_flags h) x) h).
Proof.
  unfold title_stable. simpl. repeat split; try reflexivity. apply has_flag_lor_l.
Qed.

Lemma title_stable_set_data h d : title_stable h (set_data d h).
Proof. unfold title_stable. simpl. tauto. Qed.

Lemma title_stable_set_next_chunk h v : title_stable h (set_next_chunk v h).
Proof. unfold title_stable. simpl. tauto. Qed.

Section ChunkFrameLemmas.
Context {C : Type} (at_ : state -> chunkptr -> option C).
Context (fl : C -> Z) (ti : C -> item_header) (bn bp : C -> chunkptr).

Local Abbreviation obs := (chunk_obs fl ti bn bp).
Local Abbreviation frame := (chunk_frame at_ fl ti bn bp).

Lemma chunk_obs_refl pn q c : obs pn q c c.
Proof. unfold chunk_obs. auto using title_stable_refl. Qed.

Lemma chunk_obs_trans pn q c1 c2 c3 :
  obs pn q c1 c2 -> obs pn q c2 c3 -> obs pn q c1 c3.
Proof.
  unfold chunk_obs. intros (A1 & A2 & A3 & A4 & A5) (B1 & B2 & B3 & B4 & B5).
  split; [congruence|]. split; [congruence|]. split; [|split].
  - intros H. rewrite B3, A3; auto.
  - intros H. rewrite B4, A4; auto.
  - eapply title_stable_trans; eauto.
Qed.

(** A chunk that kept all its links kept them whatever [pn] is. *)
Lemma chunk_obs_change pn pn' q c c' :
  obs pn q c c' -> pn <> Ref_body q -> pn <> Ref_title q -> obs pn' q c c'.
Proof.
  unfold chunk_obs. intros (A1 & A2 & A3 & A4 & A5) H1 H2. auto 10.
Qed.

Lemma chunk_frame_same X pn s s' :
  (forall q, at_ s' q = at_ s q) -> frame X pn s s'.
Proof.
  intros H q c Hq _. exists c. rewrite H. split; [exact Hq | apply chunk_obs_refl].
Qed.

Lemma chunk_frame_trans X pn s1 s2 s3 :
  frame X pn s1 s2 -> frame X pn s2 s3 -> frame X pn s1 s3.
Proof.
  intros H1 H2 q c Hq HX.
  destruct (H1 q c Hq HX) as (c2 & Hq2 & O1).
  destruct (H2 q c2 Hq2 HX) as (c3 & Hq3 & O2).
  exists c3. split; [exact Hq3 | eapply chunk_obs_trans; eauto].
Qed.

Lemma chunk_frame_weaken (X X' : chunkptr -> Prop) pn s s' :
  (forall q, X q -> X' q) -> frame X pn s s' -> frame X' pn s s'.
Proof. intros HX H q c Hq Hn. apply (H q c Hq). intros HXq. apply Hn, HX, HXq. Qed.

Lemma chunk_frame_upd_exempt (X : chunkptr -> Prop) pn p g s s' :
  upd_at at_ p g s s' -> X p -> frame X pn s s'.
Proof.
  intros (c0 & Hp & H) HX q c Hq Hn. exists c. rewrite H.
  destruct (chunkptr_eqb q p) eqn:E.
  - apply chunkptr_eqb_eq in E. subst q. contradiction.
  - split; [exact Hq | apply chunk_obs_refl].
Qed.

Lemma chunk_frame_upd_benign X pn p g s s' :
  upd_at at_ p g s s' -> (forall c, obs pn p c (g c)) -> frame X pn s s'.
Proof.
  intros (c0 & Hp & H) Hg q c Hq Hn. rewrite H.
  destruct (chunkptr_eqb q p) eqn:E.
  - apply chunkptr_eqb_eq in E. subst q. exists (g c0).
    assert (c = c0) as -> by congruence. split; [reflexivity | apply Hg].
  - exists c. split; [exact Hq | apply chunk_obs_refl].
Qed.

Lemma upd_at_same p g s s' c :
  upd_at at_ p g s s' -> at_ s p = Some c -> at_ s' p = Some (g c).
Proof.
  intros (c0 & Hp & H) Hc. rewrite H, chunkptr_eqb_refl. congruence.
Qed.

Lemma upd_at_other p g s s' q :
  upd_at at_ p g s s' -> q <> p -> at_ s' q = at_ s q.
Proof.
  intros (c0 & Hp & H) Hne. rewrite H.
  apply chunkptr_eqb_neq in Hne. rewrite Hne. reflexivity.
Qed.

Lemma upd_at_defined p g s s' :
  upd_at at_ p g s s' -> exists c, at_ s p = Some c.
Proof. intros (c0 & Hp & _). eauto. Qed.

End ChunkFrameLemmas.

(** ** The two memory views *)

Lemma modify_lcp_upd_at p g a s s' :
  modify_lcp p g s = Ok (a, s') -> upd_at lc_at p g s s'.
Proof.
  intros H. apply modify_lcp_Ok in H as (l & c & -> & Hl & ->).
  exists c. split; [exact Hl|]. intros [|l' [|i']]; simpl; try reflexivity.
  - destruct (Nat.eqb l' l) eqn:E; simpl.
    + apply Nat.eqb_eq in E as ->.
      apply list_lookup_insert_eq. eapply lookup_lt_Some; eauto.
    + apply Nat.eqb_neq in E. apply list_lookup_insert_ne. congruence.
  - rewrite andb_false_r. reflexivity.
Qed.

Lemma modify_scp_upd_at p g a s s' :
  modify_scp p g s = Ok (a, s') -> upd_at scp_at p g s s'.
Proof.
  intros H. apply modify_scp_Ok in H as (l & i & c & sc & -> & Hl & Hi & ->).
  exists sc. split; [unfold scp_at, sc_at; rewrite Hl; exact Hi|].
  intros [|l' i']; [reflexivity|]. unfold scp_at.
  destruct (chunkptr_eqb (CP l' i') (CP l i)) eqn:E.
  - apply chunkptr_eqb_eq in E. injection E as -> ->.
    apply sc_at_set_heap_same; assumption.
  - apply chunkptr_eqb_neq in E.
    rewrite (sc_at_set_heap_other (heap s) s l c i (g sc) l' i' Hl) by congruence.
    unfold sc_at. reflexivity.
Qed.

(** A write to a large chunk that keeps its small chunks is invisible in
    the small view. *)
Lemma modify_lc_scp_at l g a s s' :
  modify_lc l g s = Ok (a, s') -> (forall c, lbc (g c) = lbc c) ->
  forall q, scp_at s' q = scp_at s q.
Proof.
  intros H Hg q. apply modify_lc_Ok in H as (c & Hl & ->).
  destruct q as [|l' i']; [reflexivity|]. unfold scp_at.
  rewrite (sc_at_set_heap_large (heap s) s l c (g c) l' i' Hl (Hg c)).
  unfold sc_at. reflexivity.
Qed.

(** * Chains of large chunks *)

Local Abbreviation LOBS :=
  (chunk_obs lc_flags lc_title lc_body_next_chunk (fun _ => NULL_CHUNKPTR)).
Local Abbreviation LF :=
  (chunk_frame lc_at lc_flags lc_title lc_body_next_chunk (fun _ => NULL_CHUNKPTR)).
Local Abbreviation LREF := (ref_at lc_at lc_title lc_body_next_chunk).
Local Abbreviation lfree := (is_free lc_at lc_flags LARGE_CHUNK_FREE).

Lemma chunk_obs_ref_of {C} fl ti bn bp pn2 pn (c c' : C) :
  chunk_obs fl ti bn bp pn2 (ref_holder pn) c c' -> pn2 <> pn ->
  ref_of ti bn pn c' = ref_of ti bn pn c.
Proof.
  intros (_ & _ & A3 & A4 & _) Hne.
  destruct pn as [p|p]; simpl in *; [apply A4 | apply A3]; exact Hne.
Qed.

(** A successful pop takes the head of the free list, a chunk with the
    flags of a free chunk, and clears its [FREE] flag. *)
Lemma free_list_pop_large_Ok K p s s' :
  free_list_pop K LARGE_CHUNK s = Ok (p, s') ->
  (p = NULL_CHUNKPTR /\ s' = s)
  \/ (exists c, lc_at s p = Some c
        /\ lc_flags c = Z.lor LARGE_CHUNK_INITIALIZED LARGE_CHUNK_FREE
        /\ upd_at lc_at p (set_lc_flags LARGE_CHUNK_INITIALIZED) s s').
Proof.
  unfold free_list_pop. intros H. rewrite bind_gets in H.
  destruct (large_free_list_sz s =? 0).
  - apply ret_Ok in H as [-> ->]. left. auto.
  - right. rewrite bind_gets in H.
    apply bind_Ok in H as (c & s0 & H1 & H).
    apply read_lcp_Ok in H1 as (l & Hp & Hl & ->).
    rewrite bind_modify, bind_modify in H.
    apply bind_Ok in H as ([] & s1 & H2 & H).
    apply assert_Ok in H2 as [Hf ->]. apply Z.eqb_eq in Hf.
    apply bind_Ok in H as ([] & s2 & H3 & H).
    apply ret_Ok in H as [-> ->].
    apply modify_lcp_upd_at in H3.
    exists c. rewrite Hp. split; [exact Hl|]. split; [exact Hf|].
    rewrite Hf, Hp in H3.
    destruct H3 as (c0 & Hc0 & H3). exists c0. split; [exact Hc0 | exact H3].
Qed.

Lemma write_ref_large_spec pn v a s s' :
  write_ref_large pn v s = Ok (a, s') ->
  exists g, upd_at lc_at (ref_holder pn) g s s'
    /\ (forall c, LOBS pn (ref_holder pn) c (g c))
    /\ (forall c, ref_of lc_title lc_body_next_chunk pn (g c) = v).
Proof.
  destruct pn as [p|p]; simpl; intros H; apply modify_lcp_upd_at in H;
    (eexists; split; [exact H|]); (split; intros c; [|reflexivity]);
    unfold chunk_obs; simpl;
    (split; [reflexivity|]); (split; [reflexivity|]); (split; [|split]).
  - reflexivity.
  - intros Hn. destruct Hn. reflexivity.
  - apply title_stable_set_next_chunk.
  - intros Hn. destruct Hn. reflexivity.
  - reflexivity.
  - apply title_stable_refl.
Qed.

Lemma LF_benign p g a s s' :
  modify_lcp p g s = Ok (a, s') ->
  (forall c, lc_flags (g c) = lc_flags c
             /\ lc_body_next_chunk (g c) = lc_body_next_chunk c
             /\ next_chunk (lc_title (g c)) = next_chunk (lc_title c)
             /\ title_stable (lc_title c) (lc_title (g c))) ->
  forall X pn, LF X pn s s'.
Proof.
  intros H Hg X pn. apply modify_lcp_upd_at in H.
  eapply chunk_frame_upd_benign; [exact H|].
  intros c. destruct (Hg c) as (A1 & A2 & A3 & A4).
  unfold chunk_obs. auto 10.
Qed.

Lemma stamp_large_body_frame K title body wo now addr a s s' :
  stamp_large_body K title body wo now addr s = Ok (a, s') ->
  forall X pn, LF X pn s s'.
Proof.
  unfold stamp_large_body. intros H X pn.
  apply bind_Ok in H as (c & s0 & H1 & H).
  apply read_lcp_Ok in H1 as (l & _ & _ & ->).
  destruct (do_stamp_on_block _ _ _ _ _) as [[fl d]|]; [|discriminate].
  apply bind_Ok in H as ([] & s1 & H1 & H2).
  eapply chunk_frame_trans; eapply LF_benign; eauto; intros c0; simpl.
  - auto using title_stable_refl.
  - auto using title_stable_set_it_flags.
Qed.

Lemma stamp_large_title_frame K title wo now addr a s s' :
  stamp_large_title K title wo now addr s = Ok (a, s') ->
  forall X pn, LF X pn s s'.
Proof.
  unfold stamp_large_title. intros H X pn.
  apply bind_Ok in H as (c & s0 & H1 & H).
  apply read_lcp_Ok in H1 as (l & _ & _ & ->).
  destruct (do_stamp_on_block _ _ _ _ _) as [[fl d]|]; [|discriminate].
  apply bind_Ok in H as ([] & s1 & H1 & H2).
  eapply chunk_frame_trans; eapply LF_benign; eauto; intros c0; simpl.
  - auto using title_stable_set_data.
  - auto using title_stable_set_it_flags.
Qed.

(** ** The body loop of a large item *)


(** Once the last link is set to [NULL_CHUNKPTR], the place [prev_next]
    pointed to at the start of the loop heads a chain of [n] body chunks;
    the chunks that were not free are as they were, but for that place. *)
Lemma alloc_large_bodies_chain K n :
  forall title pn key kl wo addr s pn' s1 s2 hc,
    alloc_large_bodies K n title pn key kl wo addr s = Ok (pn', s1) ->
    write_ref_large pn' NULL_CHUNKPTR s1 = Ok (tt, s2) ->
    lc_at s (ref_holder pn) = Some hc ->
    has_flag (lc_flags hc) LARGE_CHUNK_FREE = false ->
    (exists v, LREF s2 pn = Some v /\ large_chain s2 v n) /\ LF (lfree s) pn s s2.
Proof.
  induction n as [|n IH]; intros title pn key kl wo addr s pn' s1 s2 hc H Hw Hh Hlock.
  - apply ret_Ok in H as [-> ->].
    apply write_ref_large_spec in Hw as (g & U & O & R). split.
    + exists NULL_CHUNKPTR. split; [|reflexivity].
      unfold ref_at. rewrite (upd_at_same _ _ _ _ _ _ U Hh), R. reflexivity.
    + eapply chunk_frame_upd_benign; eauto.
  - cbn [alloc_large_bodies] in H.
    apply bind_Ok in H as (temp & sa & Hpop & H).
    apply bind_Ok in H as ([] & sb & HU & H).
    apply bind_Ok in H as ([] & sb' & Has & H). apply assert_Ok in Has as [_ ->].
    apply bind_Ok in H as ([] & sc & HW & H).
    apply bind_Ok in H as ([] & sd & HD & H).
    rewrite bind_gets in H.
    apply bind_Ok in H as ([] & se & HS & H).
    apply free_list_pop_large_Ok in Hpop as [[-> ->] | (ct & Ht & Hft & U1)];
      [discriminate HU|].
    assert (F5 : forall X pn, LF X pn sd se).
    { intros X pn0. apply when_Ok in HS as [[_ HS] | [_ ->]].
      - eapply stamp_large_body_frame; eauto.
      - apply chunk_frame_same. reflexivity. }
    assert (FD : forall X pn, LF X pn sc sd).
    { eapply LF_benign; [exact HD|]. intros c0. simpl. auto using title_stable_refl. }
    apply modify_lcp_upd_at in HU. apply modify_lcp_upd_at in HD.
    apply write_ref_large_spec in HW as (g3 & U3 & O3 & R3).
    assert (Htf : lfree s temp).
    { exists ct. split; [exact Ht|]. rewrite Hft. reflexivity. }
    assert (Hne : ref_holder pn <> temp).
    { intros E. rewrite E in Hh. assert (hc = ct) as -> by congruence.
      rewrite Hft in Hlock. vm_compute in Hlock. discriminate. }
    assert (Hpn : Ref_body temp <> pn).
    { intros E. apply Hne. rewrite <- E. reflexivity. }
    (* the popped chunk *)
    pose proof (upd_at_same _ _ _ _ _ _ U1 Ht) as T1.
    pose proof (upd_at_same _ _ _ _ _ _ HU T1) as T2.
    assert (T3 := T2). rewrite <- (upd_at_other _ _ _ _ _ temp U3) in T3 by congruence.
    pose proof (upd_at_same _ _ _ _ _ _ HD T3) as T4.
    destruct (F5 (fun _ => False) pn _ _ T4 (fun x => x)) as (t5 & T5 & O5).
    assert (Hf5 : lc_flags t5 = Z.lor LARGE_CHUNK_INITIALIZED LARGE_CHUNK_USED).
    { destruct O5 as (-> & _). reflexivity. }
    (* the chunk that holds the link *)
    assert (H1 := Hh). rewrite <- (upd_at_other _ _ _ _ _ _ U1 Hne) in H1.
    rewrite <- (upd_at_other _ _ _ _ _ _ HU Hne) in H1.
    pose proof (upd_at_same _ _ _ _ _ _ U3 H1) as H3.
    destruct (chunk_frame_trans _ _ _ _ _ _ _ _ _ _ (FD (fun _ => False) (Ref_body temp))
                (F5 (fun _ => False) (Ref_body temp)) _ _ H3 (fun x => x))
      as (h5 & H5 & Oh5).
    assert (Hr5 : ref_of lc_title lc_body_next_chunk pn h5 = temp).
    { rewrite (chunk_obs_ref_of _ _ _ _ _ _ _ _ Oh5 Hpn). apply R3. }
    assert (Hfh5 : lc_flags h5 = lc_flags hc).
    { destruct Oh5 as (-> & _). destruct (O3 hc) as (-> & _). reflexivity. }
    destruct (IH title (Ref_body temp) _ _ _ _ se pn' s1 s2 t5 H Hw T5) as [(v & Rv & Ch) Fih].
    { rewrite Hf5. reflexivity. }
    assert (Hnf : forall q c c5, lc_at s q = Some c -> ~ lfree s q ->
                    lc_flags c5 = lc_flags c -> lc_at se q = Some c5 -> ~ lfree se q).
    { intros q c c5 Hq Hn Hfl Hq5 (c' & Hc' & Hf'). apply Hn. exists c.
      split; [exact Hq|]. rewrite <- Hfl. congruence. }
    assert (Hhn : ~ lfree s (ref_holder pn)).
    { intros (c' & Hc' & Hf'). congruence. }
    split.
    + exists temp. split.
      * destruct (Fih _ _ H5 (Hnf _ _ _ Hh Hhn Hfh5 H5)) as (he & He & Oe).
        unfold ref_at. rewrite He. f_equal.
        rewrite (chunk_obs_ref_of _ _ _ _ _ _ _ _ Oe Hpn). exact Hr5.
      * assert (Ht5n : ~ lfree se temp).
        { intros (c' & Hc' & Hf'). rewrite T5 in Hc'. injection Hc' as <-.
          rewrite Hf5 in Hf'. vm_compute in Hf'. discriminate. }
        destruct (Fih _ _ T5 Ht5n) as (te & Hte & Ote).
        unfold ref_at in Rv. simpl ref_holder in Rv. rewrite Hte in Rv.
        injection Rv as <-.
        destruct temp as [|l [|i]]; try discriminate Ht.
        simpl. exists l, te. split; [reflexivity|]. split; [exact Hte|].
        split; [|exact Ch]. destruct Ote as (-> & _). exact Hf5.
    + intros q c Hq Hn.
      assert (Hqt : q <> temp) by (intros ->; exact (Hn Htf)).
      assert (F : LF (eq temp) pn s se).
      { eapply chunk_frame_trans; [eapply chunk_frame_upd_exempt; [exact U1|reflexivity]|].
        eapply chunk_frame_trans; [eapply chunk_frame_upd_exempt; [exact HU|reflexivity]|].
        eapply chunk_frame_trans; [eapply chunk_frame_upd_benign; [exact U3|exact O3]|].
        eapply chunk_frame_trans; [apply FD | apply F5]. }
      destruct (F q c Hq) as (c5 & Hq5 & Oq5); [congruence|].
      assert (Hfl : lc_flags c5 = lc_flags c) by (destruct Oq5 as (-> & _); reflexivity).
      destruct (Fih _ _ Hq5 (Hnf _ _ _ Hq Hn Hfl Hq5)) as (ce & Hqe & Oqe).
      exists ce. split; [exact Hqe|].
      eapply chunk_obs_trans; [exact Oq5|].
      eapply chunk_obs_change; [exact Oqe| |]; congruence.
Qed.

(** ** The chain of a large item *)


Lemma alloc_header_ok_init nkey flags exptime nbytes h d :
  alloc_header_ok (set_data d (init_title nkey flags exptime nbytes h))
    nkey flags exptime (to_int nbytes).
Proof. unfold alloc_header_ok. simpl. repeat split; reflexivity. Qed.

Lemma alloc_header_ok_stable h h' nkey flags exptime nbytes :
  alloc_header_ok h nkey flags exptime nbytes -> title_stable h h' ->
  alloc_header_ok h' nkey flags exptime nbytes.
Proof.
  unfold alloc_header_ok, title_stable.
  intros (A1 & A2 & A3 & A4 & A5 & A6 & A7 & A8 & A9)
         (B1 & B2 & B3 & B4 & B5 & B6 & B7 & B8 & B9).
  repeat split; try congruence. auto.
Qed.

Lemma alloc_chain_large_spec K key nkey flags exptime nbytes addr needed it s s' :
  alloc_chain_large K key nkey flags exptime nbytes addr needed s = Ok (it, s') ->
  exists l c, it = CP l 0 /\ heap s' !! l = Some c
    /\ lc_flags c = Z.lor LARGE_CHUNK_INITIALIZED (Z.lor LARGE_CHUNK_USED LARGE_CHUNK_TITLE)
    /\ alloc_header_ok (lc_title c) nkey flags exptime (to_int nbytes)
    /\ large_chain s' (next_chunk (lc_title c)) (Z.to_nat (wrap64 (needed - 1))).
Proof.
  unfold alloc_chain_large. intros H.
  apply bind_Ok in H as (temp & sa & Hpop & H).
  apply bind_Ok in H as ([] & sb & HU & H).
  apply bind_Ok in H as ([] & sb' & Has & H). apply assert_Ok in Has as [_ ->].
  apply bind_Ok in H as ([] & sc & HI & H).
  apply bind_Ok in H as ([] & sd & HD & H).
  rewrite bind_gets in H.
  apply bind_Ok in H as ([] & se & HS & H).
  unfold modify_stats in H. rewrite !bind_modify in H.
  apply bind_Ok in H as (pn' & sx & HB & H).
  apply bind_Ok in H as ([] & sy & HW & H).
  apply ret_Ok in H as [-> ->].
  apply free_list_pop_large_Ok in Hpop as [[-> ->] | (ct & Ht & Hft & U1)];
    [discriminate HU|].
  assert (F5 : LF (fun _ => False) (Ref_title temp) sd se).
  { apply when_Ok in HS as [[_ HS] | [_ ->]].
    - eapply stamp_large_title_frame; eauto.
    - apply chunk_frame_same. reflexivity. }
  apply modify_lcp_upd_at in HU. apply modify_lcp_upd_at in HI.
  apply modify_lcp_upd_at in HD.
  pose proof (upd_at_same _ _ _ _ _ _ U1 Ht) as T1.
  pose proof (upd_at_same _ _ _ _ _ _ HU T1) as T2.
  pose proof (upd_at_same _ _ _ _ _ _ HI T2) as T3.
  pose proof (upd_at_same _ _ _ _ _ _ HD T3) as T4.
  destruct (F5 _ _ T4 (fun x => x)) as (t5 & T5 & O5).
  assert (Hf5 : lc_flags t5
                = Z.lor LARGE_CHUNK_INITIALIZED (Z.lor LARGE_CHUNK_USED LARGE_CHUNK_TITLE)).
  { destruct O5 as (-> & _). reflexivity. }
  assert (Hok5 : alloc_header_ok (lc_title t5) nkey flags exptime (to_int nbytes)).
  { destruct O5 as (_ & _ & _ & _ & St).
    eapply alloc_header_ok_stable; [|exact St]. apply alloc_header_ok_init. }
  destruct (alloc_large_bodies_chain K _ _ _ _ _ _ _ _ _ _ _ t5 HB HW T5)
    as [(v & Rv & Ch) Fr].
  { rewrite Hf5. reflexivity. }
  destruct (Fr temp t5 T5) as (te & Hte & Ote).
  { intros (c' & Hc' & Hf'). change (lc_at se temp = Some c') in Hc'.
    rewrite T5 in Hc'. injection Hc' as <-.
    rewrite Hf5 in Hf'. vm_compute in Hf'. discriminate. }
  unfold ref_at in Rv. simpl ref_holder in Rv. rewrite Hte in Rv. injection Rv as <-.
  destruct temp as [|l [|i]]; try discriminate Ht.
  exists l, te. split; [reflexivity|]. split; [exact Hte|].
  destruct Ote as (Ofl & _ & _ & _ & St).
  split; [rewrite Ofl; exact Hf5|].
  split; [eapply alloc_header_ok_stable; eauto | exact Ch].
Qed.

(** * Chains of small chunks *)

Local Abbreviation SOBS :=
  (chunk_obs sc_flags sc_title sc_body_next_chunk sc_body_prev_chunk).
Local Abbreviation SF :=
  (chunk_frame scp_at sc_flags sc_title sc_body_next_chunk sc_body_prev_chunk).
Local Abbreviation SREF := (ref_at scp_at sc_title sc_body_next_chunk).
Local Abbreviation sfree := (is_free scp_at sc_flags SMALL_CHUNK_FREE).

Lemma SF_benign p g a s s' :
  modify_scp p g s = Ok (a, s') ->
  (forall c, sc_flags (g c) = sc_flags c
             /\ sc_body_prev_chunk (g c) = sc_body_prev_chunk c
             /\ sc_body_next_chunk (g c) = sc_body_next_chunk c
             /\ next_chunk (sc_title (g c)) = next_chunk (sc_title c)
             /\ title_stable (sc_title c) (sc_title (g c))) ->
  forall X pn, SF X pn s s'.
Proof.
  intros H Hg X pn. apply modify_scp_upd_at in H.
  eapply chunk_frame_upd_benign; [exact H|].
  intros c. destruct (Hg c) as (A1 & A2 & A3 & A4 & A5).
  unfold chunk_obs. auto 10.
Qed.

(** A successful pop takes a chunk with the flags of a free chunk, and
    clears its [FREE] flag; the other chunks keep flags, title and links. *)
Lemma free_list_pop_small_Ok K p s s' :
  free_list_pop K SMALL_CHUNK s = Ok (p, s') ->
  (p = NULL_CHUNKPTR /\ s' = s)
  \/ (exists sc sc', scp_at s p = Some sc
        /\ sc_flags sc = Z.lor SMALL_CHUNK_INITIALIZED SMALL_CHUNK_FREE
        /\ scp_at s' p = Some sc'
        /\ sc_flags sc' = SMALL_CHUNK_INITIALIZED
        /\ sc_body_prev_chunk sc' = sc_body_prev_chunk sc
        /\ forall pn, SF (eq p) pn s s').
Proof.
  unfold free_list_pop. intros H. rewrite bind_gets in H.
  destruct (small_free_list_sz s =? 0).
  { apply ret_Ok in H as [-> ->]. left. auto. }
  right. rewrite bind_gets in H.
  destruct (small_free_list s) as [|l i]; [discriminate|].
  apply bind_Ok in H as (sc & s0 & H1 & H).
  apply read_sc_Ok in H1 as [Hsc ->].
  apply bind_Ok in H as (pc & s0 & H1 & H).
  apply read_lc_Ok in H1 as [Hpc ->].
  apply bind_Ok in H as ([] & sa & Ha & H).
  apply hist_add_Ok in Ha as (h1 & ->).
  apply bind_Ok in H as ([] & sb & Hb & H).
  pose proof (modify_lc_scp_at _ _ _ _ _ Hb (fun c => eq_refl)) as Vb.
  apply bind_Ok in H as ([] & sc0 & Hc & H).
  apply hist_add_Ok in Hc as (h2 & ->).
  apply bind_Ok in H as ([] & s1 & Has & H). apply assert_Ok in Has as [_ ->].
  rewrite bind_modify in H.
  apply bind_Ok in H as ([] & sd & Hd & H).
  rewrite bind_modify in H.
  apply bind_Ok in H as (sc2 & s1 & H1 & H).
  apply read_sc_Ok in H1 as [Hsc2 ->].
  apply bind_Ok in H as ([] & s1 & Has & H). apply assert_Ok in Has as [Hf ->].
  apply Z.eqb_eq in Hf.
  apply bind_Ok in H as ([] & se & He & H).
  apply ret_Ok in H as [-> ->].
  assert (Fpre : forall X pn, SF X pn s sd).
  { intros X pn.
    apply (chunk_frame_trans _ _ _ _ _ _ _ _ sb).
    - apply chunk_frame_same. exact Vb.
    - apply when_Ok in Hd as [[_ Hd] | [_ ->]].
      + assert (F := SF_benign _ _ _ _ _ Hd). apply F.
        intros c. simpl. auto 10 using title_stable_refl.
      + apply chunk_frame_same. reflexivity. }
  destruct (Fpre (fun _ => False) (Ref_body NULL_CHUNKPTR) (CP l i) sc Hsc (fun x => x))
    as (c' & Hc' & Oc').
  change (scp_at sd (CP l i) = Some sc2) in Hsc2.
  assert (c' = sc2) as -> by congruence.
  apply (modify_scp_upd_at (CP l i)) in He.
  exists sc, (set_sc_flags (clear_flag (sc_flags sc2) SMALL_CHUNK_FREE) sc2).
  split; [exact Hsc|].
  split; [destruct Oc' as (<- & _); exact Hf|].
  split; [exact (upd_at_same _ _ _ _ _ _ He Hsc2)|].
  split; [simpl; rewrite Hf; reflexivity|].
  split; [destruct Oc' as (_ & E & _); exact E|].
  intros pn. apply (chunk_frame_trans _ _ _ _ _ _ _ _ sd); [apply Fpre|].
  refine (chunk_frame_upd_exempt scp_at _ _ _ _ (eq (CP l i)) pn (CP l i) _ sd se _ eq_refl).
  exact He.
Qed.

Lemma write_ref_small_spec pn v a s s' :
  write_ref_small pn v s = Ok (a, s') ->
  exists g, upd_at scp_at (ref_holder pn) g s s'
    /\ (forall c, SOBS pn (ref_holder pn) c (g c))
    /\ (forall c, ref_of sc_title sc_body_next_chunk pn (g c) = v).
Proof.
  destruct pn as [p|p]; simpl; intros H; apply modify_scp_upd_at in H;
    (eexists; split; [exact H|]); (split; intros c; [|reflexivity]);
    unfold chunk_obs; simpl;
    (split; [reflexivity|]); (split; [reflexivity|]); (split; [|split]).
  - reflexivity.
  - intros Hn. destruct Hn. reflexivity.
  - apply title_stable_set_next_chunk.
  - intros Hn. destruct Hn. reflexivity.
  - reflexivity.
  - apply title_stable_refl.
Qed.

Lemma stamp_small_body_frame K title body wo now addr a s s' :
  stamp_small_body K title body wo now addr s = Ok (a, s') ->
  forall X pn, SF X pn s s'.
Proof.
  unfold stamp_small_body. intros H X pn.
  apply bind_Ok in H as (c & s0 & H1 & H).
  apply read_scp_Ok in H1 as (l & i & _ & _ & ->).
  destruct (do_stamp_on_block _ _ _ _ _) as [[fl d]|]; [|discriminate].
  apply bind_Ok in H as ([] & s1 & H1 & H2).
  eapply chunk_frame_trans; eapply SF_benign; eauto; intros c0; simpl.
  - auto 10 using title_stable_refl.
  - auto 10 using title_stable_set_it_flags.
Qed.

Lemma stamp_small_title_frame K title wo now addr a s s' :
  stamp_small_title K title wo now addr s = Ok (a, s') ->
  forall X pn, SF X pn s s'.
Proof.
  unfold stamp_small_title. intros H X pn.
  apply bind_Ok in H as (c & s0 & H1 & H).
  apply read_scp_Ok in H1 as (l & i & _ & _ & ->).
  destruct (do_stamp_on_block _ _ _ _ _) as [[fl d]|]; [|discriminate].
  apply bind_Ok in H as ([] & s1 & H1 & H2).
  eapply chunk_frame_trans; eapply SF_benign; eauto; intros c0; simpl.
  - auto 10 using title_stable_set_data.
  - auto 10 using title_stable_set_it_flags.
Qed.

(** ** The body loop of a small item *)


Lemma alloc_small_bodies_chain K n :
  forall title prev pn key kl wo addr s pn' s1 s2 hc,
    alloc_small_bodies K n title prev pn key kl wo addr s = Ok (pn', s1) ->
    write_ref_small pn' NULL_CHUNKPTR s1 = Ok (tt, s2) ->
    scp_at s (ref_holder pn) = Some hc ->
    has_flag (sc_flags hc) SMALL_CHUNK_FREE = false ->
    (exists v, SREF s2 pn = Some v /\ small_chain s2 prev v n) /\ SF (sfree s) pn s s2.
Proof.
  induction n as [|n IH];
    intros title prev pn key kl wo addr s pn' s1 s2 hc H Hw Hh Hlock.
  - apply ret_Ok in H as [-> ->].
    apply write_ref_small_spec in Hw as (g & U & O & R). split.
    + exists NULL_CHUNKPTR. split; [|reflexivity].
      unfold ref_at. rewrite (upd_at_same _ _ _ _ _ _ U Hh), R. reflexivity.
    + eapply chunk_frame_upd_benign; eauto.
  - cbn [alloc_small_bodies] in H.
    apply bind_Ok in H as (temp & sa & Hpop & H).
    apply bind_Ok in H as ([] & sb & HU & H).
    apply bind_Ok in H as ([] & sb' & Has & H). apply assert_Ok in Has as [_ ->].
    apply bind_Ok in H as ([] & sc & HW & H).
    apply bind_Ok in H as ([] & sp & HP & H).
    apply bind_Ok in H as ([] & sd & HD & H).
    rewrite bind_gets in H.
    apply bind_Ok in H as ([] & se & HS & H).
    apply free_list_pop_small_Ok in Hpop
      as [[-> ->] | (ct & ct' & Ht & Hft & T1 & Hft' & _ & Fpop)];
      [discriminate HU|].
    assert (F5 : forall X pn, SF X pn sd se).
    { intros X pn0. apply when_Ok in HS as [[_ HS] | [_ ->]].
      - eapply stamp_small_body_frame; eauto.
      - apply chunk_frame_same. reflexivity. }
    assert (FD : forall X pn, SF X pn sp sd).
    { eapply SF_benign; [exact HD|]. intros c0. simpl. auto 10 using title_stable_refl. }
    apply modify_scp_upd_at in HU. apply modify_scp_upd_at in HD.
    apply modify_scp_upd_at in HP.
    apply write_ref_small_spec in HW as (g3 & U3 & O3 & R3).
    assert (Htf : sfree s temp).
    { exists ct. split; [exact Ht|]. rewrite Hft. reflexivity. }
    assert (Hne : ref_holder pn <> temp).
    { intros E. rewrite E in Hh. assert (hc = ct) as -> by congruence.
      rewrite Hft in Hlock. vm_compute in Hlock. discriminate. }
    assert (Hpn : Ref_body temp <> pn).
    { intros E. apply Hne. rewrite <- E. reflexivity. }
    (* the popped chunk *)
    pose proof (upd_at_same _ _ _ _ _ _ HU T1) as T2.
    assert (T3 := T2). rewrite <- (upd_at_other _ _ _ _ _ temp U3) in T3 by congruence.
    pose proof (upd_at_same _ _ _ _ _ _ HP T3) as TP.
    pose proof (upd_at_same _ _ _ _ _ _ HD TP) as T4.
    destruct (F5 (fun _ => False) pn _ _ T4 (fun x => x)) as (t5 & T5 & O5).
    assert (Hf5 : sc_flags t5 = Z.lor SMALL_CHUNK_INITIALIZED SMALL_CHUNK_USED).
    { destruct O5 as (-> & _). simpl. rewrite Hft'. reflexivity. }
    assert (Hp5 : sc_body_prev_chunk t5 = prev).
    { destruct O5 as (_ & -> & _). reflexivity. }
    (* the chunk that holds the link *)
    destruct (Fpop pn _ _ Hh) as (h1 & H1 & Oh1); [congruence|].
    rewrite <- (upd_at_other _ _ _ _ _ _ HU Hne) in H1.
    pose proof (upd_at_same _ _ _ _ _ _ U3 H1) as H3.
    assert (FP : SF (eq temp) (Ref_body temp) sc sp).
    { eapply chunk_frame_upd_exempt; [exact HP | reflexivity]. }
    destruct (chunk_frame_trans _ _ _ _ _ _ _ _ _ _ FP
                (chunk_frame_trans _ _ _ _ _ _ _ _ _ _ (FD (eq temp) (Ref_body temp))
                   (F5 (eq temp) (Ref_body temp))) _ _ H3)
      as (h5 & H5 & Oh5); [congruence|].
    assert (Hr5 : ref_of sc_title sc_body_next_chunk pn h5 = temp).
    { rewrite (chunk_obs_ref_of _ _ _ _ _ _ _ _ Oh5 Hpn). apply R3. }
    assert (Hfh5 : sc_flags h5 = sc_flags hc).
    { destruct Oh5 as (-> & _). destruct (O3 h1) as (-> & _).
      destruct Oh1 as (-> & _). reflexivity. }
    destruct (IH title temp (Ref_body temp) _ _ _ _ se pn' s1 s2 t5 H Hw T5)
      as [(v & Rv & Ch) Fih].
    { rewrite Hf5. reflexivity. }
    assert (Hnf : forall q c c5, scp_at s q = Some c -> ~ sfree s q ->
                    sc_flags c5 = sc_flags c -> scp_at se q = Some c5 -> ~ sfree se q).
    { intros q c c5 Hq Hn Hfl Hq5 (c' & Hc' & Hf'). apply Hn. exists c.
      split; [exact Hq|]. rewrite <- Hfl. congruence. }
    assert (Hhn : ~ sfree s (ref_holder pn)).
    { intros (c' & Hc' & Hf'). congruence. }
    split.
    + exists temp. split.
      * destruct (Fih _ _ H5 (Hnf _ _ _ Hh Hhn Hfh5 H5)) as (he & He & Oe).
        unfold ref_at. rewrite He. f_equal.
        rewrite (chunk_obs_ref_of _ _ _ _ _ _ _ _ Oe Hpn). exact Hr5.
      * assert (Ht5n : ~ sfree se temp).
        { intros (c' & Hc' & Hf'). rewrite T5 in Hc'. injection Hc' as <-.
          rewrite Hf5 in Hf'. vm_compute in Hf'. discriminate. }
        destruct (Fih _ _ T5 Ht5n) as (te & Hte & Ote).
        unfold ref_at in Rv. simpl ref_holder in Rv. rewrite Hte in Rv.
        injection Rv as <-.
        destruct temp as [|l i]; try discriminate Ht.
        simpl. exists l, i, te. split; [reflexivity|]. split; [exact Hte|].
        destruct Ote as (-> & -> & _). auto.
    + intros q c Hq Hn.
      assert (Hqt : q <> temp) by (intros ->; exact (Hn Htf)).
      assert (F : SF (eq temp) pn s se).
      { eapply chunk_frame_trans; [apply Fpop|].
        eapply chunk_frame_trans; [eapply chunk_frame_upd_exempt; [exact HU|reflexivity]|].
        eapply chunk_frame_trans; [eapply chunk_frame_upd_benign; [exact U3|exact O3]|].
        eapply chunk_frame_trans; [eapply chunk_frame_upd_exempt; [exact HP|reflexivity]|].
        eapply chunk_frame_trans; [apply FD | apply F5]. }
      destruct (F q c Hq) as (c5 & Hq5 & Oq5); [congruence|].
      assert (Hfl : sc_flags c5 = sc_flags c) by (destruct Oq5 as (-> & _); reflexivity).
      destruct (Fih _ _ Hq5 (Hnf _ _ _ Hq Hn Hfl Hq5)) as (ce & Hqe & Oqe).
      exists ce. split; [exact Hqe|].
      eapply chunk_obs_trans; [exact Oq5|].
      eapply chunk_obs_change; [exact Oqe| |]; congruence.
Qed.

Lemma alloc_chain_small_spec K key nkey flags exptime nbytes addr needed it s s' :
  alloc_chain_small K key nkey flags exptime nbytes addr needed s = Ok (it, s') ->
  exists sc, scp_at s' it = Some sc
    /\ sc_flags sc = Z.lor SMALL_CHUNK_INITIALIZED (Z.lor SMALL_CHUNK_USED SMALL_CHUNK_TITLE)
    /\ alloc_header_ok (sc_title sc) nkey flags exptime (to_int nbytes)
    /\ small_chain s' it (next_chunk (sc_title sc)) (Z.to_nat (wrap64 (needed - 1))).
Proof.
  unfold alloc_chain_small. intros H.
  apply bind_Ok in H as (temp & sa & Hpop & H).
  apply bind_Ok in H as ([] & sb & HU & H).
  apply bind_Ok in H as ([] & sb' & Has & H). apply assert_Ok in Has as [_ ->].
  apply bind_Ok in H as ([] & sc & HI & H).
  apply bind_Ok in H as ([] & sd & HD & H).
  rewrite bind_gets in H.
  apply bind_Ok in H as ([] & se & HS & H).
  unfold modify_stats in H. rewrite !bind_modify in H.
  apply bind_Ok in H as (pn' & sx & HB & H).
  apply bind_Ok in H as ([] & sy & HW & H).
  apply ret_Ok in H as [-> ->].
  apply free_list_pop_small_Ok in Hpop
    as [[-> ->] | (ct & ct' & Ht & Hft & T1 & Hft' & _ & _)];
    [discriminate HU|].
  assert (F5 : SF (fun _ => False) (Ref_title temp) sd se).
  { apply when_Ok in HS as [[_ HS] | [_ ->]].
    - eapply stamp_small_title_frame; eauto.
    - apply chunk_frame_same. reflexivity. }
  apply modify_scp_upd_at in HU. apply modify_scp_upd_at in HI.
  apply modify_scp_upd_at in HD.
  pose proof (upd_at_same _ _ _ _ _ _ HU T1) as T2.
  pose proof (upd_at_same _ _ _ _ _ _ HI T2) as T3.
  pose proof (upd_at_same _ _ _ _ _ _ HD T3) as T4.
  destruct (F5 _ _ T4 (fun x => x)) as (t5 & T5 & O5).
  assert (Hf5 : sc_flags t5
                = Z.lor SMALL_CHUNK_INITIALIZED (Z.lor SMALL_CHUNK_USED SMALL_CHUNK_TITLE)).
  { destruct O5 as (-> & _). simpl. rewrite Hft'. reflexivity. }
  assert (Hok5 : alloc_header_ok (sc_title t5) nkey flags exptime (to_int nbytes)).
  { destruct O5 as (_ & _ & _ & _ & St).
    eapply alloc_header_ok_stable; [|exact St]. apply alloc_header_ok_init. }
  destruct (alloc_small_bodies_chain K _ _ _ _ _ _ _ _ _ _ _ _ t5 HB HW T5)
    as [(v & Rv & Ch) Fr].
  { rewrite Hf5. reflexivity. }
  destruct (Fr temp t5 T5) as (te & Hte & Ote).
  { intros (c' & Hc' & Hf'). change (scp_at se temp = Some c') in Hc'.
    rewrite T5 in Hc'. injection Hc' as <-.
    rewrite Hf5 in Hf'. vm_compute in Hf'. discriminate. }
  unfold ref_at in Rv. simpl ref_holder in Rv. rewrite Hte in Rv. injection Rv as <-.
  exists te. split; [exact Hte|].
  destruct Ote as (Ofl & _ & _ & _ & St).
  split; [rewrite Ofl; exact Hf5|].
  split; [eapply alloc_header_ok_stable; eauto | exact Ch].
Qed.

(** * The item [do_item_alloc] returns *)

Lemma hdr_at_large l c s :
  heap s !! l = Some c ->
  lc_flags c = Z.lor LARGE_CHUNK_INITIALIZED (Z.lor LARGE_CHUNK_USED LARGE_CHUNK_TITLE) ->
  hdr_at s (CP l 0) = Some (lc_title c).
Proof. intros Hl Hf. unfold hdr_at. rewrite Hl, Hf. reflexivity. Qed.

Lemma hdr_at_small it sc s :
  scp_at s it = Some sc -> parent_broken s it = true ->
  hdr_at s it = Some (sc_title sc).
Proof.
  destruct it as [|l i]; [discriminate|]. unfold scp_at, sc_at, parent_broken, hdr_at.
  destruct (heap s !! l) as [c|]; [|discriminate].
  intros -> ->. reflexivity.
Qed.

Lemma chain_length needed :
  1 <= needed < 2 ^ 64 -> Z.of_nat (S (Z.to_nat (wrap64 (needed - 1)))) = needed.
Proof.
  intros H. unfold wrap64. rewrite Z.mod_small by lia. lia.
Qed.

(** Whenever [do_item_alloc] returns an item, the title of that item has
    [refcount = 1], [ITEM_VALID] among its [it_flags], the [nkey],
    [exptime] and [flags] of the call, as [nbytes] the [int] the [size_t]
    argument converts to, [next], [prev] and [h_next] at [NULL_CHUNKPTR],
    and its [next_chunk] heads a chain of body chunks that ends at
    [NULL_CHUNKPTR]: together with the title, exactly
    [chunks_needed nkey nbytes] chunks (a count between 1 and [2^64 - 1],
    as a [size_t] chunk count is).  The title is the header every other
    operation reads at the item's address, for a small item as long as the
    large chunk around it is marked broken. *)
Lemma do_item_alloc_result K fuel key nkey flags exptime nbytes addr s it s' :
  1 <= chunks_needed K nkey nbytes < 2 ^ 64 ->
  do_item_alloc K fuel key nkey flags exptime nbytes addr s = Ok (it, s') ->
  it <> NULL_CHUNKPTR ->
  exists h m,
    title_at s' (is_large_chunk K nkey nbytes) it = Some h
    /\ alloc_header_ok h nkey flags exptime (to_int nbytes)
    /\ Z.of_nat (S m) = chunks_needed K nkey nbytes
    /\ body_chain s' (is_large_chunk K nkey nbytes) it (next_chunk h) m
    /\ (is_large_chunk K nkey nbytes || parent_broken s' it = true ->
        hdr_at s' it = Some h).
Proof.
  intros Hn H Hit. unfold do_item_alloc in H.
  destruct (negb _); [apply ret_Ok in H as [-> _]; congruence|].
  unfold title_at, body_chain.
  destruct (is_large_chunk K nkey nbytes).
  - rewrite bind_gets in H. apply bind_Ok in H as (ok & s0 & _ & H).
    destruct ok; [|apply ret_Ok in H as [-> _]; congruence].
    apply alloc_chain_large_spec in H as (l & c & -> & Hl & Hf & Hok & Ch).
    exists (lc_title c), (Z.to_nat (wrap64 (chunks_needed K nkey nbytes - 1))).
    simpl lc_at. rewrite Hl. split; [reflexivity|]. split; [exact Hok|].
    split; [apply chain_length, Hn|]. split; [exact Ch|].
    intros _. apply hdr_at_large; assumption.
  - rewrite !bind_gets in H. apply bind_Ok in H as (ok & s0 & _ & H).
    destruct ok; [|apply ret_Ok in H as [-> _]; congruence].
    apply alloc_chain_small_spec in H as (sc & Hsc & Hf & Hok & Ch).
    exists (sc_title sc), (Z.to_nat (wrap64 (chunks_needed K nkey nbytes - 1))).
    rewrite Hsc. split; [reflexivity|]. split; [exact Hok|].
    split; [apply chain_length, Hn|]. split; [exact Ch|].
    simpl. intros Hb. apply hdr_at_small; assumption.
Qed.

(** An item of 3000 bytes in the fresh cache: a title and three body
    chunks. *)
Lemma do_item_alloc_result_example :
  exists h m,
    title_at (state_after run_alloc_large) (is_large_chunk scenario 1 3000) (CP 3 0) = Some h
    /\ alloc_header_ok h 1 0 0 3000
    /\ Z.of_nat (S m) = chunks_needed scenario 1 3000
    /\ body_chain (state_after run_alloc_large) (is_large_chunk scenario 1 3000) (CP 3 0)
         (next_chunk h) m
    /\ (is_large_chunk scenario 1 3000 || parent_broken (state_after run_alloc_large) (CP 3 0)
        = true -> hdr_at (state_after run_alloc_large) (CP 3 0) = Some h).
Proof.
  apply (do_item_alloc_result scenario 16 key_a 1 0 0 3000 0 (state_after run_init)).
  - vm_compute. split; [discriminate | reflexivity].
  - vm_compute. reflexivity.
  - discriminate.
Qed.

(** * Code without unbounded loops *)

Lemma bind_not_oof {A B} (m : M A) (k : A -> M B) s :
  m s <> OutOfFuel ->
  (forall a s', m s = Ok (a, s') -> k a s' <> OutOfFuel) ->
  bind m k s <> OutOfFuel.
Proof.
  unfold bind. destruct (m s) as [[a s']| |]; intros H1 H2;
    [apply H2; reflexivity | discriminate | congruence].
Qed.

Section NeverOof.

Lemma noof_ret {A} (a : A) : never_oof (ret a).
Proof. intros s. discriminate. Qed.

Lemma noof_fault {A} : never_oof (@fault A).
Proof. intros s. discriminate. Qed.

Lemma noof_gets {A} (g : state -> A) : never_oof (gets g).
Proof. intros s. discriminate. Qed.

Lemma noof_modify g : never_oof (modify g).
Proof. intros s. discriminate. Qed.

Lemma noof_assert b : never_oof (assert b).
Proof. destruct b; [apply noof_ret | apply noof_fault]. Qed.

Lemma noof_bind {A C} (m : M A) (k : A -> M C) :
  never_oof m -> (forall a, never_oof (k a)) -> never_oof (bind m k).
Proof. intros Hm Hk s. apply bind_not_oof; [apply Hm | intros a s' _; apply Hk]. Qed.

Lemma noof_when b m : never_oof m -> never_oof (when b m).
Proof. destruct b; [auto | intros; apply noof_ret]. Qed.

Lemma noof_for_up_from n : forall start body,
  (forall i, never_oof (body i)) -> never_oof (for_up_from start n body).
Proof.
  induction n as [|n IH]; intros start body Hb; simpl.
  - apply noof_ret.
  - apply noof_bind; [apply Hb | intros _; apply IH, Hb].
Qed.

Lemma noof_for_up n body :
  (forall i, never_oof (body i)) -> never_oof (for_up n body).
Proof. apply noof_for_up_from. Qed.

Lemma noof_for_down n body :
  (forall i, never_oof (body i)) -> never_oof (for_down n body).
Proof.
  intros Hb. induction n as [|n IH]; simpl.
  - apply noof_ret.
  - apply noof_bind; [apply Hb | intros _; apply IH].
Qed.

End NeverOof.

Create HintDb noof.

Ltac noof_step :=
  lazymatch goal with
  | |- never_oof (bind _ _) => apply noof_bind; [|intros ?]
  | |- never_oof (ret _) => apply noof_ret
  | |- never_oof fault => apply noof_fault
  | |- never_oof (gets _) => apply noof_gets
  | |- never_oof (modify _) => apply noof_modify
  | |- never_oof (modify_stats _) => apply noof_modify
  | |- never_oof (assert _) => apply noof_assert
  | |- never_oof (when _ _) => apply noof_when
  | |- never_oof (for_up _ _) => apply noof_for_up; intros ?
  | |- never_oof (for_down _ _) => apply noof_for_down; intros ?
  | |- never_oof (if ?b then _ else _) => destruct b
  | |- never_oof (match ?x with _ => _ end) => destruct x
  | |- _ => solve [eauto with noof]
  end.

Ltac noof := repeat noof_step.

Lemma noof_read_lc l : never_oof (read_lc l).
Proof. intros s. unfold read_lc. destruct (heap s !! l); discriminate. Qed.

Lemma noof_write_lc l c : never_oof (write_lc l c).
Proof. intros s. unfold write_lc. destruct (heap s !! l); discriminate. Qed.
#[export] Hint Resolve noof_read_lc noof_write_lc : noof.

Lemma noof_modify_lc l g : never_oof (modify_lc l g).
Proof. unfold modify_lc. noof. Qed.

Lemma noof_read_sc l i : never_oof (read_sc l i).
Proof. unfold read_sc. noof. Qed.
#[export] Hint Resolve noof_modify_lc noof_read_sc : noof.

Lemma noof_write_sc l i sc : never_oof (write_sc l i sc).
Proof. unfold write_sc. noof. Qed.
#[export] Hint Resolve noof_write_sc : noof.

Lemma noof_modify_sc l i g : never_oof (modify_sc l i g).
Proof. unfold modify_sc. noof. Qed.

Lemma noof_read_lcp p : never_oof (read_lcp p).
Proof. unfold read_lcp. noof. Qed.

Lemma noof_modify_lcp p g : never_oof (modify_lcp p g).
Proof. unfold modify_lcp. noof. Qed.
#[export] Hint Resolve noof_modify_sc noof_read_lcp noof_modify_lcp : noof.

Lemma noof_read_scp p : never_oof (read_scp p).
Proof. unfold read_scp. noof. Qed.

Lemma noof_modify_scp p g : never_oof (modify_scp p g).
Proof. unfold modify_scp. noof. Qed.

Lemma noof_read_hdr p : never_oof (read_hdr p).
Proof. unfold read_hdr. noof. Qed.

Lemma noof_modify_hdr p g : never_oof (modify_hdr p g).
Proof. unfold modify_hdr. noof. Qed.
#[export] Hint Resolve noof_read_scp noof_modify_scp noof_read_hdr noof_modify_hdr : noof.

Lemma noof_read_slot sl : never_oof (read_slot sl).
Proof. unfold read_slot. noof. Qed.

Lemma noof_write_slot sl v : never_oof (write_slot sl v).
Proof. unfold write_slot. noof. Qed.

Lemma noof_hist_add k d : never_oof (hist_add k d).
Proof.
  intros s. unfold hist_add. destruct (k <? 0); [discriminate|].
  destruct (_ !! _); discriminate.
Qed.
#[export] Hint Resolve noof_read_slot noof_write_slot noof_hist_add : noof.

Lemma noof_small_free_list_splice l i sc : never_oof (small_free_list_splice l i sc).
Proof. unfold small_free_list_splice. noof. Qed.

Lemma noof_free_list_push_large p : never_oof (free_list_push_large p).
Proof. unfold free_list_push_large. noof. Qed.
#[export] Hint Resolve noof_small_free_list_splice noof_free_list_push_large : noof.

Lemma noof_unbreak_large_chunk K l mandatory : never_oof (unbreak_large_chunk K l mandatory).
Proof. unfold unbreak_large_chunk. noof. Qed.

Lemma noof_free_list_pop K t : never_oof (free_list_pop K t).
Proof. unfold free_list_pop. noof. Qed.
#[export] Hint Resolve noof_unbreak_large_chunk noof_free_list_pop : noof.

Lemma noof_coalesce_park_free K l : never_oof (coalesce_park_free K l).
Proof. unfold coalesce_park_free. noof. Qed.

Lemma noof_coalesce_fix_title old repl : never_oof (coalesce_fix_title old repl).
Proof. unfold coalesce_fix_title. noof. Qed.

Lemma noof_coalesce_fix_body old repl : never_oof (coalesce_fix_body old repl).
Proof. unfold coalesce_fix_body. noof. Qed.
#[export] Hint Resolve noof_coalesce_park_free noof_coalesce_fix_title
  noof_coalesce_fix_body : noof.

Lemma noof_coalesce_migrate K l : never_oof (coalesce_migrate K l).
Proof. unfold coalesce_migrate. noof. Qed.
#[export] Hint Resolve noof_coalesce_migrate : noof.

(** One pass of the coalescer over a donor has no unbounded loop. *)
Lemma noof_coalesce_donor K l : never_oof (coalesce_donor K l).
Proof. unfold coalesce_donor. noof. Qed.

(** * The searches of the coalescer *)

(** ** They only read *)

Lemma readonly_small_chunk_title_walk fuel : forall p,
  keeps (fun s => s) (small_chunk_title_walk fuel p).
Proof. induction fuel as [|fuel IH]; intros p; simpl; readonly. Qed.
#[export] Hint Resolve readonly_small_chunk_title_walk : readonly.

Lemma readonly_small_chunk_referenced fuel p :
  keeps (fun s => s) (small_chunk_referenced fuel p).
Proof. unfold small_chunk_referenced. readonly. Qed.
#[export] Hint Resolve readonly_small_chunk_referenced : readonly.

Lemma readonly_large_broken_chunk_referenced_from fuel l n : forall counter,
  keeps (fun s => s) (large_broken_chunk_referenced_from fuel l counter n).
Proof. induction n as [|n IH]; intros counter; simpl; readonly. Qed.

Lemma readonly_large_broken_chunk_referenced K fuel l :
  keeps (fun s => s) (large_broken_chunk_referenced K fuel l).
Proof. apply readonly_large_broken_chunk_referenced_from. Qed.
#[export] Hint Resolve readonly_large_broken_chunk_referenced : readonly.

Lemma readonly_find_unreferenced_broken_chunk_loop K fuel : forall sd counter iter,
  keeps (fun s => s) (find_unreferenced_broken_chunk_loop K fuel sd counter iter).
Proof. induction fuel as [|fuel IH]; intros sd counter iter; simpl; readonly. Qed.
#[export] Hint Resolve readonly_find_unreferenced_broken_chunk_loop : readonly.

Lemma readonly_find_unreferenced_broken_chunk K fuel sd :
  keeps (fun s => s) (find_unreferenced_broken_chunk K fuel sd).
Proof. unfold find_unreferenced_broken_chunk. readonly. Qed.

(** ** They end *)

Lemma va_scp_at s p sc :
  scp_at s p = Some sc ->
  va s p = Some (sc_flags sc, sc_body_prev_chunk sc, sc_free_next sc).
Proof. intros H. unfold va. rewrite H. reflexivity. Qed.

Section Searches.
Context (f : chunkptr -> nat) (R : nat) (s : state).
Hypothesis Hranked : ranked f s.
Hypothesis Hbound : forall p, (f p <= R)%nat.

(** The walk to the title takes one step more than the rank of the chunk it
    starts from, at most. *)
Lemma small_chunk_title_walk_total fuel : forall p,
  (f p < fuel)%nat -> small_chunk_title_walk fuel p s <> OutOfFuel.
Proof.
  induction fuel as [|fuel IH]; intros p Hp; [lia|]. simpl.
  apply bind_not_oof; [apply noof_read_scp|]. intros sc s' H.
  apply read_scp_Ok in H as (l & i & -> & Hsc & ->).
  destruct (has_flag (sc_flags sc) SMALL_CHUNK_TITLE) eqn:Ht; [apply noof_ret|].
  apply bind_not_oof; [apply noof_assert|]. intros [] s' Ha.
  apply assert_Ok in Ha as [Ha ->]. apply IH.
  pose proof (Hranked (CP l i) _ _ _ (va_scp_at _ (CP l i) _ Hsc)) as Hr.
  unfold body_flags in Hr. rewrite Ht, Ha in Hr. specialize (Hr eq_refl). lia.
Qed.

Lemma small_chunk_referenced_total fuel p :
  (R < fuel)%nat -> small_chunk_referenced fuel p s <> OutOfFuel.
Proof.
  intros Hf. unfold small_chunk_referenced.
  apply bind_not_oof; [apply noof_read_scp|]. intros sc s' H.
  apply read_scp_Ok in H as (l & i & -> & Hsc & ->).
  apply bind_not_oof; [apply noof_assert|]. intros [] s' Ha.
  apply assert_Ok in Ha as [Ha ->].
  destruct (has_flag (sc_flags sc) SMALL_CHUNK_FREE); [apply noof_ret|].
  apply bind_not_oof.
  - apply small_chunk_title_walk_total. specialize (Hbound (CP l i)). lia.
  - intros t s' _. apply noof_bind; [apply noof_assert | intros _; apply noof_ret].
Qed.

Lemma large_broken_chunk_referenced_from_total fuel l n : forall counter,
  (R < fuel)%nat -> large_broken_chunk_referenced_from fuel l counter n s <> OutOfFuel.
Proof.
  induction n as [|n IH]; intros counter Hf; simpl; [apply noof_ret|].
  apply bind_not_oof; [apply small_chunk_referenced_total, Hf|].
  intros r s' H. apply readonly_small_chunk_referenced in H. subst s'.
  destruct r; [apply noof_ret | apply IH, Hf].
Qed.

(** The search for a donor visits the chunks of the small free list. *)
Lemma find_unreferenced_broken_chunk_loop_total K L : forall fuel sd counter iter,
  fl_path s iter L -> (length L + R + 1 <= fuel)%nat ->
  find_unreferenced_broken_chunk_loop K fuel sd counter iter s <> OutOfFuel.
Proof.
  induction L as [|x L IH]; intros fuel sd counter iter Hp Hf;
    (destruct fuel as [|fuel]; [simpl in Hf; lia|]); simpl in Hp |- *.
  - subst iter. apply noof_ret.
  - destruct Hp as (-> & fl & pv & nx & Hx & Hp).
    destruct x as [|l i]; [apply noof_ret|].
    destruct (_ || _); [|apply noof_ret].
    apply bind_not_oof.
    { apply large_broken_chunk_referenced_from_total. simpl in Hf. lia. }
    intros r s' H. apply readonly_large_broken_chunk_referenced in H. subst s'.
    destruct (negb r); [apply noof_ret|].
    apply bind_not_oof; [apply noof_read_sc|]. intros sc s' H.
    apply read_sc_Ok in H as [Hsc ->].
    pose proof (va_scp_at s (CP l i) sc Hsc) as Hv. rewrite Hx in Hv.
    injection Hv as _ _ <-. apply IH; [exact Hp | simpl in Hf; lia].
Qed.

Lemma find_unreferenced_broken_chunk_total K L fuel sd :
  free_list_is s L -> (length L + R + 1 <= fuel)%nat ->
  find_unreferenced_broken_chunk K fuel sd s <> OutOfFuel.
Proof.
  intros [Hp _] Hf. unfold find_unreferenced_broken_chunk. rewrite bind_gets.
  eapply find_unreferenced_broken_chunk_loop_total; eauto.
Qed.

End Searches.

(** * The flags of the large chunks during a pass of the coalescer *)

Lemma map_insert {A B} (g : A -> B) (x : A) : forall xs l,
  map g (<[l := x]> xs) = <[l := g x]> (map g xs).
Proof.
  induction xs as [|y xs IH]; intros [|l]; simpl; try reflexivity.
  rewrite IH. reflexivity.
Qed.

Lemma map_lookup {A B} (g : A -> B) : forall xs l x,
  xs !! l = Some x -> map g xs !! l = Some (g x).
Proof.
  induction xs as [|y xs IH]; intros [|l] x; simpl; try discriminate.
  - intros [= ->]. reflexivity.
  - apply IH.
Qed.

Lemma map_insert_same {A B} (g : A -> B) xs l (x x' : A) :
  xs !! l = Some x -> g x' = g x -> map g (<[l := x']> xs) = map g xs.
Proof.
  intros Hl Hg. rewrite map_insert, Hg.
  apply list_insert_id. apply map_lookup, Hl.
Qed.

Lemma count_occ_insert (v y : Z) : forall xs l,
  xs !! l = Some v -> y <> v ->
  (count_occ Z.eq_dec (<[l := y]> xs) v + 1 = count_occ Z.eq_dec xs v)%nat.
Proof.
  induction xs as [|x xs IH]; intros [|l]; simpl; try discriminate.
  - intros [= ->] Hy.
    destruct (Z.eq_dec y v); [contradiction|].
    destruct (Z.eq_dec v v); [lia|contradiction].
  - intros Hl Hy. specialize (IH l Hl Hy).
    destruct (Z.eq_dec x v); lia.
Qed.

Lemma keeps_of_readonly {A B} (g : state -> B) (m : M A) :
  keeps (fun s => s) m -> keeps g m.
Proof. intros H s a s' Hm. rewrite (H _ _ _ Hm). reflexivity. Qed.

Create HintDb lcf.

Ltac lcf :=
  keeps_auto ltac:(first [ reflexivity
                         | solve [eauto with lcf]
                         | apply keeps_of_readonly; solve [eauto with readonly] ]).

Local Abbreviation lcflags := (fun s : state => map lc_flags (heap s)).

Lemma keeps_lcf_modify_lc l g :
  (forall c, lc_flags (g c) = lc_flags c) -> keeps lcflags (modify_lc l g).
Proof.
  intros Hg s a s' H. apply modify_lc_Ok in H as (c & Hl & ->). simpl.
  eapply map_insert_same; eauto.
Qed.

Lemma keeps_lcf_modify_lcp p g :
  (forall c, lc_flags (g c) = lc_flags c) -> keeps lcflags (modify_lcp p g).
Proof.
  intros Hg. destruct p as [|l [|i]]; simpl;
    [apply keeps_fault | apply keeps_lcf_modify_lc, Hg | apply keeps_fault].
Qed.

Lemma keeps_lcf_modify_sc l i g : keeps lcflags (modify_sc l i g).
Proof.
  intros s a s' H. apply modify_sc_Ok in H as (c & sc & Hl & Hi & ->). simpl.
  eapply map_insert_same; eauto.
Qed.

Lemma keeps_lcf_modify_scp p g : keeps lcflags (modify_scp p g).
Proof. destruct p; simpl; [apply keeps_fault | apply keeps_lcf_modify_sc]. Qed.
#[export] Hint Resolve keeps_lcf_modify_lc keeps_lcf_modify_lcp keeps_lcf_modify_sc
  keeps_lcf_modify_scp : lcf.

Lemma lcf_upd_hdr p g s : map lc_flags (heap (upd_hdr p g s)) = map lc_flags (heap s).
Proof.
  destruct p as [|l i]; [reflexivity|]. unfold upd_hdr.
  destruct (heap s !! l) as [c|] eqn:Hl; [|reflexivity].
  destruct (has_flag _ _);
    [destruct (lbc c !! i); [|reflexivity] | destruct i; [|reflexivity]];
    simpl; eapply map_insert_same; eauto.
Qed.

Lemma keeps_lcf_modify_hdr p g : keeps lcflags (modify_hdr p g).
Proof.
  intros s a s' H. rewrite modify_hdr_spec in H.
  destruct (hdr_at s p); [|discriminate]. injection H as H. subst s'.
  exact (lcf_upd_hdr p g s).
Qed.

Lemma keeps_lcf_hist_add k d : keeps lcflags (hist_add k d).
Proof. intros s a s' H. apply hist_add_Ok in H as (h & ->). reflexivity. Qed.

Lemma keeps_lcf_write_slot sl v : keeps lcflags (write_slot sl v).
Proof. unfold write_slot. lcf. Qed.
#[export] Hint Resolve keeps_lcf_modify_hdr keeps_lcf_hist_add keeps_lcf_write_slot : lcf.

Lemma readonly_read_slot sl : keeps (fun s => s) (read_slot sl).
Proof. unfold read_slot. readonly. Qed.
#[export] Hint Resolve readonly_read_slot : readonly.

Lemma keeps_lcf_small_free_list_splice l i sc :
  keeps lcflags (small_free_list_splice l i sc).
Proof. unfold small_free_list_splice. lcf. Qed.
#[export] Hint Resolve keeps_lcf_small_free_list_splice : lcf.

Lemma keeps_lcf_free_list_pop_small K : keeps lcflags (free_list_pop K SMALL_CHUNK).
Proof. unfold free_list_pop. lcf. Qed.

Lemma keeps_lcf_coalesce_park_free K l : keeps lcflags (coalesce_park_free K l).
Proof. unfold coalesce_park_free. lcf. Qed.

Lemma keeps_lcf_coalesce_fix_title old repl : keeps lcflags (coalesce_fix_title old repl).
Proof. unfold coalesce_fix_title. lcf. Qed.

Lemma keeps_lcf_coalesce_fix_body old repl : keeps lcflags (coalesce_fix_body old repl).
Proof. unfold coalesce_fix_body. lcf. Qed.
#[export] Hint Resolve keeps_lcf_free_list_pop_small keeps_lcf_coalesce_park_free
  keeps_lcf_coalesce_fix_title keeps_lcf_coalesce_fix_body : lcf.

Lemma keeps_lcf_coalesce_migrate K l : keeps lcflags (coalesce_migrate K l).
Proof. unfold coalesce_migrate. lcf. Qed.
#[export] Hint Resolve keeps_lcf_coalesce_migrate : lcf.

Lemma modify_lc_lcf l g a s s' :
  modify_lc l g s = Ok (a, s') ->
  exists c, heap s !! l = Some c
    /\ map lc_flags (heap s') = <[l := lc_flags (g c)]> (map lc_flags (heap s)).
Proof.
  intros H. apply modify_lc_Ok in H as (c & Hl & ->). exists c.
  split; [exact Hl|]. simpl. apply map_insert.
Qed.

(** A mandatory unbreak turns one broken large chunk into a free one. *)
Lemma unbreak_large_chunk_lcf K l s s' :
  unbreak_large_chunk K l true s = Ok (tt, s') ->
  map lc_flags (heap s) !! l = Some LARGE_CHUNK_BROKEN_FLAGS
  /\ map lc_flags (heap s')
     = <[l := Z.lor LARGE_CHUNK_INITIALIZED LARGE_CHUNK_FREE]> (map lc_flags (heap s)).
Proof.
  unfold unbreak_large_chunk. intros H.
  apply bind_Ok in H as (c & s0 & H1 & H). apply read_lc_Ok in H1 as [Hl ->].
  apply bind_Ok in H as ([] & s0 & H1 & H). apply assert_Ok in H1 as [Hf ->].
  apply Z.eqb_eq in Hf. simpl in H.
  apply bind_Ok in H as ([] & s0 & H1 & H). apply assert_Ok in H1 as [_ ->].
  apply bind_Ok in H as ([] & s1 & H1 & H).
  assert (E1 : map lc_flags (heap s1) = map lc_flags (heap s)).
  { revert H1. generalize s tt s1. change (keeps lcflags
      (for_up (SMALL_CHUNKS_PER_LARGE_CHUNK K) (fun i =>
         let! sc := read_sc l i in
         assert ((sc_flags sc =? Z.lor SMALL_CHUNK_INITIALIZED SMALL_CHUNK_FREE)
                 || (sc_flags sc =? Z.lor SMALL_CHUNK_INITIALIZED
                                          SMALL_CHUNK_COALESCE_PENDING)) ;;;
         when (has_flag (sc_flags sc) SMALL_CHUNK_FREE)
              (small_free_list_splice l i sc ;;;
               modify_sc l i (set_sc_flags 0) ;;;
               modify (fun s => set_small_free_list_sz
                                  (wrap64 (small_free_list_sz s - 1)) s))))).
    lcf. }
  apply bind_Ok in H as ([] & s2 & H2 & H).
  apply modify_lc_lcf in H2 as (c2 & Hl2 & E2). simpl in E2.
  apply bind_Ok in H as ([] & s3 & H3 & H).
  assert (E4 : map lc_flags (heap s') = map lc_flags (heap s3)).
  { revert H. generalize s3 tt s'. change (keeps lcflags
      (modify_stats (fun t => set_large_broken_chunks
                                (wrap64 (large_broken_chunks t - 1)) t) ;;;
       hist_add 0 (-1) ;;;
       modify_stats (fun t => set_unbreak_events (wrap64 (unbreak_events t + 1)) t))).
    lcf. }
  unfold free_list_push_large in H3.
  apply bind_Ok in H3 as (c3 & s0 & H1' & H3). apply read_lcp_Ok in H1' as (l3 & [= <-] & Hl3 & ->).
  apply bind_Ok in H3 as ([] & s0 & H1' & H3). apply assert_Ok in H1' as [_ ->].
  rewrite bind_gets in H3.
  apply bind_Ok in H3 as ([] & s4 & H4 & H3).
  apply modify_lc_lcf in H4 as (c4 & Hl4 & E4'). simpl in E4'.
  rewrite !bind_modify in H3.
  apply modify_lc_lcf in H3 as (c5 & Hl5 & E5). simpl in E5.
  split.
  - rewrite (map_lookup _ _ _ _ Hl), Hf. reflexivity.
  - rewrite E4, E5, E4', E2, E1.
    rewrite !list_insert_insert_eq. reflexivity.
Qed.

(** One pass over a donor: one broken large chunk less. *)
Lemma coalesce_donor_broken_count K l s s' :
  coalesce_donor K l s = Ok (tt, s') ->
  (broken_count s' + 1 = broken_count s)%nat.
Proof.
  unfold coalesce_donor. intros H.
  apply bind_Ok in H as (c & s0 & H1 & H). apply read_lc_Ok in H1 as [_ ->].
  apply bind_Ok in H as ([] & s1 & H1 & H).
  apply keeps_lcf_hist_add in H1.
  unfold modify_stats in H. rewrite bind_modify in H.
  apply bind_Ok in H as ([] & s2 & H2 & H).
  assert (E2 : map lc_flags (heap s2) = map lc_flags (heap s1)).
  { apply when_Ok in H2 as [[_ H2] | [_ ->]]; [|reflexivity].
    apply bind_Ok in H2 as ([] & s3 & H3 & H2).
    apply keeps_lcf_coalesce_park_free in H3.
    apply keeps_lcf_coalesce_migrate in H2. simpl in H2, H3. congruence. }
  apply bind_Ok in H as ([] & s3 & H3 & H).
  apply keeps_lcf_hist_add in H3.
  apply unbreak_large_chunk_lcf in H as [Hl E].
  unfold broken_count. rewrite E, <- H1, <- E2, <- H3.
  apply count_occ_insert; [exact Hl | vm_compute; discriminate].
Qed.

(** * The shape of the small chunks under writes *)

Lemma va_upd_at p g s s' :
  upd_at scp_at p g s s' ->
  exists c, scp_at s p = Some c
    /\ forall q, va s' q = if chunkptr_eqb q p then Some (sc_view (g c)) else va s q.
Proof.
  intros (c & Hp & H). exists c. split; [exact Hp|]. intros q. unfold va.
  rewrite H. destruct (chunkptr_eqb q p); reflexivity.
Qed.

(** The path of the free list only depends on the [next] links of its
    members. *)
Lemma fl_path_mono s s' L :
  (forall q fl pv nx, q ∈ L -> va s q = Some (fl, pv, nx) ->
     exists fl' pv', va s' q = Some (fl', pv', nx)) ->
  forall a, fl_path s a L -> fl_path s' a L.
Proof.
  induction L as [|x L IH]; intros Hs a; simpl; [auto|].
  intros (-> & fl & pv & nx & Hx & Hp). split; [reflexivity|].
  destruct (Hs x fl pv nx) as (fl' & pv' & Hx'); [left | exact Hx |].
  exists fl', pv', nx. split; [exact Hx'|]. apply IH; [|exact Hp].
  intros q fl0 pv0 nx0 Hq. apply Hs. right. exact Hq.
Qed.

Lemma fl_path_NULL s L : fl_path s NULL_CHUNKPTR L -> L = [].
Proof.
  destruct L as [|x L]; [reflexivity|]. simpl.
  intros (<- & fl & pv & nx & Hx & _). discriminate.
Qed.

Lemma fl_path_det s : forall L a L', fl_path s a L -> fl_path s a L' -> L = L'.
Proof.
  induction L as [|x L IH]; intros a L' H H'.
  - simpl in H. subst a. symmetry. eapply fl_path_NULL, H'.
  - destruct L' as [|x' L'].
    + simpl in H'. subst a. apply fl_path_NULL in H. discriminate.
    + simpl in H, H'. destruct H as (-> & fl & pv & nx & Hx & H).
      destruct H' as (<- & fl' & pv' & nx' & Hx' & H').
      rewrite Hx in Hx'. injection Hx' as <- <- <-. f_equal. eapply IH; eauto.
Qed.

(** The path from a member of the list: the rest of the list. *)
Lemma fl_path_app s : forall L1 a x L2,
  fl_path s a (L1 ++ x :: L2) -> fl_path s x (x :: L2).
Proof.
  induction L1 as [|y L1 IH]; intros a x L2; simpl.
  - intros (-> & H). split; [reflexivity | exact H].
  - intros (-> & fl & pv & nx & Hy & H). eapply IH, H.
Qed.

Section Update.
Context (s s' : state) (p : chunkptr) (fl' : Z) (pv' nx' : chunkptr).
Hypothesis Hupd :
  forall q, va s' q = if chunkptr_eqb q p then Some (fl', pv', nx') else va s q.

Lemma va_upd_same : va s' p = Some (fl', pv', nx').
Proof. rewrite Hupd, chunkptr_eqb_refl. reflexivity. Qed.

Lemma va_upd_other q : q <> p -> va s' q = va s q.
Proof. intros H. rewrite Hupd. apply chunkptr_eqb_neq in H. rewrite H. reflexivity. Qed.

Lemma fl_path_upd_notin L a : p ∉ L -> fl_path s a L -> fl_path s' a L.
Proof.
  intros Hp. apply fl_path_mono. intros q fl pv nx Hq Hv.
  exists fl, pv. rewrite va_upd_other; [exact Hv|]. intros ->. contradiction.
Qed.

Lemma fl_path_upd_next L a fl pv :
  va s p = Some (fl, pv, nx') -> fl_path s a L -> fl_path s' a L.
Proof.
  intros Hp. apply fl_path_mono. intros q fl0 pv0 nx0 Hq Hv.
  destruct (chunkptr_eq_dec q p) as [->|Hne].
  - rewrite Hp in Hv. injection Hv as <- <- <-. exists fl', pv'. apply va_upd_same.
  - exists fl0, pv0. rewrite va_upd_other; assumption.
Qed.

Lemma ranked_upd f :
  (body_flags fl' = true -> (f pv' < f p)%nat) -> ranked f s -> ranked f s'.
Proof.
  intros Hp Hr q fl pv nx Hv Hb.
  destruct (chunkptr_eq_dec q p) as [->|Hne].
  - rewrite va_upd_same in Hv. injection Hv as <- <- <-. auto.
  - rewrite va_upd_other in Hv by assumption. eapply Hr; eauto.
Qed.

Lemma no_prev_into_upd X :
  (body_flags fl' = true -> ~ X pv') -> no_prev_into X s -> no_prev_into X s'.
Proof.
  intros Hp Hr q fl pv nx Hv Hb.
  destruct (chunkptr_eq_dec q p) as [->|Hne].
  - rewrite va_upd_same in Hv. injection Hv as <- <- <-. auto.
  - rewrite va_upd_other in Hv by assumption. eapply Hr; eauto.
Qed.

End Update.

Section Same.
Context (s s' : state).
Hypothesis Hsame : forall q, va s' q = va s q.

Lemma fl_path_same L a : fl_path s a L -> fl_path s' a L.
Proof.
  apply fl_path_mono. intros q fl pv nx _ Hv. exists fl, pv. rewrite Hsame. exact Hv.
Qed.

Lemma ranked_same f : ranked f s -> ranked f s'.
Proof. intros Hr q fl pv nx Hv. rewrite Hsame in Hv. eapply Hr, Hv. Qed.

Lemma no_prev_into_same X : no_prev_into X s -> no_prev_into X s'.
Proof. intros Hr q fl pv nx Hv. rewrite Hsame in Hv. eapply Hr, Hv. Qed.

End Same.

Lemma no_prev_into_weaken (X X' : chunkptr -> Prop) s :
  (forall p, X' p -> X p) -> no_prev_into X s -> no_prev_into X' s.
Proof. intros HX H q fl pv nx Hv Hb HX'. exact (H q fl pv nx Hv Hb (HX _ HX')). Qed.

Lemma coalesce_wf_same n R s s' :
  (forall q, va s' q = va s q) -> small_free_list s' = small_free_list s ->
  coalesce_wf n R s -> coalesce_wf n R s'.
Proof.
  intros Hv Hh (L & f & Hn & [Hp Hd] & Hb & Hr & Hnp).
  exists L, f. split; [exact Hn|]. split.
  - split; [|exact Hd]. rewrite Hh. eapply fl_path_same; eauto.
  - split; [exact Hb|]. split; [eapply ranked_same | eapply no_prev_into_same]; eauto.
Qed.

(** Code that leaves flags, body [prev_chunk] and free [next] of every small
    chunk alone, and the head of the small free list. *)
Lemma coalesce_wf_neutral {A} n R (m : M A) :
  (forall q, keeps (fun s => va s q) m) -> keeps small_free_list m ->
  preserves (coalesce_wf n R) m.
Proof.
  intros Hv Hh s a s' Hwf Hm.
  eapply coalesce_wf_same; [| |exact Hwf].
  - intros q. exact (Hv q _ _ _ Hm).
  - exact (Hh _ _ _ Hm).
Qed.

(** * Flags of small chunks, bit by bit *)

Lemma land_pow2 fl k :
  0 <= k -> Z.land fl (2 ^ k) = if Z.testbit fl k then 2 ^ k else 0.
Proof.
  intros Hk. apply Z.bits_inj'. intros n Hn.
  rewrite Z.land_spec, (Z.pow2_bits_eqb k n Hk).
  destruct (Z.eqb_spec k n) as [->|Hne].
  - rewrite andb_true_r. destruct (Z.testbit fl n) eqn:E.
    + rewrite Z.pow2_bits_true; [reflexivity | exact Hn].
    + rewrite Z.bits_0. reflexivity.
  - rewrite andb_false_r. destruct (Z.testbit fl k).
    + rewrite Z.pow2_bits_false; [reflexivity | exact Hne].
    + rewrite Z.bits_0. reflexivity.
Qed.

Lemma has_flag_bit fl k : 0 <= k -> has_flag fl (2 ^ k) = Z.testbit fl k.
Proof.
  intros Hk. unfold has_flag. rewrite (land_pow2 fl k Hk).
  destruct (Z.testbit fl k); [|reflexivity].
  assert (0 < 2 ^ k) by (apply Z.pow_pos_nonneg; lia).
  destruct (Z.eqb_spec (2 ^ k) 0); [lia | reflexivity].
Qed.

Lemma body_flags_bits fl :
  body_flags fl = negb (Z.testbit fl 2) && (Z.testbit fl 0 && Z.testbit fl 1).
Proof.
  unfold body_flags. f_equal.
  - f_equal. exact (has_flag_bit fl 2 ltac:(lia)).
  - change (Z.lor SMALL_CHUNK_INITIALIZED SMALL_CHUNK_USED) with (Z.lor (2 ^ 0) (2 ^ 1)).
    rewrite Z.land_lor_distr_r, (land_pow2 fl 0), (land_pow2 fl 1) by lia.
    destruct (Z.testbit fl 0), (Z.testbit fl 1); reflexivity.
Qed.

Lemma body_flags_clear_free fl :
  body_flags (clear_flag fl SMALL_CHUNK_FREE) = body_flags fl.
Proof.
  rewrite !body_flags_bits. unfold clear_flag.
  rewrite !Z.land_spec. simpl. rewrite !andb_true_r. reflexivity.
Qed.

Lemma body_flags_set_pending fl :
  body_flags (set_flag fl SMALL_CHUNK_COALESCE_PENDING) = body_flags fl.
Proof.
  rewrite !body_flags_bits. unfold set_flag.
  rewrite !Z.lor_spec. simpl. rewrite !orb_false_r. reflexivity.
Qed.

Lemma body_flags_set_used fl :
  body_flags fl = true -> body_flags (set_flag fl SMALL_CHUNK_USED) = true.
Proof.
  rewrite !body_flags_bits. unfold set_flag.
  rewrite !Z.lor_spec.
  change (Z.testbit SMALL_CHUNK_USED 2) with false.
  change (Z.testbit SMALL_CHUNK_USED 0) with false.
  change (Z.testbit SMALL_CHUNK_USED 1) with true.
  destruct (Z.testbit fl 2), (Z.testbit fl 0), (Z.testbit fl 1); simpl; congruence.
Qed.

Lemma body_flags_set_title fl :
  body_flags (set_flag fl (Z.lor SMALL_CHUNK_USED SMALL_CHUNK_TITLE)) = false.
Proof.
  rewrite !body_flags_bits. unfold set_flag.
  rewrite !Z.lor_spec. simpl. rewrite orb_true_r. reflexivity.
Qed.

Lemma body_flags_title fl :
  has_flag fl SMALL_CHUNK_TITLE = true -> body_flags fl = false.
Proof. unfold body_flags. intros ->. reflexivity. Qed.

Lemma body_flags_intro fl :
  has_flag fl SMALL_CHUNK_TITLE = false ->
  has_flag fl SMALL_CHUNK_USED = true ->
  (Z.land fl SMALL_CHUNK_INITIALIZED =? SMALL_CHUNK_INITIALIZED) = true ->
  body_flags fl = true.
Proof.
  rewrite body_flags_bits.
  change (has_flag fl SMALL_CHUNK_TITLE) with (has_flag fl (2 ^ 2)).
  change (has_flag fl SMALL_CHUNK_USED) with (has_flag fl (2 ^ 1)).
  rewrite (has_flag_bit fl 2 ltac:(lia)), (has_flag_bit fl 1 ltac:(lia)).
  change SMALL_CHUNK_INITIALIZED with (2 ^ 0). rewrite (land_pow2 fl 0) by lia.
  intros -> -> H. destruct (Z.testbit fl 0); [reflexivity | discriminate].
Qed.

Lemma body_flags_used fl : body_flags fl = true -> has_flag fl SMALL_CHUNK_USED = true.
Proof.
  rewrite body_flags_bits.
  change (has_flag fl SMALL_CHUNK_USED) with (has_flag fl (2 ^ 1)).
  rewrite (has_flag_bit fl 1 ltac:(lia)).
  destruct (Z.testbit fl 2), (Z.testbit fl 0), (Z.testbit fl 1); simpl; congruence.
Qed.

(** * Writes the shape of the small chunks does not see *)

Create HintDb vaq.

Ltac vaq :=
  keeps_auto ltac:(first [ reflexivity
                         | solve [eauto with vaq]
                         | apply keeps_of_readonly; solve [eauto with readonly] ]).

Local Abbreviation shape q := (fun s : state => (va s q, small_free_list s)).

Lemma keeps_shape_modify_lc q l g :
  (forall c, lbc (g c) = lbc c) -> keeps (shape q) (modify_lc l g).
Proof.
  intros Hg s a s' H. unfold va.
  rewrite (modify_lc_scp_at _ _ _ _ _ H Hg q).
  apply modify_lc_Ok in H as (c & _ & ->). reflexivity.
Qed.

Lemma keeps_shape_modify_lcp q p g :
  (forall c, lbc (g c) = lbc c) -> keeps (shape q) (modify_lcp p g).
Proof.
  intros Hg. destruct p as [|l [|i]]; simpl;
    [apply keeps_fault | apply keeps_shape_modify_lc, Hg | apply keeps_fault].
Qed.

Lemma keeps_shape_modify_scp q p g :
  (forall c, sc_view (g c) = sc_view c) -> keeps (shape q) (modify_scp p g).
Proof.
  intros Hg s a s' H. pose proof H as H'.
  apply modify_scp_upd_at, va_upd_at in H as (c & Hc & Hv).
  apply modify_scp_Ok in H' as (l & i & c0 & sc & -> & _ & _ & ->).
  rewrite Hv. simpl small_free_list. f_equal.
  destruct (chunkptr_eqb q (CP l i)) eqn:E; [|reflexivity].
  apply chunkptr_eqb_eq in E. subst q. unfold va. rewrite Hc, Hg. reflexivity.
Qed.

Lemma keeps_shape_modify_sc q l i g :
  (forall c, sc_view (g c) = sc_view c) -> keeps (shape q) (modify_sc l i g).
Proof. exact (keeps_shape_modify_scp q (CP l i) g). Qed.
#[export] Hint Resolve keeps_shape_modify_lc keeps_shape_modify_lcp keeps_shape_modify_scp
  keeps_shape_modify_sc : vaq.

Lemma keeps_shape_modify_hdr q p g : keeps (shape q) (modify_hdr p g).
Proof.
  destruct p as [|l i]; [apply keeps_fault|].
  intros s a s' H. unfold modify_hdr in H.
  apply bind_Ok in H as (c & s0 & H1 & H). apply read_lc_Ok in H1 as [Hl ->].
  destruct (has_flag _ _).
  - revert H. apply keeps_shape_modify_sc. reflexivity.
  - destruct i; [|discriminate].
    apply write_lc_Ok in H as [_ ->]. simpl small_free_list. f_equal.
    destruct q as [|l' i']; [reflexivity|]. unfold va, scp_at.
    rewrite (sc_at_set_heap_large (heap s) s l c (set_lc_title (g (lc_title c)) c)
               l' i' Hl eq_refl).
    unfold sc_at. reflexivity.
Qed.

Lemma keeps_shape_hist_add q k d : keeps (shape q) (hist_add k d).
Proof. intros s a s' H. apply hist_add_Ok in H as (h & ->). reflexivity. Qed.
#[export] Hint Resolve keeps_shape_modify_hdr keeps_shape_hist_add : vaq.

Lemma keeps_shape_free_list_push_large q p : keeps (shape q) (free_list_push_large p).
Proof. unfold free_list_push_large. vaq. Qed.
#[export] Hint Resolve keeps_shape_free_list_push_large : vaq.

Lemma coalesce_wf_shape {A} n R (m : M A) :
  (forall q, keeps (shape q) m) -> preserves (coalesce_wf n R) m.
Proof.
  intros H. apply coalesce_wf_neutral.
  - intros q s a s' Hm. pose proof (H q s a s' Hm) as E. congruence.
  - intros s a s' Hm. pose proof (H NULL_CHUNKPTR s a s' Hm) as E. congruence.
Qed.

(** * Flag changes and removals from the small free list *)

#[export] Instance chunkptr_eq_decision : EqDecision chunkptr := chunkptr_eq_dec.

(** A write to one small chunk that keeps its links, and makes no body
    chunk of it. *)
Lemma coalesce_wf_upd n R s s' p fl pv nx fl' :
  (forall q, va s' q = if chunkptr_eqb q p then Some (fl', pv, nx) else va s q) ->
  small_free_list s' = small_free_list s ->
  va s p = Some (fl, pv, nx) ->
  (body_flags fl' = true -> body_flags fl = true) ->
  coalesce_wf n R s -> coalesce_wf n R s'.
Proof.
  intros Hupd Hh Hp Hb (L & f & Hn & [Hpath Hd] & Hbd & Hr & Hnp).
  exists L, f. split; [exact Hn|]. split.
  - split; [|exact Hd]. rewrite Hh. eapply fl_path_upd_next; eauto.
  - split; [exact Hbd|]. split.
    + eapply ranked_upd; [exact Hupd | | exact Hr]. intros H. eapply Hr; eauto.
    + eapply no_prev_into_upd; [exact Hupd | | exact Hnp]. intros H. eapply Hnp; eauto.
Qed.

Lemma modify_scp_head p g a s s' :
  modify_scp p g s = Ok (a, s') -> small_free_list s' = small_free_list s.
Proof.
  intros H. apply modify_scp_Ok in H as (l & i & c & sc & _ & _ & _ & ->). reflexivity.
Qed.

Lemma coalesce_wf_set_flags n R p (F : Z -> Z) :
  (forall fl, body_flags (F fl) = true -> body_flags fl = true) ->
  preserves (coalesce_wf n R) (modify_scp p (fun c => set_sc_flags (F (sc_flags c)) c)).
Proof.
  intros HF s a s' Hwf H. pose proof (modify_scp_head _ _ _ _ _ H) as Hh.
  apply modify_scp_upd_at, va_upd_at in H as (c & Hc & Hv).
  exact (coalesce_wf_upd n R s s' p (sc_flags c) (sc_body_prev_chunk c) (sc_free_next c)
           (F (sc_flags c)) Hv Hh (va_scp_at _ _ _ Hc) (HF _) Hwf).
Qed.

(** Taking [x], the chunk after [y], out of the path. *)
Lemma fl_path_remove s s' y fl' pv' nx' x L3 :
  (forall q, va s' q = if chunkptr_eqb q y then Some (fl', pv', nx') else va s q) ->
  (exists fl pv, va s x = Some (fl, pv, nx')) ->
  y ∉ L3 ->
  forall L1 a, y ∉ L1 ->
    fl_path s a (L1 ++ y :: x :: L3) -> fl_path s' a (L1 ++ y :: L3).
Proof.
  intros Hupd (flx & pvx & Hx) Hy3.
  induction L1 as [|z L1 IH]; intros a Hy1; simpl.
  - intros (-> & fl & pv & nx & Hy & -> & flx' & pvx' & nxx & Hx' & Hp).
    rewrite Hx in Hx'. injection Hx' as <- <- <-.
    split; [reflexivity|]. exists fl', pv', nx'.
    split; [apply (va_upd_same _ _ _ _ _ _ Hupd)|].
    eapply fl_path_upd_notin; eauto.
  - apply not_elem_of_cons in Hy1 as [Hzy Hy1].
    intros (-> & fl & pv & nx & Hz & Hp). split; [reflexivity|].
    exists fl, pv, nx. split; [|apply IH; assumption].
    rewrite (va_upd_other _ _ _ _ _ _ Hupd) by congruence. exact Hz.
Qed.

Lemma coalesce_wf_shorter n R s L f L' :
  free_list_is s L' -> (forall p, p ∈ L' -> p ∈ L) -> (length L' <= length L)%nat ->
  (length L <= n)%nat -> (forall p, f p <= R)%nat -> ranked f s ->
  no_prev_into (fun p => p ∈ L) s ->
  coalesce_wf n R s.
Proof.
  intros HL' Hsub Hlen Hn Hb Hr Hnp. exists L', f.
  split; [lia|]. split; [exact HL'|]. split; [exact Hb|]. split; [exact Hr|].
  eapply no_prev_into_weaken; [|exact Hnp]. exact Hsub.
Qed.

(** [small_free_list_splice] on the chunk [(l, i)]. *)
Lemma small_free_list_splice_wf n R l i sc s s' :
  small_free_list_splice l i sc s = Ok (tt, s') ->
  scp_at s (CP l i) = Some sc ->
  coalesce_wf n R s -> coalesce_wf n R s'.
Proof.
  unfold small_free_list_splice. intros H Hsc Hwf.
  apply bind_Ok in H as (tgt & s0 & H1 & H).
  pose proof (readonly_read_slot _ _ _ _ H1) as E. simpl in E. subst s0.
  apply bind_Ok in H as ([] & s0 & H2 & H). apply assert_Ok in H2 as [Ht ->].
  apply chunkptr_eqb_eq in Ht. subst tgt.
  apply bind_Ok in H as ([] & s1 & Hw & H).
  assert (Hwf1 : coalesce_wf n R s1); [|clear Hwf].
  { destruct Hwf as (L & f & Hn & [Hpath Hd] & Hbd & Hr & Hnp).
    pose proof (va_scp_at _ _ _ Hsc) as Hvx.
    destruct (sc_free_prev_next sc) as [|l' i'].
    - (* the chunk is the head of the list *)
      simpl in H1. apply gets_Ok in H1 as [Hhead _].
      simpl in Hw. apply modify_Ok in Hw. subst s1.
      destruct L as [|x L']; simpl in Hpath; [congruence|].
      destruct Hpath as (Hx & fl & pv & nx & Hv & Hp).
      rewrite <- Hhead in Hx. subst x. rewrite Hvx in Hv. injection Hv as <- <- <-.
      apply NoDup_cons in Hd as [_ Hd].
      assert (Hsame : forall q, va (set_small_free_list (sc_free_next sc) s) q = va s q)
        by reflexivity.
      apply (coalesce_wf_shorter n R _ (CP l i :: L') f L').
      + split; [exact (fl_path_same _ _ Hsame _ _ Hp) | exact Hd].
      + intros p Hp'. right. exact Hp'.
      + simpl. lia.
      + exact Hn.
      + exact Hbd.
      + exact (ranked_same _ _ Hsame _ Hr).
      + exact (no_prev_into_same _ _ Hsame _ Hnp).
    - (* the chunk comes after the chunk [(l', i')] *)
      simpl in H1. apply bind_Ok in H1 as (y & s0 & H1 & H1').
      apply read_sc_Ok in H1 as [Hy ->]. apply ret_Ok in H1' as [Hnext _].
      simpl in Hw. pose proof (modify_scp_head (CP l' i') _ _ _ _ Hw) as Hh.
      apply (modify_scp_upd_at (CP l' i')), va_upd_at in Hw as (y' & Hy' & Hv).
      change (scp_at s (CP l' i') = Some y) in Hy.
      assert (y' = y) as -> by congruence. clear Hy'.
      pose proof (va_scp_at _ _ _ Hy) as Hvy. rewrite <- Hnext in Hvy.
      unfold sc_view in Hv. simpl in Hv.
      assert (Hr1 : ranked f s1).
      { eapply ranked_upd; [exact Hv | | exact Hr]. intros Hb. eapply Hr; eauto. }
      assert (Hnp1 : no_prev_into (fun p => p ∈ L) s1).
      { eapply no_prev_into_upd; [exact Hv | | exact Hnp]. intros Hb. eapply Hnp; eauto. }
      destruct (decide (CP l' i' ∈ L)) as [Hin|Hnin].
      + apply list_elem_of_split in Hin as (L1 & L2 & ->).
        pose proof (fl_path_app _ _ _ _ _ Hpath) as Hp2. simpl in Hp2.
        destruct Hp2 as (_ & fl & pv & nx & Hvy' & Hp2).
        rewrite Hvy in Hvy'. injection Hvy' as <- <- <-.
        destruct L2 as [|x L3]; simpl in Hp2; [discriminate|].
        destruct Hp2 as (<- & flx & pvx & nxx & Hvx' & Hp3).
        rewrite Hvx in Hvx'. injection Hvx' as <- <- <-.
        apply NoDup_app in Hd as (Hd1 & Hd12 & Hd2).
        apply NoDup_cons in Hd2 as [Hy2 Hd2].
        apply NoDup_cons in Hd2 as [Hx3 Hd3].
        apply not_elem_of_cons in Hy2 as [Hyx Hy3].
        assert (Hy1 : CP l' i' ∉ L1).
        { intros Hin. apply (Hd12 _ Hin). left. }
        apply (coalesce_wf_shorter n R _ (L1 ++ CP l' i' :: CP l i :: L3) f
                 (L1 ++ CP l' i' :: L3)); [| | |exact Hn|exact Hbd|exact Hr1|exact Hnp1].
        * split.
          -- rewrite Hh. eapply fl_path_remove; eauto.
          -- apply NoDup_app. split; [exact Hd1|]. split.
             ++ intros p Hp1 Hp2. apply (Hd12 p Hp1).
                apply elem_of_cons in Hp2 as [->|Hp2]; [left | right; right; exact Hp2].
             ++ apply NoDup_cons. split; assumption.
        * intros p Hp. apply elem_of_app in Hp as [Hp|Hp]; apply elem_of_app;
            [left; exact Hp | right].
          apply elem_of_cons in Hp as [->|Hp]; [left | right; right; exact Hp].
        * rewrite !length_app. simpl. lia.
      + exists L, f. split; [exact Hn|]. split.
        * split; [|exact Hd]. rewrite Hh. eapply fl_path_upd_notin; eauto.
        * auto. }
  revert H. generalize tt at 1. intros u H. revert Hwf1 H. generalize s1 u s'.
  change (preserves (coalesce_wf n R)
            (when (negb (is_null (sc_free_next sc)))
               (modify_scp (sc_free_next sc)
                  (set_sc_free_prev_next (sc_free_prev_next sc))))).
  apply coalesce_wf_shape. intros q. vaq.
Qed.

(** * The steps of the coalescer that keep the small chunks well-formed *)


(** A successful pop of a small chunk. *)
Lemma free_list_pop_small_va K p s s' :
  free_list_pop K SMALL_CHUNK s = Ok (p, s') -> p <> NULL_CHUNKPTR ->
  exists pv nx,
    va s p = Some (Z.lor SMALL_CHUNK_INITIALIZED SMALL_CHUNK_FREE, pv, nx)
    /\ small_free_list s = p /\ small_free_list s' = nx
    /\ forall q, va s' q
         = if chunkptr_eqb q p then Some (SMALL_CHUNK_INITIALIZED, pv, nx) else va s q.
Proof.
  unfold free_list_pop. intros H Hp. rewrite bind_gets in H.
  destruct (small_free_list_sz s =? 0).
  { apply ret_Ok in H as [-> _]. congruence. }
  rewrite bind_gets in H.
  destruct (small_free_list s) as [|l i] eqn:Hhead; [discriminate|].
  apply bind_Ok in H as (sc & s0 & H1 & H). apply read_sc_Ok in H1 as [Hsc ->].
  apply bind_Ok in H as (pc & s0 & H1 & H). apply read_lc_Ok in H1 as [Hpc ->].
  apply bind_Ok in H as ([] & sa & Ha & H).
  apply bind_Ok in H as ([] & sb & Hb & H).
  apply bind_Ok in H as ([] & sc0 & Hc & H).
  apply bind_Ok in H as ([] & s1 & Has & H). apply assert_Ok in Has as [_ ->].
  rewrite bind_modify in H.
  apply bind_Ok in H as ([] & sd & Hd & H).
  rewrite bind_modify in H.
  apply bind_Ok in H as (sc2 & s1 & H1 & H). apply read_sc_Ok in H1 as [Hsc2 ->].
  apply bind_Ok in H as ([] & s1 & Has & H). apply assert_Ok in Has as [Hf ->].
  apply Z.eqb_eq in Hf.
  apply bind_Ok in H as ([] & se & He & H). apply ret_Ok in H as [-> ->].
  assert (Vd : forall q, shape q sd = (va s q, sc_free_next sc)).
  { intros q.
    assert (K4 : keeps (shape q)
              (when (negb (is_null (sc_free_next sc)))
                 (modify_scp (sc_free_next sc) (set_sc_free_prev_next SlotHead))))
      by vaq.
    pose proof (K4 _ _ _ Hd) as E4. cbv beta in E4.
    pose proof (keeps_shape_hist_add q _ _ _ _ _ Hc) as E3. cbv beta in E3.
    pose proof (keeps_shape_modify_lc q l
                  (set_small_chunks_allocated (small_chunks_allocated pc + 1))
                  (fun c => eq_refl) _ _ _ Hb) as E2.
    cbv beta in E2.
    pose proof (keeps_shape_hist_add q _ _ _ _ _ Ha) as E1. cbv beta in E1.
    change (va (set_small_free_list (sc_free_next sc) sc0) q) with (va sc0 q) in E4.
    change (small_free_list (set_small_free_list (sc_free_next sc) sc0))
      with (sc_free_next sc) in E4.
    injection E3 as E3 _. injection E2 as E2 _. injection E1 as E1 _.
    rewrite E4. congruence. }
  change (scp_at sd (CP l i) = Some sc2) in Hsc2.
  pose proof (va_scp_at _ _ _ Hsc2) as Hv2.
  pose proof (f_equal fst (Vd (CP l i))) as E. simpl in E.
  rewrite Hv2, (va_scp_at s (CP l i) sc Hsc) in E. injection E as E1 E2 E3.
  pose proof (modify_scp_head (CP l i) _ _ _ _ He) as Hh.
  apply (modify_scp_upd_at (CP l i)), va_upd_at in He as (c & Hc' & Hv).
  change (scp_at sd (CP l i) = Some c) in Hc'.
  assert (c = sc2) as -> by congruence.
  exists (sc_body_prev_chunk sc), (sc_free_next sc).
  split; [rewrite (va_scp_at s (CP l i) sc Hsc), <- E1, Hf; reflexivity|].
  split; [reflexivity|].
  split; [rewrite Hh; exact (f_equal snd (Vd NULL_CHUNKPTR))|].
  intros q. rewrite Hv. destruct (chunkptr_eqb q (CP l i)).
  - unfold sc_view. simpl. rewrite Hf, E2, E3. reflexivity.
  - exact (f_equal fst (Vd q)).
Qed.

Lemma coalesce_wf_modify_sz n R g :
  (forall s q, va (g s) q = va s q) ->
  (forall s, small_free_list (g s) = small_free_list s) ->
  preserves (coalesce_wf n R) (modify g).
Proof.
  intros Hv Hh. apply pres_modify. intros s Hwf.
  eapply coalesce_wf_same; [apply Hv | apply Hh | exact Hwf].
Qed.

(** One step of the first loop of the coalescer. *)
Lemma coalesce_park_free_wf n R K l :
  preserves (coalesce_wf n R) (coalesce_park_free K l).
Proof.
  unfold coalesce_park_free. apply pres_for_up. intros i s a s' Hwf H.
  apply bind_Ok in H as (iter & s0 & H1 & H). apply read_sc_Ok in H1 as [Hsc ->].
  apply when_Ok in H as [[_ H] | [_ ->]]; [|exact Hwf].
  apply bind_Ok in H as ([] & s1 & H1 & H).
  apply (small_free_list_splice_wf n R) in H1; [|exact Hsc|exact Hwf].
  revert H1 H. generalize s1 a s'.
  change (preserves (coalesce_wf n R)
    (modify_scp (CP l i)
       (fun c => set_sc_flags ((fun fl => clear_flag fl SMALL_CHUNK_FREE) (sc_flags c)) c) ;;;
     modify_scp (CP l i)
       (fun c => set_sc_flags
                   ((fun fl => set_flag fl SMALL_CHUNK_COALESCE_PENDING) (sc_flags c)) c) ;;;
     modify (fun s => set_small_free_list_sz (wrap64 (small_free_list_sz s - 1)) s))).
  apply pres_bind; [|intros _; apply pres_bind; [|intros _]].
  - apply (coalesce_wf_set_flags n R (CP l i) (fun fl => clear_flag fl SMALL_CHUNK_FREE)).
    intros fl. rewrite body_flags_clear_free. auto.
  - apply (coalesce_wf_set_flags n R (CP l i)
             (fun fl => set_flag fl SMALL_CHUNK_COALESCE_PENDING)).
    intros fl. rewrite body_flags_set_pending. auto.
  - apply coalesce_wf_modify_sz; reflexivity.
Qed.

(** A mandatory unbreak. *)
Lemma unbreak_large_chunk_wf n R K l :
  preserves (coalesce_wf n R) (unbreak_large_chunk K l true).
Proof.
  unfold unbreak_large_chunk.
  apply pres_bind; [apply coalesce_wf_shape; intros q; vaq | intros c].
  apply pres_bind; [apply pres_assert | intros _]. simpl.
  apply pres_bind; [apply pres_assert | intros _].
  apply pres_bind; [|intros _; apply coalesce_wf_shape; intros q; vaq].
  apply pres_for_up. intros i s a s' Hwf H.
  apply bind_Ok in H as (sc & s0 & H1 & H). apply read_sc_Ok in H1 as [Hsc ->].
  apply bind_Ok in H as ([] & s0 & H1 & H). apply assert_Ok in H1 as [_ ->].
  apply when_Ok in H as [[_ H] | [_ ->]]; [|exact Hwf].
  apply bind_Ok in H as ([] & s1 & H1 & H).
  apply (small_free_list_splice_wf n R) in H1; [|exact Hsc|exact Hwf].
  revert H1 H. generalize s1 a s'.
  change (preserves (coalesce_wf n R)
    (modify_scp (CP l i) (fun c => set_sc_flags ((fun _ => 0) (sc_flags c)) c) ;;;
     modify (fun s => set_small_free_list_sz (wrap64 (small_free_list_sz s - 1)) s))).
  apply pres_bind; [|intros _].
  - apply (coalesce_wf_set_flags n R (CP l i) (fun _ => 0)). intros fl. discriminate.
  - apply coalesce_wf_modify_sz; reflexivity.
Qed.

(** * The pointer fix-ups after a chunk moved *)


Lemma shaped_same L f s s' :
  (forall q, va s' q = va s q) -> small_free_list s' = small_free_list s ->
  shaped L f s -> shaped L f s'.
Proof.
  intros Hv Hh (Hp & Hr & Hnp). split; [|split].
  - rewrite Hh. eapply fl_path_same; eauto.
  - eapply ranked_same; eauto.
  - eapply no_prev_into_same; eauto.
Qed.

Lemma shaped_shape {A} L f (m : M A) :
  (forall q, keeps (shape q) m) -> preserves (shaped L f) m.
Proof.
  intros H s a s' Hs Hm. eapply shaped_same; [| |exact Hs].
  - intros q. pose proof (H q s a s' Hm) as E. congruence.
  - pose proof (H NULL_CHUNKPTR s a s' Hm) as E. congruence.
Qed.

(** A write to the flags and the [prev_chunk] of one small chunk. *)
Lemma shaped_upd L f s s' p fl pv nx fl' pv' :
  (forall q, va s' q = if chunkptr_eqb q p then Some (fl', pv', nx) else va s q) ->
  small_free_list s' = small_free_list s ->
  va s p = Some (fl, pv, nx) ->
  (body_flags fl' = true -> (f pv' < f p)%nat /\ pv' ∉ L) ->
  shaped L f s -> shaped L f s'.
Proof.
  intros Hupd Hh Hp Hb (Hpath & Hr & Hnp). split; [|split].
  - rewrite Hh. eapply fl_path_upd_next; eauto.
  - eapply ranked_upd; [exact Hupd | | exact Hr]. intros H. apply Hb, H.
  - eapply no_prev_into_upd; [exact Hupd | | exact Hnp]. intros H. apply Hb, H.
Qed.

Lemma shaped_ranked L f s q fl pv nx :
  shaped L f s -> va s q = Some (fl, pv, nx) -> body_flags fl = true ->
  (f pv < f q)%nat /\ pv ∉ L.
Proof.
  intros (_ & Hr & Hnp) Hv Hb. split; [eapply Hr | eapply Hnp]; eauto.
Qed.

(** [*_chunk->prev_chunk = replacement], guarded by its assertion. *)
Lemma set_prev_chunk_shaped L f old repl c s s' fl pv nx :
  (let! nc := read_scp c in
   assert (chunkptr_eqb (sc_body_prev_chunk nc) old) ;;;
   modify_scp c (set_sc_body_prev_chunk repl)) s = Ok (tt, s') ->
  va s repl = Some (fl, pv, nx) ->
  (c = repl -> body_flags fl = false) ->
  f repl = f old -> repl ∉ L ->
  shaped L f s ->
  shaped L f s' /\ exists pv', va s' repl = Some (fl, pv', nx).
Proof.
  intros H Hrepl Hc Hf HL Hs.
  apply bind_Ok in H as (nc & s0 & H1 & H).
  apply read_scp_Ok in H1 as (l & i & -> & Hnc & ->).
  apply bind_Ok in H as ([] & s0 & H1 & H). apply assert_Ok in H1 as [Ho ->].
  apply chunkptr_eqb_eq in Ho.
  pose proof (modify_scp_head _ _ _ _ _ H) as Hh.
  apply modify_scp_upd_at, va_upd_at in H as (nc' & Hnc' & Hv).
  change (scp_at s (CP l i) = Some nc) in Hnc.
  assert (nc' = nc) as -> by congruence.
  pose proof (va_scp_at _ _ _ Hnc) as Hvc. rewrite Ho in Hvc.
  unfold sc_view in Hv. simpl in Hv. split.
  - eapply shaped_upd; [exact Hv | exact Hh | exact Hvc | | exact Hs].
    intros Hb. split; [|exact HL].
    destruct (shaped_ranked _ _ _ _ _ _ _ Hs Hvc Hb) as [Hlt _]. lia.
  - rewrite Hv. destruct (chunkptr_eqb repl (CP l i)) eqn:E.
    + apply chunkptr_eqb_eq in E. rewrite <- E in Hvc. rewrite Hrepl in Hvc.
      injection Hvc as <- _ <-. eauto.
    + eauto.
Qed.

Lemma set_flags_shaped L f p (F : Z -> Z) s s' fl pv nx :
  modify_scp p (fun c => set_sc_flags (F (sc_flags c)) c) s = Ok (tt, s') ->
  va s p = Some (fl, pv, nx) ->
  (body_flags (F fl) = true -> body_flags fl = true) ->
  shaped L f s -> shaped L f s'.
Proof.
  intros H Hp HF Hs. pose proof (modify_scp_head _ _ _ _ _ H) as Hh.
  apply modify_scp_upd_at, va_upd_at in H as (c & Hc & Hv).
  pose proof (va_scp_at _ _ _ Hc) as Hvc. rewrite Hp in Hvc.
  injection Hvc as E1 E2 E3. unfold sc_view in Hv. simpl in Hv.
  rewrite <- E1, <- E2, <- E3 in Hv.
  eapply shaped_upd; [exact Hv | exact Hh | exact Hp | | exact Hs].
  intros Hb. eapply shaped_ranked; eauto.
Qed.

(** The fix-up for a title chunk. *)
Lemma coalesce_fix_title_shaped L f old repl s s' fl pv nx :
  coalesce_fix_title old repl s = Ok (tt, s') ->
  va s repl = Some (fl, pv, nx) -> has_flag fl SMALL_CHUNK_TITLE = true ->
  f repl = f old -> repl ∉ L ->
  shaped L f s -> shaped L f s'.
Proof.
  unfold coalesce_fix_title. intros H Hrepl Ht Hf HL Hs.
  apply bind_Ok in H as (r1 & s0 & H1 & H). apply read_scp_Ok in H1 as (l & i & -> & _ & ->).
  apply bind_Ok in H as ([] & s1 & H1 & H).
  assert (K1 : forall q, keeps (shape q)
    (if negb (is_null (next (sc_title r1)))
     then let! nh := read_hdr (next (sc_title r1)) in
          assert (chunkptr_eqb (prev nh) old) ;;;
          modify_hdr (next (sc_title r1)) (set_prev (CP l i))
     else let! tail := gets lru_tail in
          assert (chunkptr_eqb tail old) ;;; modify (set_lru_tail (CP l i))))
    by (intros q; vaq).
  pose proof (shaped_shape L f _ K1 _ _ _ Hs H1) as Hs1.
  pose proof (f_equal fst (K1 (CP l i) _ _ _ H1)) as Hr1. simpl in Hr1.
  rewrite Hrepl in Hr1. clear K1 H1 Hs.
  apply bind_Ok in H as (r2 & s0 & H1 & H). apply read_scp_Ok in H1 as (? & ? & _ & _ & ->).
  apply bind_Ok in H as ([] & s2 & H2 & H).
  assert (K2 : forall q, keeps (shape q)
    (if negb (is_null (prev (sc_title r2)))
     then let! ph := read_hdr (prev (sc_title r2)) in
          assert (chunkptr_eqb (next ph) old) ;;;
          modify_hdr (prev (sc_title r2)) (set_next (CP l i))
     else let! head := gets lru_head in
          assert (chunkptr_eqb head old) ;;; modify (set_lru_head (CP l i))))
    by (intros q; vaq).
  pose proof (shaped_shape L f _ K2 _ _ _ Hs1 H2) as Hs2.
  pose proof (f_equal fst (K2 (CP l i) _ _ _ H2)) as Hr2. simpl in Hr2.
  rewrite Hr1 in Hr2. clear K2 H2 Hs1 Hr1.
  apply bind_Ok in H as (r3 & s0 & H1 & H). apply read_scp_Ok in H1 as (? & ? & _ & _ & ->).
  apply bind_Ok in H as ([] & s3 & H3 & H).
  assert (Hs3 : shaped L f s3 /\ exists pv', va s3 (CP l i) = Some (fl, pv', nx)).
  { apply when_Ok in H3 as [[_ H3] | [_ ->]]; [|eauto].
    eapply set_prev_chunk_shaped; eauto.
    intros _. apply body_flags_title, Ht. }
  destruct Hs3 as (Hs3 & pv' & Hr3).
  apply bind_Ok in H as ([] & s4 & H4 & H).
  apply (set_flags_shaped L f (CP l i)
           (fun fl => set_flag fl (Z.lor SMALL_CHUNK_USED SMALL_CHUNK_TITLE))
           _ _ _ _ _ H4 Hr3) in Hs3.
  - revert Hs3 H. generalize s4 tt s'.
    change (preserves (shaped L f)
              (modify (fun s => set_assoc (assoc_update old (CP l i) (assoc s)) s))).
    apply shaped_shape. intros q. vaq.
  - rewrite body_flags_set_title. discriminate.
Qed.

(** The fix-up for a body chunk. *)
Lemma coalesce_fix_body_shaped L f old repl s s' fl pv nx :
  coalesce_fix_body old repl s = Ok (tt, s') ->
  va s repl = Some (fl, pv, nx) -> body_flags fl = true ->
  f repl = f old -> repl ∉ L ->
  shaped L f s -> shaped L f s'.
Proof.
  unfold coalesce_fix_body. intros H Hrepl Hb Hf HL Hs.
  apply bind_Ok in H as (r & s0 & H1 & H). apply read_scp_Ok in H1 as (l & i & -> & Hr & ->).
  pose proof (va_scp_at s (CP l i) r Hr) as Hvr. rewrite Hrepl in Hvr.
  injection Hvr as E1 E2 E3.
  apply bind_Ok in H as (pc & s0 & H1 & H). apply read_scp_Ok in H1 as (? & ? & _ & _ & ->).
  apply bind_Ok in H as ([] & s1 & H1 & H).
  assert (K1 : forall q, keeps (shape q)
    (if has_flag (sc_flags pc) SMALL_CHUNK_TITLE
     then modify_scp (sc_body_prev_chunk r)
            (fun c => set_sc_title (set_next_chunk (CP l i) (sc_title c)) c)
     else modify_scp (sc_body_prev_chunk r) (set_sc_body_next_chunk (CP l i))))
    by (intros q; vaq).
  pose proof (shaped_shape L f _ K1 _ _ _ Hs H1) as Hs1.
  pose proof (f_equal fst (K1 (CP l i) _ _ _ H1)) as Hr1. simpl in Hr1.
  rewrite Hrepl in Hr1. clear K1 H1 Hs.
  apply bind_Ok in H as ([] & s2 & H2 & H).
  assert (Hs2 : shaped L f s2 /\ exists pv', va s2 (CP l i) = Some (fl, pv', nx)).
  { apply when_Ok in H2 as [[_ H2] | [_ ->]]; [|eauto].
    assert (Hne : sc_body_next_chunk r <> CP l i).
    { intros E. rewrite E in H2.
      apply bind_Ok in H2 as (nc & s0 & H1 & H2).
      apply read_scp_Ok in H1 as (? & ? & [= <- <-] & Hnc & ->).
      apply bind_Ok in H2 as ([] & s0 & H1 & _). apply assert_Ok in H1 as [Ho _].
      apply chunkptr_eqb_eq in Ho.
      pose proof (va_scp_at s1 (CP l i) nc Hnc) as Hvc. rewrite Hr1 in Hvc.
      injection Hvc as _ Hpv _.
      destruct (shaped_ranked _ _ _ _ _ _ _ Hs1 Hr1 Hb) as [Hlt _].
      rewrite Hpv, Ho in Hlt. lia. }
    eapply set_prev_chunk_shaped; eauto. intros E. contradiction. }
  destruct Hs2 as (Hs2 & pv' & Hr2).
  apply (set_flags_shaped L f (CP l i) (fun fl => set_flag fl SMALL_CHUNK_USED)
           _ _ _ _ _ H Hr2 (fun _ => Hb) Hs2).
Qed.

(** * One pass of the coalescer keeps the small chunks well-formed *)


Lemma set_flags_shaped_all L f p (F : Z -> Z) s s' :
  modify_scp p (fun c => set_sc_flags (F (sc_flags c)) c) s = Ok (tt, s') ->
  (forall fl, body_flags (F fl) = true -> body_flags fl = true) ->
  shaped L f s -> shaped L f s'.
Proof.
  intros H HF Hs. pose proof H as H'.
  apply modify_scp_upd_at in H' as (c & Hc & _).
  eapply set_flags_shaped; [exact H | apply va_scp_at, Hc | apply HF | exact Hs].
Qed.

(** The second loop: a used chunk of the donor moves to a chunk popped from
    the free list, which takes its rank. *)
Lemma coalesce_migrate_wf n R K l :
  preserves (coalesce_wf n R) (coalesce_migrate K l).
Proof.
  unfold coalesce_migrate. apply pres_for_up. intros i s a s' Hwf H.
  apply bind_Ok in H as (iter & s0 & H1 & H). apply read_sc_Ok in H1 as [Hiter ->].
  apply bind_Ok in H as ([] & s0 & H1 & H). apply assert_Ok in H1 as [Hinit ->].
  apply when_Ok in H as [[Hused H] | [_ ->]]; [|exact Hwf].
  apply bind_Ok in H as (repl & s1 & Hpop & H).
  apply bind_Ok in H as ([] & s0 & H1 & H). apply assert_Ok in H1 as [Hnull ->].
  apply negb_true_iff, is_null_false in Hnull.
  apply bind_Ok in H as (r & s0 & H1 & H). apply read_scp_Ok in H1 as (? & ? & _ & _ & ->).
  apply bind_Ok in H as ([] & s0 & H1 & H). apply assert_Ok in H1 as [_ ->].
  apply bind_Ok in H as (src & s0 & H1 & H). apply read_sc_Ok in H1 as [Hsrc ->].
  apply bind_Ok in H as ([] & s2 & Hcopy & H).
  apply bind_Ok in H as (src' & s0 & H1 & H). apply read_sc_Ok in H1 as [Hsrc' ->].
  apply bind_Ok in H as ([] & s3 & Hfix & H).
  apply bind_Ok in H as ([] & s4 & Hfl & H).
  destruct Hwf as (L & f & Hn & [Hpath Hd] & Hbd & Hr & Hnp).
  destruct (free_list_pop_small_va _ _ _ _ Hpop Hnull)
    as (pvr & nxr & Hvr & Hhead & Hhead1 & Hv1).
  (* the popped chunk is the first of the list *)
  rewrite Hhead in Hpath.
  destruct L as [|y L1]; simpl in Hpath; [contradiction|].
  destruct Hpath as (Hx & flx & pvx & nxx & Hvx & Hp1). subst y.
  rewrite Hvr in Hvx. injection Hvx as _ _ <-.
  apply NoDup_cons in Hd as [Hrn Hd1].
  pose proof (va_scp_at s (CP l i) iter Hiter) as Hvi.
  assert (Hne : CP l i <> repl).
  { intros E. rewrite E, Hvr in Hvi. injection Hvi as E1 _ _.
    rewrite <- E1 in Hused. vm_compute in Hused. discriminate. }
  (* after the pop *)
  assert (Hp1' : fl_path s1 (small_free_list s1) L1).
  { rewrite Hhead1. eapply fl_path_upd_notin; eauto. }
  assert (Hr1 : ranked f s1).
  { eapply ranked_upd; [exact Hv1 | | exact Hr]. intros Hb. discriminate Hb. }
  assert (Hnp1 : no_prev_into (fun p => p ∈ repl :: L1) s1).
  { eapply no_prev_into_upd; [exact Hv1 | | exact Hnp]. intros Hb. discriminate Hb. }
  pose proof (va_scp_at s1 (CP l i) src Hsrc) as Hvs.
  assert (Hfs : sc_flags src = sc_flags iter).
  { rewrite (va_upd_other _ _ _ _ _ _ Hv1 _ Hne), Hvi in Hvs. congruence. }
  (* after the copy *)
  pose proof (modify_scp_head _ _ _ _ _ Hcopy) as Hh2.
  pose proof (modify_scp_upd_at _ _ _ _ _ Hcopy) as U2.
  pose proof (va_upd_at _ _ _ _ U2) as (r0 & _ & Hv2).
  unfold sc_view in Hv2.
  set (f' := fun q => if chunkptr_eqb q repl then f (CP l i) else f q).
  assert (Hff : f' repl = f' (CP l i)).
  { unfold f'. rewrite chunkptr_eqb_refl.
    apply chunkptr_eqb_neq in Hne. rewrite Hne. reflexivity. }
  assert (Hpv : forall q fl pv nx, va s1 q = Some (fl, pv, nx) -> body_flags fl = true ->
                  (f' pv < f q)%nat /\ pv ∉ L1).
  { intros q fl pv nx Hq Hb.
    pose proof (Hnp1 q fl pv nx Hq Hb) as Hni.
    apply not_elem_of_cons in Hni as [Hni1 Hni2]. split; [|exact Hni2].
    unfold f'. apply chunkptr_eqb_neq in Hni1. rewrite Hni1.
    eapply Hr1; eauto. }
  assert (Hs2 : shaped L1 f' s2).
  { split; [|split].
    - rewrite Hh2. eapply fl_path_upd_notin; eauto.
    - intros q fl pv nx Hq Hb. rewrite Hv2 in Hq.
      destruct (chunkptr_eqb q repl) eqn:E.
      + injection Hq as <- <- <-.
        destruct (Hpv _ _ _ _ Hvs Hb) as [Hlt _].
        unfold f' at 2. rewrite E. exact Hlt.
      + destruct (Hpv _ _ _ _ Hq Hb) as [Hlt _].
        unfold f' at 2. rewrite E. exact Hlt.
    - intros q fl pv nx Hq Hb. rewrite Hv2 in Hq.
      destruct (chunkptr_eqb q repl) eqn:E.
      + injection Hq as <- <- <-. apply (Hpv _ _ _ _ Hvs Hb).
      + apply (Hpv _ _ _ _ Hq Hb). }
  assert (Hvr2 : va s2 repl
                 = Some (sc_flags src, sc_body_prev_chunk src, sc_free_next src)).
  { rewrite Hv2, chunkptr_eqb_refl. reflexivity. }
  assert (src' = src) as ->.
  { change (scp_at s2 (CP l i) = Some src') in Hsrc'.
    rewrite (upd_at_other _ _ _ _ _ _ U2 Hne) in Hsrc'.
    change (scp_at s1 (CP l i) = Some src) in Hsrc. congruence. }
  (* the fix-up *)
  assert (Hs3 : shaped L1 f' s3).
  { destruct (has_flag (sc_flags src) SMALL_CHUNK_TITLE) eqn:Ht.
    - eapply coalesce_fix_title_shaped; eauto.
    - eapply coalesce_fix_body_shaped; eauto.
      apply body_flags_intro; [exact Ht | rewrite Hfs; exact Hused|].
      rewrite Hfs. exact Hinit. }
  assert (Hs4 : shaped L1 f' s4).
  { apply (set_flags_shaped_all L1 f' (CP l i)
             (fun _ => Z.lor SMALL_CHUNK_INITIALIZED SMALL_CHUNK_COALESCE_PENDING)
             _ _ Hfl); [|exact Hs3].
    intros fl Hb. discriminate Hb. }
  assert (Hs5 : shaped L1 f' s').
  { revert Hs4 H. generalize s4 a s'.
    change (preserves (shaped L1 f')
              (modify_lc l (fun c => set_small_chunks_allocated
                                       (small_chunks_allocated c - 1) c))).
    apply shaped_shape. intros q. vaq. }
  destruct Hs5 as (Hp5 & Hr5 & Hnp5).
  exists L1, f'. split; [simpl in Hn; lia|]. split; [split; assumption|].
  split; [|split; assumption].
  intros p. unfold f'. destruct (chunkptr_eqb p repl); apply Hbd.
Qed.

(** One pass of the body of the [while] loop. *)
Lemma coalesce_donor_wf n R K l :
  preserves (coalesce_wf n R) (coalesce_donor K l).
Proof.
  unfold coalesce_donor.
  keeps_auto ltac:(first [ apply coalesce_park_free_wf
                         | apply coalesce_migrate_wf
                         | apply unbreak_large_chunk_wf
                         | apply coalesce_wf_shape; intros ?; vaq ]).
Qed.

(** * The coalescer ends *)

(** With [b] broken large chunks at most, [b] passes over a donor and one
    more search are all the loop can do. *)
Lemma coalesce_loop_total K n R : forall b fuel retval s,
  coalesce_wf n R s -> (broken_count s <= b)%nat -> (b + n + R + 2 <= fuel)%nat ->
  coalesce_loop K fuel retval s <> OutOfFuel.
Proof.
  induction b as [|b IH]; intros fuel retval s Hwf Hb Hf;
    (destruct fuel as [|fuel]; [lia|]); simpl; rewrite bind_gets;
    (destruct (_ <=? _); [|apply noof_ret]);
    (apply bind_not_oof;
     [ destruct Hwf as (L & f & Hn & HL & Hbd & Hr & _);
       apply (find_unreferenced_broken_chunk_total f R s Hr Hbd K L); [exact HL | lia]
     | intros lc s1 Hfind;
       apply readonly_find_unreferenced_broken_chunk in Hfind; subst s1;
       destruct lc as [|l i]; [apply noof_ret|];
       apply bind_not_oof; [apply noof_coalesce_donor|];
       intros [] s2 Hd;
       pose proof (coalesce_donor_broken_count _ _ _ _ Hd) as Hc ]).
  - lia.
  - apply IH; [eapply coalesce_donor_wf; eauto | lia | lia].
Qed.

(** What the loop returns: nothing changed, or a large chunk was formed and
    there are fewer broken large chunks. *)
Lemma coalesce_loop_result K n R : forall fuel retval s r s',
  coalesce_wf n R s ->
  coalesce_loop K fuel retval s = Ok (r, s') ->
  coalesce_wf n R s'
  /\ ((r = retval /\ s' = s)
      \/ (r = COALESCE_LARGE_CHUNK_FORMED /\ (broken_count s' < broken_count s)%nat)).
Proof.
  induction fuel as [|fuel IH]; intros retval s r s' Hwf H; [discriminate|].
  simpl in H. rewrite bind_gets in H.
  destruct (_ <=? _); [|apply ret_Ok in H as [[= ->] ->]; auto].
  apply bind_Ok in H as (lc & s1 & Hfind & H).
  apply readonly_find_unreferenced_broken_chunk in Hfind. subst s1.
  destruct lc as [|l i]; [apply ret_Ok in H as [[= ->] ->]; auto|].
  apply bind_Ok in H as ([] & s2 & Hd & H).
  pose proof (coalesce_donor_broken_count _ _ _ _ Hd) as Hc.
  pose proof (coalesce_donor_wf n R K l _ _ _ Hwf Hd) as Hwf2.
  destruct (IH _ _ _ _ Hwf2 H) as [Hwf' [[-> ->] | [-> Hlt]]].
  - split; [exact Hwf'|]. right. split; [reflexivity | lia].
  - split; [exact Hwf'|]. right. split; [reflexivity | lia].
Qed.

(** C8. [coalesce_free_small_chunks] ends, from every state whose small
    chunks are well-formed (the small free list is a list, of at most [n]
    chunks; every body chunk is at most [R] steps of [prev_chunk] away from
    the end of its chain; no body chunk has its [prev_chunk] on the free
    list): it does not run out of a fuel of [broken_count + n + R + 2].
    Every pass over a donor leaves one broken large chunk less, so there are
    at most [broken_count] of them.  It returns [COALESCE_NO_PROGRESS] with
    the state unchanged, or [COALESCE_LARGE_CHUNK_FORMED] with fewer broken
    large chunks, and the small chunks are well-formed again. *)
Theorem coalesce_free_small_chunks_terminates K n R fuel s :
  coalesce_wf n R s ->
  (broken_count s + n + R + 2 <= fuel)%nat ->
  coalesce_free_small_chunks K fuel s <> OutOfFuel
  /\ (forall l s1, coalesce_donor K l s = Ok (tt, s1) ->
        (broken_count s1 + 1 = broken_count s)%nat)
  /\ (forall r s', coalesce_free_small_chunks K fuel s = Ok (r, s') ->
        coalesce_wf n R s'
        /\ ((r = COALESCE_NO_PROGRESS /\ s' = s)
            \/ (r = COALESCE_LARGE_CHUNK_FORMED
                /\ (broken_count s' < broken_count s)%nat))).
Proof.
  intros Hwf Hf. unfold coalesce_free_small_chunks. split; [|split].
  - eapply coalesce_loop_total; eauto.
  - intros l s1. apply coalesce_donor_broken_count.
  - intros r s'. apply coalesce_loop_result, Hwf.
Qed.

(** * The check of the shape of the small chunks is sound *)

Lemma enum_row_in l : forall row i j sc,
  row !! j = Some sc -> In (CP l (i + j), sc_view sc) (enum_row l i row).
Proof.
  induction row as [|x row IH]; intros i [|j] sc; simpl; try discriminate.
  - intros [= ->]. left. rewrite Nat.add_0_r. reflexivity.
  - intros H. right. replace (i + S j)%nat with (S i + j)%nat by lia. apply IH, H.
Qed.

Lemma enum_heap_in : forall hp l k c j sc,
  hp !! k = Some c -> lbc c !! j = Some sc ->
  In (CP (l + k) j, sc_view sc) (enum_heap l hp).
Proof.
  induction hp as [|x hp IH]; intros l [|k] c j sc; simpl; try discriminate.
  - intros [= ->] Hj. apply in_or_app. left. rewrite Nat.add_0_r.
    exact (enum_row_in l _ 0%nat j sc Hj).
  - intros Hk Hj. apply in_or_app. right.
    replace (l + S k)%nat with (S l + k)%nat by lia. eapply IH; eauto.
Qed.

Lemma va_enum_heap s q v : va s q = Some v -> In (q, v) (enum_heap 0 (heap s)).
Proof.
  destruct q as [|l i]; [discriminate|]. unfold va, scp_at, sc_at.
  destruct (heap s !! l) as [c|] eqn:Hl; [|discriminate].
  destruct (lbc c !! i) as [sc|] eqn:Hi; [|discriminate].
  intros [= <-]. exact (enum_heap_in _ 0%nat _ _ _ _ Hl Hi).
Qed.

Lemma inb_elem_of p L : inb p L = false -> p ∉ L.
Proof.
  unfold inb. intros H Hin. apply list_elem_of_In in Hin.
  assert (existsb (chunkptr_eqb p) L = true); [|congruence].
  apply existsb_exists. exists p. split; [exact Hin | apply chunkptr_eqb_refl].
Qed.

Lemma nodup_b_NoDup L : nodup_b L = true -> NoDup L.
Proof.
  induction L as [|x L IH]; simpl; [constructor|].
  intros H. apply andb_true_iff in H as [H1 H2]. apply negb_true_iff in H1.
  apply NoDup_cons. split; [apply inb_elem_of, H1 | apply IH, H2].
Qed.

Lemma fl_path_b_fl_path s : forall L p, fl_path_b s p L = true -> fl_path s p L.
Proof.
  induction L as [|x L IH]; intros p; simpl.
  - apply is_null_true.
  - intros H. apply andb_true_iff in H as [H1 H2]. apply chunkptr_eqb_eq in H1.
    split; [exact H1|]. destruct (va s x) as [[[fl pv] nx]|]; [|discriminate].
    exists fl, pv, nx. split; [reflexivity | apply IH, H2].
Qed.

Lemma rank_of_bound ranks R p :
  forallb (fun e => (snd e <=? R)%nat) ranks = true -> (rank_of ranks p <= R)%nat.
Proof.
  induction ranks as [|[q r] t IH]; simpl; [lia|].
  intros H. apply andb_true_iff in H as [H1 H2]. apply Nat.leb_le in H1.
  destruct (chunkptr_eqb q p); [exact H1 | apply IH, H2].
Qed.

(** A state that passes the check is well-formed. *)
Lemma coalesce_wf_b_sound L ranks R s :
  coalesce_wf_b L ranks R s = true -> coalesce_wf (length L) R s.
Proof.
  unfold coalesce_wf_b. intros H.
  apply andb_true_iff in H as [H H4]. apply andb_true_iff in H as [H H3].
  apply andb_true_iff in H as [H1 H2].
  assert (Hbody : forall q fl pv nx, va s q = Some (fl, pv, nx) -> body_flags fl = true ->
                    (rank_of ranks pv < rank_of ranks q)%nat /\ pv ∉ L).
  { intros q fl pv nx Hq Hb. apply va_enum_heap in Hq.
    rewrite forallb_forall in H4. specialize (H4 _ Hq). simpl in H4.
    rewrite Hb in H4. apply andb_true_iff in H4 as [H5 H6].
    apply Nat.ltb_lt in H5. apply negb_true_iff in H6.
    split; [exact H5 | apply inb_elem_of, H6]. }
  exists L, (rank_of ranks). split; [lia|].
  split; [split; [apply fl_path_b_fl_path, H1 | apply nodup_b_NoDup, H2]|].
  split; [intros p; apply rank_of_bound, H3|].
  split; intros q fl pv nx Hq Hb; apply (Hbody q fl pv nx Hq Hb).
Qed.

(** The fragmented cache: nine free small chunks, three body chunks of rank
    one, two broken large chunks. *)
Lemma coalesce_free_small_chunks_terminates_witness :
  coalesce_free_small_chunks scenario 20 (state_after run_fragmented) <> OutOfFuel
  /\ (forall l s1, coalesce_donor scenario l (state_after run_fragmented) = Ok (tt, s1) ->
        (broken_count s1 + 1 = broken_count (state_after run_fragmented))%nat)
  /\ (forall r s',
        coalesce_free_small_chunks scenario 20 (state_after run_fragmented) = Ok (r, s') ->
        coalesce_wf 9 1 s'
        /\ ((r = COALESCE_NO_PROGRESS /\ s' = state_after run_fragmented)
            \/ (r = COALESCE_LARGE_CHUNK_FORMED
                /\ (broken_count s' < broken_count (state_after run_fragmented))%nat))).
Proof.
  apply (coalesce_free_small_chunks_terminates scenario 9 1 20
           (state_after run_fragmented)).
  - apply (coalesce_wf_b_sound
             [CP 3 6; CP 3 7; CP 2 1; CP 2 2; CP 2 3; CP 2 4; CP 2 5; CP 2 6; CP 2 7]
             [(CP 3 1, 1%nat); (CP 3 3, 1%nat); (CP 3 5, 1%nat)] 1
             (state_after run_fragmented)).
    vm_compute. reflexivity.
  - vm_compute. lia.
Defined.

(** * Allocation from a long large free list *)

Lemma read_lcp_eq l c s : heap s !! l = Some c -> read_lcp (CP l 0) s = Ok (c, s).
Proof. intros H. simpl. unfold read_lc. rewrite H. reflexivity. Qed.

Lemma modify_lcp_eq l c g s :
  heap s !! l = Some c ->
  modify_lcp (CP l 0) g s = Ok (tt, set_heap (<[l := g c]> (heap s)) s).
Proof.
  intros H. simpl. unfold modify_lc, bind, read_lc, write_lc. rewrite H, H. reflexivity.
Qed.

Lemma bind_read_lcp {B} l c (k : large_chunk -> M B) s :
  heap s !! l = Some c -> bind (read_lcp (CP l 0)) k s = k c s.
Proof. intros H. apply bind_Ok_intro, read_lcp_eq, H. Qed.

Lemma bind_modify_lcp {B} l c g (k : unit -> M B) s :
  heap s !! l = Some c ->
  bind (modify_lcp (CP l 0) g) k s = k tt (set_heap (<[l := g c]> (heap s)) s).
Proof. intros H. apply bind_Ok_intro, modify_lcp_eq, H. Qed.

(** ** Writes to large chunks off the free list *)

Lemma frame_on_refl L s : frame_on L s s.
Proof. unfold frame_on. auto. Qed.

Lemma frame_on_trans L s1 s2 s3 :
  frame_on L s1 s2 -> frame_on L s2 s3 -> frame_on L s1 s3.
Proof.
  intros (A1 & A2 & A3 & A4) (B1 & B2 & B3 & B4). unfold frame_on.
  split; [congruence|]. split; [|split; congruence].
  intros k Hk. rewrite B2, A2; auto.
Qed.

Lemma lfl_path_frame s s' : forall L p,
  (forall k, k ∈ L -> heap s' !! k = heap s !! k) ->
  lfl_path s p L -> lfl_path s' p L.
Proof.
  induction L as [|l L IH]; intros p Hk; simpl; [auto|].
  intros (-> & c & Hl & Hf & Hp). split; [reflexivity|].
  exists c. split; [rewrite Hk; [exact Hl | left]|]. split; [exact Hf|].
  apply IH; [|exact Hp]. intros k Hin. apply Hk. right. exact Hin.
Qed.

Lemma large_free_list_is_frame L s s' :
  frame_on L s s' -> large_free_list_is s L -> large_free_list_is s' L.
Proof.
  intros (_ & A2 & A3 & A4) (Hp & Hd & Hsz). split; [|split].
  - rewrite A3. eapply lfl_path_frame; eauto.
  - exact Hd.
  - congruence.
Qed.

Lemma modify_lcp_progress L j g s :
  (j < length (heap s))%nat -> j ∉ L ->
  exists s', modify_lcp (CP j 0) g s = Ok (tt, s') /\ frame_on L s s'.
Proof.
  intros Hj HL. destruct (lookup_lt_is_Some_2 _ _ Hj) as [c Hc].
  exists (set_heap (<[j := g c]> (heap s)) s). split.
  - simpl. unfold modify_lc, bind, read_lc, write_lc. rewrite Hc, Hc. reflexivity.
  - unfold frame_on. simpl. split; [apply length_insert|].
    split; [|auto]. intros k Hk. apply list_lookup_insert_ne. intros ->. contradiction.
Qed.

Lemma read_lcp_progress j s :
  (j < length (heap s))%nat -> exists c, read_lcp (CP j 0) s = Ok (c, s).
Proof.
  intros Hj. destruct (lookup_lt_is_Some_2 _ _ Hj) as [c Hc].
  exists c. simpl. unfold read_lc. rewrite Hc. reflexivity.
Qed.

Lemma write_ref_large_progress L pn h v s :
  ref_holder pn = CP h 0 -> (h < length (heap s))%nat -> h ∉ L ->
  exists s', write_ref_large pn v s = Ok (tt, s') /\ frame_on L s s'.
Proof.
  intros Hh Hv HL. destruct pn as [p|p]; simpl in Hh; subst p; simpl;
    apply modify_lcp_progress; assumption.
Qed.

Lemma do_stamp_on_block_Some block off sz now addr :
  off <= sz -> exists fl d, do_stamp_on_block block off sz now addr = Some (fl, d).
Proof.
  intros H. unfold do_stamp_on_block, SIZEOF_NOW, SIZEOF_ADDR.
  destruct (Z.ltb_spec sz off); [lia|].
  destruct (Z.leb_spec 4 (sz - off)).
  - destruct (Z.leb_spec 4 (sz - (off + 4))).
    + destruct (Z.ltb_spec sz (off + 4 + 4)); [lia | eauto].
    + destruct (Z.ltb_spec sz (off + 4)); [lia | eauto].
  - destruct (Z.leb_spec 4 (sz - off)); [lia|].
    destruct (Z.ltb_spec sz off); [lia | eauto].
Qed.

Lemma stamp_large_body_progress K L t l wo now addr s :
  wo <= LARGE_BODY_CHUNK_DATA_SZ K ->
  (l < length (heap s))%nat -> l ∉ L -> (t < length (heap s))%nat -> t ∉ L ->
  exists s', stamp_large_body K (CP t 0) (CP l 0) wo now addr s = Ok (tt, s')
             /\ frame_on L s s'.
Proof.
  intros Hwo Hl HlL Ht HtL. unfold stamp_large_body.
  destruct (read_lcp_progress l s Hl) as [c Hc].
  rewrite (bind_Ok_intro _ _ _ _ _ Hc).
  destruct (do_stamp_on_block_Some (lc_body_data c) wo (LARGE_BODY_CHUNK_DATA_SZ K)
              now addr Hwo) as (fl & d & ->).
  destruct (modify_lcp_progress L l (set_lc_body_data d) s Hl HlL) as (s1 & E1 & F1).
  rewrite (bind_Ok_intro _ _ _ _ _ E1).
  assert (Ht1 : (t < length (heap s1))%nat) by (destruct F1 as (-> & _); exact Ht).
  destruct (modify_lcp_progress L t
              (fun c => set_lc_title
                 (set_it_flags (Z.lor (it_flags (lc_title c)) fl) (lc_title c)) c)
              s1 Ht1 HtL) as (s2 & E2 & F2).
  exists s2. split; [exact E2 | eapply frame_on_trans; eauto].
Qed.

(** ** Popping the head of the list *)

Lemma free_list_pop_large_progress K l L s :
  large_free_list_is s (l :: L) -> Z.of_nat (length (l :: L)) < 2 ^ 64 ->
  exists s', free_list_pop K LARGE_CHUNK s = Ok (CP l 0, s')
    /\ large_free_list_is s' L
    /\ length (heap s') = length (heap s)
    /\ (l < length (heap s))%nat /\ l ∉ L.
Proof.
  intros ((Hhead & c & Hl & Hf & Hp) & Hd & Hsz) Hlt.
  apply NoDup_cons in Hd as [HlL Hd].
  exists (set_heap (<[l := set_lc_flags (clear_flag (lc_flags c) LARGE_CHUNK_FREE) c]>
                      (heap s))
            (set_large_free_list_sz (wrap64 (large_free_list_sz s - 1))
               (set_large_free_list (lc_free_next c) s))).
  simpl length in *. split; [|split; [|split; [|split]]].
  - unfold free_list_pop. rewrite bind_gets.
    destruct (Z.eqb_spec (large_free_list_sz s) 0) as [E|_]; [lia|].
    rewrite bind_gets, Hhead, (bind_read_lcp l c _ _ Hl), !bind_modify.
    rewrite bind_assert_true by (apply Z.eqb_eq, Hf).
    rewrite (bind_modify_lcp l c) by exact Hl. reflexivity.
  - split; [|split].
    + simpl. eapply lfl_path_frame; [|exact Hp].
      intros k Hk. simpl. apply list_lookup_insert_ne. intros ->. contradiction.
    + exact Hd.
    + simpl. rewrite Hsz. unfold wrap64. rewrite Z.mod_small; lia.
  - simpl. apply length_insert.
  - eapply lookup_lt_Some; eauto.
  - exact HlL.
Qed.

(** ** Chaining the chunks of a large item *)

Lemma frame_on_length L s s' : frame_on L s s' -> length (heap s') = length (heap s).
Proof. intros (H & _). exact H. Qed.

Lemma stamp_large_title_progress K L t wo now addr s :
  wo <= LARGE_TITLE_CHUNK_DATA_SZ K ->
  (t < length (heap s))%nat -> t ∉ L ->
  exists s', stamp_large_title K (CP t 0) wo now addr s = Ok (tt, s')
             /\ frame_on L s s'.
Proof.
  intros Hwo Ht HtL. unfold stamp_large_title.
  destruct (read_lcp_progress t s Ht) as [c Hc].
  rewrite (bind_Ok_intro _ _ _ _ _ Hc).
  destruct (do_stamp_on_block_Some (data (lc_title c)) wo (LARGE_TITLE_CHUNK_DATA_SZ K)
              now addr Hwo) as (fl & d & ->).
  destruct (modify_lcp_progress L t
              (fun c => set_lc_title (set_data d (lc_title c)) c) s Ht HtL)
    as (s1 & E1 & F1).
  rewrite (bind_Ok_intro _ _ _ _ _ E1).
  assert (Ht1 : (t < length (heap s1))%nat) by (rewrite (frame_on_length _ _ _ F1); exact Ht).
  destruct (modify_lcp_progress L t
              (fun c => set_lc_title
                 (set_it_flags (Z.lor (it_flags (lc_title c)) fl) (lc_title c)) c)
              s1 Ht1 HtL) as (s2 & E2 & F2).
  exists s2. split; [exact E2 | eapply frame_on_trans; eauto].
Qed.

(** The body loop does not fail as long as the free list is long enough
    and the last chunk has room for the end of the value. *)
Lemma alloc_large_bodies_progress K :
  0 < LARGE_BODY_CHUNK_DATA_SZ K ->
  forall n t pn h key kl wo addr s L,
    large_free_list_is s L -> Z.of_nat (length L) < 2 ^ 64 -> (n <= length L)%nat ->
    (t < length (heap s))%nat -> t ∉ L ->
    ref_holder pn = CP h 0 -> (h < length (heap s))%nat -> h ∉ L ->
    (n = 0%nat
     \/ (LARGE_BODY_CHUNK_DATA_SZ K * (Z.of_nat n - 1) <= wo
         /\ wo <= LARGE_BODY_CHUNK_DATA_SZ K * Z.of_nat n /\ wo < 2 ^ 64)) ->
    exists pn' s' h',
      alloc_large_bodies K n (CP t 0) pn key kl wo addr s = Ok (pn', s')
      /\ ref_holder pn' = CP h' 0 /\ (h' < length (heap s'))%nat.
Proof.
  intros HB. induction n as [|n IH];
    intros t pn h key kl wo addr s L HL Hlt Hn Ht HtL Hpn Hh HhL Hwo.
  { exists pn, s, h. simpl. auto. }
  destruct L as [|l L]; [simpl in Hn; lia|]. cbn [alloc_large_bodies].
  destruct (free_list_pop_large_progress K l L s HL Hlt) as (s1 & E1 & HL1 & Hlen1 & Hl & HlL).
  rewrite (bind_Ok_intro _ _ _ _ _ E1).
  apply not_elem_of_cons in HtL as [Htl HtL]. apply not_elem_of_cons in HhL as [Hhl HhL].
  assert (Hl1 : (l < length (heap s1))%nat) by (rewrite Hlen1; exact Hl).
  destruct (modify_lcp_progress L l
              (fun c => set_lc_flags (Z.lor (lc_flags c) LARGE_CHUNK_USED) c) s1 Hl1 HlL)
    as (s2 & E2 & F2).
  rewrite (bind_Ok_intro _ _ _ _ _ E2).
  rewrite bind_assert_true by reflexivity.
  pose proof (frame_on_length _ _ _ F2) as Hlen2.
  destruct (write_ref_large_progress L pn h (CP l 0) s2 Hpn) as (s3 & E3 & F3);
    [rewrite Hlen2, Hlen1; exact Hh | exact HhL |].
  rewrite (bind_Ok_intro _ _ _ _ _ E3).
  pose proof (frame_on_length _ _ _ F3) as Hlen3.
  destruct (modify_lcp_progress L l
              (fun c => set_lc_body_data
                 (memcpy_at (LARGE_BODY_CHUNK_DATA_SZ K) 0
                    (take (Z.to_nat (Z.min (LARGE_BODY_CHUNK_DATA_SZ K) kl)) key)
                    (lc_body_data c)) c) s3) as (s4 & E4 & F4);
    [rewrite Hlen3, Hlen2; exact Hl1 | exact HlL |].
  rewrite (bind_Ok_intro _ _ _ _ _ E4).
  pose proof (frame_on_length _ _ _ F4) as Hlen4.
  rewrite bind_gets.
  assert (Hs5 : exists s5,
            when (Nat.eqb (S n) 1)
              (stamp_large_body K (CP t 0) (CP l 0) wo (current_time s4) addr) s4
            = Ok (tt, s5) /\ frame_on L s4 s5).
  { destruct n as [|n]; simpl.
    - apply stamp_large_body_progress;
        [ destruct Hwo as [Hwo|Hwo]; [discriminate | lia]
        | lia | exact HlL | lia | exact HtL ].
    - exists s4. split; [reflexivity | apply frame_on_refl]. }
  destruct Hs5 as (s5 & E5 & F5).
  rewrite (bind_Ok_intro _ _ _ _ _ E5).
  pose proof (frame_on_length _ _ _ F5) as Hlen5.
  assert (HL5 : large_free_list_is s5 L).
  { eapply large_free_list_is_frame; [|exact HL1].
    eapply frame_on_trans; [exact F2|]. eapply frame_on_trans; [exact F3|].
    eapply frame_on_trans; [exact F4 | exact F5]. }
  apply (IH t (Ref_body (CP l 0)) l _ _ _ addr s5 L HL5).
  - simpl length in Hlt. lia.
  - simpl in Hn. lia.
  - rewrite Hlen5, Hlen4, Hlen3, Hlen2, Hlen1. exact Ht.
  - exact HtL.
  - reflexivity.
  - rewrite Hlen5, Hlen4, Hlen3, Hlen2. exact Hl1.
  - exact HlL.
  - destruct n as [|n]; [left; reflexivity | right].
    destruct Hwo as [Hwo|(Hw1 & Hw2 & Hw3)]; [discriminate|].
    assert (Hge : 0 <= LARGE_BODY_CHUNK_DATA_SZ K * Z.of_nat n) by nia.
    replace (Z.of_nat (S (S n)) - 1) with (Z.of_nat n + 1) in Hw1 by lia.
    replace (Z.of_nat (S (S n))) with (Z.of_nat n + 2) in Hw2 by lia.
    unfold wrap64. rewrite Z.mod_small by nia.
    replace (Z.of_nat (S n) - 1) with (Z.of_nat n) by lia.
    replace (Z.of_nat (S n)) with (Z.of_nat n + 1) by lia.
    split; [nia|]. split; [nia | lia].
Qed.

Lemma alloc_chain_large_progress K key nkey flags exptime nbytes addr needed s L :
  0 < LARGE_BODY_CHUNK_DATA_SZ K -> 0 <= LARGE_TITLE_CHUNK_DATA_SZ K ->
  large_free_list_is s L -> Z.of_nat (length L) < 2 ^ 64 ->
  1 <= needed <= Z.of_nat (length L) ->
  (needed = 1 -> wrap64 (nkey + nbytes) <= LARGE_TITLE_CHUNK_DATA_SZ K) ->
  (1 < needed ->
   LARGE_TITLE_CHUNK_DATA_SZ K <= wrap64 (nkey + nbytes)
   /\ LARGE_BODY_CHUNK_DATA_SZ K * (needed - 2)
      <= wrap64 (nkey + nbytes) - LARGE_TITLE_CHUNK_DATA_SZ K
   /\ wrap64 (nkey + nbytes) - LARGE_TITLE_CHUNK_DATA_SZ K
      <= LARGE_BODY_CHUNK_DATA_SZ K * (needed - 1)) ->
  exists l s',
    alloc_chain_large K key nkey flags exptime nbytes addr needed s = Ok (CP l 0, s').
Proof.
  intros HB HT HL Hlt Hn H1 H2. unfold alloc_chain_large.
  assert (HWr : 0 <= wrap64 (nkey + nbytes) < 2 ^ 64).
  { unfold wrap64. apply Z.mod_pos_bound. lia. }
  remember (wrap64 (nkey + nbytes)) as W eqn:HW. clear HW.
  destruct L as [|l L]; [simpl in Hn; lia|].
  destruct (free_list_pop_large_progress K l L s HL Hlt) as (s1 & E1 & HL1 & Hlen1 & Hl & HlL).
  rewrite (bind_Ok_intro _ _ _ _ _ E1).
  assert (Hl1 : (l < length (heap s1))%nat) by (rewrite Hlen1; exact Hl).
  destruct (modify_lcp_progress L l
              (fun c => set_lc_flags
                 (Z.lor (lc_flags c) (Z.lor LARGE_CHUNK_USED LARGE_CHUNK_TITLE)) c)
              s1 Hl1 HlL) as (s2 & E2 & F2).
  rewrite (bind_Ok_intro _ _ _ _ _ E2).
  rewrite bind_assert_true by reflexivity.
  pose proof (frame_on_length _ _ _ F2) as Hlen2.
  destruct (modify_lcp_progress L l
              (fun c => set_lc_title (init_title nkey flags exptime nbytes (lc_title c)) c)
              s2) as (s3 & E3 & F3); [rewrite Hlen2; exact Hl1 | exact HlL |].
  rewrite (bind_Ok_intro _ _ _ _ _ E3).
  pose proof (frame_on_length _ _ _ F3) as Hlen3.
  destruct (modify_lcp_progress L l
              (fun c => set_lc_title (set_data
                 (memcpy_at (LARGE_TITLE_CHUNK_DATA_SZ K) 0
                    (take (Z.to_nat (Z.min (LARGE_TITLE_CHUNK_DATA_SZ K) nkey)) key)
                    (data (lc_title c))) (lc_title c)) c)
              s3) as (s4 & E4 & F4); [rewrite Hlen3, Hlen2; exact Hl1 | exact HlL |].
  rewrite (bind_Ok_intro _ _ _ _ _ E4).
  pose proof (frame_on_length _ _ _ F4) as Hlen4.
  rewrite bind_gets.
  assert (Hs5 : exists s5,
            when (needed =? 1)
              (stamp_large_title K (CP l 0) W (current_time s4) addr)
              s4
            = Ok (tt, s5) /\ frame_on L s4 s5).
  { destruct (Z.eqb_spec needed 1) as [E|E]; simpl.
    - apply stamp_large_title_progress; [auto | | exact HlL].
      rewrite Hlen4, Hlen3, Hlen2. exact Hl1.
    - exists s4. split; [reflexivity | apply frame_on_refl]. }
  destruct Hs5 as (s5 & E5 & F5).
  rewrite (bind_Ok_intro _ _ _ _ _ E5).
  pose proof (frame_on_length _ _ _ F5) as Hlen5.
  unfold modify_stats. rewrite !bind_modify.
  match goal with
  | |- exists _ _, bind (alloc_large_bodies _ _ _ _ _ _ _ _) _ ?s6 = _ =>
      assert (F6 : frame_on L s5 s6) by (unfold frame_on; simpl; auto);
      set (s6' := s6) in *
  end.
  assert (HL6 : large_free_list_is s6' L).
  { eapply large_free_list_is_frame; [|exact HL1].
    eapply frame_on_trans; [exact F2|]. eapply frame_on_trans; [exact F3|].
    eapply frame_on_trans; [exact F4|]. eapply frame_on_trans; [exact F5 | exact F6]. }
  pose proof (frame_on_length _ _ _ F6) as Hlen6.
  simpl length in Hn, Hlt.
  assert (Hw : wrap64 (needed - 1) = needed - 1).
  { unfold wrap64. apply Z.mod_small. lia. }
  rewrite Hw.
  destruct (alloc_large_bodies_progress K HB (Z.to_nat (needed - 1)) l
              (Ref_title (CP l 0)) l
              (drop (Z.to_nat (Z.min (LARGE_TITLE_CHUNK_DATA_SZ K) nkey)) key)
              (nkey - Z.min (LARGE_TITLE_CHUNK_DATA_SZ K) nkey)
              (wrap64 (W - LARGE_TITLE_CHUNK_DATA_SZ K))
              addr s6' L HL6) as (pn' & s7 & h' & E7 & Hpn' & Hh').
  - lia.
  - lia.
  - rewrite Hlen6, Hlen5, Hlen4, Hlen3, Hlen2. exact Hl1.
  - exact HlL.
  - reflexivity.
  - rewrite Hlen6, Hlen5, Hlen4, Hlen3, Hlen2. exact Hl1.
  - exact HlL.
  - destruct (Z.eq_dec needed 1) as [->|Hne]; [left; reflexivity | right].
    destruct H2 as (A1 & A2 & A3); [lia|].
    assert (E : wrap64 (W - LARGE_TITLE_CHUNK_DATA_SZ K) = W - LARGE_TITLE_CHUNK_DATA_SZ K).
    { unfold wrap64. apply Z.mod_small. lia. }
    rewrite E, Z2Nat.id by lia.
    replace (needed - 1 - 1) with (needed - 2) by lia.
    split; [exact A2|]. split; [exact A3 | lia].
  - rewrite (bind_Ok_intro _ _ _ _ _ E7).
    destruct (write_ref_large_progress [] pn' h' NULL_CHUNKPTR s7 Hpn' Hh')
      as (s8 & E8 & _); [apply not_elem_of_nil|].
    rewrite (bind_Ok_intro _ _ _ _ _ E8). exists l, s8. reflexivity.
Qed.

(** ** Growing the region *)

Lemma for_up_from_progress (P : nat -> state -> Prop) (m : nat) body :
  (forall i j s, (j < m)%nat -> P j s -> exists s', body i s = Ok (tt, s') /\ P (S j) s') ->
  forall n start j s, (j + n <= m)%nat -> P j s ->
    exists s', for_up_from start n body s = Ok (tt, s') /\ P (j + n)%nat s'.
Proof.
  intros Hb. induction n as [|n IH]; intros start j s Hj HP; simpl.
  - exists s. rewrite Nat.add_0_r. auto.
  - destruct (Hb start j s) as (s1 & E1 & HP1); [lia | exact HP |].
    rewrite (bind_Ok_intro _ _ _ _ _ E1).
    destruct (IH (S start) (S j) s1) as (s2 & E2 & HP2); [lia | exact HP1 |].
    exists s2. split; [exact E2|]. replace (j + S n)%nat with (S j + n)%nat by lia.
    exact HP2.
Qed.

Lemma free_list_push_large_eq K l c s :
  heap s !! l = Some c -> lc_flags c = LARGE_CHUNK_INITIALIZED ->
  free_list_push K (CP l 0) LARGE_CHUNK false s
  = Ok (tt, set_heap
              (<[l := set_lc_flags (Z.lor LARGE_CHUNK_INITIALIZED LARGE_CHUNK_FREE)
                        (set_lc_free_next (large_free_list s) c)]> (heap s))
              (set_large_free_list_sz (wrap64 (large_free_list_sz s + 1))
                 (set_large_free_list (CP l 0) s))).
Proof.
  intros Hl Hf. unfold free_list_push.
  rewrite bind_assert_true by reflexivity. unfold free_list_push_large.
  rewrite (bind_read_lcp l c) by exact Hl.
  rewrite bind_assert_true by (apply Z.eqb_eq, Hf).
  rewrite bind_gets, (bind_modify_lcp l c) by exact Hl.
  rewrite !bind_modify.
  rewrite (modify_lcp_eq l (set_lc_free_next (large_free_list s) c)).
  - simpl. rewrite list_insert_insert_eq. reflexivity.
  - simpl. apply list_lookup_insert_eq. eapply lookup_lt_Some; eauto.
Qed.

(** One large chunk more: committed, and pushed on the free list. *)
Lemma flat_storage_alloc_step K s L :
  large_free_list_is s L -> (forall l, l ∈ L -> (l < length (heap s))%nat) ->
  Z.of_nat (length L) + 1 < 2 ^ 64 ->
  exists s',
    (let! l := gets (fun s => length (heap s)) in
     modify (fun s => set_heap
       (heap s ++ [set_lc_flags LARGE_CHUNK_INITIALIZED (fresh_large_chunk K)]) s) ;;;
     free_list_push K (CP l 0) LARGE_CHUNK false ;;;
     modify (fun s => set_unused_memory (wrap64 (unused_memory s - LARGE_CHUNK_SZ K)) s))
      s = Ok (tt, s')
    /\ large_free_list_is s' (length (heap s) :: L)
    /\ (forall l, l ∈ length (heap s) :: L -> (l < length (heap s'))%nat)
    /\ unused_memory s' = wrap64 (unused_memory s - LARGE_CHUNK_SZ K).
Proof.
  intros (Hp & Hd & Hsz) Hv Hlt.
  set (c0 := set_lc_flags LARGE_CHUNK_INITIALIZED (fresh_large_chunk K)).
  set (l := length (heap s)).
  assert (E0 : (heap s ++ [c0]) !! l = Some c0) by (apply list_lookup_middle; reflexivity).
  eexists. split; [|split; [|split]].
  - rewrite bind_gets, bind_modify.
    rewrite (bind_Ok_intro _ _ _ _ _
               (free_list_push_large_eq K l c0 (set_heap (heap s ++ [c0]) s) E0 eq_refl)).
    reflexivity.
  - split; [|split].
    + simpl. split; [reflexivity|]. eexists.
      split; [apply list_lookup_insert_eq; rewrite length_app; simpl; fold l; lia|].
      split; [reflexivity|]. simpl.
      eapply lfl_path_frame; [|exact Hp]. intros k Hk. simpl.
      specialize (Hv k Hk). fold l in Hv.
      rewrite list_lookup_insert_ne by lia. apply lookup_app_l. exact Hv.
    + apply NoDup_cons. split; [|exact Hd]. intros Hin. specialize (Hv _ Hin).
      fold l in Hv. lia.
    + simpl. rewrite Hsz. unfold wrap64. rewrite Z.mod_small; lia.
  - simpl. rewrite length_insert, length_app. simpl. fold l.
    intros k Hk. apply elem_of_cons in Hk as [->|Hk]; [lia|]. specialize (Hv k Hk).
    fold l in Hv. lia.
  - reflexivity.
Qed.

Lemma lfl_path_valid s : forall L p,
  lfl_path s p L -> forall l, l ∈ L -> (l < length (heap s))%nat.
Proof.
  induction L as [|x L IH]; intros p Hp l Hl.
  - apply elem_of_nil in Hl. contradiction.
  - destruct Hp as (_ & c & Hx & _ & Hp).
    apply elem_of_cons in Hl as [->|Hl].
    + eapply lookup_lt_Some; eauto.
    + eapply IH; eauto.
Qed.

Lemma quot_mul_le a b : 0 <= a -> 0 < b -> 0 <= a ÷ b /\ (a ÷ b) * b <= a.
Proof.
  intros Ha Hb. rewrite Z.quot_div_nonneg by lia. split.
  - apply Z.div_pos; lia.
  - rewrite Z.mul_comm. apply Z.mul_div_le. lia.
Qed.

(** A whole increment is committed and all its chunks pushed, when the
    region has that much left. *)
Lemma flat_storage_alloc_progress K s L :
  0 < LARGE_CHUNK_SZ K -> 0 <= FLAT_STORAGE_INCREMENT_DELTA K ->
  large_free_list_is s L ->
  FLAT_STORAGE_INCREMENT_DELTA K <= unused_memory s < 2 ^ 64 ->
  Z.of_nat (length L) + FLAT_STORAGE_INCREMENT_DELTA K ÷ LARGE_CHUNK_SZ K < 2 ^ 64 ->
  exists s' L',
    flat_storage_alloc K s = Ok (true, s')
    /\ large_free_list_is s' L'
    /\ Z.of_nat (length L')
       = Z.of_nat (length L) + FLAT_STORAGE_INCREMENT_DELTA K ÷ LARGE_CHUNK_SZ K
    /\ unused_memory s'
       = unused_memory s
         - (FLAT_STORAGE_INCREMENT_DELTA K ÷ LARGE_CHUNK_SZ K) * LARGE_CHUNK_SZ K.
Proof.
  intros HL HD Hl HU Hlen.
  destruct (quot_mul_le _ _ HD HL) as [Hq0 Hq].
  set (q := FLAT_STORAGE_INCREMENT_DELTA K ÷ LARGE_CHUNK_SZ K) in *.
  unfold flat_storage_alloc. rewrite bind_gets.
  destruct (Z.ltb_spec (unused_memory s) (FLAT_STORAGE_INCREMENT_DELTA K)) as [|_]; [lia|].
  rewrite bind_modify. unfold for_up. fold q.
  set (P := fun (j : nat) (t : state) =>
              exists L', large_free_list_is t L'
                /\ length L' = (length L + j)%nat
                /\ unused_memory t = unused_memory s - Z.of_nat j * LARGE_CHUNK_SZ K).
  match goal with
  | |- exists s' L', bind (for_up_from 0 _ ?body) _ ?s0 = _ /\ _ =>
      assert (Hstep : forall i j t, (j < Z.to_nat q)%nat -> P j t ->
                exists t', body i t = Ok (tt, t') /\ P (S j) t');
      [| assert (H0 : P O s0);
         [| destruct (for_up_from_progress P (Z.to_nat q) body Hstep (Z.to_nat q) O O s0
                        (Nat.le_refl _) H0) as (s1 & E1 & L1 & HL1 & Hlen1 & HU1)]]
  end.
  - intros i j t Hj (L' & Hl' & Hlen' & HU').
    destruct (flat_storage_alloc_step K t L' Hl') as (t' & E & Hl1 & _ & HU1).
    + destruct Hl' as (Hp & _). eapply lfl_path_valid; eauto.
    + lia.
    + exists t'. split; [exact E|]. exists (length (heap t) :: L').
      split; [exact Hl1|]. split; [simpl; lia|].
      rewrite HU1, HU'. unfold wrap64. rewrite Z.mod_small; nia.
  - exists L. split; [|split; [lia | simpl; lia]].
    eapply large_free_list_is_frame; [|exact Hl]. unfold frame_on. simpl. auto.
  - rewrite (bind_Ok_intro _ _ _ _ _ E1). exists s1, L1.
    split; [reflexivity|]. split; [exact HL1|]. simpl in Hlen1, HU1.
    rewrite Z2Nat.id in HU1 by lia. split; [lia | exact HU1].
Qed.

(** The acquire loop of a large allocation ends with enough free large
    chunks after [k] increments, when the region has them. *)
Lemma alloc_acquire_large_progress K needed :
  0 < LARGE_CHUNK_SZ K ->
  1 <= FLAT_STORAGE_INCREMENT_DELTA K ÷ LARGE_CHUNK_SZ K ->
  forall (k fuel : nat) prev_free s L,
    large_free_list_is s L ->
    (k < fuel)%nat ->
    prev_free <> Z.of_nat (length L) ->
    needed <= Z.of_nat (length L)
              + Z.of_nat k * (FLAT_STORAGE_INCREMENT_DELTA K ÷ LARGE_CHUNK_SZ K) ->
    Z.of_nat k * FLAT_STORAGE_INCREMENT_DELTA K <= unused_memory s < 2 ^ 64 ->
    Z.of_nat (length L)
    + Z.of_nat k * (FLAT_STORAGE_INCREMENT_DELTA K ÷ LARGE_CHUNK_SZ K) < 2 ^ 64 ->
    exists s' L',
      alloc_acquire_large K fuel needed prev_free s = Ok (true, s')
      /\ large_free_list_is s' L'
      /\ needed <= Z.of_nat (length L') < 2 ^ 64.
Proof.
  intros HL Hq.
  assert (HD : 0 <= FLAT_STORAGE_INCREMENT_DELTA K).
  { destruct (Z.le_gt_cases 0 (FLAT_STORAGE_INCREMENT_DELTA K)) as [|Hneg]; [assumption|].
    pose proof (Z.quot_opp_l (- FLAT_STORAGE_INCREMENT_DELTA K) (LARGE_CHUNK_SZ K)) as E.
    rewrite Z.opp_involutive in E.
    pose proof (Z.quot_pos (- FLAT_STORAGE_INCREMENT_DELTA K) (LARGE_CHUNK_SZ K)).
    lia. }
  destruct (quot_mul_le _ _ HD HL) as [_ Hqm].
  set (q := FLAT_STORAGE_INCREMENT_DELTA K ÷ LARGE_CHUNK_SZ K) in *.
  induction k as [|k IH]; intros fuel prev_free s L Hl Hf Hprev Hn HU Hlen;
    (destruct fuel as [|fuel]; [lia|]); simpl alloc_acquire_large;
    rewrite bind_gets; destruct Hl as (Hp & Hd & Hsz); rewrite Hsz.
  - destruct (Z.leb_spec needed (Z.of_nat (length L))); [|lia].
    exists s, L. split; [reflexivity|]. split; [split; auto|]. lia.
  - destruct (Z.leb_spec needed (Z.of_nat (length L))).
    + exists s, L. split; [reflexivity|]. split; [split; auto|]. lia.
    + rewrite bind_assert_true
        by (apply negb_true_iff, Z.eqb_neq; exact Hprev).
      destruct (flat_storage_alloc_progress K s L HL HD) as (s1 & L1 & E1 & Hl1 & Hlen1 & HU1).
      * split; auto.
      * fold q in Hqm. nia.
      * fold q. nia.
      * rewrite (bind_Ok_intro _ _ _ _ _ E1). fold q in Hlen1, HU1.
        apply (IH fuel (Z.of_nat (length L)) s1 L1 Hl1); try lia; nia.
Qed.

(** A large item is allocated when the free list and the rest of the region
    hold the chunks it needs. *)
Lemma do_item_alloc_large_progress K (k fuel : nat) key nkey flags exptime nbytes addr s L :
  0 < LARGE_CHUNK_SZ K ->
  1 <= FLAT_STORAGE_INCREMENT_DELTA K ÷ LARGE_CHUNK_SZ K ->
  0 < LARGE_BODY_CHUNK_DATA_SZ K -> 0 <= LARGE_TITLE_CHUNK_DATA_SZ K ->
  item_size_ok K nkey flags (to_int nbytes) = true ->
  is_large_chunk K nkey nbytes = true ->
  large_free_list_is s L ->
  (k < fuel)%nat ->
  1 <= chunks_needed K nkey nbytes
    <= Z.of_nat (length L)
       + Z.of_nat k * (FLAT_STORAGE_INCREMENT_DELTA K ÷ LARGE_CHUNK_SZ K) ->
  Z.of_nat k * FLAT_STORAGE_INCREMENT_DELTA K <= unused_memory s < 2 ^ 64 ->
  Z.of_nat (length L)
  + Z.of_nat k * (FLAT_STORAGE_INCREMENT_DELTA K ÷ LARGE_CHUNK_SZ K) < 2 ^ 64 ->
  (chunks_needed K nkey nbytes = 1 ->
   wrap64 (nkey + nbytes) <= LARGE_TITLE_CHUNK_DATA_SZ K) ->
  (1 < chunks_needed K nkey nbytes ->
   LARGE_TITLE_CHUNK_DATA_SZ K <= wrap64 (nkey + nbytes)
   /\ LARGE_BODY_CHUNK_DATA_SZ K * (chunks_needed K nkey nbytes - 2)
      <= wrap64 (nkey + nbytes) - LARGE_TITLE_CHUNK_DATA_SZ K
   /\ wrap64 (nkey + nbytes) - LARGE_TITLE_CHUNK_DATA_SZ K
      <= LARGE_BODY_CHUNK_DATA_SZ K * (chunks_needed K nkey nbytes - 1)) ->
  exists l s',
    do_item_alloc K fuel key nkey flags exptime nbytes addr s = Ok (CP l 0, s').
Proof.
  intros HL Hq HB HT Hok Hlarge Hl Hf Hn HU Hlen H1 H2.
  unfold do_item_alloc. rewrite Hok, Hlarge. change (negb true) with false. cbv beta iota zeta.
  rewrite bind_gets.
  destruct (alloc_acquire_large_progress K (chunks_needed K nkey nbytes) HL Hq
              k fuel (wrap64 (large_free_list_sz s - 1)) s L Hl Hf)
    as (s1 & L1 & E1 & Hl1 & Hn1); try lia.
  - destruct Hl as (_ & _ & ->). unfold wrap64.
    destruct (Z.eq_dec (Z.of_nat (length L)) 0) as [E|E].
    + rewrite E. intros H. vm_compute in H. discriminate.
    + rewrite Z.mod_small; lia.
  - rewrite (bind_Ok_intro _ _ _ _ _ E1).
    apply (alloc_chain_large_progress K key nkey flags exptime nbytes addr _ s1 L1);
      auto; lia.
Qed.

(** ** An item of 4 GiB in a cache of 8 GiB *)

Lemma run_init_large_free_list :
  large_free_list_is (state_after run_init_large) [3; 2; 1; 0]%nat
  /\ unused_memory (state_after run_init_large) = 8589930496.
Proof.
  remember (state_after run_init_large) as s0 eqn:E. vm_compute in E. subst s0.
  split; [|reflexivity]. split; [|split].
  - simpl. repeat (split; [reflexivity|]; eexists; split; [reflexivity|];
                   split; [reflexivity|]). exact I.
  - repeat (apply NoDup_cons; split;
            [intros H; repeat (apply elem_of_cons in H as [H|H]; [discriminate|]);
             apply elem_of_nil in H; exact H|]).
    apply NoDup_nil. exact I.
  - reflexivity.
Qed.

(** The request for [2 ^ 32] bytes in the cache of 8 GiB, just
    initialised, commits the chunks it needs and returns an item. *)
Lemma do_item_alloc_oversized_run :
  exists l s',
    do_item_alloc scenario (Z.to_nat 2000000) key_a 1 0 0 (2 ^ 32) 0
      (state_after run_init_large) = Ok (CP l 0, s').
Proof.
  destruct run_init_large_free_list as [Hl HU].
  assert (Hcn : chunks_needed scenario 1 (2 ^ 32) = 4260881) by reflexivity.
  assert (Hw : wrap64 (1 + 2 ^ 32) = 4294967297) by reflexivity.
  assert (Hq : FLAT_STORAGE_INCREMENT_DELTA scenario ÷ LARGE_CHUNK_SZ scenario = 4)
    by reflexivity.
  remember (Z.to_nat 2000000) as fuel eqn:Hfuel.
  assert (Hf : Z.of_nat fuel = 2000000) by (subst fuel; apply Z2Nat.id; lia).
  clear Hfuel.
  remember (Z.to_nat 1065220) as k eqn:Hk.
  assert (Hk' : Z.of_nat k = 1065220) by (subst k; apply Z2Nat.id; lia).
  clear Hk.
  apply (do_item_alloc_large_progress scenario k fuel key_a 1 0 0 (2 ^ 32) 0
           (state_after run_init_large) [3; 2; 1; 0]%nat);
    rewrite ?Hcn, ?Hw, ?Hq, ?Hk', ?HU;
    change (LARGE_CHUNK_SZ scenario) with 1024;
    change (FLAT_STORAGE_INCREMENT_DELTA scenario) with 4096;
    change (LARGE_BODY_CHUNK_DATA_SZ scenario) with 1008;
    change (LARGE_TITLE_CHUNK_DATA_SZ scenario) with 960;
    simpl length; try reflexivity; try exact Hl; try lia.
Qed.

(** C1. [do_item_alloc] is to return NULL when [nbytes > MAX_ITEM_SIZE].
    The size check reads [nbytes] as an [int]: with [MAX_ITEM_SIZE] at 1 MiB,
    a request for [2 ^ 32] bytes passes the check as a request for 0 bytes,
    and in a cache of 8 GiB, just initialised, the call commits the chunks
    it needs and returns an item, not NULL. *)
Theorem do_item_alloc_oversized :
  MAX_ITEM_SIZE scenario < 2 ^ 32
  /\ item_size_ok scenario 1 0 (2 ^ 32) = false
  /\ item_size_ok scenario 1 0 (to_int (2 ^ 32)) = true
  /\ exists it s',
       do_item_alloc scenario (Z.to_nat 2000000) key_a 1 0 0 (2 ^ 32) 0
         (state_after run_init_large) = Ok (it, s')
       /\ it <> NULL_CHUNKPTR.
Proof.
  split; [reflexivity|]. split; [reflexivity|]. split; [reflexivity|].
  destruct do_item_alloc_oversized_run as (l & s' & E).
  exists (CP l 0), s'. split; [exact E | discriminate].
Qed.

(** ** The header of the item of 4 GiB *)

(** C2. [do_item_alloc] is to return an item whose header holds the [nkey],
    [nbytes], [exptime] and [flags] of the call.  The [nbytes] of the header
    is an [int], and so is the [nbytes] the size check looks at: the request
    for [2 ^ 32] bytes in the cache of 8 GiB is not refused, and the item it
    returns has the reference count, the flags, the key length, the null
    links and the chain of [chunks_needed 1 (2 ^ 32)] chunks of the claim,
    but 0 as its [nbytes]. *)
Theorem do_item_alloc_nbytes_truncated :
  exists it s' h m,
    do_item_alloc scenario (Z.to_nat 2000000) key_a 1 0 0 (2 ^ 32) 0
      (state_after run_init_large) = Ok (it, s')
    /\ it <> NULL_CHUNKPTR
    /\ hdr_at s' it = Some h
    /\ refcount h = 1
    /\ has_flag (it_flags h) ITEM_VALID = true
    /\ nkey h = 1 /\ exptime h = 0 /\ flags h = 0
    /\ next h = NULL_CHUNKPTR /\ prev h = NULL_CHUNKPTR /\ h_next h = NULL_CHUNKPTR
    /\ Z.of_nat (S m) = chunks_needed scenario 1 (2 ^ 32)
    /\ large_chain s' (next_chunk h) m
    /\ nbytes h = 0
    /\ nbytes h <> 2 ^ 32.
Proof.
  destruct do_item_alloc_oversized_run as (l & s' & E).
  assert (Hcn : chunks_needed scenario 1 (2 ^ 32) = 4260881) by reflexivity.
  assert (Hlg : is_large_chunk scenario 1 (2 ^ 32) = true) by reflexivity.
  destruct (do_item_alloc_result scenario _ _ _ _ _ _ _ _ _ _
              ltac:(rewrite Hcn; lia) E ltac:(discriminate))
    as (h & m & _ & Hok & Hm & Hch & Hh).
  rewrite Hlg in Hch, Hh. simpl in Hch.
  destruct Hok as (A1 & A2 & A3 & A4 & A5 & A6 & A7 & A8 & A9).
  change (to_int (2 ^ 32)) with 0 in A4.
  exists (CP l 0), s', h, m.
  split; [exact E|]. split; [discriminate|]. split; [apply Hh; reflexivity|].
  split; [exact A1|]. split; [exact A2|]. split; [exact A3|]. split; [exact A5|].
  split; [exact A6|]. split; [exact A7|]. split; [exact A8|]. split; [exact A9|].
  split; [exact Hm|]. split; [exact Hch|]. split; [exact A4|].
  rewrite A4. discriminate.
Qed.

(** * What [item_free] gives back: large items *)

Lemma free_list_push_large_Ok K p a s s' :
  free_list_push K p LARGE_CHUNK false s = Ok (a, s') ->
  exists l c, p = CP l 0 /\ heap s !! l = Some c /\ lc_flags c = LARGE_CHUNK_INITIALIZED
    /\ s' = set_heap
              (<[l := set_lc_flags (Z.lor LARGE_CHUNK_INITIALIZED LARGE_CHUNK_FREE)
                        (set_lc_free_next (large_free_list s) c)]> (heap s))
              (set_large_free_list_sz (wrap64 (large_free_list_sz s + 1))
                 (set_large_free_list (CP l 0) s)).
Proof.
  intros H. pose proof H as H0. unfold free_list_push in H.
  apply bind_Ok in H as ([] & s0 & H1 & H). apply assert_Ok in H1 as [_ ->].
  unfold free_list_push_large in H.
  apply bind_Ok in H as (c & s0 & H1 & H). apply read_lcp_Ok in H1 as (l & -> & Hl & ->).
  apply bind_Ok in H as ([] & s0 & H1 & _). apply assert_Ok in H1 as [Hf ->].
  apply Z.eqb_eq in Hf.
  rewrite (free_list_push_large_eq K l c s Hl Hf) in H0. destruct a.
  injection H0 as <-. exists l, c. auto.
Qed.

Lemma large_body_list_flags s : forall B p k,
  large_body_list s p B -> k ∈ B ->
  exists c, heap s !! k = Some c
    /\ lc_flags c = Z.lor LARGE_CHUNK_INITIALIZED LARGE_CHUNK_USED.
Proof.
  induction B as [|l B IH]; intros p k H Hk; [inversion Hk|].
  destruct H as (-> & c & Hl & Hf & H).
  apply elem_of_cons in Hk as [->|Hk]; [eauto | eapply IH; eauto].
Qed.

Lemma large_body_list_frame s s' : forall B p,
  (forall k, k ∈ B -> heap s' !! k = heap s !! k) ->
  large_body_list s p B -> large_body_list s' p B.
Proof.
  induction B as [|l B IH]; intros p Hk; simpl; [auto|].
  intros (-> & c & Hl & Hf & Hp). split; [reflexivity|].
  exists c. split; [rewrite Hk; [exact Hl | left]|]. split; [exact Hf|].
  apply IH; [|exact Hp]. intros k Hin. apply Hk. right. exact Hin.
Qed.

Lemma large_body_list_det s : forall B p B',
  large_body_list s p B -> large_body_list s p B' -> B = B'.
Proof.
  induction B as [|l B IH]; intros p [|l' B'] H H'; simpl in *.
  - reflexivity.
  - destruct H' as (-> & _). discriminate.
  - destruct H as (-> & _). discriminate.
  - destruct H as (-> & c & Hl & _ & H), H' as ([= <-] & c' & Hl' & _ & H').
    rewrite Hl in Hl'. injection Hl' as <-. f_equal. eapply IH; eauto.
Qed.

Lemma lfl_seg_flags s : forall L p q k,
  lfl_seg s p L q -> k ∈ L ->
  exists c, heap s !! k = Some c
    /\ lc_flags c = Z.lor LARGE_CHUNK_INITIALIZED LARGE_CHUNK_FREE.
Proof.
  induction L as [|l L IH]; intros p q k H Hk; [inversion Hk|].
  destruct H as (-> & c & Hl & Hf & H).
  apply elem_of_cons in Hk as [->|Hk]; [eauto | eapply IH; eauto].
Qed.

Lemma lfl_seg_frame s s' : forall L p q,
  (forall k, k ∈ L -> heap s' !! k = heap s !! k) ->
  lfl_seg s p L q -> lfl_seg s' p L q.
Proof.
  induction L as [|l L IH]; intros p q Hk; simpl; [auto|].
  intros (-> & c & Hl & Hf & Hp). split; [reflexivity|].
  exists c. split; [rewrite Hk; [exact Hl | left]|]. split; [exact Hf|].
  apply IH; [|exact Hp]. intros k Hin. apply Hk. right. exact Hin.
Qed.

Lemma lfl_seg_app s : forall L1 p L2 q r,
  lfl_seg s p L1 q -> lfl_seg s q L2 r -> lfl_seg s p (L1 ++ L2) r.
Proof.
  induction L1 as [|l L1 IH]; intros p L2 q r H1 H2; simpl in *.
  - subst p. exact H2.
  - destruct H1 as (-> & c & Hl & Hf & H1). split; [reflexivity|].
    exists c. split; [exact Hl|]. split; [exact Hf|]. eapply IH; eauto.
Qed.

(** One turn of the body loop of [item_free]: the chunk is pushed on the
    large free list, no other chunk changes. *)
Lemma item_free_large_bodies_step K fuel l c acc s :
  heap s !! l = Some c ->
  lc_flags c = Z.lor LARGE_CHUNK_INITIALIZED LARGE_CHUNK_USED ->
  exists s2,
    item_free_large_bodies K (S fuel) (CP l 0) acc s
    = item_free_large_bodies K fuel (lc_body_next_chunk c) (wrap64 (acc + 1)) s2
    /\ (exists c2, heap s2 !! l = Some c2
          /\ lc_flags c2 = Z.lor LARGE_CHUNK_INITIALIZED LARGE_CHUNK_FREE
          /\ lc_free_next c2 = large_free_list s)
    /\ (forall k, k <> l -> heap s2 !! k = heap s !! k)
    /\ large_free_list s2 = CP l 0
    /\ large_free_list_sz s2 = wrap64 (large_free_list_sz s + 1).
Proof.
  intros Hl Hf.
  assert (Hlt : (l < length (heap s))%nat) by (eapply lookup_lt_Some; eauto).
  eexists. split.
  - cbn [item_free_large_bodies].
    rewrite (bind_read_lcp l c _ s Hl).
    rewrite bind_assert_true by (apply Z.eqb_eq, Hf).
    rewrite (bind_modify_lcp l c _ _ s Hl).
    rewrite (bind_Ok_intro _ _ _ _ _
               (free_list_push_large_eq K l
                  (set_lc_flags (clear_flag (lc_flags c) LARGE_CHUNK_USED) c)
                  (set_heap (<[l := set_lc_flags (clear_flag (lc_flags c) LARGE_CHUNK_USED)
                                      c]> (heap s)) s)
                  ltac:(simpl; apply list_lookup_insert_eq; exact Hlt)
                  ltac:(simpl; rewrite Hf; reflexivity))).
    reflexivity.
  - simpl. split; [|split; [|split; reflexivity]].
    + eexists. split; [apply list_lookup_insert_eq; rewrite !length_insert; exact Hlt|].
      split; reflexivity.
    + intros k Hk. rewrite !list_lookup_insert_ne by congruence. reflexivity.
Qed.

Lemma item_free_large_bodies_inv K : forall fuel p acc s n s',
  item_free_large_bodies K fuel p acc s = Ok (n, s') ->
  exists B,
    large_body_list s p B /\ NoDup B
    /\ wrap64 n = wrap64 (acc + Z.of_nat (length B))
    /\ lfl_seg s' (large_free_list s') (rev B) (large_free_list s)
    /\ wrap64 (large_free_list_sz s')
       = wrap64 (large_free_list_sz s + Z.of_nat (length B))
    /\ (forall k, k ∉ B -> heap s' !! k = heap s !! k).
Proof.
  assert (Hnil : forall acc s n s', ret acc s = Ok (n, s') ->
    exists B : list nat,
      large_body_list s NULL_CHUNKPTR B /\ NoDup B
      /\ wrap64 n = wrap64 (acc + Z.of_nat (length B))
      /\ lfl_seg s' (large_free_list s') (rev B) (large_free_list s)
      /\ wrap64 (large_free_list_sz s')
         = wrap64 (large_free_list_sz s + Z.of_nat (length B))
      /\ (forall k, k ∉ B -> heap s' !! k = heap s !! k)).
  { intros acc s n s' H. apply ret_Ok in H as [-> ->]. exists []. simpl.
    split; [reflexivity|]. split; [apply NoDup_nil; exact I|].
    rewrite !Z.add_0_r. auto. }
  induction fuel as [|fuel IH]; intros p acc s n s' H.
  { destruct p; [exact (Hnil _ _ _ _ H) | discriminate]. }
  destruct p as [|l i]; [exact (Hnil _ _ _ _ H)|].
  pose proof H as H0. cbn [item_free_large_bodies] in H0.
  apply bind_Ok in H0 as (c & s0 & H1 & H0).
  apply read_lcp_Ok in H1 as (l0 & E & Hl & ->). injection E as <- ->.
  apply bind_Ok in H0 as ([] & s0 & H1 & _). apply assert_Ok in H1 as [Hf _].
  apply Z.eqb_eq in Hf.
  destruct (item_free_large_bodies_step K fuel l c acc s Hl Hf)
    as (s2 & E & (c2 & Hl2 & Hf2 & Hn2) & Ho & Hh & Hz).
  rewrite E in H.
  apply IH in H as (B & HB & Hnd & Hn & Hseg & Hsz & Hfr).
  assert (HlB : l ∉ B).
  { intros Hin. destruct (large_body_list_flags _ _ _ _ HB Hin) as (c' & Hc' & Hf').
    rewrite Hl2 in Hc'. injection Hc' as <-. rewrite Hf2 in Hf'. discriminate. }
  exists (l :: B). split; [|split; [|split; [|split; [|split]]]].
  - simpl. split; [reflexivity|]. exists c. split; [exact Hl|]. split; [exact Hf|].
    eapply large_body_list_frame; [|exact HB].
    intros k Hk. symmetry. apply Ho. intros ->. contradiction.
  - apply NoDup_cons. split; assumption.
  - rewrite Hn. rewrite wrap64_idemp_add. f_equal. simpl length. lia.
  - simpl rev. eapply lfl_seg_app; [exact Hseg|].
    rewrite Hh. simpl. split; [reflexivity|]. exists c2.
    split; [rewrite (Hfr l HlB); exact Hl2|]. split; [exact Hf2|]. exact Hn2.
  - rewrite Hsz, Hz. rewrite wrap64_idemp_add. f_equal. simpl length. lia.
  - intros k Hk. apply not_elem_of_cons in Hk as [Hkl HkB].
    rewrite (Hfr k HkB). apply Ho, Hkl.
Qed.

(** The body loop returns on a chain of chunks, given fuel for it. *)
Lemma item_free_large_bodies_progress K : forall B fuel p acc s,
  large_body_list s p B -> NoDup B -> (length B <= fuel)%nat ->
  exists n s', item_free_large_bodies K fuel p acc s = Ok (n, s').
Proof.
  induction B as [|l B IH]; intros fuel p acc s HB Hnd Hfuel.
  - simpl in HB. subst p. exists acc, s. destruct fuel; reflexivity.
  - destruct HB as (-> & c & Hl & Hf & HB).
    destruct fuel as [|fuel]; [simpl in Hfuel; lia|].
    apply NoDup_cons in Hnd as [HlB Hnd].
    destruct (item_free_large_bodies_step K fuel l c acc s Hl Hf)
      as (s2 & E & _ & Ho & _).
    rewrite E. apply IH; [|exact Hnd|simpl in Hfuel; lia].
    eapply large_body_list_frame; [|exact HB].
    intros k Hk. apply Ho. intros ->. contradiction.
Qed.

(** ** The title of a large item *)

Lemma item_free_large_title K lt c freed s :
  heap s !! lt = Some c ->
  lc_flags c = Z.lor (Z.lor LARGE_CHUNK_INITIALIZED LARGE_CHUNK_USED) LARGE_CHUNK_TITLE ->
  exists s2,
    (let! c := read_lcp (CP lt 0) in
     assert (lc_flags c =? Z.lor (Z.lor LARGE_CHUNK_INITIALIZED LARGE_CHUNK_USED)
                                 LARGE_CHUNK_TITLE) ;;;
     modify_lcp (CP lt 0) (set_lc_flags
       (clear_flag (lc_flags c) (Z.lor LARGE_CHUNK_USED LARGE_CHUNK_TITLE))) ;;;
     modify_lcp (CP lt 0) (fun c => set_lc_title (set_it_flags 0 (lc_title c)) c) ;;;
     free_list_push K (CP lt 0) LARGE_CHUNK false ;;;
     modify_stats (fun t => set_large_title_chunks (wrap64 (large_title_chunks t - 1)) t) ;;;
     ret (wrap64 (freed + 1))) s = Ok (wrap64 (freed + 1), s2)
    /\ (exists c2, heap s2 !! lt = Some c2
          /\ lc_flags c2 = Z.lor LARGE_CHUNK_INITIALIZED LARGE_CHUNK_FREE
          /\ lc_free_next c2 = large_free_list s)
    /\ (forall k, k <> lt -> heap s2 !! k = heap s !! k)
    /\ large_free_list s2 = CP lt 0
    /\ large_free_list_sz s2 = wrap64 (large_free_list_sz s + 1).
Proof.
  intros Hl Hf.
  assert (Hlt : (lt < length (heap s))%nat) by (eapply lookup_lt_Some; eauto).
  set (c1 := set_lc_flags (clear_flag (lc_flags c)
                             (Z.lor LARGE_CHUNK_USED LARGE_CHUNK_TITLE)) c).
  set (s1 := set_heap (<[lt := c1]> (heap s)) s).
  set (c1' := set_lc_title (set_it_flags 0 (lc_title c1)) c1).
  set (s1' := set_heap (<[lt := c1']> (heap s1)) s1).
  assert (Hl1 : heap s1 !! lt = Some c1) by (apply list_lookup_insert_eq; exact Hlt).
  assert (Hl1' : heap s1' !! lt = Some c1')
    by (apply list_lookup_insert_eq; simpl; rewrite length_insert; exact Hlt).
  assert (Hf1' : lc_flags c1' = LARGE_CHUNK_INITIALIZED)
    by (simpl; rewrite Hf; reflexivity).
  eexists. split.
  - rewrite (bind_read_lcp lt c _ s Hl).
    rewrite bind_assert_true by (apply Z.eqb_eq, Hf).
    rewrite (bind_modify_lcp lt c _ _ s Hl). fold c1. fold s1.
    rewrite (bind_modify_lcp lt c1 _ _ s1 Hl1). fold c1'. fold s1'.
    rewrite (bind_Ok_intro _ _ _ _ _ (free_list_push_large_eq K lt c1' s1' Hl1' Hf1')).
    unfold modify_stats. rewrite bind_modify. reflexivity.
  - simpl. split; [|split; [|split; reflexivity]].
    + eexists. split; [apply list_lookup_insert_eq; rewrite !length_insert; exact Hlt|].
      split; reflexivity.
    + intros k Hk. rewrite !list_lookup_insert_ne by congruence. reflexivity.
Qed.

(** ** [item_free] on a large item *)

Lemma elem_of_rev {A} (x : A) l : x ∈ rev l <-> x ∈ l.
Proof. rewrite !list_elem_of_In. symmetry. apply in_rev. Qed.

Lemma wrap64_idemp s : wrap64 (wrap64 s) = wrap64 s.
Proof. unfold wrap64. apply Z.mod_mod. discriminate. Qed.

Lemma wrap64_succ_cong a b : wrap64 a = wrap64 b -> wrap64 (a + 1) = wrap64 (b + 1).
Proof.
  intros H. rewrite <- (wrap64_idemp_add a 1), <- (wrap64_idemp_add b 1), H. reflexivity.
Qed.

Lemma item_free_large_inv K fuel it s h s' :
  hdr_at s it = Some h -> is_item_large_chunk K h = true ->
  item_free K fuel it s = Ok (tt, s') ->
  item_freed K s s' it h.
Proof.
  intros Hh Hlg H. unfold item_free in H.
  rewrite (bind_read_hdr _ _ _ _ Hh) in H. cbv zeta in H. rewrite Hlg in H.
  do 5 (apply bind_Ok in H as ([] & s0 & H1 & H); apply assert_Ok in H1 as [_ ->]).
  apply bind_Ok in H as (cf & s5 & H & Hcf).
  apply assert_Ok in Hcf as [Hcf ->]. apply Z.eqb_eq in Hcf.
  apply bind_Ok in H as (freed & sa & Hb & H).
  apply item_free_large_bodies_inv in Hb as (B & HB & Hnd & Hn & Hseg & Hsz & Hfr).
  unfold modify_stats at 1 in H. rewrite bind_modify in H.
  pose proof H as H0.
  apply bind_Ok in H0 as (c & s0 & H1 & H0).
  apply read_lcp_Ok in H1 as (lt & -> & Hlt & ->).
  apply bind_Ok in H0 as ([] & s0 & H1 & _). apply assert_Ok in H1 as [Hf _].
  apply Z.eqb_eq in Hf.
  destruct (item_free_large_title K lt c freed _ Hlt Hf)
    as (s2 & E & (c2 & Hl2 & Hf2 & Hn2) & Ho & Hhd & Hz).
  rewrite E in H. injection H as <- <-.
  simpl in Hlt, Hn2, Ho, Hz.
  assert (HltB : lt ∉ B).
  { intros Hin. apply (proj2 (elem_of_rev _ _)) in Hin.
    destruct (lfl_seg_flags _ _ _ _ _ Hseg Hin) as (c' & Hc' & Hf').
    rewrite Hlt in Hc'. injection Hc' as <-. rewrite Hf in Hf'. discriminate. }
  unfold item_freed. rewrite Hlg. exists lt, B.
  split; [reflexivity|]. split; [exact HB|].
  split; [apply NoDup_cons; split; assumption|].
  split; [|split; [|split]].
  - rewrite <- Hcf. apply wrap64_succ_cong. rewrite Hn. reflexivity.
  - rewrite Hhd. simpl. split; [reflexivity|]. exists c2.
    split; [exact Hl2|]. split; [exact Hf2|]. rewrite Hn2.
    eapply lfl_seg_frame; [|exact Hseg].
    intros k Hk. apply Ho. intros ->. apply (proj1 (elem_of_rev _ _)) in Hk.
    contradiction.
  - rewrite Hz. rewrite <- (wrap64_idemp_add (large_free_list_sz sa) 1), Hsz.
    rewrite wrap64_idemp_add. reflexivity.
  - intros k Hk. apply not_elem_of_cons in Hk as [Hkl HkB].
    rewrite (Ho k Hkl). apply Hfr, HkB.
Qed.

(** [item_free] returns on a well-formed large item. *)
Lemma item_free_large_progress K fuel it s h B :
  hdr_at s it = Some h -> is_item_large_chunk K h = true ->
  free_header_ok h -> refcount h = 0 ->
  large_item_at K s it h B -> (length B <= fuel)%nat ->
  exists s', item_free K fuel it s = Ok (tt, s').
Proof.
  intros Hh Hlg (Hv & Hnx & Hpv & Hhn) Hrc (lt & c & -> & Hlt & Hf & HB & Hnd & Hcnt) Hfuel.
  apply NoDup_cons in Hnd as [HltB Hnd].
  unfold item_free. rewrite (bind_read_hdr _ _ _ _ Hh). cbv zeta. rewrite Hlg.
  rewrite bind_assert_true by (apply Z.eqb_eq, Hv).
  rewrite bind_assert_true by (apply Z.eqb_eq, Hrc).
  rewrite bind_assert_true by (rewrite Hnx; reflexivity).
  rewrite bind_assert_true by (rewrite Hpv; reflexivity).
  rewrite bind_assert_true by (rewrite Hhn; reflexivity).
  destruct (item_free_large_bodies_progress K B fuel (next_chunk h) 0 s HB Hnd Hfuel)
    as (n & sa & E).
  rewrite bind_bind. rewrite (bind_Ok_intro _ _ _ _ _ E).
  apply item_free_large_bodies_inv in E as (B' & HB' & _ & Hn & _ & _ & Hfr).
  assert (B' = B) as -> by (eapply large_body_list_det; eauto).
  rewrite bind_bind. unfold modify_stats at 1. rewrite bind_modify.
  destruct (item_free_large_title K lt c n
              (set_stats (set_large_body_chunks
                            (wrap64 (large_body_chunks (stats sa) - n)) (stats sa)) sa))
    as (s2 & E2 & _).
  { simpl. rewrite (Hfr lt HltB). exact Hlt. }
  { exact Hf. }
  rewrite (bind_Ok_intro _ _ _ _ _ E2).
  exists s2.
  assert (Hc : (wrap64 (n + 1) =? chunks_in_item K h) = true).
  { apply Z.eqb_eq. rewrite <- Hcnt. apply wrap64_succ_cong. rewrite Hn. reflexivity. }
  rewrite Hc. reflexivity.
Qed.

(** * What [item_free] gives back: small items *)

(** ** Writes the chunks in use do not see *)

Local Abbreviation uview :=
  (fun sc : small_chunk => (sc_flags sc, sc_title sc, sc_body_next_chunk sc)).
Local Abbreviation sv q := (fun s : state => option_map uview (scp_at s q)).

Create HintDb svq.

Ltac svq :=
  keeps_auto ltac:(first [ reflexivity
                         | solve [eauto with svq]
                         | apply keeps_of_readonly; solve [eauto with readonly] ]).

Lemma keeps_sv_modify_lc q l g :
  (forall c, lbc (g c) = lbc c) -> keeps (sv q) (modify_lc l g).
Proof.
  intros Hg s a s' H. rewrite (modify_lc_scp_at _ _ _ _ _ H Hg q). reflexivity.
Qed.

Lemma keeps_sv_modify_lcp q p g :
  (forall c, lbc (g c) = lbc c) -> keeps (sv q) (modify_lcp p g).
Proof.
  intros Hg. destruct p as [|l [|i]]; simpl;
    [apply keeps_fault | apply keeps_sv_modify_lc, Hg | apply keeps_fault].
Qed.

(** The state after a write to a small chunk, in this view. *)
Lemma sv_modify_scp p g a s s' :
  modify_scp p g s = Ok (a, s') ->
  exists sc, scp_at s p = Some sc
    /\ forall q, sv q s' = if chunkptr_eqb q p then Some (uview (g sc)) else sv q s.
Proof.
  intros H. apply modify_scp_upd_at in H as (sc & Hsc & Hq).
  exists sc. split; [exact Hsc|].
  intros q. rewrite Hq. destruct (chunkptr_eqb q p); reflexivity.
Qed.

Lemma keeps_sv_modify_scp q p g :
  (forall c, uview (g c) = uview c) -> keeps (sv q) (modify_scp p g).
Proof.
  intros Hg s a s' H. apply sv_modify_scp in H as (sc & Hsc & Hq). rewrite Hq.
  destruct (chunkptr_eqb q p) eqn:E; [|reflexivity].
  apply chunkptr_eqb_eq in E. subst q. rewrite Hsc. simpl. rewrite Hg. reflexivity.
Qed.

Lemma keeps_sv_modify_sc q l i g :
  (forall c, uview (g c) = uview c) -> keeps (sv q) (modify_sc l i g).
Proof. exact (keeps_sv_modify_scp q (CP l i) g). Qed.

Lemma keeps_sv_modify_sc_other q l i g :
  q <> CP l i -> keeps (sv q) (modify_sc l i g).
Proof.
  intros Hne s a s' H. apply (sv_modify_scp (CP l i)) in H as (sc & Hsc & Hq).
  rewrite Hq. apply chunkptr_eqb_neq in Hne. rewrite Hne. reflexivity.
Qed.

Lemma keeps_sv_hist_add q k d : keeps (sv q) (hist_add k d).
Proof. intros s a s' H. apply hist_add_Ok in H as (h & ->). reflexivity. Qed.
#[export] Hint Resolve keeps_sv_modify_lc keeps_sv_modify_lcp keeps_sv_modify_scp
  keeps_sv_modify_sc keeps_sv_hist_add : svq.

Lemma keeps_sv_write_slot q sl v : keeps (sv q) (write_slot sl v).
Proof. unfold write_slot. svq. Qed.
#[export] Hint Resolve keeps_sv_write_slot : svq.

Lemma keeps_sv_small_free_list_splice q l i sc :
  keeps (sv q) (small_free_list_splice l i sc).
Proof. unfold small_free_list_splice. svq. Qed.

Lemma keeps_sv_free_list_push_large q p : keeps (sv q) (free_list_push_large p).
Proof. unfold free_list_push_large. svq. Qed.
#[export] Hint Resolve keeps_sv_small_free_list_splice keeps_sv_free_list_push_large : svq.

(** ** Chunks in use, chunks released *)

Lemma used_view_sv s q :
  used_view s q
  = match sv q s with
    | Some v => if has_flag (fst (fst v)) SMALL_CHUNK_USED then Some v else None
    | None => None
    end.
Proof. unfold used_view. destruct (scp_at s q); reflexivity. Qed.

Lemma used_view_same s s' q : sv q s' = sv q s -> used_view s' q = used_view s q.
Proof. intros H. rewrite !used_view_sv, H. reflexivity. Qed.

Lemma keeps_used_of_sv {A} q (m : M A) :
  keeps (sv q) m -> keeps (fun s => used_view s q) m.
Proof. intros H s a s' Hm. apply used_view_same. exact (H s a s' Hm). Qed.

(** A write of flags without [USED] to a chunk that is not in use. *)
Lemma used_view_set_flags l i X a s s' :
  modify_sc l i (set_sc_flags X) s = Ok (a, s') ->
  has_flag X SMALL_CHUNK_USED = false ->
  used_view s (CP l i) = None ->
  forall q, used_view s' q = used_view s q.
Proof.
  intros H HX Hu q. apply (sv_modify_scp (CP l i)) in H as (sc & Hsc & Hq).
  rewrite (used_view_sv s' q), Hq.
  destruct (chunkptr_eqb q (CP l i)) eqn:E.
  - apply chunkptr_eqb_eq in E. subst q. rewrite Hu. simpl. rewrite HX. reflexivity.
  - rewrite used_view_sv. reflexivity.
Qed.

Lemma map_lookup_inv {A B} (g : A -> B) : forall xs l y,
  map g xs !! l = Some y -> exists x, xs !! l = Some x /\ y = g x.
Proof.
  induction xs as [|x xs IH]; intros [|l] y; simpl; try discriminate.
  - intros [= <-]. eauto.
  - apply IH.
Qed.

Lemma small_released_iff s l i :
  small_released s (CP l i)
  <-> (lcflags s !! l = Some (Z.lor LARGE_CHUNK_INITIALIZED LARGE_CHUNK_FREE)
       \/ (lcflags s !! l = Some LARGE_CHUNK_BROKEN_FLAGS
           /\ exists v, sv (CP l i) s = Some v
                /\ fst (fst v) = Z.lor SMALL_CHUNK_INITIALIZED SMALL_CHUNK_FREE)).
Proof.
  unfold small_released, scp_at, sc_at. split.
  - intros (c & Hl & [Hf | (Hf & sc & Hi & Hsf)]).
    + left. rewrite (map_lookup _ _ _ _ Hl), Hf. reflexivity.
    + right. split; [rewrite (map_lookup _ _ _ _ Hl), Hf; reflexivity|].
      rewrite Hl, Hi. simpl. eexists. split; [reflexivity | exact Hsf].
  - intros [H | (H & v & Hv & Hf)].
    + apply map_lookup_inv in H as (c & Hl & Hf). exists c. split; [exact Hl|].
      left. symmetry. exact Hf.
    + apply map_lookup_inv in H as (c & Hl & Hc). exists c. split; [exact Hl|].
      right. split; [symmetry; exact Hc|].
      rewrite Hl in Hv. destruct (lbc c !! i) as [sc|]; [|discriminate].
      exists sc. split; [reflexivity|]. simpl in Hv. injection Hv as <-. exact Hf.
Qed.

Lemma small_released_frame s s' q :
  lcflags s' = lcflags s -> sv q s' = sv q s ->
  small_released s q -> small_released s' q.
Proof.
  destruct q as [|l i]; [intros _ _ []|]. intros Hl Hs.
  rewrite !small_released_iff. rewrite Hl, Hs. auto.
Qed.

(** ** [unbreak_large_chunk] when it is tried on every free *)

Local Abbreviation unbreak_body l :=
  (fun i : nat =>
     let! sc := read_sc l i in
     assert ((sc_flags sc =? Z.lor SMALL_CHUNK_INITIALIZED SMALL_CHUNK_FREE)
             || (sc_flags sc =? Z.lor SMALL_CHUNK_INITIALIZED
                                      SMALL_CHUNK_COALESCE_PENDING)) ;;;
     when (has_flag (sc_flags sc) SMALL_CHUNK_FREE)
          (small_free_list_splice l i sc ;;;
           modify_sc l i (set_sc_flags 0) ;;;
           modify (fun s => set_small_free_list_sz
                              (wrap64 (small_free_list_sz s - 1)) s))).

Lemma unbreak_body_lcf l i : keeps lcflags (unbreak_body l i).
Proof. cbv beta. lcf. Qed.

Lemma unbreak_body_sv_other l i l' j :
  l' <> l -> keeps (sv (CP l' j)) (unbreak_body l i).
Proof.
  intros Hne. cbv beta.
  keeps_auto ltac:(first [ reflexivity
                         | solve [eauto with svq]
                         | apply keeps_of_readonly; solve [eauto with readonly]
                         | apply keeps_sv_modify_sc_other; congruence ]).
Qed.

Lemma unbreak_body_used l i q : keeps (fun s => used_view s q) (unbreak_body l i).
Proof.
  intros s a s' H. cbv beta in H.
  apply bind_Ok in H as (sc & s0 & H1 & H). apply read_sc_Ok in H1 as [Hsc ->].
  apply bind_Ok in H as ([] & s0 & H1 & H). apply assert_Ok in H1 as [Hfl ->].
  apply when_Ok in H as [[_ H] | [_ ->]]; [|reflexivity].
  apply bind_Ok in H as ([] & s1 & H1 & H).
  assert (E1 : forall q, sv q s1 = sv q s).
  { intros q0. exact (keeps_sv_small_free_list_splice q0 l i sc _ _ _ H1). }
  apply bind_Ok in H as ([] & s2 & H2 & H). apply modify_Ok in H. subst s'.
  transitivity (used_view s2 q); [reflexivity|].
  rewrite (used_view_set_flags l i 0 _ s1 s2 H2 eq_refl).
  - apply used_view_same, E1.
  - rewrite used_view_sv, E1. unfold scp_at. rewrite Hsc. simpl.
    apply orb_true_iff in Hfl as [Hfl | Hfl]; apply Z.eqb_eq in Hfl; rewrite Hfl;
      reflexivity.
Qed.

(** The unbreak that [free_list_push] tries: it leaves the state alone, or
    turns the broken large chunk [l] into a free one; the small chunks of
    the other large chunks keep their flags, and no chunk in use changes. *)
Lemma unbreak_large_chunk_try K l s s' :
  unbreak_large_chunk K l false s = Ok (tt, s') ->
  lcflags s !! l = Some LARGE_CHUNK_BROKEN_FLAGS
  /\ (s' = s
      \/ lcflags s' = <[l := Z.lor LARGE_CHUNK_INITIALIZED LARGE_CHUNK_FREE]> (lcflags s))
  /\ (forall l' j, l' <> l -> sv (CP l' j) s' = sv (CP l' j) s)
  /\ (forall q, used_view s' q = used_view s q).
Proof.
  unfold unbreak_large_chunk. intros H.
  apply bind_Ok in H as (c & s0 & H1 & H). apply read_lc_Ok in H1 as [Hl ->].
  apply bind_Ok in H as ([] & s0 & H1 & H). apply assert_Ok in H1 as [Hf ->].
  apply Z.eqb_eq in Hf.
  split; [rewrite (map_lookup _ _ _ _ Hl), Hf; reflexivity|].
  cbn [negb andb] in H.
  destruct (small_chunks_allocated c =? 0); cbn [negb] in H.
  2:{ apply ret_Ok in H as [_ ->]. split; [left; reflexivity|]. split; reflexivity. }
  apply bind_Ok in H as ([] & s1 & H1 & H).
  assert (s1 = s) as ->.
  { revert H1. generalize s tt s1.
    change (keeps (fun s => s)
      (for_up (SMALL_CHUNKS_PER_LARGE_CHUNK K) (fun i =>
         let! sc := read_sc l i in
         assert (has_flag (sc_flags sc) SMALL_CHUNK_INITIALIZED) ;;;
         assert (negb (has_flag (sc_flags sc) SMALL_CHUNK_USED))))).
    readonly. }
  apply bind_Ok in H as ([] & s2 & H2 & H).
  assert (E1 : lcflags s2 = lcflags s).
  { revert H2. generalize s tt s2.
    change (keeps lcflags (for_up (SMALL_CHUNKS_PER_LARGE_CHUNK K) (unbreak_body l))).
    apply keeps_for_up. intros i. apply unbreak_body_lcf. }
  assert (S1 : forall l' j, l' <> l -> sv (CP l' j) s2 = sv (CP l' j) s).
  { intros l' j Hne. revert H2. generalize s tt s2.
    change (keeps (sv (CP l' j))
              (for_up (SMALL_CHUNKS_PER_LARGE_CHUNK K) (unbreak_body l))).
    apply keeps_for_up. intros i. apply unbreak_body_sv_other, Hne. }
  assert (U1 : forall q, used_view s2 q = used_view s q).
  { intros q. revert H2. generalize s tt s2.
    change (keeps (fun s => used_view s q)
              (for_up (SMALL_CHUNKS_PER_LARGE_CHUNK K) (unbreak_body l))).
    apply keeps_for_up. intros i. apply unbreak_body_used. }
  assert (S2 : forall q, sv q s' = sv q s2).
  { intros q. revert H. generalize s2 tt s'.
    change (keeps (sv q)
      (modify_lc l (set_lc_flags LARGE_CHUNK_INITIALIZED) ;;;
       free_list_push_large (CP l 0) ;;;
       modify_stats (fun t => set_large_broken_chunks
                                (wrap64 (large_broken_chunks t - 1)) t) ;;;
       hist_add 0 (-1) ;;;
       modify_stats (fun t => set_unbreak_events (wrap64 (unbreak_events t + 1)) t))).
    svq. }
  apply bind_Ok in H as ([] & s3 & H3 & H).
  apply modify_lc_lcf in H3 as (c2 & Hl2 & E2). simpl in E2.
  apply bind_Ok in H as ([] & s4 & H4 & H).
  assert (E4 : lcflags s' = lcflags s4).
  { revert H. generalize s4 tt s'. change (keeps lcflags
      (modify_stats (fun t => set_large_broken_chunks
                                (wrap64 (large_broken_chunks t - 1)) t) ;;;
       hist_add 0 (-1) ;;;
       modify_stats (fun t => set_unbreak_events (wrap64 (unbreak_events t + 1)) t))).
    lcf. }
  unfold free_list_push_large in H4.
  apply bind_Ok in H4 as (c3 & s0 & H1' & H4).
  apply read_lcp_Ok in H1' as (l3 & [= <-] & Hl3 & ->).
  apply bind_Ok in H4 as ([] & s0 & H1' & H4). apply assert_Ok in H1' as [_ ->].
  rewrite bind_gets in H4.
  apply bind_Ok in H4 as ([] & s5 & H5 & H4).
  apply modify_lc_lcf in H5 as (c4 & Hl4 & E5). simpl in E5.
  rewrite !bind_modify in H4.
  apply modify_lc_lcf in H4 as (c5 & Hl5 & E6). simpl in E6.
  split; [|split].
  - right. rewrite E4, E6, E5, E2, E1. rewrite !list_insert_insert_eq. reflexivity.
  - intros l' j Hne. rewrite S2. apply S1, Hne.
  - intros q. rewrite (used_view_same _ _ _ (S2 q)). apply U1.
Qed.

(** ** Released chunks stay released *)

Lemma released_modify_scp_gen p g a s s' q :
  modify_scp p g s = Ok (a, s') ->
  (forall sc, scp_at s p = Some sc ->
     sc_flags sc = Z.lor SMALL_CHUNK_INITIALIZED SMALL_CHUNK_FREE ->
     sc_flags (g sc) = Z.lor SMALL_CHUNK_INITIALIZED SMALL_CHUNK_FREE) ->
  small_released s q -> small_released s' q.
Proof.
  intros H Hg HP. pose proof (keeps_lcf_modify_scp _ _ _ _ _ H) as El.
  apply sv_modify_scp in H as (sc & Hsc & Hq).
  destruct q as [|lq iq]; [destruct HP|].
  apply small_released_iff in HP. apply small_released_iff. rewrite El.
  destruct HP as [HP | (HP & v & Hv & Hf)]; [left; exact HP|].
  right. split; [exact HP|]. rewrite Hq.
  destruct (chunkptr_eqb (CP lq iq) p) eqn:E; [|eauto].
  apply chunkptr_eqb_eq in E. subst p.
  eexists. split; [reflexivity|]. simpl. apply (Hg sc Hsc).
  rewrite Hsc in Hv. simpl in Hv. injection Hv as <-. exact Hf.
Qed.

Lemma pres_released_of_keeps {A} q (m : M A) :
  keeps lcflags m -> keeps (sv q) m -> preserves (fun s => small_released s q) m.
Proof.
  intros H1 H2 s a s' HP Hm.
  eapply small_released_frame; [exact (H1 _ _ _ Hm) | exact (H2 _ _ _ Hm) | exact HP].
Qed.

Lemma released_set_free l i q :
  preserves (fun s => small_released s q)
    (modify_sc l i (set_sc_flags (Z.lor SMALL_CHUNK_INITIALIZED SMALL_CHUNK_FREE))).
Proof.
  intros s a s' HP H.
  eapply (released_modify_scp_gen (CP l i)); [exact H | | exact HP]. reflexivity.
Qed.

Lemma released_unbreak K l q :
  preserves (fun s => small_released s q) (unbreak_large_chunk K l false).
Proof.
  intros s [] s' HP H.
  apply unbreak_large_chunk_try in H as (Hb & [-> | El] & Hs & _); [exact HP|].
  destruct q as [|lq iq]; [destruct HP|].
  apply small_released_iff in HP. apply small_released_iff. rewrite El.
  destruct (decide (lq = l)) as [->|Hne].
  - left. apply list_lookup_insert_eq. eapply lookup_lt_Some; exact Hb.
  - rewrite list_lookup_insert_ne by congruence. rewrite (Hs lq iq Hne). exact HP.
Qed.

(** ** [free_list_push] of a small chunk *)

Lemma released_free_list_push K p q :
  preserves (fun s => small_released s q) (free_list_push K p SMALL_CHUNK true).
Proof.
  unfold free_list_push. destruct p as [|l i]; cbv beta iota.
  - apply pres_bind; [apply pres_assert | intros _; apply pres_fault].
  - keeps_auto ltac:(first [ apply released_set_free
                           | apply released_unbreak
                           | apply pres_released_of_keeps; [solve [lcf] | solve [svq]] ]).
Qed.

Lemma used_inv_of_sv {A} q p u (m : M A) :
  (forall q0, keeps (sv q0) m) ->
  preserves (fun s => used_view s q = u /\ used_view s p = None) m.
Proof.
  intros H s a s' [H1 H2] Hm.
  rewrite (used_view_same _ _ _ (H q _ _ _ Hm)), (used_view_same _ _ _ (H p _ _ _ Hm)).
  auto.
Qed.

Lemma used_inv_set_flags l i X q u :
  has_flag X SMALL_CHUNK_USED = false ->
  preserves (fun s => used_view s q = u /\ used_view s (CP l i) = None)
    (modify_sc l i (set_sc_flags X)).
Proof.
  intros HX s a s' [H1 H2] Hm.
  rewrite !(used_view_set_flags l i X a s s' Hm HX H2). auto.
Qed.

Lemma used_inv_unbreak K l q p u :
  preserves (fun s => used_view s q = u /\ used_view s p = None)
    (unbreak_large_chunk K l false).
Proof.
  intros s [] s' [H1 H2] Hm.
  apply unbreak_large_chunk_try in Hm as (_ & _ & _ & Hu). rewrite !Hu. auto.
Qed.

(** No chunk in use changes when a small chunk is pushed. *)
Lemma used_free_list_push K p q :
  keeps (fun s => used_view s q) (free_list_push K p SMALL_CHUNK true).
Proof.
  intros s a s' H. unfold free_list_push in H. destruct p as [|l i]; cbv beta iota in H.
  { apply bind_Ok in H as (? & ? & _ & H). discriminate. }
  apply bind_Ok in H as ([] & s0 & H1 & H). apply assert_Ok in H1 as [_ ->].
  apply bind_Ok in H as (sc & s0 & H1 & H). apply read_sc_Ok in H1 as [Hsc ->].
  apply bind_Ok in H as ([] & s0 & H1 & H). apply assert_Ok in H1 as [Hf ->].
  apply Z.eqb_eq in Hf.
  remember (used_view s q) as u eqn:Eu.
  assert (HI : used_view s q = u /\ used_view s (CP l i) = None).
  { split; [symmetry; exact Eu|]. unfold used_view, scp_at. rewrite Hsc, Hf. reflexivity. }
  match type of H with
  | ?m s = _ =>
      assert (Hp : preserves (fun s => used_view s q = u /\ used_view s (CP l i) = None) m)
  end.
  { keeps_auto ltac:(first [ apply used_inv_set_flags; reflexivity
                           | apply used_inv_unbreak
                           | apply used_inv_of_sv; intros ?; solve [svq] ]). }
  destruct (Hp _ _ _ HI H) as [E _]. exact E.
Qed.

(** The chunk pushed is released. *)
Lemma free_list_push_small_released K p a s s' :
  free_list_push K p SMALL_CHUNK true s = Ok (a, s') -> small_released s' p.
Proof.
  unfold free_list_push. destruct p as [|l i]; cbv beta iota; intros H.
  { apply bind_Ok in H as (? & ? & _ & H). discriminate. }
  repeat match type of H with
         | bind (modify_sc _ _ (set_sc_flags _)) _ _ = _ => fail 1
         | bind _ _ _ = _ => apply bind_Ok in H as (? & ? & _ & H); cbv beta in H
         end.
  apply bind_Ok in H as ([] & sB & H1 & H).
  apply (sv_modify_scp (CP l i)) in H1 as (sc & Hsc & Hq).
  change (unbreak_large_chunk K l false sB = Ok (a, s')) in H. destruct a.
  apply unbreak_large_chunk_try in H as (Hb & [-> | El] & _).
  - apply small_released_iff. right. split; [exact Hb|].
    rewrite Hq, chunkptr_eqb_refl. eexists. split; reflexivity.
  - apply small_released_iff. left. rewrite El.
    apply list_lookup_insert_eq. eapply lookup_lt_Some; exact Hb.
Qed.

(** ** The body chunks of a small item *)

Lemma small_body_list_back s s' :
  (forall q v, used_view s' q = Some v -> used_view s q = Some v) ->
  forall B p, small_body_list s' p B -> small_body_list s p B.
Proof.
  intros Hb. induction B as [|q B IH]; intros p; simpl; [auto|].
  intros (-> & sc & Hsc & Hf & HB). split; [reflexivity|].
  assert (Hu : used_view s' q = Some (uview sc)).
  { unfold used_view. rewrite Hsc, Hf. reflexivity. }
  apply Hb in Hu. unfold used_view in Hu.
  destruct (scp_at s q) as [sc0|]; [|discriminate].
  destruct (has_flag (sc_flags sc0) SMALL_CHUNK_USED); [|discriminate].
  injection Hu as E1 _ E3. exists sc0. split; [reflexivity|].
  split; [congruence|]. rewrite E3. apply IH, HB.
Qed.

(** A chunk in use loses its [USED] flag: what was released stays so, and no
    other chunk in use changes. *)
Lemma release_clear_used p X a s s' sc :
  modify_scp p (set_sc_flags X) s = Ok (a, s') ->
  scp_at s p = Some sc ->
  has_flag (sc_flags sc) SMALL_CHUNK_USED = true ->
  has_flag X SMALL_CHUNK_USED = false ->
  (forall q, small_released s q -> small_released s' q)
  /\ (forall q v, used_view s' q = Some v -> used_view s q = Some v).
Proof.
  intros H Hsc Hu HX. split.
  - intros q. apply (released_modify_scp_gen _ _ _ _ _ _ H).
    intros sc0 Hsc0 Hf. rewrite Hsc in Hsc0. injection Hsc0 as <-.
    rewrite Hf in Hu. discriminate.
  - intros q v. apply sv_modify_scp in H as (sc0 & _ & Hq).
    rewrite (used_view_sv s' q), Hq.
    destruct (chunkptr_eqb q p).
    + simpl. rewrite HX. discriminate.
    + rewrite <- used_view_sv. auto.
Qed.

Lemma item_free_small_bodies_inv K : forall fuel p acc s n s',
  item_free_small_bodies K fuel p acc s = Ok (n, s') ->
  exists B,
    small_body_list s p B
    /\ wrap64 n = wrap64 (acc + Z.of_nat (length B))
    /\ Forall (small_released s') B
    /\ (forall q, small_released s q -> small_released s' q)
    /\ (forall q v, used_view s' q = Some v -> used_view s q = Some v).
Proof.
  assert (Hnil : forall acc s n s', ret acc s = Ok (n, s') ->
    exists B : list chunkptr,
      small_body_list s NULL_CHUNKPTR B
      /\ wrap64 n = wrap64 (acc + Z.of_nat (length B))
      /\ Forall (small_released s') B
      /\ (forall q, small_released s q -> small_released s' q)
      /\ (forall q v, used_view s' q = Some v -> used_view s q = Some v)).
  { intros acc s n s' H. apply ret_Ok in H as [-> ->]. exists []. simpl.
    split; [reflexivity|]. rewrite Z.add_0_r. split; [reflexivity|].
    split; [apply Forall_nil; exact I|]. auto. }
  induction fuel as [|fuel IH]; intros p acc s n s' H.
  { destruct p; [exact (Hnil _ _ _ _ H) | discriminate]. }
  destruct p as [|l i]; [exact (Hnil _ _ _ _ H)|].
  cbn [item_free_small_bodies] in H.
  apply bind_Ok in H as (c & s0 & H1 & H).
  apply read_scp_Ok in H1 as (l0 & i0 & E & Hsc & ->). injection E as <- <-.
  apply bind_Ok in H as ([] & s0 & H1 & H). apply assert_Ok in H1 as [Hf ->].
  apply Z.eqb_eq in Hf.
  apply bind_Ok in H as ([] & sA & HA & H).
  apply bind_Ok in H as ([] & s2 & H2 & H).
  destruct (release_clear_used _ _ _ _ _ c HA Hsc) as [RA UA];
    [rewrite Hf; reflexivity | rewrite Hf; reflexivity |].
  pose proof (free_list_push_small_released _ _ _ _ _ H2) as Rp.
  pose proof (released_free_list_push K (CP l i)) as R2.
  pose proof (used_free_list_push K (CP l i)) as U2.
  apply IH in H as (B & HB & Hn & HF & HR & HU).
  assert (Hback : forall q v, used_view s2 q = Some v -> used_view s q = Some v).
  { intros q v Hv. apply UA. rewrite <- (U2 q _ _ _ H2). exact Hv. }
  exists (CP l i :: B). split; [|split; [|split; [|split]]].
  - simpl. split; [reflexivity|]. exists c. split; [exact Hsc|]. split; [exact Hf|].
    eapply small_body_list_back; [exact Hback | exact HB].
  - rewrite Hn. rewrite wrap64_idemp_add. f_equal. simpl length. lia.
  - apply Forall_cons. split; [apply HR, Rp | exact HF].
  - intros q Hq. apply HR. apply (R2 q _ _ _ (RA q Hq) H2).
  - intros q v Hv. apply Hback, HU, Hv.
Qed.

(** ** [item_free] on a small item *)

Lemma item_free_small_inv K fuel it s h s' :
  hdr_at s it = Some h -> is_item_large_chunk K h = false ->
  item_free K fuel it s = Ok (tt, s') ->
  item_freed K s s' it h.
Proof.
  intros Hh Hlg H. unfold item_free in H.
  rewrite (bind_read_hdr _ _ _ _ Hh) in H. cbv zeta in H. rewrite Hlg in H.
  do 5 (apply bind_Ok in H as ([] & s0 & H1 & H); apply assert_Ok in H1 as [_ ->]).
  apply bind_Ok in H as (cf & s5 & H & Hcf).
  apply assert_Ok in Hcf as [Hcf ->]. apply Z.eqb_eq in Hcf.
  apply bind_Ok in H as (freed & sa & Hb & H).
  apply item_free_small_bodies_inv in Hb as (B & HB & Hn & HF & _ & _).
  unfold modify_stats at 1 in H. rewrite bind_modify in H.
  apply bind_Ok in H as (c & s0 & H1 & H).
  apply read_scp_Ok in H1 as (l & i & -> & Hsc & ->).
  apply bind_Ok in H as ([] & s0 & H1 & H). apply assert_Ok in H1 as [Hf ->].
  apply Z.eqb_eq in Hf.
  apply bind_Ok in H as ([] & sb & H1 & H).
  apply bind_Ok in H as ([] & sc & H2 & H).
  apply bind_Ok in H as ([] & sd & H3 & H).
  unfold modify_stats in H. rewrite bind_modify in H. apply ret_Ok in H as [-> ->].
  assert (R1 : forall q, small_released sa q -> small_released sb q).
  { intros q. apply (released_modify_scp_gen _ _ _ _ _ _ H1).
    intros sc0 Hsc0 Hf0. change (scp_at sa (CP l i) = Some sc0) in Hsc0.
    change (sc_at sa l i = Some c) in Hsc. unfold scp_at in Hsc0.
    rewrite Hsc in Hsc0. injection Hsc0 as <-. rewrite Hf in Hf0. discriminate. }
  assert (R2 : forall q, small_released sb q -> small_released sc q).
  { intros q. apply (released_modify_scp_gen _ _ _ _ _ _ H2). intros sc0 _ Hf0. exact Hf0. }
  pose proof (released_free_list_push K (CP l i)) as R3.
  pose proof (free_list_push_small_released _ _ _ _ _ H3) as Rp.
  unfold item_freed. rewrite Hlg. exists B.
  split; [exact HB|]. split.
  { rewrite <- Hcf. apply wrap64_succ_cong. rewrite Hn. reflexivity. }
  apply Forall_cons. split; [exact Rp|].
  eapply Forall_impl; [exact HF|]. intros q Hq.
  exact (R3 q _ _ _ (R2 q (R1 q Hq)) H3).
Qed.

(** * Dropping the last reference *)

Section DerefFree.
Context (K : constants).

(** When [item_free] returns, the chunks of the item are back on the free
    lists. *)
Lemma item_free_inv fuel it s h s' :
  hdr_at s it = Some h -> item_free K fuel it s = Ok (tt, s') -> item_freed K s s' it h.
Proof.
  intros Hh H. destruct (is_item_large_chunk K h) eqn:E.
  - eapply item_free_large_inv; eauto.
  - eapply item_free_small_inv; eauto.
Qed.


End DerefFree.

(** ** The last reference dropped, on the scenario configuration *)

Lemma run_alloc_a_deref :
  let s := state_after run_alloc_a in
  hdr_at s item_a = Some (header_of s item_a)
  /\ has_flag (it_flags (header_of s item_a)) ITEM_VALID = true
  /\ do_item_deref scenario 16 item_a s = Ok (tt, state_after run_alloc_deref_a).
Proof.
  intros s. split; [apply hdr_at_header_of; vm_compute; reflexivity|].
  split; vm_compute; reflexivity.
Qed.

Lemma run_alloc_large_deref :
  let s := state_after run_alloc_large in
  hdr_at s item_a = Some (header_of s item_a)
  /\ has_flag (it_flags (header_of s item_a)) ITEM_VALID = true
  /\ do_item_deref scenario 16 item_a s = Ok (tt, state_after run_alloc_deref_large).
Proof.
  intros s. split; [apply hdr_at_header_of; vm_compute; reflexivity|].
  split; vm_compute; reflexivity.
Qed.

(** A small item that was freed: its title is released. *)
Lemma item_freed_small K s s' it h :
  is_item_large_chunk K h = false -> item_freed K s s' it h -> small_released s' it.
Proof.
  intros Hb H. unfold item_freed in H. rewrite Hb in H.
  destruct H as (B & _ & _ & HF). exact (Forall_inv HF).
Qed.

(** A large item that was freed: it heads the large free list, which has
    grown by the chunks of the item. *)
Lemma item_freed_large K s s' it h :
  is_item_large_chunk K h = true -> item_freed K s s' it h ->
  large_free_list s' = it
  /\ large_free_list_sz s' = wrap64 (large_free_list_sz s + chunks_in_item K h).
Proof.
  intros Hb H. unfold item_freed in H. rewrite Hb in H.
  destruct H as (lt & B & -> & _ & _ & Hcnt & Hseg & Hsz & _).
  destruct Hseg as (Ehead & _). split; [exact Ehead|].
  rewrite Hsz, <- Hcnt. rewrite <- Z.add_assoc.
  unfold wrap64. rewrite Zplus_mod_idemp_r. reflexivity.
Qed.


